(** * Praxis workflow engine: DAG execution subsystem

    A shallow embedding of the parts of the engine whose specified behaviour
    is verified here: the artifact command handler and its middleware chain
    ([src/core/artifacts], [src/core/artifact_manager.py]), the execution
    context ([src/core/execution_context.py]), the loop strategy
    ([src/core/loop_execution_strategy.py]) and the DAG executor
    ([src/core/dag_executor.py]).

    Python objects that are mutated through several references live in an
    explicit store; coroutines are run to completion as state-passing
    functions; exceptions are values of the type [exn], raised by returning
    them in a sum. *)

From stdpp Require Import gmap strings list fin_maps pretty.
From Stdlib Require Import ZArith QArith Lia.

#[local] Set Warnings "-register-all".
Open Scope Z_scope.
Open Scope string_scope.

(** * Python values and exceptions *)

Module Py.

(** Addresses of mutable objects. *)
Definition loc := positive.

(** The values that pipelines store in contexts, resume payloads and
    artifacts.  [VRef] is a reference to a mutable object of the store. *)
Inductive pyval : Type :=
| VNone
| VBool (b : bool)
| VInt (n : Z)
| VStr (s : string)
| VBytes (b : list Byte.byte)
| VList (items : list pyval)
| VDict (entries : list (string * pyval))
| VRef (l : loc).

(** Python truthiness ([if v:], [not v]). An object reference is truthy. *)
Definition truthy (v : pyval) : bool :=
  match v with
  | VNone => false
  | VBool b => b
  | VInt n => negb (Z.eqb n 0)
  | VStr s => negb (String.eqb s "")
  | VBytes b => match b with [] => false | _ => true end
  | VList l => match l with [] => false | _ => true end
  | VDict d => match d with [] => false | _ => true end
  | VRef _ => true
  end.

(** Truthiness of a string and of an optional string ([None] is falsy). *)
Definition str_truthy (s : string) : bool := negb (String.eqb s "").
Definition opt_truthy (s : option string) : bool :=
  match s with Some x => str_truthy x | None => false end.

(** [d.get(key)] on a dict literal: the last binding of [key] wins when the
    association list was built by successive assignments at its head. *)
Fixpoint assoc_get (key : string) (d : list (string * pyval)) : option pyval :=
  match d with
  | [] => None
  | (k, v) :: rest => if String.eqb k key then Some v else assoc_get key rest
  end.

(** Exceptions.  Every class below derives from [Exception]; the classes of
    [src/core/errors.py] are declared as the executor's [except] clauses
    name them. *)
Inductive exn : Type :=
| ValueError (msg : string)
| RuntimeError (msg : string)
| KeyError (key : string)
| TypeError (msg : string)
| OSError (msg : string)
| PluginInputError (msg : string)
| RetryablePluginError (msg : string)
| PluginError (msg : string)
| PluginSuspendedException (msg : string) (suspend_info : pyval)
| PipelineSuspendedException (checkpoint_id : string)
    (suspended_steps : list string) (suspend_info : pyval)
| DAGExecutionError (step_name : string) (error : exn)
| PipelineExecutionError (normal_error : option exn) (finally_errors : list exn)
| MiddlewareError (message handler_name command_id : string)
| GenericException (msg : string)
| FileNotFoundError (msg : string)
| NotADirectoryError (msg : string).

(** [sep.join(l)] *)
Fixpoint str_join (sep : string) (l : list string) : string :=
  match l with
  | [] => ""
  | [x] => x
  | x :: rest => x ++ sep ++ str_join sep rest
  end.

(** [repr(s)] of a string without quotes, backslashes or control
    characters. *)
Definition py_quote (s : string) : string := "'" ++ s ++ "'".

(** [str(e)].  [DAGExecutionError] and [PipelineExecutionError] build their
    message in [__init__]; [KeyError] shows the key as [repr] does; the
    executor gives [PipelineSuspendedException] the message that names the
    suspended steps. *)
Fixpoint exn_str (e : exn) : string :=
  match e with
  | ValueError m | RuntimeError m | TypeError m | OSError m
  | PluginInputError m | RetryablePluginError m | PluginError m
  | GenericException m | FileNotFoundError m | NotADirectoryError m => m
  | KeyError k => py_quote k
  | PluginSuspendedException m _ => m
  | PipelineSuspendedException _ steps _ =>
      "Pipeline suspended at steps: " ++ str_join ", " steps
  | DAGExecutionError s err => "Step '" ++ s ++ "' failed: " ++ exn_str err
  | PipelineExecutionError normal_error finally_errors =>
      str_join "; "
        (app
           match normal_error with
           | Some err => ["Normal phase failed: " ++ exn_str err]
           | None => []
           end
           match finally_errors with
            | [] => []
            | _ =>
                ("Finally phase had " ++ pretty (length finally_errors)
                   ++ " error(s)")
                  :: (fix messages (i : nat) (errs : list exn) : list string :=
                        match errs with
                        | [] => []
                        | err :: rest =>
                            ("  Finally error " ++ pretty i ++ ": " ++ exn_str err)
                              :: messages (S i) rest
                        end) 1%nat finally_errors
            end)
  | MiddlewareError m h c => h ++ ": " ++ m ++ " (command: " ++ c ++ ")"
  end.

(** [isinstance(e, OSError)] *)
Definition is_OSError (e : exn) : bool :=
  match e with
  | OSError _ | FileNotFoundError _ | NotADirectoryError _ => true
  | _ => false
  end.

(** The result of a call: a value, or a raised exception. *)
Definition result (A : Type) : Type := (exn + A)%type.
Definition ret {A} (a : A) : result A := inr a.
Definition raise {A} (e : exn) : result A := inl e.

#[global] Instance result_bind : MBind result :=
  fun A B f m => match m with inl e => inl e | inr a => f a end.
#[global] Instance result_ret : MRet result := fun A a => inr a.

(** Sequences: [len(v)], the elements that iterating over [v] yields, and
    [v[i]] for an integer index.  A dict iterates over its keys and has no
    integer keys here. *)
Definition py_len (v : pyval) : result nat :=
  match v with
  | VStr s => ret (String.length s)
  | VBytes b => ret (length b)
  | VList l => ret (length l)
  | VDict d => ret (length d)
  | _ => raise (TypeError "object has no len()")
  end.

Definition py_items (v : pyval) : result (list pyval) :=
  match v with
  | VStr s => ret (map (fun a => VStr (String a EmptyString)) (String.list_ascii_of_string s))
  | VBytes b => ret (map (fun x => VInt (Z.of_N (Byte.to_N x))) b)
  | VList l => ret l
  | VDict d => ret (map (fun kv => VStr (fst kv)) d)
  | _ => raise (TypeError "object is not iterable")
  end.

Definition py_index (v : pyval) (i : nat) : result pyval :=
  match v with
  | VDict _ => raise (KeyError "integer key")
  | _ =>
      elems ← py_items v;
      match elems !! i with
      | Some x => ret x
      | None => raise (GenericException "IndexError")
      end
  end.

(** [enumerate(l)] and [list(range(n))] *)
Definition enumerate {A} (l : list A) : list (nat * A) := zip (seq 0 (length l)) l.
Definition py_range (n : nat) : pyval := VList (map (fun i => VInt (Z.of_nat i)) (seq 0 n)).

(** [key in v] and [v[key]] for a string key. *)
Definition is_substring (key s : string) : bool :=
  match String.index 0 key s with Some _ => true | None => false end.

Definition py_in (key : string) (v : pyval) : result bool :=
  match v with
  | VDict d => ret (match assoc_get key d with Some _ => true | None => false end)
  | VList l =>
      ret (existsb (fun x => match x with VStr s => String.eqb s key | _ => false end) l)
  | VStr s => ret (is_substring key s)
  | _ => raise (TypeError "argument is not iterable")
  end.

Definition py_subscript (v : pyval) (key : string) : result pyval :=
  match v with
  | VDict d =>
      match assoc_get key d with
      | Some x => ret x
      | None => raise (KeyError key)
      end
  | _ => raise (TypeError "indices must be integers")
  end.

(** [str(type(v))]; a reference stands for an instance of [object]. *)
Definition py_type_str (v : pyval) : string :=
  match v with
  | VNone => "<class 'NoneType'>"
  | VBool _ => "<class 'bool'>"
  | VInt _ => "<class 'int'>"
  | VStr _ => "<class 'str'>"
  | VBytes _ => "<class 'bytes'>"
  | VList _ => "<class 'list'>"
  | VDict _ => "<class 'dict'>"
  | VRef _ => "<class 'object'>"
  end.

(** [str(b)] for a [bool] *)
Definition py_bool_str (b : bool) : string := if b then "True" else "False".

(** The line feed. *)
Definition nl : string := String (Ascii.ascii_of_nat 10) EmptyString.

End Py.
Export Py.

(** * Artifact commands, middleware and the command handler *)

Module Artifacts.

(** [src/core/artifacts/commands.py] *)
Inductive CommandStatus := PENDING | IN_PROGRESS | COMPLETED | FAILED.
Inductive ArtifactOperation := SAVE | DELETE | UPDATE.

Definition CommandStatus_eqb (a b : CommandStatus) : bool :=
  match a, b with
  | PENDING, PENDING | IN_PROGRESS, IN_PROGRESS
  | COMPLETED, COMPLETED | FAILED, FAILED => true
  | _, _ => false
  end.

Record ArtifactCommand := mkCommand {
  operation : ArtifactOperation;
  task_id : string;
  filename : string;
  content : pyval;
  content_type : string;
  id : string;
  subdir : option string;
  metadata : list (string * pyval);
  status : CommandStatus;
  error : option string
}.

Definition with_status (self : ArtifactCommand) (st : CommandStatus)
    (err : option string) : ArtifactCommand :=
  {| operation := operation self; task_id := task_id self;
     filename := filename self; content := content self;
     content_type := content_type self; id := id self;
     subdir := subdir self; metadata := metadata self;
     status := st; error := err |}.

(** ** Paths ([pathlib.PurePosixPath])

    A path is the list of its parts, the root first when it is absolute.
    Parsing a string splits it at the slashes and drops the empty parts and
    the parts ["."]; a part [".."] is kept. *)
Definition Path := list string.

Definition slash : Ascii.ascii := Ascii.ascii_of_nat 47.

Fixpoint split_slash (s current : string) : list string :=
  match s with
  | EmptyString => [current]
  | String c rest =>
      if Ascii.eqb c slash then current :: split_slash rest ""
      else split_slash rest (current ++ String c EmptyString)
  end.

Definition is_name (part : string) : bool :=
  negb (String.eqb part "") && negb (String.eqb part ".").

Definition names_of (s : string) : list string :=
  List.filter is_name (split_slash s "").

Fixpoint leading_slashes (s : string) : nat :=
  match s with
  | String c rest => if Ascii.eqb c slash then S (leading_slashes rest) else O
  | EmptyString => O
  end.

(** The root of a path given as a string: none, ["/"], or ["//"] for
    exactly two leading slashes. *)
Definition root_of (s : string) : option string :=
  match leading_slashes s with
  | O => None
  | 2%nat => Some "//"
  | _ => Some "/"
  end.

Definition is_root (part : string) : bool :=
  String.eqb part "/" || String.eqb part "//".

(** [Path(s)] *)
Definition PurePath (s : string) : Path :=
  match root_of s with
  | Some root => root :: names_of s
  | None => names_of s
  end.

(** [p / s]: an absolute [s] replaces [p]. *)
Definition joinpath (p : Path) (s : string) : Path :=
  match root_of s with
  | Some root => root :: names_of s
  | None => (p ++ names_of s)%list
  end.

(** [str(p)] *)
Definition path_str (p : Path) : string :=
  match p with
  | [] => "."
  | part :: rest => if is_root part then part ++ str_join "/" rest else str_join "/" p
  end.

(** [p.parent] *)
Definition parent (p : Path) : Path :=
  match p with
  | [part] => if is_root part then p else []
  | _ => removelast p
  end.

(** [p.name] *)
Definition path_name (p : Path) : string :=
  match last p with
  | Some part => if is_root part then "" else part
  | None => ""
  end.

(** The four default handlers of [ArtifactCommandHandler], by the name given
    to [create_middleware_handler]. *)
Inductive Handler :=
| validate_command | prepare_directories | save_to_disk | record_command.

Definition handler_name (h : Handler) : string :=
  match h with
  | validate_command => "validate_command"
  | prepare_directories => "prepare_directories"
  | save_to_disk => "save_to_disk"
  | record_command => "record_command"
  end.

(** [ArtifactCommandHandler]: its middleware's handler list and the command
    history. *)
Record ArtifactCommandHandler := mkHandler {
  base_dir : string;
  handlers : list Handler;
  command_history : list ArtifactCommand
}.

Definition push_history (self : ArtifactCommandHandler) (c : ArtifactCommand) :=
  {| base_dir := base_dir self; handlers := handlers self;
     command_history := (command_history self ++ [c])%list |}.

(** Two records of the same artifact: equal up to status and error. *)
Definition same_artifact (c c' : ArtifactCommand) : Prop :=
  id c' = id c /\ task_id c' = task_id c /\ filename c' = filename c /\
  content c' = content c /\ subdir c' = subdir c.

Section Disk.
(** The file system: [Path.mkdir(parents=True, exist_ok=True)] may raise,
    opening and writing a file may raise, and [Path.exists()] answers. *)
Variable FS : Type.
Variable mkdir : FS -> Path -> FS * option exn.
Variable write_file : FS -> Path -> pyval -> FS * option exn.
Variable path_exists : FS -> Path -> bool.

Definition World : Type := (FS * ArtifactCommandHandler)%type.

Definition _validate_command_handler (w : World) (command : ArtifactCommand)
    : World * result (option ArtifactCommand) :=
  if negb (str_truthy (task_id command)) || negb (str_truthy (filename command))
  then (w, raise (ValueError "Command must have task_id and filename"))
  else (w, ret (Some (with_status command IN_PROGRESS None))).

Definition _prepare_directories_handler (w : World) (command : ArtifactCommand)
    : World * result (option ArtifactCommand) :=
  let '(fs, self) := w in
  let task_dir := joinpath (PurePath (base_dir self)) (task_id command) in
  let task_dir :=
    if opt_truthy (subdir command)
    then joinpath task_dir (default "" (subdir command)) else task_dir in
  match mkdir fs task_dir with
  | (fs', Some e) => ((fs', self), raise e)
  | (fs', None) => ((fs', self), ret (Some command))
  end.

Definition _get_artifact_path (self : ArtifactCommandHandler)
    (command : ArtifactCommand) : Path :=
  let path := joinpath (PurePath (base_dir self)) (task_id command) in
  let path :=
    if opt_truthy (subdir command)
    then joinpath path (default "" (subdir command)) else path in
  joinpath path (filename command).

(** The error that [_save_to_disk_handler] records when the write raised
    [e]: [FileNotFoundError] has a clause of its own, which says where the
    file was to go and whether its directory exists. *)
Definition save_error (fs : FS) (file_path : Path) (e : exn) : string :=
  match e with
  | FileNotFoundError _ =>
      "FileNotFoundError: " ++ path_str file_path ++ ". Parent dir exists: "
        ++ py_bool_str (path_exists fs (parent file_path))
  | _ => exn_str e
  end.

Definition _save_to_disk_handler (w : World) (command : ArtifactCommand)
    : World * result (option ArtifactCommand) :=
  let '(fs, self) := w in
  let file_path := _get_artifact_path self command in
  match content command with
  | VDict _ | VList _ | VStr _ | VBytes _ =>
      match write_file fs file_path (content command) with
      | (fs', None) => ((fs', self), ret (Some (with_status command COMPLETED None)))
      | (fs', Some e) =>
          ((fs', self),
           ret (Some (with_status command FAILED (Some (save_error fs' file_path e)))))
      end
  | _ =>
      (w, ret (Some (with_status command FAILED
                       (Some ("Unsupported content type: "
                                ++ py_type_str (content command))))))
  end.

Definition _record_command_handler (w : World) (command : ArtifactCommand)
    : World * result (option ArtifactCommand) :=
  let '(fs, self) := w in
  ((fs, {| base_dir := base_dir self; handlers := handlers self;
           command_history := (command_history self ++ [command])%list |}),
   ret (Some command)).

(** The wrapper installed by [create_middleware_handler]: any exception of
    the method becomes a [MiddlewareError] naming the handler. *)
Definition wrapped_handler (h : Handler) (w : World) (command : ArtifactCommand)
    : World * result (option ArtifactCommand) :=
  let r :=
    match h with
    | validate_command => _validate_command_handler w command
    | prepare_directories => _prepare_directories_handler w command
    | save_to_disk => _save_to_disk_handler w command
    | record_command => _record_command_handler w command
    end in
  match r with
  | (w', inl e) => (w', raise (MiddlewareError (exn_str e) (handler_name h) (id command)))
  | ok => ok
  end.

(** [ArtifactMiddleware.execute]: the handlers in sequence; [None] ends the
    chain. *)
Fixpoint run_chain (hs : list Handler) (w : World)
    (current_command : option ArtifactCommand)
    : World * result (option ArtifactCommand) :=
  match hs with
  | [] => (w, ret current_command)
  | handler :: rest =>
      match current_command with
      | None => (w, ret None)
      | Some c =>
          match wrapped_handler handler w c with
          | (w', inl e) => (w', raise e)
          | (w', inr c') => run_chain rest w' c'
          end
      end
  end.

Definition middleware_execute (w : World) (command : ArtifactCommand)
    : World * result (option ArtifactCommand) :=
  match run_chain (handlers (snd w)) w (Some command) with
  | (w', inl (MiddlewareError m h c)) => (w', raise (MiddlewareError m h c))
  | (w', inl e) =>
      (w', raise (MiddlewareError (exn_str e) "middleware_chain" (id command)))
  | ok => ok
  end.

(** [ArtifactCommandHandler.setup_default_handlers] *)
Definition default_chain : list Handler :=
  [validate_command; prepare_directories; save_to_disk; record_command].

Definition setup_default_handlers (self : ArtifactCommandHandler)
    : ArtifactCommandHandler :=
  {| base_dir := base_dir self;
     handlers := (handlers self ++ default_chain)%list;
     command_history := command_history self |}.

(** [ArtifactCommandHandler.__init__] *)
Definition ArtifactCommandHandler_init (base : string) : ArtifactCommandHandler :=
  setup_default_handlers
    {| base_dir := base; handlers := []; command_history := [] |}.

(** [ArtifactCommandHandler.execute] *)
Definition handler_execute (w : World) (command : ArtifactCommand)
    : World * ArtifactCommand :=
  match middleware_execute w command with
  | (w', inr None) =>
      (w', with_status command FAILED (Some "Command execution terminated"))
  | (w', inr (Some r)) => (w', r)
  | (w', inl (MiddlewareError m h c)) =>
      (w', with_status command FAILED (Some (exn_str (MiddlewareError m h c))))
  | (w', inl e) =>
      (w', with_status command FAILED (Some ("Unexpected error: " ++ exn_str e)))
  end.

Definition get_task_artifacts (self : ArtifactCommandHandler) (tid : string)
    : list ArtifactCommand :=
  filter (fun cmd => task_id cmd = tid) (command_history self).

(** [ArtifactManager]: the manager owns one command handler; the locks and
    the container play no part in saving. *)
Definition ArtifactManager_init (base : string) : ArtifactCommandHandler :=
  let command_handler := ArtifactCommandHandler_init base in
  setup_default_handlers command_handler.

Definition _get_content_type (c : pyval) : string :=
  match c with
  | VDict _ | VList _ => "json"
  | VStr _ => "text"
  | VBytes _ => "binary"
  | _ => "unknown"
  end.

(** [ArtifactManager.save_artifact]; [uuid] is the identifier that [uuid4]
    draws for the new command. *)
Definition save_artifact (w : World) (uuid tid fname : string) (c : pyval)
    (sub : option string) (meta : list (string * pyval))
    : World * result ArtifactCommand :=
  let command :=
    {| operation := SAVE; task_id := tid; filename := fname; content := c;
       content_type := _get_content_type c; id := uuid; subdir := sub;
       metadata := meta; status := PENDING; error := None |} in
  let '(w', r) := handler_execute w command in
  if CommandStatus_eqb (status r) FAILED
  then (w', raise (RuntimeError
                     ("Failed to save artifact: " ++ default "None" (error r))))
  else (w', ret r).

End Disk.

(** A disk on which every operation succeeds. *)
Definition mkdir_ok (fs : unit) (p : Path) : unit * option exn := (fs, None).
Definition write_ok (fs : unit) (p : Path) (c : pyval) : unit * option exn :=
  (fs, None).
Definition exists_ok (fs : unit) (p : Path) : bool := true.

End Artifacts.

(** * Contexts *)

Module Context.

(** Modelled from the spec: [PipelineContext] ([src/core/context.py] is not
    among the sources).  Section 3: a mapping from string keys to opaque
    values, with an embedded artifact list and a loop-scope record; it
    carries [task_id] and an optional [pipeline_id]. *)
Record PipelineContext := mkPipelineContext {
  task_id : string;
  pipeline_id : option string;
  data : gmap string pyval;
  saved_artifacts : list pyval;
  loop_step_name : option string;
  loop_iteration_index : option nat
}.

Definition with_data (pc : PipelineContext) (d : gmap string pyval) :=
  {| task_id := task_id pc; pipeline_id := pipeline_id pc; data := d;
     saved_artifacts := saved_artifacts pc;
     loop_step_name := loop_step_name pc;
     loop_iteration_index := loop_iteration_index pc |}.

Definition pc_getitem (pc : PipelineContext) (key : string) : result pyval :=
  match data pc !! key with
  | Some v => ret v
  | None => raise (KeyError key)
  end.
Definition pc_setitem (pc : PipelineContext) (key : string) (v : pyval) :=
  with_data pc (<[key := v]> (data pc)).
Definition pc_contains (pc : PipelineContext) (key : string) : bool :=
  bool_decide (is_Some (data pc !! key)).
Definition pc_get (pc : PipelineContext) (key : string) (dflt : pyval) : pyval :=
  default dflt (data pc !! key).
(** [update(d)]: the entries of [d] replace those of the same key. *)
Definition pc_update (pc : PipelineContext) (d : gmap string pyval) :=
  with_data pc (d ∪ data pc).
Definition pc_clear_saved_artifacts (pc : PipelineContext) :=
  {| task_id := task_id pc; pipeline_id := pipeline_id pc; data := data pc;
     saved_artifacts := [];
     loop_step_name := loop_step_name pc;
     loop_iteration_index := loop_iteration_index pc |}.
Definition pc_set_loop_context (pc : PipelineContext) (step : string) (i : nat) :=
  {| task_id := task_id pc; pipeline_id := pipeline_id pc; data := data pc;
     saved_artifacts := saved_artifacts pc;
     loop_step_name := Some step;
     loop_iteration_index := Some i |}.

(** The objects of the store: plain dicts (such as [extras]), pipeline
    contexts, and execution contexts, the latter as their instance
    dictionary from attribute names to values. *)
Inductive object :=
| DictObject (entries : gmap string pyval)
| PipelineContextObject (pc : PipelineContext)
| ExecutionContextObject (attrs : gmap string pyval).

Abbreviation Store := (gmap loc object).

Definition alloc (σ : Store) (o : object) : Store * loc :=
  let l := fresh (dom σ) in (<[l := o]> σ, l).

(** ** [ExecutionContext] ([src/core/execution_context.py]) *)

(** The declared dataclass fields, in declaration order. *)
Definition dataclass_fields : list string :=
  ["_pipeline_context"; "checkpoint_id"; "resume_data"; "is_resume";
   "checkpoint_manager"; "loop_iteration"; "step_name"; "pipeline_tools";
   "pipeline_configuration"; "execution_config"; "agent_spec"; "session_id";
   "extras"; "pipeline_config"].

Definition is_field (key : string) : bool :=
  bool_decide (key ∈ dataclass_fields).

(** Properties and methods defined on the class itself. *)
Definition class_properties : list string :=
  ["task_id"; "artifact_manager"; "artifacts_dir"; "has_provider"].
Definition class_methods : list string :=
  ["spawn_child"; "get"; "get_resume_data"; "get_checkpoint_dir";
   "get_container"; "get_pipeline_config"; "get_execution_config";
   "get_config_parameter"; "set_config_parameter"].

Definition self_attrs (σ : Store) (self : loc) : result (gmap string pyval) :=
  match σ !! self with
  | Some (ExecutionContextObject d) => ret d
  | _ => raise (TypeError "not an ExecutionContext")
  end.

(** Reading a declared field of the instance. *)
Definition getattr_field (d : gmap string pyval) (name : string) : result pyval :=
  match d !! name with
  | Some v => ret v
  | None => raise (TypeError "attribute not set")
  end.

(** [self.extras], which must be a dict. *)
Definition extras_of (σ : Store) (d : gmap string pyval)
    : result (loc * gmap string pyval) :=
  match d !! "extras" with
  | Some (VRef x) =>
      match σ !! x with
      | Some (DictObject e) => ret (x, e)
      | _ => raise (TypeError "extras is not a dict")
      end
  | _ => raise (TypeError "extras is not a dict")
  end.

(** [self._pipeline_context]: [None], or the wrapped pipeline context. *)
Definition wrapped_of (σ : Store) (d : gmap string pyval)
    : result (option (loc * PipelineContext)) :=
  match d !! "_pipeline_context" with
  | Some VNone => ret None
  | Some (VRef q) =>
      match σ !! q with
      | Some (PipelineContextObject pc) => ret (Some (q, pc))
      | _ => raise (TypeError "not a PipelineContext")
      end
  | _ => raise (TypeError "not a PipelineContext")
  end.

Definition context_is_none : exn :=
  RuntimeError "ExecutionContext pipeline context is None".

(** The children's fields: [overrides.get(f, self.f)] for every declared
    field [f], except that the default of [extras] is the fresh copy. *)
Fixpoint child_attrs (fields : list string) (d overrides : gmap string pyval)
    (extras_copy : pyval) : result (gmap string pyval) :=
  match fields with
  | [] => ret ∅
  | f :: rest =>
      own ← getattr_field d f;
      attrs ← child_attrs rest d overrides extras_copy;
      let dflt := if String.eqb f "extras" then extras_copy else own in
      ret (<[f := default dflt (overrides !! f)]> attrs)
  end.

(** [ExecutionContext.spawn_child] with keyword arguments [overrides], followed by the
    [__post_init__] of the new instance. *)
Definition spawn_child (σ : Store) (self : loc) (overrides : gmap string pyval)
    : result (Store * loc) :=
  d ← self_attrs σ self;
  '(x, e) ← extras_of σ d;
  let '(σ1, x') := alloc σ (DictObject e) in
  attrs ← child_attrs dataclass_fields d overrides (VRef x');
  match attrs !! "_pipeline_context" with
  | Some VNone =>
      raise (ValueError "ExecutionContext requires a PipelineContext to wrap")
  | _ => ret (alloc σ1 (ExecutionContextObject attrs))
  end.

(** [hasattr(self, key) and key in self.__dataclass_fields__].  A declared
    field is always an attribute.  For any other key the conjunction is
    false, but [hasattr] is evaluated first and lets a [RuntimeError]
    through: a class property, as well as [__getattr__] for a name that is
    not in [extras], raises it when the wrapped context is [None]. *)
Definition is_own_field (σ : Store) (d : gmap string pyval) (key : string)
    : result bool :=
  if is_field key then ret true
  else if bool_decide (key ∈ class_methods) then ret false
  else if bool_decide (key ∈ class_properties) then
    w ← wrapped_of σ d;
    match w with None => raise context_is_none | Some _ => ret false end
  else
    '(x, e) ← extras_of σ d;
    match e !! key with
    | Some _ => ret false
    | None =>
        w ← wrapped_of σ d;
        match w with None => raise context_is_none | Some _ => ret false end
    end.

(** [ExecutionContext.__getitem__] *)
Definition __getitem__ (σ : Store) (self : loc) (key : string) : result pyval :=
  d ← self_attrs σ self;
  own ← is_own_field σ d key;
  if own : bool then getattr_field d key
  else
    '(x, e) ← extras_of σ d;
    match e !! key with
    | Some v => ret v
    | None =>
        w ← wrapped_of σ d;
        match w with
        | None => raise context_is_none
        | Some (q, pc) => pc_getitem pc key
        end
    end.

(** [ExecutionContext.__setitem__]; assigning a declared field goes through
    [__setattr__], which stores it on the instance. *)
Definition __setitem__ (σ : Store) (self : loc) (key : string) (value : pyval)
    : result Store :=
  d ← self_attrs σ self;
  own ← is_own_field σ d key;
  if own : bool then ret (<[self := ExecutionContextObject (<[key := value]> d)]> σ)
  else
    w ← wrapped_of σ d;
    match w with
    | None => raise context_is_none
    | Some (q, pc) =>
        ret (<[q := PipelineContextObject (pc_setitem pc key value)]> σ)
    end.

(** [ExecutionContext.__contains__] *)
Definition __contains__ (σ : Store) (self : loc) (key : string) : result bool :=
  d ← self_attrs σ self;
  own ← is_own_field σ d key;
  if own : bool then ret true
  else
    '(x, e) ← extras_of σ d;
    match e !! key with
    | Some _ => ret true
    | None =>
        w ← wrapped_of σ d;
        match w with
        | None => raise context_is_none
        | Some (q, pc) => ret (pc_contains pc key)
        end
    end.

(** [ExecutionContext.get]: here the field test comes first, so [hasattr]
    is only evaluated for declared fields. *)
Definition get (σ : Store) (self : loc) (key : string) (dflt : pyval)
    : result pyval :=
  d ← self_attrs σ self;
  if is_field key then getattr_field d key
  else
    '(x, e) ← extras_of σ d;
    match e !! key with
    | Some v => ret v
    | None =>
        w ← wrapped_of σ d;
        match w with
        | None => raise context_is_none
        | Some (q, pc) => ret (pc_get pc key dflt)
        end
    end.

(** [ExecutionContext.__setattr__]: declared fields are set on the
    instance, any other attribute is stored in [extras]. *)
Definition __setattr__ (σ : Store) (self : loc) (name : string) (value : pyval)
    : result Store :=
  d ← self_attrs σ self;
  if is_field name
  then ret (<[self := ExecutionContextObject (<[name := value]> d)]> σ)
  else
    match d !! "extras" with
    | Some _ =>
        '(x, e) ← extras_of σ d;
        ret (<[x := DictObject (<[name := value]> e)]> σ)
    | None => ret (<[self := ExecutionContextObject (<[name := value]> d)]> σ)
    end.

(** A fresh execution context around a fresh pipeline context, as
    [create_execution_context] builds it; [extras] holds the remaining
    keyword arguments. *)
Definition create_execution_context (σ : Store) (tid : string)
    (extras : gmap string pyval) : Store * loc :=
  let '(σ1, q) := alloc σ (PipelineContextObject
                     {| task_id := tid; pipeline_id := None; data := ∅;
                        saved_artifacts := []; loop_step_name := None;
                        loop_iteration_index := None |}) in
  let '(σ2, x) := alloc σ1 (DictObject extras) in
  alloc σ2 (ExecutionContextObject
              (<["_pipeline_context" := VRef q]>
                 (<["extras" := VRef x]>
                    (list_to_map (map (fun f => (f, VNone)) dataclass_fields))))).

(** ** Either kind of context

    The executor and the loop strategy take a [PipelineContext] or an
    [ExecutionContext].  A method that [ExecutionContext] does not define is
    looked up by [__getattr__]: an entry of [extras] of that name shadows it
    (and is not callable), otherwise it is the wrapped context's method. *)
Definition delegate (σ : Store) (d : gmap string pyval) (method : string)
    : result (loc * PipelineContext) :=
  '(x, e) ← extras_of σ d;
  match e !! method with
  | Some _ => raise (TypeError "object is not callable")
  | None =>
      w ← wrapped_of σ d;
      match w with
      | None => raise context_is_none
      | Some qpc => ret qpc
      end
  end.

(** [context.copy()]: a new pipeline context with the same contents. *)
Definition any_copy (σ : Store) (c : loc) : result PipelineContext :=
  match σ !! c with
  | Some (PipelineContextObject pc) => ret pc
  | Some (ExecutionContextObject d) => '(q, pc) ← delegate σ d "copy"; ret pc
  | _ => raise (TypeError "not a context")
  end.

(** [context.get(key, default)] *)
Definition any_get (σ : Store) (c : loc) (key : string) (dflt : pyval)
    : result pyval :=
  match σ !! c with
  | Some (PipelineContextObject pc) => ret (pc_get pc key dflt)
  | Some (ExecutionContextObject d) => get σ c key dflt
  | _ => raise (TypeError "not a context")
  end.

(** [context.update(data)] *)
Definition any_update (σ : Store) (c : loc) (new_data : gmap string pyval)
    : result Store :=
  match σ !! c with
  | Some (PipelineContextObject pc) =>
      ret (<[c := PipelineContextObject (pc_update pc new_data)]> σ)
  | Some (ExecutionContextObject d) =>
      '(q, pc) ← delegate σ d "update";
      ret (<[q := PipelineContextObject (pc_update pc new_data)]> σ)
  | _ => raise (TypeError "not a context")
  end.

(** [context.get_data()] *)
Definition any_get_data (σ : Store) (c : loc) : result (gmap string pyval) :=
  match σ !! c with
  | Some (PipelineContextObject pc) => ret (data pc)
  | Some (ExecutionContextObject d) => '(q, pc) ← delegate σ d "get_data"; ret (data pc)
  | _ => raise (TypeError "not a context")
  end.

(** [key in context], [context[key]] and [context[key] = value] *)
Definition any_contains (σ : Store) (c : loc) (key : string) : result bool :=
  match σ !! c with
  | Some (PipelineContextObject pc) => ret (pc_contains pc key)
  | Some (ExecutionContextObject d) => __contains__ σ c key
  | _ => raise (TypeError "not a context")
  end.

Definition any_getitem (σ : Store) (c : loc) (key : string) : result pyval :=
  match σ !! c with
  | Some (PipelineContextObject pc) => pc_getitem pc key
  | Some (ExecutionContextObject d) => __getitem__ σ c key
  | _ => raise (TypeError "not a context")
  end.

Definition any_setitem (σ : Store) (c : loc) (key : string) (v : pyval)
    : result Store :=
  match σ !! c with
  | Some (PipelineContextObject pc) =>
      ret (<[c := PipelineContextObject (pc_setitem pc key v)]> σ)
  | Some (ExecutionContextObject d) => __setitem__ σ c key v
  | _ => raise (TypeError "not a context")
  end.

(** [context.task_id]: the [ExecutionContext] property reads the wrapped
    context's. *)
Definition any_task_id (σ : Store) (c : loc) : result string :=
  match σ !! c with
  | Some (PipelineContextObject pc) => ret (task_id pc)
  | Some (ExecutionContextObject d) =>
      w ← wrapped_of σ d;
      match w with
      | None => raise context_is_none
      | Some (q, pc) => ret (task_id pc)
      end
  | _ => raise (TypeError "not a context")
  end.

(** A parent context in good standing: an execution context whose
    [_pipeline_context] and [extras] refer to a pipeline context and to a
    dict of the store. *)
Definition valid_context (σ : Store) (p : loc) (d : gmap string pyval)
    (q : loc) (pc : PipelineContext) (x : loc) (e : gmap string pyval) : Prop :=
  σ !! p = Some (ExecutionContextObject d) /\
  d !! "_pipeline_context" = Some (VRef q) /\
  σ !! q = Some (PipelineContextObject pc) /\
  d !! "extras" = Some (VRef x) /\
  σ !! x = Some (DictObject e).

(** A parent whose [extras] already hold the key ["x"], and a second
    pipeline context to override with. *)
Definition parent_store : Store * loc :=
  create_execution_context ∅ "task-1" {["x" := VInt 1]}.
Definition other_context : PipelineContext :=
  {| task_id := "task-2"; pipeline_id := None; data := ∅;
     saved_artifacts := []; loop_step_name := None;
     loop_iteration_index := None |}.

(** Assign [key] through a child spawned with [overrides], then read [key]
    through the parent. *)
Definition write_child_read_parent (σp : Store * loc)
    (overrides : gmap string pyval) (key : string) (v : pyval) : result pyval :=
  '(σ1, c) ← spawn_child (fst σp) (snd σp) overrides;
  σ2 ← __setitem__ σ1 c key v;
  __getitem__ σ2 (snd σp) key.

End Context.

(** * Step and loop configuration *)

Module Config.

(** Modelled from the spec: [StepConfig], [LoopConfig] and the dependency
    forms ([src/core/step_config.py] is not among the sources), with the
    attributes of section 3.  A bare step name in [depends_on] is a
    dependency without [when_output_equals]; [delay] is in milliseconds, zero
    when there is none; [count] and [max_iterations] are non-negative. *)
Record Dependency := mkDependency {
  dep_step : string;
  when_output_equals : option pyval
}.

Inductive StepConfig := mkStepConfig {
  name : string;
  plugin : string;
  depends_on : list Dependency;
  fail_on_error : bool;
  is_finally : bool;
  config : list (string * pyval);
  connections : list (string * string);
  loop_config : option LoopConfig
}
with LoopConfig := mkLoopConfig {
  body : list StepConfig;
  collection : option string;
  count : option nat;
  condition : option string;
  item_name : option string;
  index_name : option string;
  result_name : option string;
  delay : nat;
  fail_fast : bool;
  max_iterations : nat
}.

End Config.

(** * The loop strategy ([src/core/loop_execution_strategy.py]) *)

Module Loop.
Import Context Config.

(** What a loop does, in order: an iteration (its index, the item bound to
    [item_name], the loop context it was spawned from, and what the body left:
    the iteration context and the exception it raised, if any), a pause
    between iterations, a logged warning. *)
Inductive LoopEvent :=
| Iteration (index : nat) (item : pyval) (loop_context : PipelineContext)
    (after : PipelineContext) (raised : option exn)
| Sleep (ms : nat)
| Warning (msg : string).

Definition is_iteration (ev : LoopEvent) : bool :=
  match ev with Iteration _ _ _ _ _ => true | _ => false end.

(** The iterations among the events. *)
Definition iterations (evs : list LoopEvent) : list LoopEvent :=
  List.filter is_iteration evs.

(** [LoopExecutionStrategy._create_synthetic_body] *)
Definition synthetic_step (step : StepConfig) : StepConfig :=
  {| name := name step ++ "_iteration";
     plugin := plugin step;
     depends_on := [];
     fail_on_error := fail_on_error step;
     is_finally := false;
     config := config step;
     connections := [];
     loop_config := None |}.

Definition _create_synthetic_body (step : StepConfig) : list StepConfig :=
  match loop_config step with
  | Some lc =>
      if String.eqb (plugin step) "pipeline_loop"
         || match body lc with [] => false | _ => true end
      then body lc
      else [synthetic_step step]
  | None =>
      if String.eqb (plugin step) "pipeline_loop" then [] else [synthetic_step step]
  end.

Section Body.
(** [_run_loop_body]: the body steps run by a new [DAGExecutor] on the
    iteration context; it leaves the context as the body's steps wrote it and
    may raise. *)
Variable _run_loop_body :
  PipelineContext -> list StepConfig -> PipelineContext * option exn.
(** [str(v)], as an f-string formats a value. *)
Variable py_str : pyval -> string.

(** The iteration context of iteration [i]: a copy of the loop context with
    the item and the index bound and the loop scope recorded. *)
Definition iteration_context_for (step : StepConfig) (cfg : LoopConfig)
    (loop_context : PipelineContext) (item : pyval) (i : nat) : PipelineContext :=
  let iteration_context := loop_context in
  let iteration_context :=
    if opt_truthy (item_name cfg)
    then pc_setitem iteration_context (default "" (item_name cfg)) item
    else iteration_context in
  let iteration_context :=
    if opt_truthy (index_name cfg)
    then pc_setitem iteration_context (default "" (index_name cfg)) (VInt (Z.of_nat i))
    else iteration_context in
  pc_set_loop_context iteration_context (name step) i.

(** The warning logged at the end when [result_name] is set and absent. *)
Definition result_name_warning (cfg : LoopConfig) (loop_context : PipelineContext)
    : list LoopEvent :=
  if opt_truthy (result_name cfg)
     && negb (pc_contains loop_context (default "" (result_name cfg)))
  then [Warning "result_name was specified, but not found in the final loop context"]
  else [].

(** ** Collection and count loops *)

(** The [for i, item_data in enumerate(items)] loop, over the pairs still to
    visit; [n_items] is [len(items)]. *)
Fixpoint for_items (pairs : list (nat * pyval)) (n_items start_index : nat)
    (step : StepConfig) (cfg : LoopConfig) (effective_body : list StepConfig)
    (loop_context : PipelineContext) (any_iteration_failed : bool)
    : PipelineContext * list LoopEvent * result bool :=
  match pairs with
  | [] => (loop_context, [], ret any_iteration_failed)
  | (i, item_data) :: rest =>
      if Nat.ltb i start_index
      then for_items rest n_items start_index step cfg effective_body
             loop_context any_iteration_failed
      else
        let iteration_context :=
          iteration_context_for step cfg loop_context item_data i in
        let '(after, raised) := _run_loop_body iteration_context effective_body in
        let ev := Iteration i item_data loop_context after raised in
        let pause :=
          if negb (Nat.eqb (delay cfg) 0) && Nat.ltb i (n_items - 1)
          then [Sleep (delay cfg)] else [] in
        match raised with
        | None =>
            let '(lc, evs, r) :=
              for_items rest n_items start_index step cfg effective_body
                (pc_update loop_context (data after)) any_iteration_failed in
            (lc, (ev :: pause ++ evs)%list, r)
        | Some (PipelineSuspendedException cp steps info) =>
            (pc_update loop_context (data after), [ev],
             raise (PipelineSuspendedException cp steps info))
        | Some e =>
            if fail_fast cfg then (loop_context, [ev], raise e)
            else
              let '(lc, evs, r) :=
                for_items rest n_items start_index step cfg effective_body
                  loop_context true in
              (lc, (ev :: pause ++ evs)%list, r)
        end
  end.

(** Where a resumed loop starts: the number of items marked as processed in
    the loop context, when the context records a loop iteration. *)
Definition start_index_of (items : pyval) (elems : list pyval)
    (loop_context : PipelineContext) : result nat :=
  match loop_iteration_index loop_context with
  | None => ret 0%nat
  | Some _ =>
      match items, elems with
      | VDict _, _ :: _ => raise (KeyError "integer key")
      | _, _ =>
          ret (length
                 (List.filter
                    (fun it => truthy (pc_get loop_context
                                         ("item_" ++ py_str it ++ "_processed")
                                         (VBool false)))
                    elems))
      end
  end.

(** [LoopExecutionStrategy._execute_collection_or_count_loop].  It returns
    the loop context as the iterations left it, also when it raises. *)
Definition _execute_collection_or_count_loop (σ : Store) (parent_context : loc)
    (step : StepConfig) (loop_context : PipelineContext) (cfg : LoopConfig)
    : PipelineContext * list LoopEvent * result bool :=
  let fetched :=
    if opt_truthy (collection cfg)
    then items ← any_get σ parent_context (default "" (collection cfg)) (VList []);
         n ← py_len items;
         ret items
    else ret (VList []) in
  match fetched with
  | inl e => (loop_context, [], raise e)
  | inr items =>
      let items :=
        match count cfg with
        | Some n => if negb (truthy items) then py_range n else items
        | None => items
        end in
      if negb (truthy items)
      then (loop_context, [Warning "No items to iterate over"], ret false)
      else
        match _create_synthetic_body step with
        | [] => (loop_context, [Warning "Loop step has no executable body"], ret false)
        | effective_body =>
            match (elems ← py_items items;
                   start_index ← start_index_of items elems loop_context;
                   ret (elems, start_index)) with
            | inl e => (loop_context, [], raise e)
            | inr (elems, start_index) =>
                let '(lc, evs, r) :=
                  for_items (enumerate elems) (length elems) start_index step cfg
                    effective_body loop_context false in
                match r with
                | inl e => (lc, evs, raise e)
                | inr any_iteration_failed =>
                    (lc, (evs ++ result_name_warning cfg lc)%list,
                     ret any_iteration_failed)
                end
            end
        end
  end.

(** ** Condition loops *)

(** The [while loop_counter < max_iterations] loop; [remaining] is
    [max_iterations - loop_counter], so that the test holds exactly when
    [remaining] is a successor.  It returns the final [loop_counter] along
    with [any_iteration_failed]. *)
Fixpoint while_condition (remaining loop_counter : nat)
    (step : StepConfig) (cfg : LoopConfig) (effective_body : list StepConfig)
    (loop_context : PipelineContext) (any_iteration_failed : bool)
    : PipelineContext * list LoopEvent * result (bool * nat) :=
  match remaining with
  | O => (loop_context, [], ret (any_iteration_failed, loop_counter))
  | S remaining' =>
      if negb (opt_truthy (condition cfg))
      then (loop_context, [],
            raise (ValueError "No condition specified for condition-based loop"))
      else
        let condition_value :=
          pc_get loop_context (default "" (condition cfg)) VNone in
        if negb (truthy condition_value)
        then (loop_context, [], ret (any_iteration_failed, loop_counter))
        else
          let item := VInt (Z.of_nat loop_counter) in
          let iteration_context :=
            iteration_context_for step cfg loop_context item loop_counter in
          let '(after, raised) := _run_loop_body iteration_context effective_body in
          let ev := Iteration loop_counter item loop_context after raised in
          let merged := pc_update loop_context (data after) in
          let pause :=
            if negb (Nat.eqb (delay cfg) 0)
               && Nat.ltb (S loop_counter) (max_iterations cfg)
               && truthy (pc_get merged (default "" (condition cfg)) VNone)
            then [Sleep (delay cfg)] else [] in
          match raised with
          | None =>
              let '(lc, evs, r) :=
                while_condition remaining' (S loop_counter) step cfg effective_body
                  merged any_iteration_failed in
              (lc, (ev :: pause ++ evs)%list, r)
          | Some (PipelineSuspendedException cp steps info) =>
              (loop_context, [ev],
               raise (PipelineSuspendedException cp steps info))
          | Some e =>
              if fail_fast cfg then (merged, [ev], raise e)
              else
                let '(lc, evs, r) :=
                  while_condition remaining' (S loop_counter) step cfg
                    effective_body merged true in
                (lc, (ev :: pause ++ evs)%list, r)
          end
  end.

Definition max_iterations_warning : LoopEvent :=
  Warning "Loop reached max iterations".

(** [LoopExecutionStrategy._execute_condition_based_loop] *)
Definition _execute_condition_based_loop (step : StepConfig)
    (loop_context : PipelineContext) (cfg : LoopConfig)
    : PipelineContext * list LoopEvent * result bool :=
  match _create_synthetic_body step with
  | [] => (loop_context, [Warning "Loop step has no executable body"], ret false)
  | effective_body =>
      let '(lc, evs, r) :=
        while_condition (max_iterations cfg) 0 step cfg effective_body
          loop_context false in
      match r with
      | inl e => (lc, evs, raise e)
      | inr (any_iteration_failed, loop_counter) =>
          let capped :=
            if Nat.leb (max_iterations cfg) loop_counter
            then [max_iterations_warning] else [] in
          (lc, (evs ++ capped ++ result_name_warning cfg lc)%list,
           ret any_iteration_failed)
      end
  end.

(** ** [LoopExecutionStrategy.execute_loop]

    It returns the store, with the final loop context merged into the parent
    context, the events, and the exception it raised, if any. *)
Definition iterations_failed (step : StepConfig) : exn :=
  GenericException ("One or more iterations failed in loop step " ++ name step).

Definition execute_loop (σ : Store) (parent_context : loc) (step : StepConfig)
    : Store * list LoopEvent * option exn :=
  match loop_config step with
  | None =>
      (σ, [], Some (ValueError ("Loop step " ++ name step
                                  ++ " is missing loop configuration")))
  | Some cfg =>
      match any_copy σ parent_context with
      | inl e => (σ, [], Some e)
      | inr loop_context =>
          let loop_context := pc_clear_saved_artifacts loop_context in
          let '(lc, evs, r) :=
            if opt_truthy (condition cfg)
            then _execute_condition_based_loop step loop_context cfg
            else _execute_collection_or_count_loop σ parent_context step
                   loop_context cfg in
          match r with
          | inr any_iteration_failed =>
              match any_update σ parent_context (data lc) with
              | inl e => (σ, evs, Some e)
              | inr σ' =>
                  (σ', evs,
                   if any_iteration_failed then Some (iterations_failed step) else None)
              end
          | inl (PipelineSuspendedException cp steps info) =>
              match any_update σ parent_context (data lc) with
              | inl e => (σ, evs, Some e)
              | inr σ' => (σ', evs, Some (PipelineSuspendedException cp steps info))
              end
          | inl e => (σ, evs, Some e)
          end
      end
  end.

End Body.

(** ** Reading the events *)

(** The iterations [its] of a condition loop that is at [loop_counter] with
    the loop context [lc]: they are numbered from [loop_counter] on, each was
    spawned from the loop context current at the time, the condition key was
    truthy in that context, and the next loop context is that context with the
    data of the iteration context merged in. *)
Fixpoint condition_chain (cond : string) (loop_counter : nat)
    (lc : PipelineContext) (its : list LoopEvent) : Prop :=
  match its with
  | [] => True
  | Iteration i item lc_i after raised :: rest =>
      i = loop_counter /\ lc_i = lc /\
      truthy (pc_get lc cond VNone) = true /\
      condition_chain cond (S loop_counter) (pc_update lc (data after)) rest
  | _ :: rest => False
  end.

(** No iteration among the events raised. *)
Definition none_raised (evs : list LoopEvent) : Prop :=
  Forall (fun ev => match ev with
                    | Iteration _ _ _ _ (Some _) => False
                    | _ => True
                    end) evs.

(** The index and item of each iteration, in the order they ran. *)
Definition visited (evs : list LoopEvent) : list (nat * pyval) :=
  omap (fun ev => match ev with
                  | Iteration i item _ _ _ => Some (i, item)
                  | _ => None
                  end) evs.

(** The pairs of [enumerate(items)] that a loop starting at [start_index]
    does not skip, in their order. *)
Definition not_skipped (start_index : nat) (pairs : list (nat * pyval))
    : list (nat * pyval) :=
  List.filter (fun p => negb (Nat.ltb (fst p) start_index)) pairs.

End Loop.

(** * Step states and the state of a run *)

Module DagState.
Import Config.

(** [StepStatus] ([src/core/dag_executor.py]) *)
Inductive StepStatus := PENDING | RUNNING | COMPLETED | FAILED | SKIPPED | SUSPENDED.

Definition StepStatus_eqb (a b : StepStatus) : bool :=
  match a, b with
  | PENDING, PENDING | RUNNING, RUNNING | COMPLETED, COMPLETED
  | FAILED, FAILED | SKIPPED, SKIPPED | SUSPENDED, SUSPENDED => true
  | _, _ => false
  end.

(** Modelled from the spec: [StepState], [DAGState] and [ParsedDependency]
    ([src/core/dag_state.py] and [src/core/dag_validator.py] are not among the
    sources), after sections 3, 4.1 and 4.2: a step state holds the status,
    the error and the saved artifacts; the run state holds the step states
    keyed by step name, in declaration order, and the step numbers; the sets
    [running_steps], [completed_steps], ... are derived from the statuses.  A
    marking operation sets the status of the named step and nothing else;
    [mark_failed] also records the error, [mark_completed] the artifacts. *)
Record StepState := mkStepState {
  status : StepStatus;
  error : option exn;
  saved_artifacts : list pyval
}.

Record ParsedDependency := mkParsedDependency {
  step_name : string;
  is_conditional : bool;
  predicate : gmap string pyval -> bool
}.

Record DAGState := mkDAGState {
  steps : list StepConfig;
  step_states : list (string * StepState);
  step_numbers : list (string * nat);
  finished : bool
}.

Definition pending_state : StepState :=
  {| status := PENDING; error := None; saved_artifacts := [] |}.

(** [DAGState(step_configs)] *)
Definition new_DAGState (step_configs : list StepConfig) : DAGState :=
  {| steps := step_configs;
     step_states := map (fun s => (name s, pending_state)) step_configs;
     step_numbers := zip (map name step_configs) (seq 1 (length step_configs));
     finished := false |}.

(** [step_states.get(name)]: the first entry of that name. *)
Fixpoint lookup_state (l : list (string * StepState)) (n : string)
    : option StepState :=
  match l with
  | [] => None
  | (k, s) :: rest => if String.eqb k n then Some s else lookup_state rest n
  end.

Definition step_state (st : DAGState) (n : string) : option StepState :=
  lookup_state (step_states st) n.

Definition has_step (st : DAGState) (n : string) : bool :=
  match step_state st n with Some _ => true | None => false end.

(** Apply [f] to the state of step [n]. *)
Definition alter_states (f : StepState -> StepState) (n : string)
    (l : list (string * StepState)) : list (string * StepState) :=
  map (fun kv => if String.eqb (fst kv) n then (fst kv, f (snd kv)) else kv) l.

Definition alter_step (f : StepState -> StepState) (n : string) (st : DAGState)
    : DAGState :=
  {| steps := steps st;
     step_states := alter_states f n (step_states st);
     step_numbers := step_numbers st;
     finished := finished st |}.

Definition set_status (s : StepStatus) (x : StepState) : StepState :=
  {| status := s; error := error x; saved_artifacts := saved_artifacts x |}.

Definition mark_step_running (st : DAGState) (n : string) : DAGState :=
  alter_step (set_status RUNNING) n st.
Definition mark_step_completed (st : DAGState) (n : string) (artifacts : list pyval)
    : DAGState :=
  alter_step (fun x => {| status := COMPLETED; error := error x;
                          saved_artifacts := artifacts |}) n st.
Definition mark_step_failed (st : DAGState) (n : string) (e : exn) : DAGState :=
  alter_step (fun x => {| status := FAILED; error := Some e;
                          saved_artifacts := saved_artifacts x |}) n st.
Definition mark_step_skipped (st : DAGState) (n : string) : DAGState :=
  alter_step (set_status SKIPPED) n st.
Definition mark_step_suspended (st : DAGState) (n : string) : DAGState :=
  alter_step (set_status SUSPENDED) n st.
Definition clear_step_error (st : DAGState) (n : string) : DAGState :=
  alter_step (fun x => {| status := status x; error := None;
                          saved_artifacts := saved_artifacts x |}) n st.
(** Modelled from the spec: [mark_step_completed_from_suspension], after
    section 4.8: the step moves to COMPLETED and its error is reset when
    asked. *)
Definition mark_step_completed_from_suspension (st : DAGState) (n : string)
    (clear_error : bool) : DAGState :=
  alter_step (fun x => {| status := COMPLETED;
                          error := if clear_error then None else error x;
                          saved_artifacts := saved_artifacts x |}) n st.
(** Modelled from the spec: [mark_step_resumed], after section 4.8: the step
    goes from SUSPENDED back to PENDING. *)
Definition mark_step_resumed (st : DAGState) (n : string) : DAGState :=
  alter_step (fun x => if StepStatus_eqb (status x) SUSPENDED
                       then set_status PENDING x else x) n st.

Definition start_execution (st : DAGState) : DAGState := st.
Definition finish_execution (st : DAGState) : DAGState :=
  {| steps := steps st; step_states := step_states st;
     step_numbers := step_numbers st; finished := true |}.

(** Membership in a derived set: [n in state.failed_steps], ... *)
Definition has_status (st : DAGState) (s : StepStatus) (n : string) : bool :=
  match step_state st n with
  | Some x => StepStatus_eqb (status x) s
  | None => false
  end.

(** The derived sets, as lists of names. *)
Definition steps_with (st : DAGState) (s : StepStatus) : list string :=
  map fst (List.filter (fun kv => StepStatus_eqb (status (snd kv)) s) (step_states st)).
Definition running_steps (st : DAGState) := steps_with st RUNNING.
Definition completed_steps (st : DAGState) := steps_with st COMPLETED.
Definition failed_steps (st : DAGState) := steps_with st FAILED.
Definition skipped_steps (st : DAGState) := steps_with st SKIPPED.
Definition suspended_steps (st : DAGState) := steps_with st SUSPENDED.

(** Modelled from the spec: [get_remaining_steps], after (I4): COMPLETED,
    FAILED and SKIPPED are terminal for the phase, SUSPENDED for the run; the
    steps that remain are those PENDING or RUNNING. *)
Definition is_terminal (s : StepStatus) : bool :=
  match s with PENDING | RUNNING => false | _ => true end.

Definition get_remaining_steps (st : DAGState) : list string :=
  map fst (List.filter (fun kv => negb (is_terminal (status (snd kv)))) (step_states st)).

(** [parsed_dependencies.get(name, [])] *)
Fixpoint deps_of (parsed : list (string * list ParsedDependency)) (n : string)
    : list ParsedDependency :=
  match parsed with
  | [] => []
  | (k, ds) :: rest => if String.eqb k n then ds else deps_of rest n
  end.

(** Modelled from the spec: [DAGState.is_step_ready] ([src/core/dag_state.py]
    is not among the sources), after [is_ready] of section 4.2: the step is
    PENDING, every dependency is COMPLETED, and the predicate of every
    conditional dependency holds of the context view. *)
Definition is_step_ready (st : DAGState) (n : string)
    (parsed : list (string * list ParsedDependency))
    (context_data : gmap string pyval) : bool :=
  has_status st PENDING n
  && forallb (fun dep =>
                has_status st COMPLETED (step_name dep)
                && (negb (is_conditional dep) || predicate dep context_data))
             (deps_of parsed n).

(** Modelled from the spec: [DAGState.is_step_ready_for_finally], after
    [is_ready_for_finally] of section 4.2: a finally step runs when it is
    PENDING, all non-finally steps have reached a terminal state, and the
    finally steps it depends on are COMPLETED. *)
Definition is_finally_step (st : DAGState) (n : string) : bool :=
  existsb (fun s => String.eqb (name s) n && is_finally s) (steps st).

Definition is_step_ready_for_finally (st : DAGState) (n : string)
    (parsed : list (string * list ParsedDependency)) : bool :=
  has_status st PENDING n
  && forallb (fun s => is_finally s
                       || match step_state st (name s) with
                          | Some x => is_terminal (status x)
                          | None => true
                          end) (steps st)
  && forallb (fun dep => negb (is_finally_step st (step_name dep))
                         || has_status st COMPLETED (step_name dep))
             (deps_of parsed n).

(** The number of steps that are PENDING. *)
Definition pending_count (st : DAGState) : nat :=
  length (List.filter (fun kv => StepStatus_eqb (status (snd kv)) PENDING)
            (step_states st)).

(** A transformation of step states that never makes a step PENDING. *)
Definition never_pending (f : StepState -> StepState) : Prop :=
  forall x, status (f x) <> PENDING.

End DagState.

(** * The DAG executor ([src/core/dag_executor.py]) *)

Module Executor.
Import Context Config Loop DagState.

(** Default retry delay in seconds. *)
Definition RETRY_DELAY : Q := 1.0.

(** Modelled from the spec: [SuspendContext] ([src/core/suspend_context.py]
    is not among the sources), as the executor uses it: the names of the
    suspended steps in the order they suspended, and per step the reason and
    the data of the suspension. *)
Record SuspendContext := mkSuspendContext {
  suspended_steps : list string;
  suspend_data : list (string * pyval);
  suspend_reasons : list (string * string)
}.

Definition new_SuspendContext : SuspendContext :=
  {| suspended_steps := []; suspend_data := []; suspend_reasons := [] |}.

Definition request_suspend (sc : SuspendContext) (step : string) (reason : string)
    (info : pyval) : SuspendContext :=
  {| suspended_steps := (suspended_steps sc ++ [step])%list;
     suspend_data := (suspend_data sc ++ [(step, info)])%list;
     suspend_reasons := (suspend_reasons sc ++ [(step, reason)])%list |}.

(** Modelled from the spec: the checkpoint record of section 3 (the
    checkpoint manager is not among the sources). *)
Record Checkpoint := mkCheckpoint {
  checkpoint_id : string;
  cp_task_id : string;
  cp_pipeline_id : string;
  dag_state_snapshot : DAGState;
  context_snapshot : gmap string pyval;
  suspended_at_steps : list string;
  cp_suspend_reasons : list (string * string);
  cp_suspend_data : list (string * pyval)
}.

(** What the executor does that an observer can see, in order. *)
Inductive Event :=
| Progress (step : string) (status : StepStatus) (error : option exn)
| Invoke (step : string) (attempt : Z)
| AsyncSleep (seconds : Q)
| LoopRun (step : string) (loop_events : list LoopEvent)
| CheckpointWritten (cp : Checkpoint)
| Log (msg : string).

(** One attempt at a step, as the plugin, the input resolver and the output
    handler decide it: an exception raised before the plugin is invoked
    (resolving connections and inputs); else what the invocation returned or
    raised; the artifacts saved in the context after the invocation and after
    the output was handled; an exception raised while handling the output. *)
Record Attempt := mkAttempt {
  before_invoke : option exn;
  invoked : result pyval;
  saved_after_invoke : list pyval;
  output_error : option exn;
  saved_after_output : list pyval
}.

(** The collaborators of the executor that are outside this development: the
    validator, the connection resolver, the plugin registry and the plugins,
    the loop bodies, the event loop ([wait] names the tasks that
    [asyncio.wait] reports as done among those in flight) and the checkpoint
    manager. *)
Record World := mkWorld {
  validate_steps : list StepConfig -> result (list (string * list ParsedDependency));
  resolve_connections : list StepConfig -> option exn;
  get_plugin : StepConfig -> option exn;
  run_plugin : Store -> loc -> StepConfig -> Z -> Store * Attempt;
  run_loop_body : PipelineContext -> list StepConfig -> PipelineContext * option exn;
  py_str : pyval -> string;
  wait : list string -> list string;
  new_checkpoint_id : string -> result string;
  load_checkpoint : string -> option string -> option Checkpoint;
  start_resume : string -> bool
}.

(** The executor object, together with the object store and the events so
    far. *)
Record DAGExecutor := mkDAGExecutor {
  max_workers : nat;
  has_checkpoint_manager : bool;
  _state : DAGState;
  _suspend_context : option SuspendContext;
  _parsed_dependencies : list (string * list ParsedDependency);
  _steps : list StepConfig;
  _current_context : option loc;
  store : Store;
  events : list Event
}.

(** [DAGExecutor.__init__]: [max_workers or min(32, os.cpu_count() or 4)] *)
Definition or_default (n : option nat) (d : nat) : nat :=
  match n with
  | Some (S k) => S k
  | _ => d
  end.

Definition new_DAGExecutor (workers cpu_count : option nat)
    (checkpoint_manager : bool) (σ : Store) : DAGExecutor :=
  {| max_workers := or_default workers (Nat.min 32 (or_default cpu_count 4));
     has_checkpoint_manager := checkpoint_manager;
     _state := new_DAGState [];
     _suspend_context := None;
     _parsed_dependencies := [];
     _steps := [];
     _current_context := None;
     store := σ;
     events := [] |}.

Definition with_state (ex : DAGExecutor) (st : DAGState) : DAGExecutor :=
  {| max_workers := max_workers ex;
     has_checkpoint_manager := has_checkpoint_manager ex;
     _state := st;
     _suspend_context := _suspend_context ex;
     _parsed_dependencies := _parsed_dependencies ex;
     _steps := _steps ex;
     _current_context := _current_context ex;
     store := store ex;
     events := events ex |}.

Definition with_store (ex : DAGExecutor) (σ : Store) : DAGExecutor :=
  {| max_workers := max_workers ex;
     has_checkpoint_manager := has_checkpoint_manager ex;
     _state := _state ex;
     _suspend_context := _suspend_context ex;
     _parsed_dependencies := _parsed_dependencies ex;
     _steps := _steps ex;
     _current_context := _current_context ex;
     store := σ;
     events := events ex |}.

Definition with_suspend_context (ex : DAGExecutor) (sc : option SuspendContext)
    : DAGExecutor :=
  {| max_workers := max_workers ex;
     has_checkpoint_manager := has_checkpoint_manager ex;
     _state := _state ex;
     _suspend_context := sc;
     _parsed_dependencies := _parsed_dependencies ex;
     _steps := _steps ex;
     _current_context := _current_context ex;
     store := store ex;
     events := events ex |}.

Definition emit (ex : DAGExecutor) (ev : Event) : DAGExecutor :=
  {| max_workers := max_workers ex;
     has_checkpoint_manager := has_checkpoint_manager ex;
     _state := _state ex;
     _suspend_context := _suspend_context ex;
     _parsed_dependencies := _parsed_dependencies ex;
     _steps := _steps ex;
     _current_context := _current_context ex;
     store := store ex;
     events := (events ex ++ [ev])%list |}.

(** [_report_progress] *)
Definition _report_progress (ex : DAGExecutor) (step : string) (s : StepStatus)
    (e : option exn) : DAGExecutor :=
  emit ex (Progress step s e).

Definition assertion_error : exn := GenericException "AssertionError".

(** The end of the failure clauses of [_run_with_retries]: the step is marked
    FAILED and reported, and the error is raised again when the step is
    critical. *)
Definition fail_step (ex : DAGExecutor) (step : StepConfig) (e to_raise : exn)
    (saved_artifacts : list pyval) : DAGExecutor * result (pyval * list pyval) :=
  let ex := with_state ex (mark_step_failed (_state ex) (name step) e) in
  let ex := _report_progress ex (name step) FAILED (Some e) in
  if fail_on_error step then (ex, raise to_raise)
  else (ex, ret (VNone, saved_artifacts)).

(** The body of the [try] of [_run_with_retries] for one attempt: it yields
    what the body returned or raised, and the artifacts collected by then.
    The plugin is invoked, and RUNNING reported, inside the semaphore. *)
Definition try_attempt (W : World) (ex : DAGExecutor) (ctx : loc)
    (step : StepConfig) (attempt : Z)
    : DAGExecutor * result pyval * list pyval :=
  let '(σ, a) := run_plugin W (store ex) ctx step attempt in
  let ex := with_store ex σ in
  match before_invoke a with
  | Some e => (ex, raise e, [])
  | None =>
      let ex := _report_progress ex (name step) RUNNING None in
      let ex := emit ex (Invoke (name step) attempt) in
      match invoked a with
      | inl e => (ex, raise e, [])
      | inr plugin_output =>
          match output_error a with
          | Some e => (ex, raise e, saved_after_invoke a)
          | None =>
              (ex, ret plugin_output,
               (saved_after_invoke a ++ saved_after_output a)%list)
          end
      end
  end.

(** [_run_with_retries], by recursion on the number of retries still allowed,
    [max_retries - 1 - attempt]: the test [attempt < max_retries - 1] holds
    exactly when that number is a successor. *)
Fixpoint retry_from (retries_left : nat) (W : World) (ex : DAGExecutor)
    (ctx : loc) (step : StepConfig) (attempt max_retries : Z)
    : DAGExecutor * result (pyval * list pyval) :=
  let '(ex, r, saved_artifacts) := try_attempt W ex ctx step attempt in
  match r with
  | inr plugin_output => (ex, ret (plugin_output, saved_artifacts))
  | inl (PluginSuspendedException msg info) =>
      let ex := with_state ex (mark_step_suspended (_state ex) (name step)) in
      let ex := _report_progress ex (name step) SUSPENDED
                  (Some (PluginSuspendedException msg info)) in
      let sc := default new_SuspendContext (_suspend_context ex) in
      let ex := with_suspend_context ex
                  (Some (request_suspend sc (name step) msg info)) in
      (ex, raise (PluginSuspendedException msg info))
  | inl (PluginInputError m) =>
      fail_step ex step (PluginInputError m) (PluginInputError m) saved_artifacts
  | inl (RetryablePluginError m) =>
      if Z.ltb attempt (max_retries - 1) then
        match retries_left with
        | S retries_left' =>
            let ex := emit ex (AsyncSleep (Qmult RETRY_DELAY (inject_Z (attempt + 1)))) in
            retry_from retries_left' W ex ctx step (attempt + 1) max_retries
        | O =>
            fail_step ex step (RetryablePluginError m) (RetryablePluginError m)
              saved_artifacts
        end
      else
        fail_step ex step (RetryablePluginError m) (RetryablePluginError m)
          saved_artifacts
  | inl (PluginError m) =>
      fail_step ex step (PluginError m) (PluginError m) saved_artifacts
  | inl e =>
      fail_step ex step e (DAGExecutionError (name step) e) saved_artifacts
  end.

Definition _run_with_retries (W : World) (ex : DAGExecutor) (step : StepConfig)
    (attempt max_retries : Z) : DAGExecutor * result (pyval * list pyval) :=
  match _current_context ex with
  | None => (ex, raise assertion_error)
  | Some ctx =>
      retry_from (Z.to_nat (max_retries - 1 - attempt)) W ex ctx step
        attempt max_retries
  end.

(** [_execute_loop] *)
Definition _execute_loop (W : World) (ex : DAGExecutor) (ctx : loc)
    (step : StepConfig) : DAGExecutor * result (pyval * list pyval) :=
  let '(σ, evs, raised) :=
    execute_loop (run_loop_body W) (py_str W) (store ex) ctx step in
  let ex := emit (with_store ex σ) (LoopRun (name step) evs) in
  match raised with
  | None => (ex, ret (VNone, []))
  | Some e => (ex, raise e)
  end.

(** A task: the coroutine that [_create_step_task] wraps, with the context it
    was given when created. *)
Inductive Task :=
| PluginTask (step : StepConfig)
| LoopTask (ctx : loc) (step : StepConfig).

(** The [tasks] dict, keyed by step name. *)
Fixpoint dict_get {A} (d : list (string * A)) (k : string) : option A :=
  match d with
  | [] => None
  | (k', v) :: rest => if String.eqb k' k then Some v else dict_get rest k
  end.

Fixpoint dict_set {A} (d : list (string * A)) (k : string) (v : A)
    : list (string * A) :=
  match d with
  | [] => [(k, v)]
  | (k', v') :: rest =>
      if String.eqb k' k then (k', v) :: rest else (k', v') :: dict_set rest k v
  end.

Fixpoint dict_del {A} (d : list (string * A)) (k : string)
    : option (list (string * A)) :=
  match d with
  | [] => None
  | (k', v') :: rest =>
      if String.eqb k' k then Some rest
      else match dict_del rest k with
           | Some rest' => Some ((k', v') :: rest')
           | None => None
           end
  end.

(** [_create_step_task]: the step is marked RUNNING as soon as its task is
    created; a failure to set the plugin up marks it FAILED. *)
Definition _create_step_task (W : World) (ex : DAGExecutor) (step : StepConfig)
    : DAGExecutor * result (option Task) :=
  match _current_context ex with
  | None => (ex, raise assertion_error)
  | Some ctx =>
      let created : result Task :=
        match loop_config step with
        | Some _ => ret (LoopTask ctx step)
        | None =>
            match get_plugin W step with
            | Some init_error => raise init_error
            | None => ret (PluginTask step)
            end
        end in
      match created with
      | inr task =>
          (with_state ex (mark_step_running (_state ex) (name step)), ret (Some task))
      | inl init_error =>
          let ex := with_state ex
                      (mark_step_failed (_state ex) (name step) init_error) in
          let ex := _report_progress ex (name step) FAILED (Some init_error) in
          if fail_on_error step
          then (ex, raise (DAGExecutionError (name step) init_error))
          else (ex, ret None)
      end
  end.

(** Awaiting a task runs its coroutine to the end. *)
Definition run_task (W : World) (ex : DAGExecutor) (task : Task)
    : DAGExecutor * result (pyval * list pyval) :=
  match task with
  | PluginTask step => _run_with_retries W ex step 0 3
  | LoopTask ctx step => _execute_loop W ex ctx step
  end.

(** [_process_completed_task], for the task registered under [step_name]. *)
Definition _process_completed_task (W : World) (ex : DAGExecutor)
    (step_name : string) (task : Task) (step_configs : list StepConfig)
    (tasks : list (string * Task))
    : DAGExecutor * list (string * Task) * option exn :=
  let '(ex, r) := run_task W ex task in
  let '(ex, raised) :=
    match r with
    | inr (_, saved_artifacts) =>
        if has_step (_state ex) step_name
        then
          if negb (has_status (_state ex) FAILED step_name)
          then
            let ex := with_state ex
                        (mark_step_completed (_state ex) step_name saved_artifacts) in
            (_report_progress ex step_name COMPLETED None, None)
          else (ex, None)
        else (ex, None)
    | inl (PluginSuspendedException _ _) => (ex, None)
    | inl (PipelineSuspendedException cp steps info) =>
        (ex, Some (PipelineSuspendedException cp steps info))
    | inl (DAGExecutionError s err) =>
        let ex :=
          if has_step (_state ex) step_name
          then
            let ex := with_state ex (mark_step_failed (_state ex) step_name err) in
            _report_progress ex step_name FAILED (Some err)
          else ex in
        (ex, Some (DAGExecutionError s err))
    | inl e =>
        if has_step (_state ex) step_name
        then
          let ex := with_state ex (mark_step_failed (_state ex) step_name e) in
          let ex := _report_progress ex step_name FAILED (Some e) in
          match List.find (fun s => String.eqb (name s) step_name) step_configs with
          | Some original_step_config =>
              if fail_on_error original_step_config
              then (ex, Some (DAGExecutionError step_name e))
              else (ex, None)
          | None => (ex, None)
          end
        else (ex, None)
    end in
  match dict_del tasks step_name with
  | Some tasks' => (ex, tasks', raised)
  | None => (ex, tasks, Some (KeyError step_name))
  end.

(** ** The two phases *)

Definition with_run (ex : DAGExecutor) (step_configs : list StepConfig)
    (parsed : list (string * list ParsedDependency)) (st : DAGState)
    (context : loc) : DAGExecutor :=
  {| max_workers := max_workers ex;
     has_checkpoint_manager := has_checkpoint_manager ex;
     _state := st;
     _suspend_context := _suspend_context ex;
     _parsed_dependencies := parsed;
     _steps := step_configs;
     _current_context := Some context;
     store := store ex;
     events := events ex |}.

(** The context view handed to the readiness test: [get_data()]. *)
Definition context_data (ex : DAGExecutor) : result (gmap string pyval) :=
  match _current_context ex with
  | None => raise assertion_error
  | Some ctx => any_get_data (store ex) ctx
  end.

(** [for step in ready_steps: task = self._create_step_task(step) ...] of the
    normal phase: a critical set-up failure ends the loop by raising. *)
Fixpoint start_tasks (W : World) (ex : DAGExecutor) (ready_steps : list StepConfig)
    (tasks : list (string * Task))
    : DAGExecutor * list (string * Task) * option exn :=
  match ready_steps with
  | [] => (ex, tasks, None)
  | step :: rest =>
      match _create_step_task W ex step with
      | (ex', inl e) => (ex', tasks, Some e)
      | (ex', inr (Some task)) =>
          start_tasks W ex' rest (dict_set tasks (name step) task)
      | (ex', inr None) => start_tasks W ex' rest tasks
      end
  end.

(** The same loop in the finally phase: every exception is collected. *)
Fixpoint start_finally_tasks (W : World) (ex : DAGExecutor)
    (ready_steps : list StepConfig) (tasks : list (string * Task))
    (finally_errors : list exn)
    : DAGExecutor * list (string * Task) * list exn :=
  match ready_steps with
  | [] => (ex, tasks, finally_errors)
  | step :: rest =>
      match _create_step_task W ex step with
      | (ex', inl e) =>
          start_finally_tasks W ex' rest tasks (finally_errors ++ [e])%list
      | (ex', inr (Some task)) =>
          start_finally_tasks W ex' rest (dict_set tasks (name step) task)
            finally_errors
      | (ex', inr None) => start_finally_tasks W ex' rest tasks finally_errors
      end
  end.

(** [asyncio.wait(tasks.values(), return_when=FIRST_COMPLETED)]: a non-empty
    set of the tasks in flight, here the ones the world names (each once), or
    the first task when it names none of them. *)
Definition done_tasks (W : World) (tasks : list (string * Task)) : list string :=
  let names := map fst tasks in
  match List.filter (fun n => existsb (String.eqb n) names)
          (remove_dups (wait W names)) with
  | [] => firstn 1 names
  | done => done
  end.

(** [for task in done: await self._process_completed_task(...)] of the normal
    phase: the first exception ends the loop. *)
Fixpoint process_done (W : World) (ex : DAGExecutor) (done : list string)
    (step_configs : list StepConfig) (tasks : list (string * Task))
    : DAGExecutor * list (string * Task) * option exn :=
  match done with
  | [] => (ex, tasks, None)
  | n :: rest =>
      match dict_get tasks n with
      | None => process_done W ex rest step_configs tasks
      | Some task =>
          match _process_completed_task W ex n task step_configs tasks with
          | (ex', tasks', Some e) => (ex', tasks', Some e)
          | (ex', tasks', None) => process_done W ex' rest step_configs tasks'
          end
      end
  end.

(** The same loop in the finally phase: every exception is collected. *)
Fixpoint process_done_finally (W : World) (ex : DAGExecutor) (done : list string)
    (step_configs : list StepConfig) (tasks : list (string * Task))
    (finally_errors : list exn)
    : DAGExecutor * list (string * Task) * list exn :=
  match done with
  | [] => (ex, tasks, finally_errors)
  | n :: rest =>
      match dict_get tasks n with
      | None => process_done_finally W ex rest step_configs tasks finally_errors
      | Some task =>
          match _process_completed_task W ex n task step_configs tasks with
          | (ex', tasks', Some e) =>
              process_done_finally W ex' rest step_configs tasks'
                (finally_errors ++ [e])%list
          | (ex', tasks', None) =>
              process_done_finally W ex' rest step_configs tasks' finally_errors
          end
      end
  end.

(** Why a remaining step waits: on a conditional dependency whose source
    COMPLETED ([Some true]) or on a FAILED dependency ([Some false]),
    whichever dependency comes first. *)
Fixpoint waiting_reason (st : DAGState) (deps : list ParsedDependency)
    : option bool :=
  match deps with
  | [] => None
  | dep :: rest =>
      if is_conditional dep && has_status st COMPLETED (step_name dep)
      then Some true
      else if has_status st FAILED (step_name dep) then Some false
      else waiting_reason st rest
  end.

Definition waiting_on_condition (st : DAGState)
    (parsed : list (string * list ParsedDependency)) (remaining : list string)
    : list string :=
  List.filter (fun r => match waiting_reason st (deps_of parsed r) with
                        | Some true => true | _ => false end) remaining.

Definition waiting_on_failed_deps (st : DAGState)
    (parsed : list (string * list ParsedDependency)) (remaining : list string)
    : list string :=
  List.filter (fun r => match waiting_reason st (deps_of parsed r) with
                        | Some false => true | _ => false end) remaining.

Definition named_in (steps : list StepConfig) (n : string) : bool :=
  existsb (fun s => String.eqb (name s) n) steps.

Definition stalled : exn := ValueError "Pipeline stalled".

(** [_execute_normal_phase]; [None] when the iterations allowed by [fuel]
    do not suffice. *)
Fixpoint _execute_normal_phase (fuel : nat) (W : World) (ex : DAGExecutor)
    (step_configs : list StepConfig) (tasks : list (string * Task))
    : option (DAGExecutor * list (string * Task) * option exn) :=
  match fuel with
  | O => None
  | S fuel' =>
      let normal_steps := List.filter (fun s => negb (is_finally s)) step_configs in
      match context_data ex with
      | inl e => Some (ex, tasks, Some e)
      | inr data =>
          let ready_steps :=
            List.filter (fun s => is_step_ready (_state ex) (name s)
                                    (_parsed_dependencies ex) data) normal_steps in
          match ready_steps, tasks with
          | [], [] =>
              let remaining :=
                List.filter (named_in normal_steps)
                  (get_remaining_steps (_state ex)) in
              match remaining with
              | [] => Some (ex, tasks, None)
              | _ =>
                  let on_condition :=
                    waiting_on_condition (_state ex) (_parsed_dependencies ex)
                      remaining in
                  let on_failed :=
                    waiting_on_failed_deps (_state ex) (_parsed_dependencies ex)
                      remaining in
                  match (on_condition ++ on_failed)%list with
                  | [] => Some (ex, tasks, Some stalled)
                  | to_skip =>
                      Some (with_state ex
                              (fold_left mark_step_skipped to_skip (_state ex)),
                            tasks, None)
                  end
              end
          | _, _ =>
              match start_tasks W ex ready_steps tasks with
              | (ex1, tasks1, Some e) => Some (ex1, tasks1, Some e)
              | (ex1, [], None) =>
                  _execute_normal_phase fuel' W (emit ex1 (AsyncSleep 0.01))
                    step_configs []
              | (ex1, tasks1, None) =>
                  match process_done W ex1 (done_tasks W tasks1) step_configs
                          tasks1 with
                  | (ex2, tasks2, Some e) => Some (ex2, tasks2, Some e)
                  | (ex2, tasks2, None) =>
                      _execute_normal_phase fuel' W ex2 step_configs tasks2
                  end
              end
          end
      end
  end.

(** The [while True] of [_execute_finally_phase]. *)
Fixpoint finally_loop (fuel : nat) (W : World) (ex : DAGExecutor)
    (finally_steps step_configs : list StepConfig) (tasks : list (string * Task))
    (finally_errors : list exn)
    : option (DAGExecutor * list (string * Task) * list exn) :=
  match fuel with
  | O => None
  | S fuel' =>
      let ready_steps :=
        List.filter (fun s => is_step_ready_for_finally (_state ex) (name s)
                                (_parsed_dependencies ex)) finally_steps in
      match ready_steps, tasks with
      | [], [] => Some (ex, tasks, finally_errors)
      | _, _ =>
          match start_finally_tasks W ex ready_steps tasks finally_errors with
          | (ex1, [], errs1) =>
              finally_loop fuel' W (emit ex1 (AsyncSleep 0.01)) finally_steps
                step_configs [] errs1
          | (ex1, tasks1, errs1) =>
              match process_done_finally W ex1 (done_tasks W tasks1) step_configs
                      tasks1 errs1 with
              | (ex2, tasks2, errs2) =>
                  finally_loop fuel' W ex2 finally_steps step_configs tasks2 errs2
              end
          end
      end
  end.

(** After the loop: the error of every finally step that is FAILED. *)
Definition failed_finally_errors (st : DAGState) (finally_steps : list StepConfig)
    : list exn :=
  flat_map
    (fun step =>
       if has_status st FAILED (name step)
       then match step_state st (name step) with
            | Some {| error := Some e |} => [e]
            | _ => [GenericException ("Finally step '" ++ name step ++ "' failed")]
            end
       else [])
    finally_steps.

(** [_execute_finally_phase] *)
Definition _execute_finally_phase (fuel : nat) (W : World) (ex : DAGExecutor)
    (step_configs : list StepConfig) (tasks : list (string * Task))
    : option (DAGExecutor * list (string * Task) * result (list exn)) :=
  match List.filter is_finally step_configs with
  | [] => Some (ex, tasks, ret [])
  | finally_steps =>
      match finally_loop fuel W ex finally_steps step_configs tasks [] with
      | None => None
      | Some (ex', tasks', finally_errors) =>
          Some (ex', tasks',
                ret (finally_errors
                       ++ failed_finally_errors (_state ex') finally_steps)%list)
      end
  end.

(** ** Suspension checkpoint *)

(** [getattr(context, "task_id", None)]: a missing attribute gives [None],
    any other exception propagates. *)
Definition task_id_or_none (σ : Store) (ctx : option loc) : result (option string) :=
  match ctx with
  | None => ret None
  | Some c =>
      match any_task_id σ c with
      | inr t => ret (Some t)
      | inl (RuntimeError m) => raise (RuntimeError m)
      | inl _ => ret None
      end
  end.

Definition pipeline_id_or_unknown (σ : Store) (ctx : option loc) : string :=
  match ctx with
  | Some c =>
      match σ !! c with
      | Some (PipelineContextObject pc) => default "unknown" (pipeline_id pc)
      | Some (ExecutionContextObject d) =>
          match wrapped_of σ d with
          | inr (Some (_, pc)) => default "unknown" (pipeline_id pc)
          | _ => "unknown"
          end
      | _ => "unknown"
      end
  | None => "unknown"
  end.

(** The data of the first suspended step, when its name is not empty. *)
Definition first_suspend_info (sc : SuspendContext) : pyval :=
  match suspend_data sc with
  | (first_step, info) :: _ => if str_truthy first_step then info else VNone
  | [] => VNone
  end.

(** [_create_suspension_checkpoint] *)
Definition _create_suspension_checkpoint (W : World) (ex : DAGExecutor)
    : DAGExecutor * option exn :=
  match has_checkpoint_manager ex, _suspend_context ex with
  | true, Some sc =>
      match running_steps (_state ex) with
      | _ :: _ => (ex, None)
      | [] =>
          match task_id_or_none (store ex) (_current_context ex) with
          | inl e => (ex, Some e)
          | inr None => (ex, None)
          | inr (Some tid) =>
              if negb (str_truthy tid) then (ex, None)
              else
                match new_checkpoint_id W tid,
                      context_data ex with
                | inl e, _ => (ex, Some e)
                | inr cid, snapshot =>
                    let cp :=
                      {| checkpoint_id := cid;
                         cp_task_id := tid;
                         cp_pipeline_id :=
                           pipeline_id_or_unknown (store ex) (_current_context ex);
                         dag_state_snapshot := _state ex;
                         context_snapshot :=
                           match snapshot with inr d => d | inl _ => ∅ end;
                         suspended_at_steps := suspended_steps sc;
                         cp_suspend_reasons := suspend_reasons sc;
                         cp_suspend_data := suspend_data sc |} in
                    (emit ex (CheckpointWritten cp),
                     Some (PipelineSuspendedException cid (suspended_steps sc)
                             (first_suspend_info sc)))
                end
          end
      end
  | _, _ => (ex, None)
  end.

(** ** [executeDAG] *)

(** A restored state is kept, and the declared steps it lacks are added as
    PENDING at the end. *)
Definition add_missing_steps (st : DAGState) (step_configs : list StepConfig)
    : DAGState :=
  fold_left
    (fun st step =>
       if has_step st (name step) then st
       else {| steps := steps st;
               step_states := (step_states st ++ [(name step, pending_state)])%list;
               step_numbers :=
                 (step_numbers st
                    ++ [(name step, S (length (step_numbers st)))])%list;
               finished := finished st |})
    step_configs st.

Definition initial_state (st : DAGState) (step_configs : list StepConfig)
    : DAGState :=
  match steps st with
  | [] => start_execution (new_DAGState step_configs)
  | _ => add_missing_steps st step_configs
  end.

(** The [finally] block of [executeDAG]: the execution is marked finished and,
    when the suspend context names suspended steps, the checkpoint is
    attempted; an exception it raises replaces the one in flight. *)
Definition finish_run (W : World) (ex : DAGExecutor) (in_flight : option exn)
    : DAGExecutor * option exn :=
  let ex := with_state ex (finish_execution (_state ex)) in
  let attempt_checkpoint :=
    match _suspend_context ex with
    | Some sc => match suspended_steps sc with [] => false | _ => true end
    | None => false
    end in
  if attempt_checkpoint
  then match _create_suspension_checkpoint W ex with
       | (ex', Some e) => (ex', Some e)
       | (ex', None) => (emit ex' (Log "pipeline_summary"), in_flight)
       end
  else (emit ex (Log "pipeline_summary"), in_flight).

(** What the two phases leave to raise: the aggregate of their errors. *)
Definition aggregate (normal_phase_error : option exn) (finally_errors : list exn)
    : option exn :=
  match normal_phase_error, finally_errors with
  | None, [] => None
  | _, _ => Some (PipelineExecutionError normal_phase_error finally_errors)
  end.

Definition executeDAG (fuel : nat) (W : World) (ex : DAGExecutor) (context : loc)
    (step_configs : list StepConfig) : option (DAGExecutor * option exn) :=
  match validate_steps W step_configs with
  | inl e => Some (ex, Some e)
  | inr parsed =>
      let st := initial_state (_state ex) step_configs in
      match resolve_connections W step_configs with
      | Some e =>
          Some (with_state ex st,
                Some (ValueError "Pipeline connection resolution failed"))
      | None =>
          let ex := with_run ex step_configs parsed st context in
          match _execute_normal_phase fuel W ex step_configs [] with
          | None => None
          | Some (ex1, tasks1, normal_phase_error) =>
              match _execute_finally_phase fuel W ex1 step_configs tasks1 with
              | None => None
              | Some (ex2, tasks2, r) =>
                  let finally_errors :=
                    match r with inr errs => errs | inl e => [e] end in
                  Some (finish_run W ex2 (aggregate normal_phase_error finally_errors))
              end
          end
      end
  end.

(** ** Resuming from a checkpoint *)

(** Modelled from the spec: [restore_dag_state] and [restore_context] of the
    checkpoint manager (not among the sources), after section 4.8:
    [restore_dag_state] gives back the snapshot of the state,
    [restore_context] populates the context with the snapshot of the data. *)
Definition restore_dag_state (cp : Checkpoint) : DAGState := dag_state_snapshot cp.
Definition restore_context (cp : Checkpoint) (σ : Store) (context : loc)
    : result Store :=
  any_update σ context (context_snapshot cp).

(** [context[f"{step_name}_resume_data"] = step_data] for every entry of the
    context's [resume_data]. *)
Fixpoint inject_entries (σ : Store) (context : loc)
    (entries : list (string * pyval)) : result Store :=
  match entries with
  | [] => ret σ
  | (step_name, step_data) :: rest =>
      σ' ← any_setitem σ context (step_name ++ "_resume_data") step_data;
      inject_entries σ' context rest
  end.

Definition inject_resume_data (σ : Store) (context : loc) : result Store :=
  match σ !! context with
  | Some (ExecutionContextObject d) =>
      match d !! "resume_data" with
      | Some (VDict entries) => inject_entries σ context entries
      | _ => ret σ
      end
  | _ => ret σ
  end.

(** The transcript rebuilt from the collected data. *)
Definition add_answer (str : pyval -> string) (collected_data : pyval)
    (key question : string) (transcript : string) : result string :=
  present ← py_in key collected_data;
  if present : bool then
    answer ← py_subscript collected_data key;
    ret (transcript ++ "Assistant: " ++ question ++ nl ++ nl
           ++ "User: " ++ str answer ++ nl ++ nl)
  else ret transcript.

Definition rebuild_transcript (str : pyval -> string) (collected_data : pyval)
    : result string :=
  t ← ret ("User: I need to collect some information from you." ++ nl ++ nl);
  t ← add_answer str collected_data "full_name" "What is your full name?" t;
  t ← add_answer str collected_data "email" "What is your email address?" t;
  t ← add_answer str collected_data "physical_address"
        "What is your physical address?" t;
  t ← add_answer str collected_data "birth_date" "What is your birth date?" t;
  ret (t ++ "Assistant: Thank you! I have collected all the required information.").

Definition step_output (transcript : string) (collected_data : pyval) : pyval :=
  VDict [("transcript", VStr transcript);
         ("response", VStr "Successfully collected all required information.");
         ("metadata", VDict [("collected_data", collected_data);
                             ("pipeline_resumed", VBool true)])].

(** The completion branch: the output is set when the resume data holds
    [collected_data], and the step is marked completed. *)
Definition complete_from_resume_data (W : World) (ex : DAGExecutor) (context : loc)
    (step_name : string) (entries : list (string * pyval))
    : DAGExecutor * option exn :=
  let written :=
    match assoc_get "collected_data" entries with
    | Some collected_data =>
        transcript ← rebuild_transcript (py_str W) collected_data;
        any_setitem (store ex) context step_name
          (step_output transcript collected_data)
    | None => ret (store ex)
    end in
  match written with
  | inl e => (ex, Some e)
  | inr σ =>
      let ex := with_store ex σ in
      let ex := with_state ex
                  (mark_step_completed_from_suspension (_state ex) step_name true) in
      let ex :=
        match _suspend_context ex with
        | Some sc =>
            with_suspend_context ex
              (Some {| suspended_steps :=
                         List.filter (fun n => negb (String.eqb n step_name))
                           (suspended_steps sc);
                       suspend_data := suspend_data sc;
                       suspend_reasons := suspend_reasons sc |})
        | None => ex
        end in
      (ex, None)
  end.

(** The other branch: the error is cleared and the step is marked resumed. *)
Definition retry_after_resume (ex : DAGExecutor) (step_name : string)
    : DAGExecutor * option exn :=
  match step_state (_state ex) step_name with
  | None => (ex, Some (KeyError step_name))
  | Some x =>
      let st :=
        match error x with
        | Some _ => clear_step_error (_state ex) step_name
        | None => _state ex
        end in
      (with_state ex (mark_step_resumed st step_name), None)
  end.

(** [isinstance(step_resume_data, dict) and step_resume_data.get("complete")],
    and the entries of the resume data when it is a dict. *)
Definition completed_during_suspension (step_resume_data : pyval) : bool :=
  match step_resume_data with
  | VDict entries => truthy (default VNone (assoc_get "complete" entries))
  | _ => false
  end.
Definition dict_entries (v : pyval) : list (string * pyval) :=
  match v with VDict entries => entries | _ => [] end.

(** The body of [for step_name in checkpoint.suspended_at_steps]. *)
Definition resume_suspended_step (W : World) (ex : DAGExecutor) (context : loc)
    (step_name : string) : DAGExecutor * option exn :=
  let resume_data_key := step_name ++ "_resume_data" in
  match any_contains (store ex) context resume_data_key with
  | inl e => (ex, Some e)
  | inr false => (ex, None)
  | inr true =>
      match any_getitem (store ex) context resume_data_key with
      | inl e => (ex, Some e)
      | inr (VDict entries) =>
          if truthy (default VNone (assoc_get "complete" entries))
          then complete_from_resume_data W ex context step_name entries
          else retry_after_resume ex step_name
      | inr _ => retry_after_resume ex step_name
      end
  end.

Fixpoint resume_suspended_steps (W : World) (ex : DAGExecutor) (context : loc)
    (suspended : list string) : DAGExecutor * option exn :=
  match suspended with
  | [] => (ex, None)
  | step_name :: rest =>
      match resume_suspended_step W ex context step_name with
      | (ex', Some e) => (ex', Some e)
      | (ex', None) => resume_suspended_steps W ex' context rest
      end
  end.

(** [resume_from_checkpoint] *)
Definition resume_from_checkpoint (fuel : nat) (W : World) (ex : DAGExecutor)
    (context : loc) (step_configs : list StepConfig) (cid : option string)
    : option (DAGExecutor * option exn) :=
  if negb (has_checkpoint_manager ex)
  then Some (ex, Some (ValueError "Checkpoint manager not configured"))
  else
    match any_task_id (store ex) context with
    | inl e => Some (ex, Some e)
    | inr tid =>
        match load_checkpoint W tid cid with
        | None => Some (ex, Some (ValueError "Checkpoint not found"))
        | Some checkpoint =>
            if negb (start_resume W (checkpoint_id checkpoint))
            then Some (ex, Some (RuntimeError "Another resume is already in progress"))
            else
              let ex := with_state ex (restore_dag_state checkpoint) in
              match (σ ← restore_context checkpoint (store ex) context;
                     inject_resume_data σ context) with
              | inl e => Some (ex, Some e)
              | inr σ =>
                  let ex := with_suspend_context (with_store ex σ)
                              (Some new_SuspendContext) in
                  match resume_suspended_steps W ex context
                          (suspended_at_steps checkpoint) with
                  | (ex', Some e) => Some (ex', Some e)
                  | (ex', None) => executeDAG fuel W ex' context step_configs
                  end
              end
        end
    end.

(** ** Reading the events *)

(** The attempts at which plugins were invoked, and the pauses, in order. *)
Definition invocations (evs : list Event) : list (string * Z) :=
  omap (fun ev => match ev with Invoke s a => Some (s, a) | _ => None end) evs.
Definition sleeps (evs : list Event) : list Q :=
  omap (fun ev => match ev with AsyncSleep q => Some q | _ => None end) evs.

(** The events of [retries + 1] attempts from [attempt] on that each end in a
    retryable error: RUNNING is reported and the plugin invoked, and every
    attempt but the last is followed by a pause of [RETRY_DELAY * (attempt + 1)]. *)
Fixpoint retry_trace (step : string) (retries : nat) (attempt : Z) : list Event :=
  match retries with
  | O => [Progress step RUNNING None; Invoke step attempt]
  | S retries' =>
      Progress step RUNNING None :: Invoke step attempt
        :: AsyncSleep (Qmult RETRY_DELAY (inject_Z (attempt + 1)))
        :: retry_trace step retries' (attempt + 1)
  end.

(** The plugin of [step] raises a retryable error at every attempt. *)
Definition always_retryable (W : World) (ctx : loc) (step : StepConfig) : Prop :=
  forall σ attempt,
    exists m, before_invoke (snd (run_plugin W σ ctx step attempt)) = None /\
              invoked (snd (run_plugin W σ ctx step attempt))
                = inl (RetryablePluginError m).

(** [ex'] is [ex] later in the same run: the same executor set-up, and no
    more pending steps than before. *)
Definition steady (ex ex' : DAGExecutor) : Prop :=
  _current_context ex' = _current_context ex /\
  has_checkpoint_manager ex' = has_checkpoint_manager ex /\
  _parsed_dependencies ex' = _parsed_dependencies ex /\
  _steps ex' = _steps ex /\
  max_workers ex' = max_workers ex /\
  steps (_state ex') = steps (_state ex) /\
  (pending_count (_state ex') <= pending_count (_state ex))%nat.

(** The measure that bounds the iterations of a phase. *)
Definition phase_measure (ex : DAGExecutor) (tasks : list (string * Task)) : nat :=
  (2 * pending_count (_state ex) + length tasks)%nat.

End Executor.

(** * The semaphore and the tasks in flight *)

Module Concurrency.
Import Config DagState Executor.

(** Where the coroutine of a step's task is in [_run_with_retries]: before
    [async with self._semaphore] (the inputs are resolved), inside it (RUNNING
    is reported to the progress callback and the plugin is invoked), or past
    it (the output is handled, or an [except] clause runs). *)
Inductive Phase := Resolving | Invoking | Handling.

Definition is_invoking (p : Phase) : bool :=
  match p with Invoking => true | _ => false end.

(** The executor, the value of its [asyncio.Semaphore] and the coroutines of
    the tasks in flight, keyed by step name. *)
Record Scheduler := mkScheduler {
  executor : DAGExecutor;
  _semaphore : nat;
  coroutines : list (string * Phase)
}.

(** What the event loop may run next: [_create_step_task] creates the task of
    a step and marks the step RUNNING; a coroutine enters the semaphore when
    its value is positive, and leaves it, by return or by exception; the
    retry clause starts the next attempt; a task that ended is collected and
    its step marked. *)
Inductive Action :=
| CreateTask (step : string)
| Acquire (step : string)
| Release (step : string)
| Retry (step : string)
| Finish (step : string) (raised : option exn).

Definition with_coroutine (s : Scheduler) (sem : nat) (n : string) (p : Phase)
    : Scheduler :=
  {| executor := executor s; _semaphore := sem;
     coroutines := dict_set (coroutines s) n p |}.

Definition step (s : Scheduler) (a : Action) : option Scheduler :=
  match a with
  | CreateTask n =>
      match dict_get (coroutines s) n with
      | Some _ => None
      | None =>
          if has_status (_state (executor s)) PENDING n
          then Some {| executor :=
                         with_state (executor s)
                           (mark_step_running (_state (executor s)) n);
                       _semaphore := _semaphore s;
                       coroutines := dict_set (coroutines s) n Resolving |}
          else None
      end
  | Acquire n =>
      match dict_get (coroutines s) n, _semaphore s with
      | Some Resolving, S value => Some (with_coroutine s value n Invoking)
      | _, _ => None
      end
  | Release n =>
      match dict_get (coroutines s) n with
      | Some Invoking => Some (with_coroutine s (S (_semaphore s)) n Handling)
      | _ => None
      end
  | Retry n =>
      match dict_get (coroutines s) n with
      | Some Handling => Some (with_coroutine s (_semaphore s) n Resolving)
      | _ => None
      end
  | Finish n raised =>
      match dict_get (coroutines s) n, dict_del (coroutines s) n with
      | Some Resolving, Some rest | Some Handling, Some rest =>
          let st := _state (executor s) in
          Some {| executor :=
                    with_state (executor s)
                      match raised with
                      | None => mark_step_completed st n []
                      | Some e => mark_step_failed st n e
                      end;
                  _semaphore := _semaphore s;
                  coroutines := rest |}
      | _, _ => None
      end
  end.

Fixpoint run (s : Scheduler) (actions : list Action) : option Scheduler :=
  match actions with
  | [] => Some s
  | a :: rest =>
      match step s a with
      | Some s' => run s' rest
      | None => None
      end
  end.

(** The start of a run: [asyncio.Semaphore(self.max_workers)], every step
    PENDING, no task yet. *)
Definition initial (ex : DAGExecutor) (step_configs : list StepConfig) : Scheduler :=
  {| executor := with_state ex (new_DAGState step_configs);
     _semaphore := max_workers ex;
     coroutines := [] |}.

(** The steps whose coroutine is inside the semaphore. *)
Definition invoking (s : Scheduler) : list string :=
  map fst (List.filter (fun kv => is_invoking (snd kv)) (coroutines s)).

(** The permits taken: one for each coroutine inside the semaphore. *)
Definition weight (p : Phase) : nat := if is_invoking p then 1 else 0.

Definition held (l : list (string * Phase)) : nat :=
  length (List.filter (fun kv => is_invoking (snd kv)) l).

(** What every step of the scheduler preserves: the permits taken are those
    of the coroutines inside the semaphore, the tasks have distinct names,
    and the step of every task in flight has status RUNNING. *)
Definition balanced (workers : nat) (s : Scheduler) : Prop :=
  (held (coroutines s) + _semaphore s = workers)%nat /\
  NoDup (map fst (coroutines s)) /\
  forall n p, dict_get (coroutines s) n = Some p ->
              has_status (_state (executor s)) RUNNING n = true.

End Concurrency.

(** * Pipelines to run the model on *)

Module Scenarios.
Import Context Config Loop DagState Executor Concurrency.

(** An attempt that returns [out], and one whose plugin raises [e]. *)
Definition succeed (out : pyval) : Attempt :=
  {| before_invoke := None; invoked := inr out; saved_after_invoke := [];
     output_error := None; saved_after_output := [] |}.
Definition fail_with (e : exn) : Attempt :=
  {| before_invoke := None; invoked := inl e; saved_after_invoke := [];
     output_error := None; saved_after_output := [] |}.

Definition parse_dependency (d : Dependency) : ParsedDependency :=
  {| step_name := dep_step d;
     is_conditional := match when_output_equals d with Some _ => true | None => false end;
     predicate := fun _ => true |}.

(** A world for pipelines without conditional dependencies: every pipeline is
    valid, every plugin is found, a plugin behaves as [behaviour] says for the
    step and the attempt, all tasks in flight are done at each wait, and the
    checkpoint manager writes the checkpoint ["cp-" ++ task_id]. *)
Definition simple_world (behaviour : string -> Z -> Attempt) : World :=
  {| validate_steps := fun steps =>
       ret (map (fun s => (name s, map parse_dependency (depends_on s))) steps);
     resolve_connections := fun _ => None;
     get_plugin := fun _ => None;
     run_plugin := fun σ ctx step attempt => (σ, behaviour (name step) attempt);
     run_loop_body := fun pc body => (pc, None);
     py_str := fun _ => "";
     wait := fun names => names;
     new_checkpoint_id := fun tid => ret ("cp-" ++ tid);
     load_checkpoint := fun _ _ => None;
     start_resume := fun _ => true |}.

Definition plain_step (n : string) (deps : list string) (critical : bool)
    : StepConfig :=
  {| name := n; plugin := "echo";
     depends_on := map (fun d => {| dep_step := d; when_output_equals := None |}) deps;
     fail_on_error := critical; is_finally := false; config := [];
     connections := []; loop_config := None |}.

(** A new execution context for the task ["task-1"]. *)
Definition fresh_context : Store * loc := create_execution_context ∅ "task-1" ∅.

(** A new executor on that context, with [workers] workers, with or without
    a checkpoint manager. *)
Definition fresh_executor (workers : nat) (checkpoint_manager : bool) : DAGExecutor :=
  new_DAGExecutor (Some workers) None checkpoint_manager (fst fresh_context).

(** The statuses of the steps after a run. *)
Definition statuses (ex : DAGExecutor) : list (string * StepStatus) :=
  map (fun kv => (fst kv, status (snd kv))) (step_states (_state ex)).

(** Step ["A"] raises [e] at every attempt, every other step succeeds. *)
Definition only_A_raises (e : exn) : World :=
  simple_world (fun n a => if String.eqb n "A" then fail_with e else succeed VNone).

(** An executor in the middle of a run of the single step ["A"]. *)
Definition ex_running : DAGExecutor :=
  with_run (fresh_executor 1 true) [plain_step "A" [] false] []
    (new_DAGState [plain_step "A" [] false]) (snd fresh_context).

Definition finally_step (n : string) : StepConfig :=
  {| name := n; plugin := "cleanup"; depends_on := [];
     fail_on_error := true; is_finally := true; config := [];
     connections := []; loop_config := None |}.

(** Step ["A"] asks to be suspended. *)
Definition A_suspends : World :=
  only_A_raises (PluginSuspendedException "need name" VNone).

(** ["A"] alone; ["A"] and a step ["B"] that depends on it; ["A"] and a
    finally step ["Z"]. *)
Definition pipeline_A : list StepConfig := [plain_step "A" [] true].
Definition pipeline_A_then_B (critical : bool) : list StepConfig :=
  [plain_step "A" [] critical; plain_step "B" ["A"] critical].
Definition pipeline_A_finally_Z : list StepConfig :=
  [plain_step "A" [] true; finally_step "Z"].

(** What a run raised, and the executor it left. *)
Definition raised_by (r : option (DAGExecutor * option exn)) : option (option exn) :=
  option_map snd r.
Definition executor_after (r : option (DAGExecutor * option exn)) : option DAGExecutor :=
  option_map fst r.

Definition is_checkpoint (ev : Event) : bool :=
  match ev with CheckpointWritten _ => true | _ => false end.

(** The executor that a phase returned. *)
Definition executor_of
    (r : option (DAGExecutor * list (string * Task) * option exn)) : DAGExecutor :=
  match r with
  | Some (ex, _, _) => ex
  | None => fresh_executor 1 false
  end.
Definition executor_of3
    (r : option (DAGExecutor * list (string * Task) * result (list exn)))
    : DAGExecutor :=
  match r with
  | Some (ex, _, _) => ex
  | None => fresh_executor 1 false
  end.

(** The run of [pipeline_A] in the world where ["A"] suspends, phase by
    phase. *)
Definition after_normal_phase_A : DAGExecutor :=
  executor_of
    (_execute_normal_phase 10 A_suspends
       (with_run (fresh_executor 1 true) pipeline_A [("A", [])]
          (initial_state (_state (fresh_executor 1 true)) pipeline_A)
          (snd fresh_context))
       pipeline_A []).
Definition after_finally_phase_A : DAGExecutor :=
  executor_of3
    (_execute_finally_phase 10 A_suspends after_normal_phase_A pipeline_A []).

(** The run of [pipeline_A_then_B false] at the point where ["A"] has failed
    with [PluginError "boom"] and ["B"] has not been started. *)
Definition parsed_A_then_B : list (string * list ParsedDependency) :=
  [("A", []);
   ("B", [parse_dependency {| dep_step := "A"; when_output_equals := None |}])].
Definition A_failed_B_pending : DAGExecutor :=
  let ex := with_run (fresh_executor 1 true) (pipeline_A_then_B false)
              parsed_A_then_B (new_DAGState (pipeline_A_then_B false))
              (snd fresh_context) in
  with_state ex (mark_step_failed (_state ex) "A" (PluginError "boom")).

(** Two steps that depend on nothing, and an executor with one worker that
    is about to start them. *)
Definition two_independent : list StepConfig :=
  [plain_step "A" [] true; plain_step "B" [] true].
Definition one_worker : DAGExecutor :=
  with_run (fresh_executor 1 true) two_independent [("A", []); ("B", [])]
    (new_DAGState two_independent) (snd fresh_context).

(** ** Loops *)

(** A pipeline context in which ["go"] is true, ["items"] is the list
    [1, 2, 3] and ["nothing"] is the empty list, alone in its store. *)
Definition loop_pipeline_context : PipelineContext :=
  mkPipelineContext "task-1" None
    {[ "go" := VBool true;
       "items" := VList [VInt 1; VInt 2; VInt 3];
       "nothing" := VList [] ]}
    [] None None.
Definition loop_store : Store := {[ 1%positive := PipelineContextObject loop_pipeline_context ]}.

(** The loop step ["L"] with the loop configuration [cfg] and no body of its
    own, and an executor that has just started it on that context. *)
Definition loop_step (cfg : LoopConfig) : StepConfig :=
  {| name := "L"; plugin := "echo"; depends_on := []; fail_on_error := true;
     is_finally := false; config := []; connections := [];
     loop_config := Some cfg |}.
Definition loop_executor (cfg : LoopConfig) : DAGExecutor :=
  with_store
    (with_run (fresh_executor 1 false) [loop_step cfg] [("L", [])]
       (mark_step_running (new_DAGState [loop_step cfg]) "L") 1%positive)
    loop_store.

(** While ["go"] is truthy, at most twice; and once for each element of the
    list at [key]. *)
Definition while_go : LoopConfig :=
  {| body := []; collection := None; count := None; condition := Some "go";
     item_name := None; index_name := None; result_name := None; delay := 0;
     fail_fast := false; max_iterations := 2 |}.
Definition for_each (key : string) : LoopConfig :=
  {| body := []; collection := Some key; count := None; condition := None;
     item_name := Some "n"; index_name := None; result_name := None; delay := 0;
     fail_fast := false; max_iterations := 100 |}.

(** A world whose loop bodies leave the context as it is. *)
Definition idle_world : World := simple_world (fun _ _ => succeed VNone).

(** ** Resuming *)

(** The checkpoint written when ["A"], the only step, suspended. *)
Definition checkpoint_A : Checkpoint :=
  {| checkpoint_id := "cp-task-1"; cp_task_id := "task-1";
     cp_pipeline_id := "unknown";
     dag_state_snapshot := mark_step_suspended (new_DAGState pipeline_A) "A";
     context_snapshot := ∅;
     suspended_at_steps := ["A"];
     cp_suspend_reasons := [("A", "need name")];
     cp_suspend_data := [("A", VNone)] |}.

(** A world that holds this checkpoint and in which every plugin succeeds. *)
Definition resuming_world : World :=
  {| validate_steps := validate_steps idle_world;
     resolve_connections := resolve_connections idle_world;
     get_plugin := get_plugin idle_world;
     run_plugin := run_plugin idle_world;
     run_loop_body := run_loop_body idle_world;
     py_str := py_str idle_world;
     wait := wait idle_world;
     new_checkpoint_id := new_checkpoint_id idle_world;
     load_checkpoint := fun _ _ => Some checkpoint_A;
     start_resume := fun _ => true |}.

(** An executor with a checkpoint manager, on the fresh context after
    [context.resume_data = resume_data] when resume data is given. *)
Definition resuming_executor (resume_data : option pyval) : DAGExecutor :=
  let σ := fst fresh_context in
  new_DAGExecutor (Some 1%nat) None true
    match resume_data with
    | None => σ
    | Some v =>
        match __setattr__ σ (snd fresh_context) "resume_data" v with
        | inr σ' => σ'
        | inl _ => σ
        end
    end.

(** ["A"] is reported complete, without any collected data. *)
Definition A_complete : pyval :=
  VDict [("A", VDict [("complete", VBool true)])].

(** The executor of a resume, once the state is restored and the resume data
    is injected into the context. *)
Definition restored_executor (resume_data : option pyval) : DAGExecutor :=
  let ex := resuming_executor resume_data in
  with_state
    (with_store ex
       match inject_resume_data (store ex) (snd fresh_context) with
       | inr σ => σ
       | inl _ => store ex
       end)
    (restore_dag_state checkpoint_A).

End Scenarios.

(** * More of the artifact manager *)

Module ArtifactsMore.
Import Artifacts.

(** The directory of a command: [base_dir / task_id], then [/ subdir] when
    the subdirectory is given and not empty. *)
Definition task_dir_of (self : ArtifactCommandHandler) (tid : string)
    (sub : option string) : Path :=
  if opt_truthy sub
  then joinpath (joinpath (PurePath (base_dir self)) tid) (default "" sub)
  else joinpath (PurePath (base_dir self)) tid.

(** Disks to try the handler on: one whose first write fails (the state
    counts the writes so far), with directories that can always or never be
    made. *)
Definition flaky_write (n : nat) (p : Path) (c : pyval) : nat * option exn :=
  (S n, match n with O => Some (OSError "disk busy") | S _ => None end).
Definition mkdir_any (n : nat) (p : Path) : nat * option exn := (n, None).
Definition mkdir_denied (n : nat) (p : Path) : nat * option exn :=
  (n, Some (OSError "permission denied")).
Definition exists_any (n : nat) (p : Path) : bool := true.

(** A disk whose first write finds no directory. *)
Definition missing_write (n : nat) (p : Path) (c : pyval) : nat * option exn :=
  (S n, match n with
        | O => Some (FileNotFoundError "[Errno 2] No such file or directory")
        | S _ => None
        end).

End ArtifactsMore.

(** * Artifacts on disk ([src/core/artifact_manager.py]) *)

Module ArtifactDisk.
Import Artifacts ArtifactsMore.

(** The file system below the working directory and the root: the
    directories that were made, and the files with their bytes, at their
    canonical paths (no part [".."], except at the front of a path that
    leads above the working directory).  The working directory, its
    ancestors and the root exist; there are no links. *)
Record FS := mkFS {
  dirs : gset Path;
  files : gmap Path (list Byte.byte)
}.

Definition above_cwd (p : Path) : bool := forallb (String.eqb "..") p.

Definition is_file (fs : FS) (p : Path) : bool :=
  bool_decide (is_Some (files fs !! p)).
Definition is_dir (fs : FS) (p : Path) : bool :=
  above_cwd p
  || match p with [part] => is_root part | _ => false end
  || bool_decide (p ∈ dirs fs).

(** The directory above a directory. *)
Definition up (p : Path) : Path :=
  if above_cwd p then (p ++ [".."])%list
  else match p with
       | [part] => if is_root part then p else []
       | _ => removelast p
       end.

(** The errors of the operating system, as [str] shows them. *)
Definition ENOENT (p : Path) : exn :=
  FileNotFoundError ("[Errno 2] No such file or directory: " ++ py_quote (path_str p)).
Definition ENOTDIR (p : Path) : exn :=
  NotADirectoryError ("[Errno 20] Not a directory: " ++ py_quote (path_str p)).
Definition EISDIR (p : Path) : exn :=
  OSError ("[Errno 21] Is a directory: " ++ py_quote (path_str p)).
Definition EEXIST (p : Path) : exn :=
  OSError ("[Errno 17] File exists: " ++ py_quote (path_str p)).

(** Where the parts [parts] lead from the directory [acc]: every part but
    the last must lead to a directory; [whole] is the path that is being
    looked up. *)
Fixpoint resolve (fs : FS) (whole acc : Path) (parts : list string) : result Path :=
  match parts with
  | [] => ret acc
  | part :: rest =>
      let next := if String.eqb part ".." then up acc else (acc ++ [part])%list in
      match rest with
      | [] => ret next
      | _ =>
          if is_dir fs next then resolve fs whole next rest
          else if is_file fs next then raise (ENOTDIR whole)
          else raise (ENOENT whole)
      end
  end.

(** Where a path leads, from the root when it is absolute and from the
    working directory otherwise. *)
Definition locate (fs : FS) (p : Path) : result Path :=
  match p with
  | part :: rest => if is_root part then resolve fs p [part] rest else resolve fs p [] p
  | [] => ret []
  end.

(** [Path.exists()], [Path.is_dir()] and [Path.is_file()] *)
Definition path_exists (fs : FS) (p : Path) : bool :=
  match locate fs p with
  | inr c => is_dir fs c || is_file fs c
  | inl _ => false
  end.
Definition path_is_dir (fs : FS) (p : Path) : bool :=
  match locate fs p with
  | inr c => is_dir fs c
  | inl _ => false
  end.
Definition path_is_file (fs : FS) (p : Path) : bool :=
  match locate fs p with
  | inr c => is_file fs c
  | inl _ => false
  end.

(** [os.mkdir(p)] *)
Definition os_mkdir (fs : FS) (p : Path) : FS * option exn :=
  match locate fs p with
  | inl e => (fs, Some e)
  | inr c =>
      if is_dir fs c || is_file fs c then (fs, Some (EEXIST p))
      else ({| dirs := dirs fs ∪ {[c]}; files := files fs |}, None)
  end.

(** [Path.mkdir(parents=True, exist_ok=True)]: when [os.mkdir] finds no
    directory to make the new one in, the parent is made first, in the same
    way; any other error is forgiven when the path is a directory.  [n]
    bounds the number of parents. *)
Fixpoint mkdir_parents (n : nat) (fs : FS) (p : Path) : FS * option exn :=
  match os_mkdir fs p with
  | (fs', None) => (fs', None)
  | (_, Some (FileNotFoundError m)) =>
      match n with
      | S n' =>
          if bool_decide (parent p = p) then (fs, Some (FileNotFoundError m))
          else
            match mkdir_parents n' fs (parent p) with
            | (fs1, Some e) => (fs1, Some e)
            | (fs1, None) =>
                match os_mkdir fs1 p with
                | (fs2, None) => (fs2, None)
                | (_, Some (FileNotFoundError m')) => (fs1, Some (FileNotFoundError m'))
                | (_, Some e) =>
                    if path_is_dir fs1 p then (fs1, None) else (fs1, Some e)
                end
            end
      | O => (fs, Some (FileNotFoundError m))
      end
  | (_, Some e) => if path_is_dir fs p then (fs, None) else (fs, Some e)
  end.

Definition mkdir (fs : FS) (p : Path) : FS * option exn :=
  mkdir_parents (length p) fs p.

(** [path.open("w")] or [path.open("wb")] followed by writing [data]. *)
Definition open_write (fs : FS) (p : Path) (data : list Byte.byte)
    : FS * option exn :=
  match locate fs p with
  | inl e => (fs, Some e)
  | inr c =>
      if is_dir fs c then (fs, Some (EISDIR p))
      else ({| dirs := dirs fs; files := <[c := data]> (files fs) |}, None)
  end.

(** [path.open("r")] or [path.open("rb")] followed by [read()], before any
    decoding. *)
Definition open_read (fs : FS) (p : Path) : result (list Byte.byte) :=
  c ← locate fs p;
  if is_dir fs c then raise (EISDIR p)
  else match files fs !! c with
       | Some data => ret data
       | None => raise (ENOENT p)
       end.

(** [str.endswith] *)
Definition endswith (s suffix : string) : bool :=
  Nat.leb (String.length suffix) (String.length s)
  && String.eqb
       (String.substring (String.length s - String.length suffix) (String.length suffix) s)
       suffix.

(** [fs'] has the directories of [fs], and maybe more. *)
Definition dirs_grow (fs fs' : FS) : Prop :=
  forall q, is_dir fs q = true -> is_dir fs' q = true.

(** No file of [fs] has become a directory in [fs']. *)
Definition files_stay (fs fs' : FS) : Prop :=
  forall q, is_file fs q = true -> is_dir fs' q = is_dir fs q.

(** What making directories does: it touches no file, keeps the
    directories there are, makes no file a directory and, when it raises
    nothing, leaves the path a directory. *)
Definition mkdir_post (fs : FS) (p : Path) (fs' : FS) (e : option exn) : Prop :=
  files fs' = files fs /\ dirs_grow fs fs' /\ files_stay fs fs' /\
  (e = None -> path_is_dir fs' p = true).

Section Codec.
(** [json.dump(content, f, indent=2)]: the bytes it wrote to the file and the
    exception it raised, if any; [json.load]; writing and reading a [str]
    through a file opened with [encoding="utf-8"]. *)
Variable json_dump : pyval -> list Byte.byte * option exn.
Variable json_load : list Byte.byte -> result pyval.
Variable encode : string -> list Byte.byte.
Variable decode : list Byte.byte -> result string.

(** What [_save_to_disk_handler] does with the file, by the type of the
    content. *)
Definition write_file (fs : FS) (p : Path) (c : pyval) : FS * option exn :=
  match c with
  | VDict _ | VList _ =>
      let '(text, raised) := json_dump c in
      match open_write fs p text with
      | (fs', Some e) => (fs', Some e)
      | (fs', None) => (fs', raised)
      end
  | VStr s => open_write fs p (encode s)
  | VBytes b => open_write fs p b
  | _ => (fs, Some (ValueError "Unsupported content type"))
  end.

(** The bytes that writing the content [c] leaves in the file when nothing
    is raised. *)
Definition stored (c : pyval) (data : list Byte.byte) : Prop :=
  match c with
  | VDict _ | VList _ => json_dump c = (data, None)
  | VStr s => data = encode s
  | VBytes b => data = b
  | _ => False
  end.

(** The name says how to read back what the content says how to write: JSON
    for a dict or a list under a name in [.json], text for a string under a
    name in [.txt] or [.md], bytes under any other name; and the codec gives
    back what it was given. *)
Definition read_as_written (fname : string) (c : pyval) : Prop :=
  match c with
  | VDict _ | VList _ =>
      endswith fname ".json" = true /\
      forall data, json_dump c = (data, None) -> json_load data = inr c
  | VStr s =>
      endswith fname ".json" = false /\
      (endswith fname ".txt" || endswith fname ".md") = true /\
      decode (encode s) = inr s
  | VBytes b =>
      endswith fname ".json" = false /\
      (endswith fname ".txt" || endswith fname ".md") = false
  | _ => False
  end.

(** The name says to read the file otherwise than the content was written,
    and not as JSON. *)
Definition read_otherwise (fname : string) (c : pyval) : Prop :=
  endswith fname ".json" = false /\
  match c with
  | VDict _ | VList _ => True
  | VStr _ => (endswith fname ".txt" || endswith fname ".md") = false
  | VBytes _ => (endswith fname ".txt" || endswith fname ".md") = true
  | _ => False
  end.

(** [ArtifactManager.get_artifact_path] *)
Definition get_artifact_path (base : string) (tid fname : string)
    (sub : option string) : Path :=
  let path := joinpath (PurePath base) tid in
  let path := if opt_truthy sub then joinpath path (default "" sub) else path in
  joinpath path fname.

(** [ArtifactManager.artifact_exists] *)
Definition artifact_exists (fs : FS) (base tid fname : string)
    (sub : option string) : bool :=
  path_exists fs (get_artifact_path base tid fname sub).

(** [ArtifactManager.read_artifact_sync]: how the file is read depends on
    the extension of its name. *)
Definition read_artifact_sync (fs : FS) (base tid fname : string)
    (sub : option string) : result pyval :=
  let path := get_artifact_path base tid fname sub in
  if negb (path_exists fs path)
  then raise (FileNotFoundError ("Artifact not found: " ++ path_str path))
  else
    data ← open_read fs path;
    if endswith fname ".json" then json_load data
    else if endswith fname ".txt" || endswith fname ".md"
    then match decode data with
         | inl e => raise e
         | inr text => ret (VStr text)
         end
    else ret (VBytes data).

(** The manager's [save_artifact] on this disk. *)
Definition save (w : FS * ArtifactCommandHandler) (uuid tid fname : string)
    (c : pyval) (sub : option string) (meta : list (string * pyval)) :=
  save_artifact FS mkdir write_file path_exists w uuid tid fname c sub meta.

(** The files directly in the directory at [dir], with their names:
    [(p for p in dir.glob("*") if p.is_file())], in the order the map
    enumerates them. *)
Definition files_in (fs : FS) (dir : Path) : list (string * list Byte.byte) :=
  omap (fun kv => match last (fst kv : Path) with
                  | Some name =>
                      if bool_decide (removelast (fst kv) = dir)
                      then Some (name, snd kv) else None
                  | None => None
                  end)
       (map_to_list (files fs)).

(** [ArtifactManager.get_task_dir] *)
Definition get_task_dir (fs : FS) (base tid : string) : FS * result Path :=
  let task_dir := joinpath (PurePath base) tid in
  match mkdir fs task_dir with
  | (fs', Some e) => (fs', raise e)
  | (fs', None) => (fs', ret task_dir)
  end.

(** [ArtifactManager.list_artifacts_sync]; [uuid4 k] is the identifier drawn
    for the [k]-th command. *)
Definition list_artifacts_sync (uuid4 : nat -> string) (fs : FS)
    (base tid : string) : FS * result (list ArtifactCommand) :=
  match get_task_dir fs base tid with
  | (fs', inl e) => (fs', raise e)
  | (fs', inr task_dir) =>
      if negb (path_exists fs' task_dir) then (fs', ret [])
      else
        match locate fs' task_dir with
        | inl e => (fs', raise e)
        | inr dir =>
            (fs',
             ret (imap (fun k entry =>
                          {| operation := SAVE; task_id := tid;
                             filename := fst entry; content := VBytes (snd entry);
                             content_type := _get_content_type (VBytes (snd entry));
                             id := uuid4 k; subdir := None; metadata := [];
                             status := PENDING; error := None |})
                       (files_in fs' dir)))
        end
  end.

(** A path without a part [".."], and a string that is the name of a
    file or of a directory: one part of a path, and not [".."]. *)
Definition no_dotdot (p : Path) : Prop := ".." ∉ p.
Definition plain_name (s : string) : bool :=
  match names_of s, root_of s with
  | [part], None => String.eqb part s && negb (String.eqb s "..")
  | _, _ => false
  end.

End Codec.

(** What a listed command says of a file: its name and its content. *)
Definition listed_entry (cmd : ArtifactCommand) : string * pyval :=
  (filename cmd, content cmd).

(** An empty disk, and a codec to try things with: text is stored as its
    bytes, and the JSON codec knows one document only. *)
Definition empty_disk : FS := {| dirs := ∅; files := ∅ |}.

Definition report : pyval := VDict [("ok", VBool true)].
Definition toy_json_dump (c : pyval) : list Byte.byte * option exn :=
  (String.list_byte_of_string "{ok: true}", None).
Definition toy_json_load (data : list Byte.byte) : result pyval := ret report.
Definition toy_encode (s : string) : list Byte.byte := String.list_byte_of_string s.
Definition toy_decode (data : list Byte.byte) : result string :=
  ret (String.string_of_list_byte data).

(** Identifiers that differ from one command to the next. *)
Fixpoint toy_uuid4 (k : nat) : string :=
  match k with
  | O => "u"
  | S k' => "u" ++ toy_uuid4 k'
  end.

(** The manager on the empty disk, and after saving [report] as
    ["report.json"] for the task ["task-1"]. *)
Definition new_manager : FS * ArtifactCommandHandler :=
  (empty_disk, ArtifactManager_init "artifacts").
Definition after_report : FS * ArtifactCommandHandler :=
  fst (save toy_json_dump toy_encode new_manager
         "c-1" "task-1" "report.json" report None []).

End ArtifactDisk.

(** * More on loops ([src/core/loop_execution_strategy.py]) *)

Module LoopMore.
Import Context Config Loop.

(** What the body of an iteration raised. *)
Definition raised_of (ev : LoopEvent) : option exn :=
  match ev with
  | Iteration _ _ _ _ raised => raised
  | _ => None
  end.

Definition is_suspension (e : exn) : bool :=
  match e with
  | PipelineSuspendedException _ _ _ => true
  | _ => false
  end.

(** Some iteration raised; some iteration asked for a suspension. *)
Definition some_raised (evs : list LoopEvent) : bool :=
  existsb (fun ev => match raised_of ev with Some _ => true | None => false end) evs.
Definition some_suspended (evs : list LoopEvent) : bool :=
  existsb (fun ev => match raised_of ev with
                     | Some e => is_suspension e
                     | None => false
                     end) evs.

(** The pauses among the events. *)
Definition is_sleep (ev : LoopEvent) : bool :=
  match ev with Sleep _ => true | _ => false end.
Definition pauses (evs : list LoopEvent) : list LoopEvent :=
  List.filter is_sleep evs.

(** The loop pauses between two iterations, never after the last one. *)
Definition paced (cfg : LoopConfig) (evs : list LoopEvent) : Prop :=
  pauses evs
  = if Nat.eqb (delay cfg) 0 then []
    else repeat (Sleep (delay cfg)) (length (iterations evs) - 1).

(** The loop context with the data of the iterations that raised nothing
    merged in, in their order. *)
Fixpoint merge_successes (lc : PipelineContext) (evs : list LoopEvent)
    : PipelineContext :=
  match evs with
  | [] => lc
  | Iteration _ _ _ after None :: rest =>
      merge_successes (pc_update lc (data after)) rest
  | _ :: rest => merge_successes lc rest
  end.

(** [range(n)] with the indices of [enumerate]. *)
Definition counted (n : nat) : list (nat * pyval) :=
  map (fun i => (i, VInt (Z.of_nat i))) (seq 0 n).

(** A body to try things with: it raises on the item [1], asks for a
    suspension on the item [2], and otherwise records the item it saw. *)
Definition toy_body (ctx : PipelineContext) (steps : list StepConfig)
    : PipelineContext * option exn :=
  match data ctx !! "item" with
  | Some (VInt 1) => (pc_setitem ctx "partial" (VInt 1), Some (GenericException "boom"))
  | Some (VInt 2) =>
      (pc_setitem ctx "partial" (VInt 2),
       Some (PipelineSuspendedException "cp-1" ["body"] VNone))
  | Some v => (pc_setitem ctx "seen" v, None)
  | None => (ctx, None)
  end.

Definition toy_str (v : pyval) : string := "v".

Definition toy_body_step : StepConfig :=
  {| name := "body"; plugin := "echo"; depends_on := []; fail_on_error := false;
     is_finally := false; config := []; connections := []; loop_config := None |}.

(** A loop over the collection ["xs"], or [count] times. *)
Definition toy_loop (coll : option string) (cnt : option nat) (cond : option string)
    (ms : nat) (ff : bool) : StepConfig :=
  {| name := "loop"; plugin := "pipeline_loop"; depends_on := [];
     fail_on_error := false; is_finally := false; config := []; connections := [];
     loop_config :=
       Some {| body := [toy_body_step]; collection := coll; count := cnt;
               condition := cond; item_name := Some "item"; index_name := None;
               result_name := None; delay := ms; fail_fast := ff;
               max_iterations := 3 |} |}.

Definition toy_context (xs : list Z) : PipelineContext :=
  {| task_id := "task-1"; pipeline_id := None;
     data := {["xs" := VList (map VInt xs); "go" := VBool true]};
     saved_artifacts := []; loop_step_name := None;
     loop_iteration_index := None |}.

(** A store with one pipeline context, holding the list [xs]. *)
Definition toy_parent (xs : list Z) : Store * loc :=
  alloc ∅ (PipelineContextObject (toy_context xs)).

(** The loop context an iteration was spawned from, and the iteration
    context as its body left it. *)
Definition loop_context_of (ev : LoopEvent) (dflt : PipelineContext)
    : PipelineContext :=
  match ev with Iteration _ _ lc _ _ => lc | _ => dflt end.
Definition after_of (ev : LoopEvent) (dflt : PipelineContext) : PipelineContext :=
  match ev with Iteration _ _ _ after _ => after | _ => dflt end.

Definition toy_run (xs : list Z) (step : StepConfig)
    : Store * list LoopEvent * option exn :=
  execute_loop toy_body toy_str (fst (toy_parent xs)) (snd (toy_parent xs)) step.

End LoopMore.

(** * More on running a step ([src/core/dag_executor.py]) *)

Module ExecutorMore.
Import Context Config Loop DagState Executor Scenarios.

(** The pauses before the retries [1] to [k]: [RETRY_DELAY * 1], ...,
    [RETRY_DELAY * k] seconds. *)
Definition backoff (k : nat) : list Q :=
  map (fun i => Qmult RETRY_DELAY (inject_Z (Z.of_nat i))) (seq 1 k).

(** The attempts [0] to [k - 1] at the step. *)
Definition attempts (step : string) (k : nat) : list (string * Z) :=
  map (fun i => (step, Z.of_nat i)) (seq 0 k).

(** The plugin of [step] raises a retryable error at the attempts before
    [k], and at the attempt [k] it returns [out], with [saved] the artifacts
    saved by then. *)
Definition succeeds_at (W : World) (ctx : loc) (step : StepConfig) (k : nat)
    (out : pyval) (saved : list pyval) : Prop :=
  (forall σ i, (i < k)%nat ->
     before_invoke (snd (run_plugin W σ ctx step (Z.of_nat i))) = None /\
     exists m, invoked (snd (run_plugin W σ ctx step (Z.of_nat i)))
               = inl (RetryablePluginError m)) /\
  (forall σ,
     before_invoke (snd (run_plugin W σ ctx step (Z.of_nat k))) = None /\
     invoked (snd (run_plugin W σ ctx step (Z.of_nat k))) = inr out /\
     output_error (snd (run_plugin W σ ctx step (Z.of_nat k))) = None /\
     (saved_after_invoke (snd (run_plugin W σ ctx step (Z.of_nat k)))
        ++ saved_after_output (snd (run_plugin W σ ctx step (Z.of_nat k))))%list
     = saved).

Definition is_retryable (e : exn) : bool :=
  match e with RetryablePluginError _ => true | _ => false end.
Definition is_plugin_suspension (e : exn) : bool :=
  match e with PluginSuspendedException _ _ => true | _ => false end.

(** Step ["A"] fails with a retryable error twice, then returns [7]. *)
Definition third_time_lucky : World :=
  simple_world
    (fun n a => if Z.ltb a 2 then fail_with (RetryablePluginError "busy")
                else succeed (VInt 7)).

(** The critical step ["A"], in flight in a run of its own. *)
Definition critical_A : StepConfig := plain_step "A" [] true.
Definition ex_running_critical : DAGExecutor :=
  with_run (fresh_executor 1 true) [critical_A] []
    (mark_step_running (new_DAGState [critical_A]) "A") (snd fresh_context).

End ExecutorMore.

(** * The orchestrator ([src/core/orchestrator.py]) *)

Module Orchestrator.
Import Context.

(** [ParamDefinition] and [PipelineDefinition], with the fields that
    [_loadPipelineConfig] fills in.  A step is given here with its
    dependencies as step names: the conditional forms of a dependency belong
    to [src/core/step_config.py], which is not among the sources. *)
Record ParamDefinition := mkParamDefinition {
  param_name : string;
  required : bool;
  param_description : string;
  type : string
}.

Record StepDecl := mkStepDecl {
  name : string;
  plugin : string;
  depends_on : list string;
  fail_on_error : bool
}.

Record PipelineDefinition := mkPipelineDefinition {
  id : string;
  pipeline_name : string;
  description : string;
  params : list ParamDefinition;
  steps : list StepDecl
}.

Definition StopIteration : exn := GenericException "StopIteration".

(** [next(s for s in definition.steps if s.name == step_name)] *)
Definition find_step (steps : list StepDecl) (step_name : string) : result StepDecl :=
  match List.find (fun s => String.eqb (name s) step_name) steps with
  | Some s => ret s
  | None => raise StopIteration
  end.

(** ** [validate_pipeline] *)

(** [len({x for x in l}) != len(l)] *)
Definition has_duplicates (l : list string) : bool :=
  negb (Nat.eqb (size (list_to_set l : gset string)) (length l)).

(** The first loop: every plugin must be known to the step registry. *)
Fixpoint check_plugins (hasPlugin : string -> bool) (steps : list StepDecl)
    : result unit :=
  match steps with
  | [] => ret tt
  | step :: rest =>
      if negb (hasPlugin (plugin step))
      then raise (ValueError ("Unknown plugin '" ++ plugin step
                                ++ "' referenced in step '" ++ name step ++ "'"))
      else check_plugins hasPlugin rest
  end.

(** [for dep in step.depends_on: if dep not in step_names: raise ...] *)
Fixpoint check_known (step_names : gset string) (step : StepDecl)
    (deps : list string) : result unit :=
  match deps with
  | [] => ret tt
  | dep :: rest =>
      if negb (bool_decide (dep ∈ step_names))
      then raise (ValueError ("Step '" ++ name step
                                ++ "' depends on unknown step: '" ++ dep ++ "'"))
      else check_known step_names step rest
  end.

(** [for dep in step.depends_on: dep_step = next(...); if not
    dep_step.fail_on_error: raise ...], for a critical step. *)
Fixpoint check_critical (all_steps : list StepDecl) (step : StepDecl)
    (deps : list string) : result unit :=
  match deps with
  | [] => ret tt
  | dep :: rest =>
      dep_step ← find_step all_steps dep;
      if negb (fail_on_error dep_step)
      then raise (ValueError ("Critical step '" ++ name step
                                ++ "' cannot depend on non-critical step '"
                                ++ dep ++ "'"))
      else check_critical all_steps step rest
  end.

(** The second loop, over the steps. *)
Fixpoint check_dependencies (all_steps : list StepDecl) (step_names : gset string)
    (steps : list StepDecl) : result unit :=
  match steps with
  | [] => ret tt
  | step :: rest =>
      _ ← check_known step_names step (depends_on step);
      _ ← (if fail_on_error step
           then check_critical all_steps step (depends_on step)
           else ret tt);
      check_dependencies all_steps step_names rest
  end.

(** The sets [visited] and [rec_stack] of the cycle detection. *)
Definition DfsState : Type := (gset string * gset string)%type.

(** [for dep in step.depends_on: dfs(dep)] *)
Fixpoint visit_deps (dfs : string -> DfsState -> option (result DfsState))
    (deps : list string) (st : DfsState) : option (result DfsState) :=
  match deps with
  | [] => Some (ret st)
  | dep :: rest =>
      match dfs dep st with
      | None => None
      | Some (inl e) => Some (inl e)
      | Some (inr st') => visit_deps dfs rest st'
      end
  end.

(** The local function [dfs]; [fuel] bounds the depth of the recursion, and
    [None] says that it did not suffice. *)
Fixpoint dfs (fuel : nat) (all_steps : list StepDecl) (step_name : string)
    (st : DfsState) : option (result DfsState) :=
  match fuel with
  | O => None
  | S fuel' =>
      let '(visited, rec_stack) := st in
      if bool_decide (step_name ∈ rec_stack)
      then Some (raise (ValueError
                          ("Pipeline contains a circular dependency at step: "
                             ++ step_name)))
      else if bool_decide (step_name ∈ visited) then Some (ret st)
      else
        let visited := visited ∪ {[step_name]} in
        let rec_stack := rec_stack ∪ {[step_name]} in
        match find_step all_steps step_name with
        | inl e => Some (raise e)
        | inr step =>
            match visit_deps (dfs fuel' all_steps) (depends_on step)
                    (visited, rec_stack) with
            | None => None
            | Some (inl e) => Some (inl e)
            | Some (inr (visited, rec_stack)) =>
                Some (ret (visited, rec_stack ∖ {[step_name]}))
            end
        end
  end.

(** [for step in definition.steps: if step.name not in visited: dfs(step.name)] *)
Fixpoint detect_cycles (fuel : nat) (all_steps steps : list StepDecl) (st : DfsState)
    : option (result DfsState) :=
  match steps with
  | [] => Some (ret st)
  | step :: rest =>
      if bool_decide (name step ∈ fst st)
      then detect_cycles fuel all_steps rest st
      else
        match dfs fuel all_steps (name step) st with
        | None => None
        | Some (inl e) => Some (inl e)
        | Some (inr st') => detect_cycles fuel all_steps rest st'
        end
  end.

(** [PipelineOrchestrator.validate_pipeline]; [hasPlugin] is the step
    registry's. *)
Definition validate_pipeline (hasPlugin : string -> bool) (fuel : nat)
    (definition : PipelineDefinition) : option (result unit) :=
  let step_names : gset string := list_to_set (map name (steps definition)) in
  if has_duplicates (map name (steps definition))
  then Some (raise (ValueError "Pipeline contains duplicate step names"))
  else if has_duplicates (map param_name (params definition))
  then Some (raise (ValueError "Pipeline contains duplicate parameter names"))
  else
    match check_plugins hasPlugin (steps definition) with
    | inl e => Some (raise e)
    | inr _ =>
        match check_dependencies (steps definition) step_names (steps definition) with
        | inl e => Some (raise e)
        | inr _ =>
            match detect_cycles fuel (steps definition) (steps definition) (∅, ∅) with
            | None => None
            | Some (inl e) => Some (raise e)
            | Some (inr _) => Some (ret tt)
            end
        end
    end.

(** ** [validate_params] *)

(** [sep.join(l)] *)
Fixpoint join (sep : string) (l : list string) : string :=
  match l with
  | [] => ""
  | [x] => x
  | x :: rest => x ++ sep ++ join sep rest
  end.

(** [isinstance(value, str)], [isinstance(value, int)] (which holds for a
    [bool] too) and [isinstance(value, bool)]. *)
Definition is_str (v : pyval) : bool := match v with VStr _ => true | _ => false end.
Definition is_int (v : pyval) : bool :=
  match v with VInt _ | VBool _ => true | _ => false end.
Definition is_bool (v : pyval) : bool := match v with VBool _ => true | _ => false end.
Definition is_None (v : pyval) : bool := match v with VNone => true | _ => false end.

(** The basic type validation of one value: the entry for [invalid_types],
    if any. *)
Definition type_error (param : ParamDefinition) (value : pyval) : option string :=
  if String.eqb (type param) "string" && negb (is_str value)
  then Some (param_name param ++ " (expected string)")
  else if String.eqb (type param) "integer" && negb (is_int value)
  then Some (param_name param ++ " (expected integer)")
  else if String.eqb (type param) "boolean" && negb (is_bool value)
  then Some (param_name param ++ " (expected boolean)")
  else None.

(** The loop over the parameters, with the two lists it fills. *)
Fixpoint scan_params (σ : Store) (context : loc) (params : list ParamDefinition)
    (missing_params invalid_types : list string)
    : result (list string * list string) :=
  match params with
  | [] => ret (missing_params, invalid_types)
  | param :: rest =>
      is_missing ←
        (if required param
         then present ← any_contains σ context (param_name param);
              if negb present then ret true
              else value ← any_get σ context (param_name param) VNone;
                   ret (is_None value)
         else ret false);
      if is_missing : bool
      then scan_params σ context rest (missing_params ++ [param_name param])%list
             invalid_types
      else
        present ← any_contains σ context (param_name param);
        if present : bool
        then value ← any_getitem σ context (param_name param);
             scan_params σ context rest missing_params
               match type_error param value with
               | Some entry => (invalid_types ++ [entry])%list
               | None => invalid_types
               end
        else scan_params σ context rest missing_params invalid_types
  end.

(** [PipelineOrchestrator.validate_params] *)
Definition validate_params (σ : Store) (context : loc)
    (definition : PipelineDefinition) : result unit :=
  '(missing_params, invalid_types) ← scan_params σ context (params definition) [] [];
  match missing_params, invalid_types with
  | _ :: _, _ =>
      raise (ValueError ("Missing required parameters for pipeline '"
                           ++ id definition ++ "': " ++ join ", " missing_params))
  | [], _ :: _ =>
      raise (ValueError ("Invalid parameter types in pipeline '"
                           ++ id definition ++ "': " ++ join ", " invalid_types))
  | [], [] => ret tt
  end.

(** A required parameter is missing from the data when it has no value, or
    the value [None]. *)
Definition is_missing (data : gmap string pyval) (param : ParamDefinition) : bool :=
  required param
  && match data !! param_name param with
     | Some value => is_None value
     | None => true
     end.

(** The names of the missing parameters, and the entries for the values of
    the wrong type, in the order of the declarations. *)
Definition missing_in (data : gmap string pyval) (params : list ParamDefinition)
    : list string :=
  map param_name (List.filter (is_missing data) params).
Definition invalid_in (data : gmap string pyval) (params : list ParamDefinition)
    : list string :=
  omap (fun param =>
          if is_missing data param then None
          else match data !! param_name param with
               | Some value => type_error param value
               | None => None
               end) params.

(** ** Reading a definition *)

(** [d] is a dependency of the step named [n]. *)
Definition depends (all_steps : list StepDecl) (n d : string) : Prop :=
  exists step, find_step all_steps n = inr step /\ d ∈ depends_on step.

(** What [validate_pipeline] asks of a definition: no two steps and no two
    parameters of the same name, known plugins, dependencies on steps of the
    definition, critical steps that depend on critical steps only, and no
    step that depends on itself, directly or through other steps. *)
Definition well_formed (hasPlugin : string -> bool) (definition : PipelineDefinition)
    : Prop :=
  NoDup (map name (steps definition)) /\
  NoDup (map param_name (params definition)) /\
  (forall step, step ∈ steps definition -> hasPlugin (plugin step) = true) /\
  (forall step dep, step ∈ steps definition -> dep ∈ depends_on step ->
     exists dep_step, dep_step ∈ steps definition /\ name dep_step = dep /\
       (fail_on_error step = true -> fail_on_error dep_step = true)) /\
  (forall n, ~ tc (depends (steps definition)) n n).

(** The steps that are visited and not on the stack are done: their
    dependencies are done, and none of them depends on itself. *)
Definition done_ok (all_steps : list StepDecl) (st : DfsState) : Prop :=
  (forall v d, v ∈ fst st -> v ∉ snd st -> depends all_steps v d ->
     d ∈ fst st /\ d ∉ snd st) /\
  (forall v, v ∈ fst st -> v ∉ snd st -> ~ tc (depends all_steps) v v).

(** The exception names a step that depends on itself. *)
Definition on_a_cycle (all_steps : list StepDecl) (e : exn) : Prop :=
  exists c, e = ValueError ("Pipeline contains a circular dependency at step: " ++ c)
            /\ tc (depends all_steps) c c.

(** Pipelines to try: ["a"] then ["b"] then ["c"]; and the same with ["a"]
    depending on ["c"]. *)
Definition decl (n : string) (deps : list string) : StepDecl :=
  {| name := n; plugin := "echo"; depends_on := deps; fail_on_error := false |}.
Definition chain : PipelineDefinition :=
  {| id := "chain"; pipeline_name := "chain"; description := ""; params := [];
     steps := [decl "a" []; decl "b" ["a"]; decl "c" ["b"]] |}.
Definition ring : PipelineDefinition :=
  {| id := "ring"; pipeline_name := "ring"; description := ""; params := [];
     steps := [decl "a" ["c"]; decl "b" ["a"]; decl "c" ["b"]] |}.
Definition any_plugin (p : string) : bool := true.

(** A pipeline with a required string, an optional integer and a required
    boolean, and a context that lacks the first and gives [True] for the
    second. *)
Definition with_params : PipelineDefinition :=
  {| id := "p"; pipeline_name := "p"; description := "";
     params := [ {| param_name := "who"; required := true;
                    param_description := ""; type := "string" |};
                 {| param_name := "n"; required := false;
                    param_description := ""; type := "integer" |};
                 {| param_name := "dry"; required := true;
                    param_description := ""; type := "boolean" |} ];
     steps := [] |}.
Definition params_context : PipelineContext :=
  {| task_id := "task-1"; pipeline_id := None;
     data := {["n" := VBool true; "dry" := VNone]};
     saved_artifacts := []; loop_step_name := None; loop_iteration_index := None |}.
Definition params_store : Store :=
  {[ 1%positive := PipelineContextObject params_context ]}.

End Orchestrator.

(** * The step registry ([src/core/step_registry.py]) *)

Module StepRegistry.

(** What [getattr(plugin_class, attr, None)] finds: nothing (or [None]), a
    subclass of pydantic's [BaseModel], here by its name, or anything else. *)
Inductive Attr := NoAttr | OtherAttr | ModelAttr (model : string).

(** An object passed as a plugin class, as [register_plugin] looks at it:
    the name of its type, whether it has an [__mro__] and whether
    [PluginBase] is in it, and its four model attributes. *)
Record PluginClass := mkPluginClass {
  type_name : string;
  has_mro : bool;
  inherits_PluginBase : bool;
  InputModel : Attr;
  OutputModel : Attr;
  input : Attr;
  output : Attr
}.

(** [PluginInfo] *)
Record PluginInfo := mkPluginInfo {
  plugin_class : PluginClass;
  input_model : option string;
  output_model : option string
}.

(** [self._plugin_info] *)
Abbreviation Registry := (gmap string PluginInfo).

(** [isinstance(attr, type) and issubclass(attr, BaseModel)] *)
Definition as_model (a : Attr) : option string :=
  match a with ModelAttr m => Some m | _ => None end.

(** The PascalCase attribute first, the lowercase one as a fallback. *)
Definition resolve_model (pascal lower : Attr) : option string :=
  match as_model pascal with
  | Some m => Some m
  | None => as_model lower
  end.

(** [StepRegistry.register_plugin] *)
Definition register_plugin (reg : Registry) (name : string) (cls : PluginClass)
    : result Registry :=
  if negb (has_mro cls)
  then raise (TypeError ("Plugin '" ++ name ++ "' must be a class, got "
                           ++ type_name cls))
  else if negb (inherits_PluginBase cls)
  then raise (TypeError ("Plugin '" ++ name
                           ++ "' must be a class that inherits from PluginBase"))
  else if bool_decide (is_Some (reg !! name))
  then raise (ValueError ("Plugin '" ++ name ++ "' is already registered"))
  else
    let input_model := resolve_model (InputModel cls) (input cls) in
    let output_model := resolve_model (OutputModel cls) (output cls) in
    match input_model, output_model with
    | None, None =>
        raise (ValueError
                 ("Plugin '" ++ name
                    ++ "' must define either InputModel or OutputModel attribute. "
                    ++ "Legacy plugins without Pydantic models are no longer supported."))
    | _, _ =>
        ret (<[name := {| plugin_class := cls; input_model := input_model;
                          output_model := output_model |}]> reg)
    end.

(** [StepRegistry.register_or_override_plugin] *)
Definition register_or_override_plugin (reg : Registry) (name : string)
    (cls : PluginClass) : result Registry :=
  let input_model := as_model (InputModel cls) in
  let output_model := as_model (OutputModel cls) in
  match input_model, output_model with
  | None, None =>
      raise (ValueError
               ("Plugin '" ++ name
                  ++ "' must define either InputModel or OutputModel attribute. "))
  | _, _ =>
      ret (<[name := {| plugin_class := cls; input_model := input_model;
                        output_model := output_model |}]> reg)
  end.

(** The loop of [_register_external_plugins_async] over the items of
    [get_all_plugins()]: a name that is registered is skipped, and a plugin
    that cannot be registered is logged and left out. *)
Fixpoint register_externals (reg : Registry)
    (external_plugins : list (string * PluginClass)) : Registry :=
  match external_plugins with
  | [] => reg
  | (plugin_name, cls) :: rest =>
      if bool_decide (is_Some (reg !! plugin_name))
      then register_externals reg rest
      else
        match register_plugin reg plugin_name cls with
        | inr reg' => register_externals reg' rest
        | inl _ => register_externals reg rest
        end
  end.

(** [StepRegistry._register_external_plugins_async]; [plugin_manager] is
    what initializing the manager and asking it for its plugins gives, when
    there is a manager. *)
Definition _register_external_plugins_async (reg : Registry)
    (plugin_manager : option (result (list (string * PluginClass)))) : Registry :=
  match plugin_manager with
  | None => reg
  | Some (inl _) => reg
  | Some (inr external_plugins) => register_externals reg external_plugins
  end.

(** The loop of [discover_and_register] over the discovered plugins: here a
    plugin that cannot be registered ends the loop by raising. *)
Fixpoint register_all (reg : Registry) (plugins : list (string * PluginClass))
    : result Registry :=
  match plugins with
  | [] => ret reg
  | (name, cls) :: rest =>
      reg' ← register_plugin reg name cls;
      register_all reg' rest
  end.

(** [StepRegistry.__init__], outside a running event loop. *)
Definition StepRegistry_init (discovered : list (string * PluginClass))
    (plugin_manager : option (result (list (string * PluginClass))))
    : result Registry :=
  reg ← register_all ∅ discovered;
  ret (_register_external_plugins_async reg plugin_manager).

(** [hasPlugin], [get_plugin_class], [get_input_model], [get_output_model]
    and [get_all_plugins] *)
Definition hasPlugin (reg : Registry) (name : string) : bool :=
  bool_decide (is_Some (reg !! name)).

Definition get_plugin_class (reg : Registry) (name : string) : result PluginClass :=
  match reg !! name with
  | Some info => ret (plugin_class info)
  | None => raise (ValueError ("Plugin class '" ++ name ++ "' not found"))
  end.

Definition get_input_model (reg : Registry) (name : string) : option string :=
  match reg !! name with
  | Some info => input_model info
  | None => None
  end.

Definition get_output_model (reg : Registry) (name : string) : option string :=
  match reg !! name with
  | Some info => output_model info
  | None => None
  end.

Definition get_all_plugins (reg : Registry) : gmap string PluginClass :=
  plugin_class <$> reg.

(** ** Reading a class *)

(** A class that [register_plugin] accepts under a new name. *)
Definition acceptable (cls : PluginClass) : Prop :=
  has_mro cls = true /\ inherits_PluginBase cls = true /\
  (resolve_model (InputModel cls) (input cls) <> None \/
   resolve_model (OutputModel cls) (output cls) <> None).

(** The record it stores for the class. *)
Definition info_of (cls : PluginClass) : PluginInfo :=
  {| plugin_class := cls;
     input_model := resolve_model (InputModel cls) (input cls);
     output_model := resolve_model (OutputModel cls) (output cls) |}.

(** Classes to try: a modern plugin, one with lowercase models only, and
    one without models. *)
Definition modern : PluginClass :=
  {| type_name := "type"; has_mro := true; inherits_PluginBase := true;
     InputModel := ModelAttr "EchoInput"; OutputModel := ModelAttr "EchoOutput";
     input := ModelAttr "OldInput"; output := NoAttr |}.
Definition lowercase_only : PluginClass :=
  {| type_name := "type"; has_mro := true; inherits_PluginBase := true;
     InputModel := NoAttr; OutputModel := OtherAttr;
     input := ModelAttr "OldInput"; output := NoAttr |}.
Definition legacy : PluginClass :=
  {| type_name := "type"; has_mro := true; inherits_PluginBase := true;
     InputModel := NoAttr; OutputModel := NoAttr; input := NoAttr; output := NoAttr |}.

End StepRegistry.

(** * Running a pipeline ([src/core/orchestrator.py]) *)

Module PipelineRun.
Import Context Config Loop DagState Executor Scenarios.

(** [for step in pipeline_def.steps: self._progress_callback(pipeline_def.id,
    StepProgress(step.name, status, error))].  The callback of the
    orchestrator is the one the executor reports to, and during
    [runPipeline] every call has [pipeline_def.id] as its first argument, so
    that a call is the event [Progress] of the executor; the callback
    returns without raising. *)
Definition report_all (ex : DAGExecutor) (steps : list StepConfig)
    (status : StepStatus) (error : option exn) : DAGExecutor :=
  fold_left (fun ex step => emit ex (Progress (name step) status error)) steps ex.

(** [isinstance(e, DAGExecutionError)] *)
Definition is_DAGExecutionError (e : exn) : bool :=
  match e with DAGExecutionError _ _ => true | _ => false end.

(** [PipelineOrchestrator.runPipeline]; [progress_callback] says whether a
    callback is set, [steps] are [pipeline_def.steps]. *)
Definition runPipeline (fuel : nat) (W : World) (ex : DAGExecutor)
    (progress_callback : bool) (context : loc) (steps : list StepConfig)
    : option (DAGExecutor * option exn) :=
  let ex := if progress_callback then report_all ex steps PENDING None else ex in
  match executeDAG fuel W ex context steps with
  | None => None
  | Some (ex, None) =>
      Some (if progress_callback then report_all ex steps COMPLETED None else ex,
            None)
  | Some (ex, Some e) =>
      if is_DAGExecutionError e then Some (ex, Some e)
      else
        Some (if progress_callback then report_all ex steps FAILED (Some e) else ex,
              Some e)
  end.

(** The last progress that the callback was given for a step. *)
Fixpoint last_report (evs : list Event) (step : string)
    : option (StepStatus * option exn) :=
  match evs with
  | [] => None
  | ev :: rest =>
      match last_report rest step with
      | Some r => Some r
      | None =>
          match ev with
          | Progress s st e => if String.eqb s step then Some (st, e) else None
          | _ => None
          end
      end
  end.

(** What the run leaves for a step in the state of the executor. *)
Definition final_status (r : option (DAGExecutor * option exn)) (step : string)
    : option StepStatus :=
  match r with
  | Some (ex, _) => dict_get (statuses ex) step
  | None => None
  end.

End PipelineRun.

(* ================================================================== *)
(** * Theorems *)

Module ArtifactsFacts.
Import Artifacts.

Section Disk.
Variable FS : Type.
Variable mkdir : FS -> Path -> FS * option exn.
Variable write_file : FS -> Path -> pyval -> FS * option exn.
Variable path_exists : FS -> Path -> bool.

#[local] Abbreviation run_chain := (run_chain FS mkdir write_file path_exists).
#[local] Abbreviation save_artifact := (save_artifact FS mkdir write_file path_exists).

(** Running a concatenation of handler lists is running the first list and
    then, unless it raised, the second on what the first left. *)
Lemma run_chain_app hs1 hs2 w c :
  run_chain (hs1 ++ hs2)%list w c =
  match run_chain hs1 w c with
  | (w', inl e) => (w', inl e)
  | (w', inr c') => run_chain hs2 w' c'
  end.
Proof.
  revert w c. induction hs1 as [|h hs1 IH]; intros w c; simpl.
  - reflexivity.
  - destruct c as [c|]; simpl.
    + destruct (wrapped_handler FS mkdir write_file path_exists h w c) as [w' [e|c']]; auto.
    + destruct hs2; reflexivity.
Qed.

Lemma same_artifact_trans a b c :
  same_artifact a b -> same_artifact b c -> same_artifact a c.
Proof. unfold same_artifact. intuition congruence. Qed.

(** What a handler that did not raise has done: only [record_command]
    touches the handler object, appending the command it was given. *)
Lemma wrapped_handler_ok h w c w' r :
  wrapped_handler FS mkdir write_file path_exists h w c = (w', inr r) ->
  exists c', r = Some c' /\ same_artifact c c' /\
    snd w' = match h with
             | record_command => push_history (snd w) c
             | _ => snd w
             end /\
    (h = record_command -> c' = c).
Proof.
  destruct w as [fs self].
  destruct h; unfold wrapped_handler, raise, ret.
  - unfold _validate_command_handler, raise, ret.
    destruct (_ || _); intros H; inversion H; subst.
    eexists; repeat split; eauto; discriminate.
  - unfold _prepare_directories_handler, raise, ret.
    destruct (mkdir fs _) as [fs1 [e|]]; intros H; inversion H; subst.
    eexists; repeat split; eauto; discriminate.
  - unfold _save_to_disk_handler, raise, ret.
    destruct (content c) eqn:Hc;
      try destruct (write_file fs _ _) as [fs1 [e|]];
      intros H; inversion H; subst;
      eexists; repeat split; eauto; discriminate.
  - unfold _record_command_handler, raise, ret.
    intros H; inversion H; subst.
    eexists; repeat split; eauto.
Qed.

(** One pass through the default chain that does not raise appends exactly
    one record of the artifact to the history and returns that record. *)
Lemma default_chain_pass w c w' r :
  run_chain default_chain w (Some c) = (w', inr r) ->
  exists c', r = Some c' /\ same_artifact c c' /\
             snd w' = push_history (snd w) c'.
Proof.
  unfold default_chain. cbn [run_chain].
  destruct (wrapped_handler _ _ _ _ validate_command w c) as [w1 [e|r1]] eqn:H1;
    [discriminate|].
  apply wrapped_handler_ok in H1 as (c1 & -> & S1 & W1 & _).
  destruct (wrapped_handler _ _ _ _ prepare_directories w1 c1) as [w2 [e|r2]] eqn:H2;
    [discriminate|].
  apply wrapped_handler_ok in H2 as (c2 & -> & S2 & W2 & _).
  destruct (wrapped_handler _ _ _ _ save_to_disk w2 c2) as [w3 [e|r3]] eqn:H3;
    [discriminate|].
  apply wrapped_handler_ok in H3 as (c3 & -> & S3 & W3 & _).
  destruct (wrapped_handler _ _ _ _ record_command w3 c3) as [w4 [e|r4]] eqn:H4;
    [discriminate|].
  apply wrapped_handler_ok in H4 as (c4 & -> & S4 & W4 & E4).
  specialize (E4 eq_refl). subst c4.
  intros H; inversion H; subst.
  exists c3. split; [reflexivity|]. split.
  - eauto using same_artifact_trans.
  - rewrite W4, W3, W2, W1. reflexivity.
Qed.

(** C10. [ArtifactManager.__init__] installs the default chain a second
    time, so the manager's handler runs every command through the chain
    twice: a [save_artifact] call that succeeds leaves two records of that
    one save in [command_history], and hence in [get_task_artifacts]. *)
Theorem save_artifact_recorded_twice
    fs (self : ArtifactCommandHandler) uuid tid fname c sub meta w' r :
  handlers self = handlers (ArtifactManager_init (base_dir self)) ->
  save_artifact (fs, self) uuid tid fname c sub meta = (w', inr r) ->
  handlers self = (default_chain ++ default_chain)%list /\
  exists r1,
    command_history (snd w') = (command_history self ++ [r1; r])%list /\
    id r1 = uuid /\ id r = uuid /\ task_id r1 = tid /\ task_id r = tid /\
    get_task_artifacts (snd w') tid
      = (get_task_artifacts self tid ++ [r1; r])%list.
Proof.
  intros Hh. split; [exact Hh|].
  revert H. unfold save_artifact, Artifacts.save_artifact, handler_execute,
    middleware_execute.
  cbn [snd]. rewrite Hh.
  change (handlers (ArtifactManager_init (base_dir self)))
    with (default_chain ++ default_chain)%list.
  rewrite run_chain_app.
  set (cmd := {| operation := SAVE; task_id := tid |}).
  destruct (run_chain default_chain (fs, self) (Some cmd)) as [w1 [e|r1]] eqn:P1.
  { destruct e; cbn; intros H; inversion H. }
  apply default_chain_pass in P1 as (c1 & -> & S1 & W1).
  destruct (run_chain default_chain w1 (Some c1)) as [w2 [e|r2]] eqn:P2.
  { destruct e; cbn; intros H; inversion H. }
  apply default_chain_pass in P2 as (c2 & -> & S2 & W2).
  destruct (CommandStatus_eqb (status c2) FAILED); intros H; inversion H; subst.
  destruct S1 as (I1 & T1 & _). destruct S2 as (I2 & T2 & _).
  cbn in I1, T1.
  exists c1. rewrite W2, W1. cbn [push_history command_history snd].
  rewrite <- app_assoc. cbn [app].
  repeat split; try congruence.
  unfold get_task_artifacts, push_history. cbn [command_history].
  rewrite <- app_assoc. cbn [app].
  rewrite filter_app. f_equal.
  rewrite filter_cons_True by congruence.
  rewrite filter_cons_True by congruence.
  reflexivity.
Qed.

End Disk.

Lemma save_artifact_recorded_twice_witness :
  exists r1 r,
    command_history
      (snd (fst (save_artifact unit mkdir_ok write_ok exists_ok
                   (tt, ArtifactManager_init "artifacts")
                   "c-1" "task-1" "out.txt" (VStr "hi") None [])))
    = [r1; r] /\ status r1 = COMPLETED /\ status r = COMPLETED.
Proof.
  destruct (save_artifact unit mkdir_ok write_ok exists_ok
              (tt, ArtifactManager_init "artifacts")
              "c-1" "task-1" "out.txt" (VStr "hi") None []) as [w' [e|r]] eqn:E;
    [vm_compute in E; discriminate|].
  destruct (save_artifact_recorded_twice unit mkdir_ok write_ok exists_ok tt
              (ArtifactManager_init "artifacts") "c-1" "task-1" "out.txt"
              (VStr "hi") None [] w' r eq_refl E) as (_ & r1 & Hh & _).
  exists r1, r. cbn [fst snd]. rewrite Hh.
  vm_compute in E. inversion E; subst. vm_compute in Hh.
  inversion Hh; subst. repeat split; reflexivity.
Defined.

End ArtifactsFacts.

Module ContextFacts.
Import Context.

Lemma child_attrs_lookup fs d ov cp attrs f :
  child_attrs fs d ov cp = inr attrs ->
  f ∈ fs ->
  exists own, d !! f = Some own /\
    attrs !! f = Some (default (if String.eqb f "extras" then cp else own) (ov !! f)).
Proof.
  revert attrs. induction fs as [|g fs IH]; intros attrs H Hin.
  - inversion Hin.
  - cbn [child_attrs] in H. unfold getattr_field in H.
    destruct (d !! g) as [own|] eqn:Hg; [|discriminate].
    cbn in H.
    destruct (child_attrs fs d ov cp) as [e|attrs'] eqn:Hrec; [discriminate|].
    cbn in H. inversion H; subst; clear H.
    destruct (decide (f = g)) as [->|Hne].
    + exists own. split; [assumption|]. apply lookup_insert_eq.
    + rewrite lookup_insert_ne by congruence.
      apply IH; [reflexivity|]. 
      apply elem_of_cons in Hin as [?|?]; [contradiction|assumption].
Qed.

Lemma valid_wrapped_of σ p d q pc x e :
  valid_context σ p d q pc x e -> wrapped_of σ d = inr (Some (q, pc)).
Proof. intros (_ & H1 & H2 & _). unfold wrapped_of. rewrite H1, H2. reflexivity. Qed.

Lemma valid_extras_of σ p d q pc x e :
  valid_context σ p d q pc x e -> extras_of σ d = inr (x, e).
Proof. intros (_ & _ & _ & H1 & H2). unfold extras_of. rewrite H1, H2. reflexivity. Qed.

Lemma valid_self_attrs σ p d q pc x e :
  valid_context σ p d q pc x e -> self_attrs σ p = inr d.
Proof. intros (H & _). unfold self_attrs. rewrite H. reflexivity. Qed.

(** In a valid context the field test neither raises nor holds for a key
    that is not a declared field. *)
Lemma is_own_field_valid σ p d q pc x e key :
  valid_context σ p d q pc x e ->
  is_own_field σ d key = inr (is_field key).
Proof.
  intros V. unfold is_own_field.
  destruct (is_field key); [reflexivity|].
  repeat case_bool_decide; try reflexivity.
  - rewrite (valid_wrapped_of _ _ _ _ _ _ _ V). reflexivity.
  - rewrite (valid_extras_of _ _ _ _ _ _ _ V). cbn.
    destruct (e !! key); [reflexivity|].
    rewrite (valid_wrapped_of _ _ _ _ _ _ _ V). reflexivity.
Qed.

(** Reading through a valid context. *)
Lemma getitem_valid σ p d q pc x e key :
  valid_context σ p d q pc x e ->
  is_field key = false ->
  __getitem__ σ p key =
    match e !! key with
    | Some v => inr v
    | None => pc_getitem pc key
    end.
Proof.
  intros V F. unfold __getitem__.
  rewrite (valid_self_attrs _ _ _ _ _ _ _ V). cbn.
  rewrite (is_own_field_valid _ _ _ _ _ _ _ key V), F. cbn.
  rewrite (valid_extras_of _ _ _ _ _ _ _ V). cbn.
  destruct (e !! key); [reflexivity|].
  rewrite (valid_wrapped_of _ _ _ _ _ _ _ V). reflexivity.
Qed.

Lemma setitem_valid σ p d q pc x e key v :
  valid_context σ p d q pc x e ->
  __setitem__ σ p key v =
    inr (if is_field key
         then <[p := ExecutionContextObject (<[key := v]> d)]> σ
         else <[q := PipelineContextObject (pc_setitem pc key v)]> σ).
Proof.
  intros V. unfold __setitem__.
  rewrite (valid_self_attrs _ _ _ _ _ _ _ V). cbn.
  rewrite (is_own_field_valid _ _ _ _ _ _ _ key V). cbn.
  destruct (is_field key); [reflexivity|].
  rewrite (valid_wrapped_of _ _ _ _ _ _ _ V). reflexivity.
Qed.

(** What [spawn_child] builds: a copy of the parent's [extras] and the child
    instance are allocated at fresh addresses; each field of the child is
    the override when there is one, else the parent's value (the copy, for
    [extras]). *)
Lemma spawn_child_valid σ p d q pc x e ov σ1 c :
  valid_context σ p d q pc x e ->
  spawn_child σ p ov = inr (σ1, c) ->
  let x' := fresh (dom σ) in
  exists dc,
    σ1 = <[c := ExecutionContextObject dc]> (<[x' := DictObject e]> σ) /\
    c = fresh (dom (<[x' := DictObject e]> σ)) /\
    forall f, f ∈ dataclass_fields ->
      exists own, d !! f = Some own /\
        dc !! f = Some (default (if String.eqb f "extras" then VRef x' else own)
                                (ov !! f)).
Proof.
  intros V H x'. unfold spawn_child in H.
  rewrite (valid_self_attrs _ _ _ _ _ _ _ V) in H.
  cbn [mbind result_bind] in H.
  rewrite (valid_extras_of _ _ _ _ _ _ _ V) in H.
  cbn [mbind result_bind alloc] in H.
  fold x' in H.
  destruct (child_attrs dataclass_fields d ov (VRef x')) as [err|dc] eqn:Hc;
    [discriminate|].
  cbn [mbind result_bind] in H.
  exists dc.
  assert (Hres : (alloc (<[x' := DictObject e]> σ) (ExecutionContextObject dc))
                 = (σ1, c)).
  { destruct (dc !! "_pipeline_context") as [[]|]; try discriminate;
      inversion H; reflexivity. }
  unfold alloc in Hres. inversion Hres; subst. repeat split.
  intros f Hf. eapply child_attrs_lookup; eauto.
Qed.

Lemma fresh_lookup_None (σ : Store) : σ !! fresh (dom σ) = None.
Proof. apply not_elem_of_dom, is_fresh. Qed.

(** C9 (amended). [spawn_child] leaves every existing object as it was and
    returns a new execution context on the same pipeline context, with the
    overrides in its own fields and, unless [extras] is overridden, its own
    copy of [extras].  A key assigned through the child that is neither a
    declared field nor a key of the parent's [extras] is then read back
    through the parent; assigning a declared field through the child, or
    storing an attribute in its copied [extras], alters no object that
    existed before the spawn.  This holds when [_pipeline_context] is not
    among the overrides. *)
Theorem spawn_child_shares_data σ p d q pc x e ov σ1 c :
  valid_context σ p d q pc x e ->
  ov !! "_pipeline_context" = None ->
  (forall v, ov !! "extras" = Some v ->
     exists x2 e2, v = VRef x2 /\ σ !! x2 = Some (DictObject e2)) ->
  spawn_child σ p ov = inr (σ1, c) ->
  (forall l, is_Some (σ !! l) -> σ1 !! l = σ !! l) /\
  σ !! c = None /\
  (exists dc,
      σ1 !! c = Some (ExecutionContextObject dc) /\
      dc !! "_pipeline_context" = Some (VRef q) /\
      (forall f v, f ∈ dataclass_fields -> ov !! f = Some v -> dc !! f = Some v) /\
      (forall f, f ∈ dataclass_fields -> f <> "extras" -> ov !! f = None ->
                 dc !! f = d !! f) /\
      (ov !! "extras" = None ->
         exists x', dc !! "extras" = Some (VRef x') /\ σ !! x' = None /\
                    σ1 !! x' = Some (DictObject e))) /\
  (forall key v, is_field key = false -> e !! key = None ->
     exists σ2, __setitem__ σ1 c key v = inr σ2 /\ __getitem__ σ2 p key = inr v) /\
  (forall key v, is_field key = true ->
     exists σ2, __setitem__ σ1 c key v = inr σ2 /\
                forall l, is_Some (σ !! l) -> σ2 !! l = σ !! l) /\
  (ov !! "extras" = None ->
     forall name v, is_field name = false ->
     exists σ2, __setattr__ σ1 c name v = inr σ2 /\
                forall l, is_Some (σ !! l) -> σ2 !! l = σ !! l).
Proof.
  intros V Hpc Hex Hs.
  destruct (spawn_child_valid _ _ _ _ _ _ _ _ _ _ V Hs) as (dc & -> & Hc & Hf).
  set (x' := fresh (dom σ)) in *.
  set (σx := <[x' := DictObject e]> σ) in *.
  assert (Hx' : σ !! x' = None) by apply fresh_lookup_None.
  assert (Hcx : σx !! c = None) by (rewrite Hc; apply fresh_lookup_None).
  assert (Hxc : x' <> c).
  { intros <-. unfold σx in Hcx. rewrite lookup_insert_eq in Hcx. discriminate. }
  assert (Hcσ : σ !! c = None).
  { unfold σx in Hcx. rewrite lookup_insert_ne in Hcx by congruence. exact Hcx. }
  assert (Hold : forall l, is_Some (σ !! l) ->
                 (<[c := ExecutionContextObject dc]> σx) !! l = σ !! l).
  { intros l [o Ho].
    rewrite lookup_insert_ne by congruence.
    unfold σx. rewrite lookup_insert_ne by congruence. reflexivity. }
  destruct V as (Vp & Vq & Vpc & Vx & Ve).
  (* the child's fields *)
  assert (Fpc : dc !! "_pipeline_context" = Some (VRef q)).
  { destruct (Hf "_pipeline_context") as (own & Ho & Hd); [by apply (bool_decide_unpack _)|].
    rewrite Hd, Hpc. cbn. congruence. }
  assert (Fex : exists xc ec, dc !! "extras" = Some (VRef xc) /\
                 (<[c := ExecutionContextObject dc]> σx) !! xc = Some (DictObject ec) /\
                 (ov !! "extras" = None -> xc = x' /\ ec = e)).
  { destruct (Hf "extras") as (own & Ho & Hd); [by apply (bool_decide_unpack _)|].
    cbn in Hd. destruct (ov !! "extras") as [v|] eqn:Hov.
    - destruct (Hex v eq_refl) as (x2 & e2 & -> & H2).
      exists x2, e2. split; [exact Hd|]. split; [|discriminate].
      rewrite Hold; eauto.
    - exists x', e. split; [exact Hd|]. split; [|tauto].
      rewrite lookup_insert_ne by congruence.
      unfold σx. apply lookup_insert_eq. }
  destruct Fex as (xc & ec & Fx & Fxc & Fcopy).
  assert (Vc : valid_context (<[c := ExecutionContextObject dc]> σx) c dc q pc xc ec).
  { repeat split; try assumption.
    - apply lookup_insert_eq.
    - rewrite Hold; eauto. }
  split; [exact Hold|]. split; [exact Hcσ|]. split.
  { exists dc. split; [apply lookup_insert_eq|]. split; [exact Fpc|]. split; [|split].
    - intros f v Hin Hov. destruct (Hf f Hin) as (own & _ & Hd).
      rewrite Hd, Hov. reflexivity.
    - intros f Hin Hne Hov. destruct (Hf f Hin) as (own & Ho & Hd).
      rewrite Hd, Hov, Ho. cbn.
      destruct (String.eqb_spec f "extras"); [contradiction|reflexivity].
    - intros Hov. destruct (Fcopy Hov) as [-> ->].
      exists x'. repeat split; assumption. }
  split; [|split].
  - intros key v Fk Hk.
    eexists. split; [rewrite (setitem_valid _ _ _ _ _ _ _ key v Vc), Fk; reflexivity|].
    assert (Hpq : p <> q) by congruence.
    assert (Hxq : x <> q) by congruence.
    assert (Vp' : valid_context
              (<[q := PipelineContextObject (pc_setitem pc key v)]>
                 (<[c := ExecutionContextObject dc]> σx))
              p d q (pc_setitem pc key v) x e).
    { repeat split; try assumption.
      - rewrite lookup_insert_ne by congruence. rewrite Hold; eauto.
      - apply lookup_insert_eq.
      - rewrite lookup_insert_ne by congruence. rewrite Hold; eauto. }
    rewrite (getitem_valid _ _ _ _ _ _ _ key Vp' Fk), Hk.
    unfold pc_getitem, pc_setitem. cbn. rewrite lookup_insert_eq. reflexivity.
  - intros key v Fk.
    eexists. split; [rewrite (setitem_valid _ _ _ _ _ _ _ key v Vc), Fk; reflexivity|].
    intros l Hl. rewrite lookup_insert_ne by (destruct Hl; congruence).
    apply Hold, Hl.
  - intros Hov name v Fn. destruct (Fcopy Hov) as [-> ->].
    unfold __setattr__. rewrite (valid_self_attrs _ _ _ _ _ _ _ Vc). cbn.
    rewrite Fn, Fx. rewrite (valid_extras_of _ _ _ _ _ _ _ Vc). cbn.
    eexists. split; [reflexivity|].
    intros l Hl. rewrite lookup_insert_ne by (destruct Hl; congruence).
    apply Hold, Hl.
Qed.

(** C9, as stated, fails.  A key of the parent's [extras] assigned through
    the child is written to the shared data map, but the parent (and the
    child) keep reading the [extras] entry; and a child spawned with a
    [_pipeline_context] override does not share the parent's data map. *)
Lemma spawn_child_write_not_visible :
  is_field "x" = false /\
  write_child_read_parent parent_store ∅ "x" (VInt 2) = inr (VInt 1) /\
  write_child_read_parent parent_store ∅ "x" (VInt 2) <> inr (VInt 2) /\
  (let '(σ, q2) := alloc (fst parent_store) (PipelineContextObject other_context) in
   write_child_read_parent (σ, snd parent_store)
     {["_pipeline_context" := VRef q2]} "y" (VInt 2) = inl (KeyError "y")).
Proof.
  split; [reflexivity|]. split; [vm_compute; reflexivity|].
  split; [vm_compute; discriminate|]. vm_compute. reflexivity.
Qed.

Lemma spawn_child_shares_data_witness :
  exists σ1 c σ2,
    spawn_child (fst parent_store) (snd parent_store) ∅ = inr (σ1, c) /\
    __setitem__ σ1 c "y" (VInt 2) = inr σ2 /\
    __getitem__ σ2 (snd parent_store) "y" = inr (VInt 2).
Proof.
  destruct (spawn_child (fst parent_store) (snd parent_store) ∅)
    as [err|[σ1 c]] eqn:Hs; [vm_compute in Hs; discriminate|].
  assert (V : valid_context (fst parent_store) (snd parent_store)
                (<["_pipeline_context" := VRef 1%positive]>
                   (<["extras" := VRef 2%positive]>
                      (list_to_map (map (fun f => (f, VNone)) dataclass_fields))))
                1%positive
                {| task_id := "task-1"; pipeline_id := None; data := ∅;
                   saved_artifacts := []; loop_step_name := None;
                   loop_iteration_index := None |}
                2%positive {["x" := VInt 1]}).
  { repeat split; vm_compute; reflexivity. }
  assert (O1 : (∅ : gmap string pyval) !! "_pipeline_context" = None)
    by apply lookup_empty.
  assert (O2 : forall v, (∅ : gmap string pyval) !! "extras" = Some v ->
                 exists x2 e2, v = VRef x2 /\
                   fst parent_store !! x2 = Some (DictObject e2)).
  { intros v Hv. rewrite lookup_empty in Hv. discriminate. }
  destruct (spawn_child_shares_data _ _ _ _ _ _ _ _ σ1 c V O1 O2 Hs)
    as (_ & _ & _ & Hvis & _).
  assert (K1 : is_field "y" = false) by reflexivity.
  assert (K2 : ({["x" := VInt 1]} : gmap string pyval) !! "y" = None)
    by (vm_compute; reflexivity).
  destruct (Hvis "y" (VInt 2) K1 K2) as (σ2 & Hset & Hget).
  exists σ1, c, σ2. auto.
Defined.

End ContextFacts.

Module LoopFacts.
Import Context Config Loop.

Section Body.
Variable _run_loop_body :
  PipelineContext -> list StepConfig -> PipelineContext * option exn.
Variable py_str : pyval -> string.

#[local] Abbreviation while_condition := (while_condition _run_loop_body).

Lemma iterations_cons_pause ev (pause : list LoopEvent) evs b n :
  is_iteration ev = true ->
  pause = (if b : bool then [Sleep n] else []) ->
  iterations (ev :: pause ++ evs)%list = ev :: iterations evs.
Proof.
  intros Hev ->. unfold iterations. cbn [List.filter]. rewrite Hev.
  destruct b; reflexivity.
Qed.

(** The [while] loop: at most [remaining] iterations, chained on the loop
    context; when it ends normally, the counter has advanced by the number of
    iterations, and the loop ended before the cap only on a falsy condition. *)
Lemma while_condition_spec remaining :
  forall loop_counter step cfg effective_body lc failed lc' evs r,
    while_condition remaining loop_counter step cfg effective_body lc failed
      = (lc', evs, r) ->
    (length (iterations evs) <= remaining)%nat /\
    condition_chain (default "" (condition cfg)) loop_counter lc (iterations evs) /\
    forall f c, r = inr (f, c) ->
      c = (loop_counter + length (iterations evs))%nat /\
      (failed = true -> f = true) /\
      (f = false -> none_raised evs) /\
      (f = true -> failed = true \/ ~ none_raised evs) /\
      ((length (iterations evs) < remaining)%nat ->
        truthy (pc_get lc' (default "" (condition cfg)) VNone) = false).
Proof.
  induction remaining as [|remaining IH];
    intros loop_counter step cfg effective_body lc failed lc' evs r H.
  - cbn in H. inversion H; subst. cbn.
    split; [lia|]. split; [exact I|].
    intros f c E. inversion E; subst.
    split; [lia|]. split; [auto|]. split; [intros _; constructor|].
    split; [intros ->; left; reflexivity|]. lia.
  - cbn [Loop.while_condition] in H.
    destruct (negb (opt_truthy (condition cfg))) eqn:Hc.
    { inversion H; subst. cbn. split; [lia|]. split; [exact I|]. discriminate. }
    destruct (negb (truthy (pc_get lc (default "" (condition cfg)) VNone))) eqn:Ht.
    { inversion H; subst. cbn. split; [lia|]. split; [exact I|].
      intros f c E. inversion E; subst.
      split; [lia|]. split; [auto|]. split; [intros _; constructor|].
      split; [intros ->; left; reflexivity|].
      intros _. apply negb_true_iff in Ht. exact Ht. }
    apply negb_false_iff in Ht.
    destruct (_run_loop_body _ effective_body) as [after raised] eqn:Hb.
    set (ev := Iteration loop_counter (VInt (Z.of_nat loop_counter)) lc after raised) in *.
    set (merged := pc_update lc (data after)) in *.
    destruct raised as [e|].
    + (* the body raised *)
      assert (Hgen :
        (fail_fast cfg = true -> lc' = merged /\ evs = [ev] /\ r = inl e) /\
        (fail_fast cfg = false ->
           exists evs' b,
             while_condition remaining (S loop_counter) step cfg effective_body
               merged true = (lc', evs', r) /\
             evs = (ev :: (if b : bool then [Sleep (delay cfg)] else []) ++ evs')%list)
        \/ (exists cp steps info, e = PipelineSuspendedException cp steps info /\
              lc' = lc /\ evs = [ev] /\ r = inl e)).
      { destruct e;
          try (left; split;
               [ intros Hf; rewrite Hf in H; inversion H; subst; auto
               | intros Hf; rewrite Hf in H;
                 destruct (while_condition remaining (S loop_counter) step cfg
                             effective_body merged true) as [[lc2 evs2] r2] eqn:Hrec;
                 inversion H; subst; eexists _, _; split; reflexivity ]; fail).
        right. inversion H; subst. eexists _, _, _. repeat split; reflexivity. }
      destruct Hgen as [[Hff Hnf]|(cp & steps & info & -> & -> & -> & ->)].
      * destruct (fail_fast cfg) eqn:Hfast.
        -- destruct (Hff eq_refl) as (-> & -> & ->). cbn.
           split; [lia|]. split; [auto|]. discriminate.
        -- destruct (Hnf eq_refl) as (evs' & b & Hrec & ->).
           apply IH in Hrec as (Hlen & Hchain & Hret).
           rewrite (iterations_cons_pause ev _ evs' b (delay cfg) eq_refl eq_refl).
           cbn [length condition_chain ev].
           split; [lia|]. split; [auto|].
           intros f c E. destruct (Hret f c E) as (-> & Hf1 & Hf2 & Hf3 & Hcap).
           split; [lia|]. split; [intros _; apply Hf1; reflexivity|].
           split; [intros ->; specialize (Hf1 eq_refl); discriminate|].
           split.
           ++ intros _. right. intros Hn. inversion Hn; subst. cbn in *. contradiction.
           ++ intros Hlt. apply Hcap. lia.
      * cbn. split; [lia|]. split; [auto|]. discriminate.
    + (* the body returned *)
      destruct (while_condition remaining (S loop_counter) step cfg effective_body
                  merged failed) as [[lc2 evs2] r2] eqn:Hrec.
      inversion H; subst; clear H.
      apply IH in Hrec as (Hlen & Hchain & Hret).
      erewrite (iterations_cons_pause ev _ evs2 _ (delay cfg) eq_refl eq_refl).
      cbn [length condition_chain ev].
      split; [lia|]. split; [auto|].
      intros f c E. destruct (Hret f c E) as (-> & Hf1 & Hf2 & Hf3 & Hcap).
      split; [lia|]. split; [exact Hf1|]. split; [|split].
      * intros Hf. constructor; [exact I|].
        apply Forall_app. split; [|apply Hf2, Hf].
        destruct (_ && _); repeat constructor.
      * intros Hf. destruct (Hf3 Hf) as [?|Hn]; [left; assumption|].
        right. intros Hall. apply Hn. inversion Hall; subst.
        match goal with H : Forall _ (_ ++ _)%list |- _ => apply Forall_app in H; tauto end.
      * intros Hlt. apply Hcap. lia.
Qed.

(** When the [while] loop raises, an iteration raised. *)
Lemma while_condition_raises remaining :
  forall loop_counter step cfg effective_body lc failed lc' evs e,
    opt_truthy (condition cfg) = true ->
    while_condition remaining loop_counter step cfg effective_body lc failed
      = (lc', evs, inl e) ->
    ~ none_raised evs.
Proof.
  induction remaining as [|remaining IH];
    intros loop_counter step cfg effective_body lc failed lc' evs e Hc H.
  - cbn in H. inversion H.
  - cbn [Loop.while_condition] in H. rewrite Hc in H. cbn [negb] in H.
    destruct (negb (truthy (pc_get lc (default "" (condition cfg)) VNone)));
      [inversion H|].
    destruct (_run_loop_body _ effective_body) as [after raised].
    set (ev := Iteration loop_counter (VInt (Z.of_nat loop_counter)) lc after raised) in *.
    destruct raised as [e0|].
    + assert (Hhead : exists rest, evs = ev :: rest).
      { destruct e0;
          try (destruct (fail_fast cfg);
               [ inversion H; eauto
               | destruct (while_condition remaining (S loop_counter) step cfg
                             effective_body _ true) as [[lc2 evs2] r2];
                 inversion H; eauto ]; fail).
        inversion H; eauto. }
      destruct Hhead as [rest ->]. intros Hn. inversion Hn; subst.
      cbn in *. contradiction.
    + destruct (while_condition remaining (S loop_counter) step cfg effective_body
                  _ failed) as [[lc2 evs2] r2] eqn:Hrec.
      inversion H; subst; clear H.
      apply IH in Hrec; [|exact Hc].
      intros Hn. apply Hrec. inversion Hn; subst.
      match goal with H : Forall _ (_ ++ _)%list |- _ => apply Forall_app in H; tauto end.
Qed.

Lemma iterations_app evs1 evs2 :
  iterations (evs1 ++ evs2)%list = (iterations evs1 ++ iterations evs2)%list.
Proof. unfold iterations. apply List.filter_app. Qed.

Lemma iterations_result_name_warning cfg lc :
  iterations (result_name_warning cfg lc) = [].
Proof. unfold result_name_warning. destruct (_ && _); reflexivity. Qed.

Lemma none_raised_app evs1 evs2 :
  none_raised (evs1 ++ evs2)%list <-> none_raised evs1 /\ none_raised evs2.
Proof. unfold none_raised. apply Forall_app. Qed.

Lemma none_raised_result_name_warning cfg lc :
  none_raised (result_name_warning cfg lc).
Proof.
  unfold result_name_warning. destruct (_ && _); repeat constructor.
Qed.

(** [_execute_condition_based_loop]: at most [max_iterations] iterations,
    each entered on a truthy condition in the loop context that the one
    before left; with no failed iteration it returns [False]; it stops before
    the cap only on a falsy condition, and at the cap it logs the warning. *)
Lemma condition_based_loop_spec step cfg lc0 lc evs r :
  opt_truthy (condition cfg) = true ->
  _execute_condition_based_loop _run_loop_body step lc0 cfg = (lc, evs, r) ->
  (length (iterations evs) <= max_iterations cfg)%nat /\
  condition_chain (default "" (condition cfg)) 0 lc0 (iterations evs) /\
  (none_raised evs -> r = inr false) /\
  (forall failed, r = inr failed ->
     (failed = true -> ~ none_raised evs) /\
     ((length (iterations evs) < max_iterations cfg)%nat ->
      _create_synthetic_body step <> [] ->
      truthy (pc_get lc (default "" (condition cfg)) VNone) = false) /\
     ((0 < max_iterations cfg)%nat ->
      length (iterations evs) = max_iterations cfg ->
      In max_iterations_warning evs)).
Proof.
  intros Hc. unfold _execute_condition_based_loop.
  destruct (_create_synthetic_body step) as [|s0 body] eqn:Hbody.
  - intros H; inversion H; subst. cbn.
    split; [lia|]. split; [exact I|]. split; [reflexivity|].
    intros failed E. inversion E; subst.
    split; [discriminate|]. split; [intros _ Hne; congruence|].
    intros Hpos Heq. cbn in Heq. lia.
  - destruct (while_condition (max_iterations cfg) 0 step cfg (s0 :: body) lc0 false)
      as [[lc1 evs1] r1] eqn:Hw.
    pose proof (while_condition_spec _ _ _ _ _ _ _ _ _ _ Hw) as (Hlen & Hchain & Hret).
    destruct r1 as [e|[f c]].
    + intros H; inversion H; subst.
      split; [exact Hlen|]. split; [exact Hchain|].
      split; [|discriminate].
      intros Hn. exfalso. eapply while_condition_raises; eassumption.
    + destruct (Hret f c eq_refl) as (-> & _ & Hf2 & Hf3 & Hcap).
      intros H; inversion H; subst; clear H.
      assert (Hit : forall capped,
                 (capped = [] \/ capped = [max_iterations_warning]) ->
                 iterations (evs1 ++ capped ++ result_name_warning cfg lc)%list
                 = iterations evs1).
      { intros capped Hcapped.
        rewrite !iterations_app, iterations_result_name_warning.
        destruct Hcapped as [-> | ->]; cbn; rewrite app_nil_r; reflexivity. }
      rewrite Hit by (destruct (Nat.leb _ _); auto).

      split; [exact Hlen|]. split; [exact Hchain|]. split.
      * intros Hn. apply none_raised_app in Hn as [Hn _].
        destruct f; [|reflexivity].
        destruct (Hf3 eq_refl) as [?|?]; [discriminate|contradiction].
      * intros f' E. inversion E; subst f'; clear E.
        split; [|split].
        -- intros -> Hn. apply none_raised_app in Hn as [Hn _].
           destruct (Hf3 eq_refl) as [?|?]; [discriminate|contradiction].
        -- intros Hlt _. apply Hcap. exact Hlt.
        -- intros _ Heq. apply in_or_app. right. apply in_or_app. left.
           cbn [Nat.add]. rewrite Heq, Nat.leb_refl. now left.
Qed.

(** ** The collection loop *)

Lemma visited_cons_pause i item lc after raised (b : bool) n evs :
  visited (Iteration i item lc after raised
             :: (if b then [Sleep n] else []) ++ evs)%list
  = (i, item) :: visited evs.
Proof. destruct b; reflexivity. Qed.

(** The [for] loop visits, in order, the pairs it does not skip: all of them
    when it returns, and those up to the iteration that raised otherwise.  It
    returns [False] when it was entered with no failure and no iteration
    raised. *)
Lemma for_items_visited pairs :
  forall n_items start_index step cfg effective_body lc failed lc' evs r,
    for_items _run_loop_body pairs n_items start_index step cfg effective_body
      lc failed = (lc', evs, r) ->
    visited evs `prefix_of` not_skipped start_index pairs /\
    (forall f, r = inr f ->
       visited evs = not_skipped start_index pairs /\
       (f = true -> failed = true \/ ~ none_raised evs)) /\
    (forall e, r = inl e -> ~ none_raised evs).
Proof.
  induction pairs as [|[i item] pairs IH];
    intros n_items start_index step cfg effective_body lc failed lc' evs r H.
  - cbn in H. inversion H; subst. cbn.
    split; [reflexivity|]. split; [|discriminate].
    intros f E. inversion E; subst. split; [reflexivity|]. intros ->. now left.
  - cbn [Loop.for_items] in H. unfold not_skipped. cbn [List.filter fst].
    fold (not_skipped start_index pairs).
    destruct (Nat.ltb i start_index); cbn [negb].
    { exact (IH _ _ _ _ _ _ _ _ _ _ H). }
    destruct (_run_loop_body _ effective_body) as [after raised].
    set (ev := Iteration i item lc after raised) in *.
    set (pause := if negb (Nat.eqb (delay cfg) 0) && Nat.ltb i (n_items - 1)
                  then [Sleep (delay cfg)] else []) in *.
    destruct raised as [e0|].
    + assert (Hgen :
        (exists lc1 evs' r',
           for_items _run_loop_body pairs n_items start_index step cfg
             effective_body lc1 true = (lc', evs', r') /\
           evs = (ev :: pause ++ evs')%list /\ r = r')
        \/ (evs = [ev] /\ exists e, r = inl e)).
      { destruct e0;
          try (destruct (fail_fast cfg);
               [ inversion H; subst; right; eauto
               | destruct (for_items _run_loop_body pairs n_items start_index step
                             cfg effective_body lc true) as [[lc2 evs2] r2] eqn:Hrec;
                 inversion H; subst; left; eexists _, _, _; eauto ]; fail).
        inversion H; subst; right; eauto. }
      assert (Hraised : forall rest, ~ none_raised (ev :: rest)).
      { intros rest Hn. inversion Hn; subst. cbn in *. contradiction. }
      destruct Hgen as [(lc1 & evs' & r' & Hrec & -> & ->)|(-> & e & ->)].
      * apply IH in Hrec as (Hpre & Hret & _).
        unfold ev, pause. rewrite visited_cons_pause.
        split; [apply prefix_cons; exact Hpre|]. split.
        -- intros f E. destruct (Hret f E) as (-> & _).
           split; [reflexivity|]. intros _. right. apply Hraised.
        -- intros e _. apply Hraised.
      * cbn. split; [apply prefix_cons, prefix_nil|].
        split; [discriminate|]. intros e1 _. apply Hraised.
    + destruct (for_items _run_loop_body pairs n_items start_index step cfg
                  effective_body _ failed) as [[lc2 evs2] r2] eqn:Hrec.
      inversion H; subst; clear H.
      apply IH in Hrec as (Hpre & Hret & Hraise).
      unfold ev, pause. rewrite visited_cons_pause.
      assert (Hn : forall evs0, none_raised (ev :: pause ++ evs0)%list
                                -> none_raised evs0).
      { intros evs0 Hall. inversion Hall; subst.
        match goal with H : Forall _ (_ ++ _)%list |- _ =>
          apply Forall_app in H; tauto end. }
      split; [apply prefix_cons; exact Hpre|]. split.
      * intros f E. destruct (Hret f E) as (-> & Hf).
        split; [reflexivity|]. intros Ht.
        destruct (Hf Ht) as [?|Hno]; [now left|right].
        intros Hall. apply Hno, Hn, Hall.
      * intros e E Hall. apply (Hraise e E), Hn, Hall.
Qed.

Lemma not_skipped_0 pairs : not_skipped 0 pairs = pairs.
Proof.
  unfold not_skipped. induction pairs as [|p pairs IH]; [reflexivity|].
  cbn [List.filter]. rewrite IH. reflexivity.
Qed.

End Body.
End LoopFacts.

Module DagStateFacts.
Import Config DagState.

(** ** Marking a step *)

Lemma lookup_alter_states f n l m :
  lookup_state (alter_states f n l) m =
  if String.eqb m n then option_map f (lookup_state l m) else lookup_state l m.
Proof.
  unfold alter_states.
  induction l as [|[k s] l IH]; cbn [map lookup_state fst snd].
  - destruct (String.eqb m n); reflexivity.
  - destruct (String.eqb_spec k n) as [->|Hkn]; cbn [lookup_state fst snd].
    + destruct (String.eqb_spec n m) as [->|Hnm].
      * rewrite String.eqb_refl. reflexivity.
      * exact IH.
    + destruct (String.eqb_spec k m) as [->|Hkm].
      * destruct (String.eqb_spec m n); [contradiction|reflexivity].
      * exact IH.
Qed.

Lemma has_step_alter f n st m :
  has_step (alter_step f n st) m = has_step st m.
Proof.
  unfold has_step, step_state, alter_step. cbn.
  rewrite lookup_alter_states.
  destruct (String.eqb m n), (lookup_state (step_states st) m); reflexivity.
Qed.

Lemma has_status_mark_failed st n e :
  has_step st n = true -> has_status (mark_step_failed st n e) FAILED n = true.
Proof.
  unfold has_step, has_status, step_state, mark_step_failed, alter_step. cbn.
  rewrite lookup_alter_states, String.eqb_refl.
  destruct (lookup_state (step_states st) n); [reflexivity|discriminate].
Qed.

(** ** Counting the pending steps *)

Lemma pending_count_alter_le f n st :
  (forall x, status (f x) = PENDING -> status x = PENDING) ->
  (pending_count (alter_step f n st) <= pending_count st)%nat.
Proof.
  intros Hf. unfold pending_count, alter_step, alter_states. cbn [step_states].
  induction (step_states st) as [|[k s] l IH]; cbn [map List.filter fst snd length].
  - lia.
  - destruct (String.eqb k n); cbn [snd].
    + destruct (StepStatus_eqb (status (f s)) PENDING) eqn:E1.
      * assert (status s = PENDING) as ->
          by (apply Hf; destruct (status (f s)); try discriminate; reflexivity).
        cbn. lia.
      * destruct (StepStatus_eqb (status s) PENDING); cbn; lia.
    + destruct (StepStatus_eqb (status s) PENDING); cbn; lia.
Qed.

Lemma pending_count_alter_lt f n st :
  never_pending f ->
  has_status st PENDING n = true ->
  (pending_count (alter_step f n st) < pending_count st)%nat.
Proof.
  intros Hf. unfold has_status, step_state, pending_count, alter_step, alter_states.
  cbn [step_states].
  induction (step_states st) as [|[k s] l IH];
    cbn [map List.filter fst snd length lookup_state].
  - discriminate.
  - destruct (String.eqb k n) eqn:Ek; cbn [snd].
    + intros Hs. rewrite Hs.
      destruct (StepStatus_eqb (status (f s)) PENDING) eqn:E1.
      * exfalso. apply (Hf s). destruct (status (f s)); try discriminate; reflexivity.
      * cbn [length].
        assert (length (List.filter
                  (fun kv => StepStatus_eqb (status (snd kv)) PENDING)
                  (map (fun kv => if String.eqb (fst kv) n
                                  then (fst kv, f (snd kv)) else kv) l))
                <= length (List.filter
                  (fun kv => StepStatus_eqb (status (snd kv)) PENDING) l))%nat.
        { clear -Hf. induction l as [|[k' s'] l IH']; cbn [map List.filter fst snd length].
          - lia.
          - destruct (String.eqb k' n); cbn [snd].
            + destruct (StepStatus_eqb (status (f s')) PENDING) eqn:E.
              * exfalso. apply (Hf s').
                destruct (status (f s')); try discriminate; reflexivity.
              * destruct (StepStatus_eqb (status s') PENDING); cbn; lia.
            + destruct (StepStatus_eqb (status s') PENDING); cbn; lia. }
        lia.
    + intros Hs. specialize (IH Hs).
      destruct (StepStatus_eqb (status s) PENDING); cbn [length]; lia.
Qed.

Lemma has_status_alter_ne f n st s m :
  m <> n -> has_status (alter_step f n st) s m = has_status st s m.
Proof.
  intros Hne. unfold has_status, step_state, alter_step. cbn [step_states].
  rewrite lookup_alter_states.
  destruct (String.eqb_spec m n); [contradiction|reflexivity].
Qed.

Lemma has_status_alter_eq f n st s :
  has_step st n = true ->
  (forall x, status (f x) = s) ->
  has_status (alter_step f n st) s n = true.
Proof.
  unfold has_step, has_status, step_state, alter_step. cbn [step_states].
  rewrite lookup_alter_states, String.eqb_refl.
  destruct (lookup_state (step_states st) n); [|discriminate].
  intros _ Hf. cbn. rewrite Hf. destruct s; reflexivity.
Qed.

Lemma has_status_has_step st s n : has_status st s n = true -> has_step st n = true.
Proof.
  unfold has_status, has_step. destruct (step_state st n); [reflexivity|discriminate].
Qed.

Lemma status_unique st s s' n :
  has_status st s n = true -> s <> s' -> has_status st s' n = false.
Proof.
  unfold has_status. destruct (step_state st n) as [x|]; [|discriminate].
  destruct (status x), s, s'; cbn; congruence.
Qed.

End DagStateFacts.

Module ExecutorFacts.
Import Context Config Loop DagState Executor DagStateFacts.

(** ** Retries *)

Section Retry.
Variable W : World.
Variable ctx : loc.
Variable step : StepConfig.
Variable max_retries : Z.

Lemma retry_from_always_retryable (n : nat) :
  always_retryable W ctx step ->
  forall ex attempt,
    n = Z.to_nat (max_retries - 1 - attempt) ->
    exists ex' m,
      retry_from n W ex ctx step attempt max_retries
        = (ex', if fail_on_error step
                then raise (RetryablePluginError m)
                else ret (VNone, [])) /\
      events ex' = (events ex ++ retry_trace (name step) n attempt
                      ++ [Progress (name step) FAILED
                            (Some (RetryablePluginError m))])%list /\
      _state ex' = mark_step_failed (_state ex) (name step)
                     (RetryablePluginError m).
Proof.
  intros Hretry. induction n as [|n IH]; intros ex attempt Hn.
  - cbn [retry_from]. unfold try_attempt.
    destruct (Hretry (store ex) attempt) as (m & Hb & Hi).
    destruct (run_plugin W (store ex) ctx step attempt) as [σ a]. cbn in Hb, Hi.
    rewrite Hb, Hi.
    assert (Hlt : Z.ltb attempt (max_retries - 1) = false) by (apply Z.ltb_ge; lia).
    rewrite Hlt.
    unfold fail_step. eexists _, m.
    split; [destruct (fail_on_error step); reflexivity|].
    destruct (fail_on_error step); cbn; rewrite <- !app_assoc; split; reflexivity.
  - cbn [retry_from]. unfold try_attempt.
    destruct (Hretry (store ex) attempt) as (m & Hb & Hi).
    destruct (run_plugin W (store ex) ctx step attempt) as [σ a]. cbn in Hb, Hi.
    rewrite Hb, Hi.
    assert (Hlt : Z.ltb attempt (max_retries - 1) = true) by (apply Z.ltb_lt; lia).
    rewrite Hlt.
    match goal with |- context [retry_from n W ?e ctx step (attempt + 1) max_retries] =>
      destruct (IH e (attempt + 1) ltac:(lia)) as (ex' & m' & Hr & Hev & Hst)
    end.
    exists ex', m'. split; [exact Hr|]. split.
    + rewrite Hev. cbn. rewrite <- !app_assoc. reflexivity.
    + rewrite Hst. reflexivity.
Qed.

Lemma invocations_retry_trace s n a :
  invocations (retry_trace s n a)
  = map (fun k => (s, a + Z.of_nat k)) (seq 0 (S n)).
Proof.
  revert a. induction n as [|n IH]; intros a.
  - cbn. rewrite Z.add_0_r. reflexivity.
  - change (invocations (retry_trace s (S n) a))
      with ((s, a) :: invocations (retry_trace s n (a + 1))).
    rewrite IH. change (seq 0 (S (S n))) with (0%nat :: seq 1 (S n)).
    cbn [map]. rewrite Z.add_0_r. f_equal.
    rewrite <- (seq_shift (S n) 0), map_map. apply map_ext. intros k. f_equal. lia.
Qed.

Lemma sleeps_retry_trace s n a :
  sleeps (retry_trace s n a)
  = map (fun k => Qmult RETRY_DELAY (inject_Z (a + Z.of_nat k))) (seq 1 n).
Proof.
  revert a. induction n as [|n IH]; intros a.
  - reflexivity.
  - change (sleeps (retry_trace s (S n) a))
      with (Qmult RETRY_DELAY (inject_Z (a + 1)) :: sleeps (retry_trace s n (a + 1))).
    rewrite IH. change (seq 1 (S n)) with (1%nat :: seq 2 n).
    cbn [map]. f_equal.
    rewrite <- (seq_shift n 1), map_map. apply map_ext. intros k.
    do 2 f_equal. lia.
Qed.

Lemma invocations_app l1 l2 :
  invocations (l1 ++ l2)%list = (invocations l1 ++ invocations l2)%list.
Proof. apply omap_app. Qed.

Lemma sleeps_app l1 l2 : sleeps (l1 ++ l2)%list = (sleeps l1 ++ sleeps l2)%list.
Proof. apply omap_app. Qed.

(** C5. A step whose plugin raises a retryable error at every attempt is
    attempted exactly [max_retries] times (attempts [0] to [max_retries - 1]),
    with a pause of [RETRY_DELAY * k] seconds after the [k]-th failed attempt
    and before the next; after the last attempt the step is reported and
    marked FAILED, and the error is raised again if the step is critical. *)
Theorem retryable_step_attempts ex :
  _current_context ex = Some ctx ->
  1 <= max_retries ->
  always_retryable W ctx step ->
  exists ex' m new,
    _run_with_retries W ex step 0 max_retries
      = (ex', if fail_on_error step
              then raise (RetryablePluginError m)
              else ret (VNone, [])) /\
    events ex' = (events ex ++ new)%list /\
    invocations new
      = map (fun k => (name step, Z.of_nat k)) (seq 0 (Z.to_nat max_retries)) /\
    sleeps new
      = map (fun k => Qmult RETRY_DELAY (inject_Z (Z.of_nat k)))
          (seq 1 (Z.to_nat max_retries - 1)) /\
    last new = Some (Progress (name step) FAILED (Some (RetryablePluginError m))) /\
    _state ex' = mark_step_failed (_state ex) (name step) (RetryablePluginError m) /\
    (has_step (_state ex) (name step) = true ->
     has_status (_state ex') FAILED (name step) = true).
Proof.
  intros Hctx Hmax Hretry.
  unfold _run_with_retries. rewrite Hctx.
  destruct (retry_from_always_retryable (Z.to_nat (max_retries - 1 - 0)) Hretry
              ex 0 eq_refl) as (ex' & m & Hr & Hev & Hst).
  exists ex', m. eexists. split; [exact Hr|]. split; [exact Hev|].
  assert (Hn : Z.to_nat max_retries = S (Z.to_nat (max_retries - 1 - 0))) by lia.
  split; [|split; [|split; [|split]]].
  - rewrite invocations_app, invocations_retry_trace. cbn [invocations omap].
    rewrite app_nil_r, Hn. reflexivity.
  - rewrite sleeps_app, sleeps_retry_trace. cbn [sleeps omap].
    rewrite app_nil_r. replace (Z.to_nat max_retries - 1)%nat
      with (Z.to_nat (max_retries - 1 - 0)) by lia.
    reflexivity.
  - rewrite last_app. reflexivity.
  - exact Hst.
  - intros Hs. rewrite Hst. apply has_status_mark_failed, Hs.
Qed.

End Retry.
(** ** Steadiness: what every operation of a run preserves *)

Lemma steady_refl ex : steady ex ex.
Proof. unfold steady. repeat split; lia. Qed.

Lemma steady_trans a b c : steady a b -> steady b c -> steady a c.
Proof. unfold steady. intuition (try congruence; try lia). Qed.

Lemma steady_emit ex ev : steady ex (emit ex ev).
Proof. unfold steady. cbn. repeat split; lia. Qed.

Lemma steady_with_store ex σ : steady ex (with_store ex σ).
Proof. unfold steady. cbn. repeat split; lia. Qed.

Lemma steady_with_suspend_context ex sc : steady ex (with_suspend_context ex sc).
Proof. unfold steady. cbn. repeat split; lia. Qed.

Lemma steady_alter ex f n :
  (forall x, status (f x) = PENDING -> status x = PENDING) ->
  steady ex (with_state ex (alter_step f n (_state ex))).
Proof.
  intros Hf. unfold steady. cbn. repeat split.
  apply pending_count_alter_le, Hf.
Qed.

Create HintDb steady.

#[local] Hint Resolve steady_refl steady_emit steady_with_store
  steady_with_suspend_context : steady.

Ltac steady_mark :=
  apply steady_alter; cbn; intros ? ?; discriminate.

Lemma steady_mark_failed ex n e :
  steady ex (with_state ex (mark_step_failed (_state ex) n e)).
Proof. unfold mark_step_failed. steady_mark. Qed.

Lemma steady_mark_running ex n :
  steady ex (with_state ex (mark_step_running (_state ex) n)).
Proof. unfold mark_step_running. steady_mark. Qed.

Lemma steady_mark_completed ex n a :
  steady ex (with_state ex (mark_step_completed (_state ex) n a)).
Proof. unfold mark_step_completed. steady_mark. Qed.

Lemma steady_mark_suspended ex n :
  steady ex (with_state ex (mark_step_suspended (_state ex) n)).
Proof. unfold mark_step_suspended. steady_mark. Qed.

Lemma steady_mark_skipped ex n :
  steady ex (with_state ex (mark_step_skipped (_state ex) n)).
Proof. unfold mark_step_skipped. steady_mark. Qed.

#[local] Hint Resolve steady_mark_failed steady_mark_running steady_mark_completed
  steady_mark_suspended steady_mark_skipped : steady.

Lemma steady_report ex n s e : steady ex (_report_progress ex n s e).
Proof. apply steady_emit. Qed.

#[local] Hint Resolve steady_report : steady.

Ltac steady_chain :=
  repeat first
    [ assumption
    | apply steady_refl
    | eapply steady_trans; [|solve [eauto with steady]] ].

Lemma fail_step_steady ex step e to_raise saved ex' r :
  fail_step ex step e to_raise saved = (ex', r) -> steady ex ex'.
Proof.
  unfold fail_step. intros H.
  assert (ex' = _report_progress
                  (with_state ex (mark_step_failed (_state ex) (name step) e))
                  (name step) FAILED (Some e))
    by (destruct (fail_on_error step); inversion H; reflexivity).
  subst ex'. steady_chain.
Qed.

Lemma try_attempt_steady W ex ctx step attempt ex' r saved :
  try_attempt W ex ctx step attempt = (ex', r, saved) -> steady ex ex'.
Proof.
  unfold try_attempt.
  destruct (run_plugin W (store ex) ctx step attempt) as [σ a].
  destruct (before_invoke a); [intros H; inversion H; subst; steady_chain|].
  destruct (invoked a); [intros H; inversion H; subst; steady_chain|].
  destruct (output_error a); intros H; inversion H; subst; steady_chain.
Qed.

Lemma retry_from_steady W ctx step max_retries n :
  forall ex attempt ex' r,
    retry_from n W ex ctx step attempt max_retries = (ex', r) -> steady ex ex'.
Proof.
  induction n as [|n IH]; intros ex attempt ex' r; cbn [retry_from];
    destruct (try_attempt W ex ctx step attempt) as [[ex1 r1] saved] eqn:Ht;
    apply try_attempt_steady in Ht;
    (destruct r1 as [e|out]; [|intros H; inversion H; subst; exact Ht]);
    destruct e;
    try (intros H; apply fail_step_steady in H; eapply steady_trans; eassumption);
    try (intros H; inversion H; subst; steady_chain; fail).
  - destruct (Z.ltb attempt (max_retries - 1));
      intros H; apply fail_step_steady in H; eapply steady_trans; eassumption.
  - destruct (Z.ltb attempt (max_retries - 1)).
    + intros H. apply IH in H. eapply steady_trans; [|exact H]. steady_chain.
    + intros H; apply fail_step_steady in H; eapply steady_trans; eassumption.
Qed.

Lemma run_task_steady W ex task ex' r :
  run_task W ex task = (ex', r) -> steady ex ex'.
Proof.
  destruct task as [step|ctx step]; cbn [run_task].
  - unfold _run_with_retries. destruct (_current_context ex).
    + apply retry_from_steady.
    + intros H; inversion H; subst. apply steady_refl.
  - unfold _execute_loop.
    destruct (execute_loop _ _ _ _ _) as [[σ evs] raised].
    destruct raised; intros H; inversion H; subst; steady_chain.
Qed.

(** ** The task dictionary *)

Lemma dict_del_length {A} (d : list (string * A)) k d' :
  dict_del d k = Some d' -> length d = S (length d').
Proof.
  revert d'. induction d as [|[k' v] d IH]; intros d'; cbn.
  - discriminate.
  - destruct (String.eqb k' k).
    + intros H; inversion H; subst. reflexivity.
    + destruct (dict_del d k) as [r|]; [|discriminate].
      intros H; inversion H; subst. cbn. f_equal. apply IH. reflexivity.
Qed.

Lemma dict_get_del {A} (d : list (string * A)) k v :
  dict_get d k = Some v -> exists d', dict_del d k = Some d'.
Proof.
  induction d as [|[k' v'] d IH]; cbn.
  - discriminate.
  - destruct (String.eqb k' k); [eauto|].
    intros H. destruct (IH H) as [d' ->]. eauto.
Qed.

Lemma dict_set_length {A} (d : list (string * A)) k v :
  (length (dict_set d k v) <= S (length d))%nat.
Proof.
  induction d as [|[k' v'] d IH]; cbn.
  - lia.
  - destruct (String.eqb k' k); cbn; lia.
Qed.

(** ** Tasks *)

Lemma process_completed_task_steady W ex n task step_configs tasks ex' tasks' r :
  _process_completed_task W ex n task step_configs tasks = (ex', tasks', r) ->
  steady ex ex' /\
  (length tasks' <= length tasks)%nat /\
  (forall t, dict_get tasks n = Some t -> length tasks = S (length tasks')).
Proof.
  unfold _process_completed_task.
  destruct (run_task W ex task) as [ex1 r1] eqn:Hrun.
  apply run_task_steady in Hrun.
  match goal with
  | |- (let '(ex, raised) := ?M in _) = _ -> _ =>
      destruct M as [ex2 raised] eqn:Hm
  end.
  assert (Hs : steady ex1 ex2).
  { destruct r1 as [e|[out saved]].
    - destruct e;
        try (destruct (has_step (_state ex1) n);
             [destruct (List.find _ step_configs) as [o|];
              [destruct (fail_on_error o)|]|];
             inversion Hm; subst; steady_chain; fail);
        try (inversion Hm; subst; steady_chain; fail).
      destruct (has_step (_state ex1) n); inversion Hm; subst; steady_chain.
    - destruct (has_step (_state ex1) n);
        [destruct (negb (has_status (_state ex1) FAILED n))|];
        inversion Hm; subst; steady_chain. }
  destruct (dict_del tasks n) as [d'|] eqn:Hdel; intros H; inversion H; subst.
  - split; [eapply steady_trans; eassumption|].
    apply dict_del_length in Hdel. split; [lia|]. intros; exact Hdel.
  - split; [eapply steady_trans; eassumption|]. split; [lia|].
    intros t Ht. apply dict_get_del in Ht as [d' Hd]. congruence.
Qed.

Lemma create_step_task_steady W ex step ex' r :
  _create_step_task W ex step = (ex', r) -> steady ex ex'.
Proof.
  unfold _create_step_task.
  destruct (_current_context ex); [|intros H; inversion H; subst; steady_chain].
  match goal with |- match ?C with _ => _ end = _ -> _ => destruct C end.
  - destruct (fail_on_error step); intros H; inversion H; subst; steady_chain.
  - intros H; inversion H; subst; steady_chain.
Qed.

(** Creating the task of a PENDING step takes it out of PENDING, whether the
    task is created or the set-up fails, and touches no other step. *)
Lemma create_step_task_pending W ex ctx step ex' r :
  _current_context ex = Some ctx ->
  _create_step_task W ex step = (ex', r) ->
  (has_status (_state ex) PENDING (name step) = true ->
   (pending_count (_state ex') < pending_count (_state ex))%nat) /\
  (forall m s, m <> name step ->
     has_status (_state ex') s m = has_status (_state ex) s m).
Proof.
  intros Hctx. unfold _create_step_task. rewrite Hctx.
  match goal with |- match ?C with _ => _ end = _ -> _ => destruct C end.
  - intros H.
    assert (_state ex' = mark_step_failed (_state ex) (name step) e)
      by (destruct (fail_on_error step); inversion H; reflexivity).
    rewrite H0. split.
    + apply pending_count_alter_lt. intros x. cbn. discriminate.
    + intros m s Hne. apply has_status_alter_ne, Hne.
  - intros H. inversion H; subst. cbn [_state with_state]. split.
    + apply pending_count_alter_lt. intros x. cbn. discriminate.
    + intros m s Hne. apply has_status_alter_ne, Hne.
Qed.

(** ** Starting and collecting tasks *)

Lemma start_tasks_measure W ctx ready :
  forall ex tasks ex' tasks' r,
    _current_context ex = Some ctx ->
    NoDup (map name ready) ->
    (forall s, s ∈ ready -> has_status (_state ex) PENDING (name s) = true) ->
    start_tasks W ex ready tasks = (ex', tasks', r) ->
    steady ex ex' /\
    exists k,
      (pending_count (_state ex') + k <= pending_count (_state ex))%nat /\
      (length tasks' <= length tasks + k)%nat /\
      (ready <> [] -> 1 <= k)%nat.
Proof.
  induction ready as [|step rest IH]; intros ex tasks ex' tasks' r Hctx Hnd Hpend;
    cbn [start_tasks].
  - intros H; inversion H; subst. split; [apply steady_refl|].
    exists 0%nat. repeat split; try lia. congruence.
  - destruct (_create_step_task W ex step) as [ex1 r1] eqn:Hc.
    pose proof (create_step_task_steady _ _ _ _ _ Hc) as Hs1.
    destruct (create_step_task_pending _ _ _ _ _ _ Hctx Hc) as [Hlt Hother].
    specialize (Hlt (Hpend step ltac:(left))).
    assert (Hctx1 : _current_context ex1 = Some ctx)
      by (destruct Hs1 as (-> & _); exact Hctx).
    cbn [map] in Hnd. apply NoDup_cons in Hnd as [Hnotin Hnd].
    assert (Hpend1 : forall s, s ∈ rest ->
                       has_status (_state ex1) PENDING (name s) = true).
    { intros s Hin. rewrite Hother; [apply Hpend; right; exact Hin|].
      intros Heq. apply Hnotin. rewrite <- Heq. apply list_elem_of_fmap.
      exists s. split; [reflexivity|exact Hin]. }
    destruct r1 as [e|[task|]].
    + intros H; inversion H; subst. split; [exact Hs1|].
      exists 1%nat. repeat split; lia.
    + intros H. destruct (IH _ _ _ _ _ Hctx1 Hnd Hpend1 H) as (Hs & k & Hp & Ht & _).
      split; [eapply steady_trans; eassumption|].
      exists (S k). pose proof (dict_set_length tasks (name step) task).
      repeat split; lia.
    + intros H. destruct (IH _ _ _ _ _ Hctx1 Hnd Hpend1 H) as (Hs & k & Hp & Ht & _).
      split; [eapply steady_trans; eassumption|].
      exists (S k). repeat split; lia.
Qed.

Lemma start_finally_tasks_measure W ctx ready :
  forall ex tasks errs ex' tasks' errs',
    _current_context ex = Some ctx ->
    NoDup (map name ready) ->
    (forall s, s ∈ ready -> has_status (_state ex) PENDING (name s) = true) ->
    start_finally_tasks W ex ready tasks errs = (ex', tasks', errs') ->
    steady ex ex' /\
    exists k,
      (pending_count (_state ex') + k <= pending_count (_state ex))%nat /\
      (length tasks' <= length tasks + k)%nat /\
      (ready <> [] -> 1 <= k)%nat.
Proof.
  induction ready as [|step rest IH];
    intros ex tasks errs ex' tasks' errs' Hctx Hnd Hpend; cbn [start_finally_tasks].
  - intros H; inversion H; subst. split; [apply steady_refl|].
    exists 0%nat. repeat split; try lia. congruence.
  - destruct (_create_step_task W ex step) as [ex1 r1] eqn:Hc.
    pose proof (create_step_task_steady _ _ _ _ _ Hc) as Hs1.
    destruct (create_step_task_pending _ _ _ _ _ _ Hctx Hc) as [Hlt Hother].
    specialize (Hlt (Hpend step ltac:(left))).
    assert (Hctx1 : _current_context ex1 = Some ctx)
      by (destruct Hs1 as (-> & _); exact Hctx).
    cbn [map] in Hnd. apply NoDup_cons in Hnd as [Hnotin Hnd].
    assert (Hpend1 : forall s, s ∈ rest ->
                       has_status (_state ex1) PENDING (name s) = true).
    { intros s Hin. rewrite Hother; [apply Hpend; right; exact Hin|].
      intros Heq. apply Hnotin. rewrite <- Heq. apply list_elem_of_fmap.
      exists s. split; [reflexivity|exact Hin]. }
    destruct r1 as [e|[task|]];
      intros H; destruct (IH _ _ _ _ _ _ Hctx1 Hnd Hpend1 H) as (Hs & k & Hp & Ht & _);
      (split; [eapply steady_trans; eassumption|]);
      exists (S k); try pose proof (dict_set_length tasks (name step) task);
      repeat split; lia.
Qed.

Lemma process_done_measure W step_configs done :
  forall ex tasks ex' tasks' r,
    process_done W ex done step_configs tasks = (ex', tasks', r) ->
    steady ex ex' /\
    (length tasks' <= length tasks)%nat /\
    (forall n rest t, done = n :: rest -> dict_get tasks n = Some t ->
       (length tasks' < length tasks)%nat).
Proof.
  induction done as [|n rest IH]; intros ex tasks ex' tasks' r; cbn [process_done].
  - intros H; inversion H; subst. split; [apply steady_refl|]. split; [lia|].
    discriminate.
  - destruct (dict_get tasks n) as [task|] eqn:Hget.
    + destruct (_process_completed_task W ex n task step_configs tasks)
        as [[ex1 tasks1] r1] eqn:Hp.
      destruct (process_completed_task_steady _ _ _ _ _ _ _ _ _ Hp)
        as (Hs1 & Hle1 & Hdec).
      specialize (Hdec _ Hget).
      destruct r1 as [e|].
      * intros H; inversion H; subst. split; [exact Hs1|]. split; [lia|].
        intros; lia.
      * intros H. destruct (IH _ _ _ _ _ H) as (Hs & Hle & _).
        split; [eapply steady_trans; eassumption|]. split; [lia|].
        intros; lia.
    + intros H. destruct (IH _ _ _ _ _ H) as (Hs & Hle & _).
      split; [exact Hs|]. split; [exact Hle|].
      intros n' rest' t Heq Ht. inversion Heq; subst. congruence.
Qed.

Lemma process_done_finally_measure W step_configs done :
  forall ex tasks errs ex' tasks' errs',
    process_done_finally W ex done step_configs tasks errs = (ex', tasks', errs') ->
    steady ex ex' /\
    (length tasks' <= length tasks)%nat /\
    (forall n rest t, done = n :: rest -> dict_get tasks n = Some t ->
       (length tasks' < length tasks)%nat).
Proof.
  induction done as [|n rest IH]; intros ex tasks errs ex' tasks' errs';
    cbn [process_done_finally].
  - intros H; inversion H; subst. split; [apply steady_refl|]. split; [lia|].
    discriminate.
  - destruct (dict_get tasks n) as [task|] eqn:Hget.
    + destruct (_process_completed_task W ex n task step_configs tasks)
        as [[ex1 tasks1] r1] eqn:Hp.
      destruct (process_completed_task_steady _ _ _ _ _ _ _ _ _ Hp)
        as (Hs1 & Hle1 & Hdec).
      specialize (Hdec _ Hget).
      destruct r1 as [e|];
        intros H; destruct (IH _ _ _ _ _ _ H) as (Hs & Hle & _);
        (split; [eapply steady_trans; eassumption|]); (split; [lia|]);
        intros; lia.
    + intros H. destruct (IH _ _ _ _ _ _ H) as (Hs & Hle & _).
      split; [exact Hs|]. split; [exact Hle|].
      intros n' rest' t Heq Ht. inversion Heq; subst. congruence.
Qed.

Lemma existsb_dict_get {A} (tasks : list (string * A)) n :
  existsb (String.eqb n) (map fst tasks) = true ->
  exists t, dict_get tasks n = Some t.
Proof.
  induction tasks as [|[k v] tasks IH]; cbn.
  - discriminate.
  - rewrite (String.eqb_sym n k). destruct (String.eqb k n); [eauto|].
    cbn. exact IH.
Qed.

(** While tasks are in flight, the wait reports at least one of them. *)
Lemma done_tasks_head W tasks :
  tasks <> [] ->
  exists n rest t, done_tasks W tasks = n :: rest /\ dict_get tasks n = Some t.
Proof.
  intros Hne. unfold done_tasks.
  destruct (List.filter _ (remove_dups (wait W (map fst tasks)))) as [|n rest] eqn:Hf.
  - destruct tasks as [|[k v] tasks]; [contradiction|].
    exists k, [], v. cbn. rewrite String.eqb_refl. split; reflexivity.
  - assert (Hin : In n (List.filter
                          (fun n => existsb (String.eqb n) (map fst tasks))
                          (remove_dups (wait W (map fst tasks)))))
      by (rewrite Hf; left; reflexivity).
    apply filter_In in Hin as [_ Hex].
    apply existsb_dict_get in Hex as [t Ht]. eauto.
Qed.

(** ** The phases end *)

Lemma NoDup_map_filter {A B} (f : A -> B) (p : A -> bool) (l : list A) :
  NoDup (map f l) -> NoDup (map f (List.filter p l)).
Proof.
  induction l as [|a l IH]; cbn [map List.filter]; intros H.
  - constructor.
  - apply NoDup_cons in H as [Hn Hd]. destruct (p a); cbn [map].
    + apply NoDup_cons. split; [|auto].
      intros Hin. apply Hn. apply list_elem_of_fmap in Hin as (x & -> & Hx).
      apply list_elem_of_fmap. exists x. split; [reflexivity|].
      apply list_elem_of_In. apply list_elem_of_In in Hx.
      apply filter_In in Hx. tauto.
    + auto.
Qed.

Lemma elem_of_filter_true {A} (p : A -> bool) (l : list A) x :
  x ∈ List.filter p l -> p x = true.
Proof. intros H. apply list_elem_of_In, filter_In in H. tauto. Qed.

Lemma steady_fold_skipped ex to_skip :
  steady ex (with_state ex (fold_left mark_step_skipped to_skip (_state ex))).
Proof.
  revert ex. induction to_skip as [|n rest IH]; intros ex; cbn [fold_left].
  - unfold steady. cbn. repeat split; lia.
  - specialize (IH (with_state ex (mark_step_skipped (_state ex) n))).
    cbn [_state with_state] in IH.
    eapply steady_trans; [apply steady_mark_skipped|].
    unfold steady in *. cbn in *. exact IH.
Qed.

Lemma steady_measure ex ex' tasks :
  steady ex ex' -> (phase_measure ex' tasks <= phase_measure ex tasks)%nat.
Proof. unfold steady, phase_measure. intuition lia. Qed.

(** The normal phase returns within [phase_measure + 1] iterations, and
    leaves the measure no larger. *)
Lemma normal_phase_terminates W ctx step_configs :
  NoDup (map name step_configs) ->
  forall fuel ex tasks,
    _current_context ex = Some ctx ->
    (phase_measure ex tasks < fuel)%nat ->
    exists ex' tasks' r,
      _execute_normal_phase fuel W ex step_configs tasks = Some (ex', tasks', r) /\
      steady ex ex' /\
      (phase_measure ex' tasks' <= phase_measure ex tasks)%nat.
Proof.
  intros Hnd. induction fuel as [|fuel IH]; intros ex tasks Hctx Hfuel; [lia|].
  cbn [_execute_normal_phase].
  destruct (context_data ex) as [e|data];
    [eexists _, _, _; split; [reflexivity|]; split; [apply steady_refl|lia]|].
  set (ready := List.filter _ (List.filter _ step_configs)).
  assert (Hrnd : NoDup (map name ready))
    by (unfold ready; do 2 apply NoDup_map_filter; exact Hnd).
  assert (Hrp : forall s, s ∈ ready -> has_status (_state ex) PENDING (name s) = true).
  { intros s Hs. apply elem_of_filter_true in Hs.
    unfold is_step_ready in Hs. apply andb_true_iff in Hs. tauto. }
  destruct (start_tasks W ex ready tasks) as [[ex1 tasks1] r1] eqn:Hstart.
  destruct (start_tasks_measure _ _ _ _ _ _ _ _ Hctx Hrnd Hrp Hstart)
    as (Hs1 & k & Hp1 & Ht1 & Hk).
  assert (Hctx1 : _current_context ex1 = Some ctx)
    by (destruct Hs1 as (-> & _); exact Hctx).
  assert (Hcont :
    (tasks1 = [] -> 1 <= k)%nat ->
    exists ex' tasks' r,
      match r1 with
      | Some e => Some (ex1, tasks1, Some e)
      | None =>
          match tasks1 with
          | [] => _execute_normal_phase fuel W (emit ex1 (AsyncSleep 0.01))
                    step_configs []
          | _ :: _ =>
              match process_done W ex1 (done_tasks W tasks1) step_configs tasks1 with
              | (ex2, tasks2, Some e) => Some (ex2, tasks2, Some e)
              | (ex2, tasks2, None) =>
                  _execute_normal_phase fuel W ex2 step_configs tasks2
              end
          end
      end = Some (ex', tasks', r) /\
      steady ex ex' /\
      (phase_measure ex' tasks' <= phase_measure ex tasks)%nat).
  { intros Hk1. destruct r1 as [e|].
    - eexists _, _, _. split; [reflexivity|]. split; [exact Hs1|].
      unfold phase_measure. lia.
    - destruct tasks1 as [|t1 tasks1].
      + specialize (Hk1 eq_refl).
        destruct (IH (emit ex1 (AsyncSleep 0.01)) [] Hctx1)
          as (ex' & tasks' & r & He & Hs & Hm).
        { unfold phase_measure in *. cbn in *. lia. }
        exists ex', tasks', r. split; [exact He|].
        split; [eapply steady_trans; [exact Hs1|];
                eapply steady_trans; [apply steady_emit|exact Hs]|].
        unfold phase_measure in *. cbn in *. lia.
      + destruct (done_tasks_head W (t1 :: tasks1) ltac:(discriminate))
          as (n & rest & t & Hd & Hg).
        destruct (process_done W ex1 (done_tasks W (t1 :: tasks1)) step_configs
                    (t1 :: tasks1)) as [[ex2 tasks2] r2] eqn:Hpd.
        destruct (process_done_measure _ _ _ _ _ _ _ _ Hpd) as (Hs2 & Hle2 & Hlt2).
        specialize (Hlt2 _ _ _ Hd Hg).
        assert (Hs12 : steady ex ex2) by (eapply steady_trans; eassumption).
        assert (Hm2 : (phase_measure ex2 tasks2 < phase_measure ex tasks)%nat).
        { destruct Hs2 as (_ & _ & _ & _ & _ & _ & Hp2).
          unfold phase_measure in *. cbn [length] in *. lia. }
        destruct r2 as [e|].
        * eexists _, _, _. split; [reflexivity|]. split; [exact Hs12|]. lia.
        * destruct (IH ex2 tasks2) as (ex' & tasks' & r & He & Hs & Hm).
          { destruct Hs2 as (-> & _); exact Hctx1. }
          { lia. }
          exists ex', tasks', r. split; [exact He|].
          split; [eapply steady_trans; eassumption|]. lia. }
  destruct ready as [|s ready'] eqn:Hready; [destruct tasks as [|t tasks0]|].
  - (* nothing ready, nothing in flight *)
    clear Hcont.
    destruct (List.filter _ (get_remaining_steps (_state ex))) as [|r0 remaining].
    + eexists _, _, _. split; [reflexivity|]. split; [apply steady_refl|lia].
    + destruct (_ ++ _)%list.
      * eexists _, _, _. split; [reflexivity|]. split; [apply steady_refl|lia].
      * eexists _, _, _. split; [reflexivity|].
        split; [apply steady_fold_skipped|].
        apply steady_measure, steady_fold_skipped.
  - destruct Hcont as (ex' & tasks' & r & He & Hs & Hm).
    { cbn in Hstart. inversion Hstart; subst. discriminate. }
    exists ex', tasks', r. split; [|split; [exact Hs|exact Hm]].
    destruct tasks1, r1; exact He.
  - destruct Hcont as (ex' & tasks' & r & He & Hs & Hm).
    { intros _. apply Hk. discriminate. }
    exists ex', tasks', r. split; [|split; [exact Hs|exact Hm]].
    destruct tasks1, r1; exact He.
Qed.

(** ** The finally phase collects every error *)

Lemma start_finally_tasks_errors W ready :
  forall ex tasks errs ex' tasks' errs',
    start_finally_tasks W ex ready tasks errs = (ex', tasks', errs') ->
    exists more, errs' = (errs ++ more)%list.
Proof.
  induction ready as [|step rest IH]; intros ex tasks errs ex' tasks' errs';
    cbn [start_finally_tasks].
  - intros H; inversion H; subst. exists []. rewrite app_nil_r. reflexivity.
  - destruct (_create_step_task W ex step) as [ex1 [e|[task|]]];
      intros H; apply IH in H as [more ->]; eauto.
    rewrite <- app_assoc. eauto.
Qed.

Lemma process_done_finally_errors W step_configs done :
  forall ex tasks errs ex' tasks' errs',
    process_done_finally W ex done step_configs tasks errs = (ex', tasks', errs') ->
    exists more, errs' = (errs ++ more)%list.
Proof.
  induction done as [|n rest IH]; intros ex tasks errs ex' tasks' errs';
    cbn [process_done_finally].
  - intros H; inversion H; subst. exists []. rewrite app_nil_r. reflexivity.
  - destruct (dict_get tasks n) as [task|]; [|apply IH].
    destruct (_process_completed_task W ex n task step_configs tasks)
      as [[ex1 tasks1] [e|]];
      intros H; apply IH in H as [more ->]; eauto.
    rewrite <- app_assoc. eauto.
Qed.

(** An exception raised while a finally task is created or collected does
    not end the loop it is raised in: the loop goes on with the remaining
    steps, and the exception is among the errors it returns. *)
Lemma start_finally_tasks_collects W ex step rest tasks errs ex1 e :
  _create_step_task W ex step = (ex1, inl e) ->
  start_finally_tasks W ex (step :: rest) tasks errs
    = start_finally_tasks W ex1 rest tasks (errs ++ [e])%list /\
  e ∈ snd (start_finally_tasks W ex (step :: rest) tasks errs).
Proof.
  intros Hc. cbn [start_finally_tasks]. rewrite Hc. split; [reflexivity|].
  destruct (start_finally_tasks W ex1 rest tasks (errs ++ [e])%list)
    as [[ex' tasks'] errs'] eqn:H.
  apply start_finally_tasks_errors in H as [more ->]. cbn. set_solver.
Qed.

Lemma process_done_finally_collects W ex n rest step_configs tasks errs task
    ex1 tasks1 e :
  dict_get tasks n = Some task ->
  _process_completed_task W ex n task step_configs tasks = (ex1, tasks1, Some e) ->
  process_done_finally W ex (n :: rest) step_configs tasks errs
    = process_done_finally W ex1 rest step_configs tasks1 (errs ++ [e])%list /\
  e ∈ snd (process_done_finally W ex (n :: rest) step_configs tasks errs).
Proof.
  intros Hg Hp. cbn [process_done_finally]. rewrite Hg, Hp. split; [reflexivity|].
  destruct (process_done_finally W ex1 rest step_configs tasks1 (errs ++ [e])%list)
    as [[ex' tasks'] errs'] eqn:H.
  apply process_done_finally_errors in H as [more ->]. cbn. set_solver.
Qed.

(** The loop of the finally phase returns within [phase_measure + 1]
    iterations, with the errors it was given and those it collected. *)
Lemma finally_loop_terminates W ctx finally_steps step_configs :
  NoDup (map name finally_steps) ->
  forall fuel ex tasks errs,
    _current_context ex = Some ctx ->
    (phase_measure ex tasks < fuel)%nat ->
    exists ex' tasks' more,
      finally_loop fuel W ex finally_steps step_configs tasks errs
        = Some (ex', tasks', (errs ++ more)%list) /\
      steady ex ex' /\
      (phase_measure ex' tasks' <= phase_measure ex tasks)%nat.
Proof.
  intros Hnd. induction fuel as [|fuel IH]; intros ex tasks errs Hctx Hfuel; [lia|].
  cbn [finally_loop].
  set (ready := List.filter _ finally_steps).
  assert (Hrnd : NoDup (map name ready))
    by (unfold ready; apply NoDup_map_filter; exact Hnd).
  assert (Hrp : forall s, s ∈ ready -> has_status (_state ex) PENDING (name s) = true).
  { intros s Hs. apply elem_of_filter_true in Hs.
    unfold is_step_ready_for_finally in Hs.
    apply andb_true_iff in Hs as [Hs _]. apply andb_true_iff in Hs. tauto. }
  destruct (start_finally_tasks W ex ready tasks errs) as [[ex1 tasks1] errs1] eqn:Hstart.
  destruct (start_finally_tasks_measure _ _ _ _ _ _ _ _ _ Hctx Hrnd Hrp Hstart)
    as (Hs1 & k & Hp1 & Ht1 & Hk).
  destruct (start_finally_tasks_errors _ _ _ _ _ _ _ _ Hstart) as [more1 ->].
  assert (Hctx1 : _current_context ex1 = Some ctx)
    by (destruct Hs1 as (-> & _); exact Hctx).
  assert (Hcont :
    (tasks1 = [] -> 1 <= k)%nat ->
    exists ex' tasks' more,
      match tasks1 with
      | [] => finally_loop fuel W (emit ex1 (AsyncSleep 0.01)) finally_steps
                step_configs [] (errs ++ more1)%list
      | _ :: _ =>
          let '(ex2, tasks2, errs2) :=
            process_done_finally W ex1 (done_tasks W tasks1) step_configs tasks1
              (errs ++ more1)%list in
          finally_loop fuel W ex2 finally_steps step_configs tasks2 errs2
      end = Some (ex', tasks', (errs ++ more)%list) /\
      steady ex ex' /\
      (phase_measure ex' tasks' <= phase_measure ex tasks)%nat).
  { intros Hk1. destruct tasks1 as [|t1 tasks1].
    - specialize (Hk1 eq_refl).
      destruct (IH (emit ex1 (AsyncSleep 0.01)) [] (errs ++ more1)%list Hctx1)
        as (ex' & tasks' & more & He & Hs & Hm).
      { unfold phase_measure in *. cbn in *. lia. }
      exists ex', tasks', (more1 ++ more)%list. rewrite app_assoc.
      split; [exact He|].
      split; [eapply steady_trans; [exact Hs1|];
              eapply steady_trans; [apply steady_emit|exact Hs]|].
      unfold phase_measure in *. cbn in *. lia.
    - destruct (done_tasks_head W (t1 :: tasks1) ltac:(discriminate))
        as (n & rest & t & Hd & Hg).
      destruct (process_done_finally W ex1 (done_tasks W (t1 :: tasks1)) step_configs
                  (t1 :: tasks1) (errs ++ more1)%list)
        as [[ex2 tasks2] errs2] eqn:Hpd.
      destruct (process_done_finally_measure _ _ _ _ _ _ _ _ _ Hpd)
        as (Hs2 & Hle2 & Hlt2).
      destruct (process_done_finally_errors _ _ _ _ _ _ _ _ _ Hpd) as [more2 ->].
      specialize (Hlt2 _ _ _ Hd Hg).
      assert (Hm2 : (phase_measure ex2 tasks2 < phase_measure ex tasks)%nat).
      { destruct Hs2 as (_ & _ & _ & _ & _ & _ & Hp2).
        unfold phase_measure in *. cbn [length] in *. lia. }
      destruct (IH ex2 tasks2 ((errs ++ more1) ++ more2)%list)
        as (ex' & tasks' & more & He & Hs & Hm).
      { destruct Hs2 as (-> & _); exact Hctx1. }
      { lia. }
      exists ex', tasks', (more1 ++ more2 ++ more)%list.
      rewrite !app_assoc. split; [rewrite <- He; reflexivity|].
      split; [eapply steady_trans; [exact Hs1|];
              eapply steady_trans; eassumption|]. lia. }
  destruct ready as [|s ready'] eqn:Hready; [destruct tasks as [|t tasks0]|].
  - exists ex, [], []. rewrite app_nil_r. split; [reflexivity|].
    split; [apply steady_refl|lia].
  - destruct Hcont as (ex' & tasks' & more & He & Hs & Hm).
    { cbn in Hstart. inversion Hstart; subst. discriminate. }
    exists ex', tasks', more. split; [|split; [exact Hs|exact Hm]].
    destruct tasks1; exact He.
  - destruct Hcont as (ex' & tasks' & more & He & Hs & Hm).
    { intros _. apply Hk. discriminate. }
    exists ex', tasks', more. split; [|split; [exact Hs|exact Hm]].
    destruct tasks1; exact He.
Qed.

(** The finally phase returns, and what it returns is the list of errors: it
    raises nothing. *)
Lemma finally_phase_terminates W ctx step_configs fuel ex tasks :
  NoDup (map name step_configs) ->
  _current_context ex = Some ctx ->
  (phase_measure ex tasks < fuel)%nat ->
  exists ex' tasks' finally_errors,
    _execute_finally_phase fuel W ex step_configs tasks
      = Some (ex', tasks', inr finally_errors) /\
    steady ex ex'.
Proof.
  intros Hnd Hctx Hfuel. unfold _execute_finally_phase.
  destruct (List.filter is_finally step_configs) as [|f fs] eqn:Hf.
  - exists ex, tasks, []. split; [reflexivity|apply steady_refl].
  - destruct (finally_loop_terminates W ctx (f :: fs) step_configs
                ltac:(rewrite <- Hf; apply NoDup_map_filter, Hnd)
                fuel ex tasks [] Hctx Hfuel)
      as (ex' & tasks' & more & He & Hs & _).
    rewrite He. eexists _, _, _. split; [reflexivity|exact Hs].
Qed.

(** ** [executeDAG] *)

(** With enough fuel both phases return, the finally phase on what the normal
    phase left, whatever the normal phase raised; and [executeDAG] ends in
    its [finally] block with the aggregate of their errors in flight. *)
Lemma executeDAG_phases W ex context step_configs parsed fuel :
  NoDup (map name step_configs) ->
  validate_steps W step_configs = inr parsed ->
  resolve_connections W step_configs = None ->
  (2 * pending_count (initial_state (_state ex) step_configs) < fuel)%nat ->
  exists ex1 tasks1 normal_phase_error ex2 tasks2 finally_errors,
    _execute_normal_phase fuel W
      (with_run ex step_configs parsed
         (initial_state (_state ex) step_configs) context) step_configs []
      = Some (ex1, tasks1, normal_phase_error) /\
    _execute_finally_phase fuel W ex1 step_configs tasks1
      = Some (ex2, tasks2, inr finally_errors) /\
    executeDAG fuel W ex context step_configs
      = Some (finish_run W ex2 (aggregate normal_phase_error finally_errors)) /\
    has_checkpoint_manager ex2 = has_checkpoint_manager ex /\
    _current_context ex2 = Some context.
Proof.
  intros Hnd Hv Hc Hfuel.
  set (ex0 := with_run ex step_configs parsed
                (initial_state (_state ex) step_configs) context).
  destruct (normal_phase_terminates W context step_configs Hnd fuel ex0 [] eq_refl)
    as (ex1 & tasks1 & nerr & Hn & Hs1 & Hm1).
  { unfold phase_measure, ex0. cbn. lia. }
  destruct (finally_phase_terminates W context step_configs fuel ex1 tasks1 Hnd)
    as (ex2 & tasks2 & ferrs & Hf & Hs2).
  { destruct Hs1 as (-> & _). reflexivity. }
  { unfold phase_measure, ex0 in *. cbn in *. lia. }
  exists ex1, tasks1, nerr, ex2, tasks2, ferrs.
  split; [exact Hn|]. split; [exact Hf|]. split.
  - unfold executeDAG. rewrite Hv, Hc. fold ex0. rewrite Hn, Hf. reflexivity.
  - destruct Hs1 as (C1 & M1 & _). destruct Hs2 as (C2 & M2 & _).
    split; [rewrite M2, M1; reflexivity|rewrite C2, C1; reflexivity].
Qed.

(** What the [finally] block of [executeDAG] lets out: the exception of the
    checkpoint step when it raises one, else the exception in flight. *)
Lemma finish_run_in_flight W ex in_flight :
  snd (finish_run W ex in_flight)
  = match snd (finish_run W ex None) with
    | Some e => Some e
    | None => in_flight
    end.
Proof.
  unfold finish_run.
  destruct (match _suspend_context _ with Some _ => _ | None => _ end);
    [|reflexivity].
  destruct (_create_suspension_checkpoint W _) as [ex' [e|]]; reflexivity.
Qed.

(** Without suspended steps on record the [finally] block raises nothing. *)
Lemma finish_run_no_suspension W ex :
  match _suspend_context ex with
  | Some sc => suspended_steps sc = []
  | None => True
  end ->
  snd (finish_run W ex None) = None.
Proof.
  unfold finish_run. cbn [_suspend_context with_state].
  destruct (_suspend_context ex) as [sc|]; [|reflexivity].
  intros ->. reflexivity.
Qed.

Lemma aggregate_some normal_phase_error finally_errors :
  normal_phase_error <> None \/ finally_errors <> [] ->
  aggregate normal_phase_error finally_errors
  = Some (PipelineExecutionError normal_phase_error finally_errors).
Proof.
  destruct normal_phase_error, finally_errors; cbn; intros [?|?];
    congruence.
Qed.


(** ** The suspension checkpoint *)

(** When steps are on record as suspended, none is running, a checkpoint
    manager is configured, the context has a task id and the manager writes
    the checkpoint, the [finally] block of [executeDAG] writes a checkpoint of
    the state, the context data and the suspension records, and raises
    [PipelineSuspendedException] with its id, whatever was in flight. *)
Lemma finish_run_checkpoint W ex in_flight sc tid cid :
  has_checkpoint_manager ex = true ->
  _suspend_context ex = Some sc ->
  suspended_steps sc <> [] ->
  running_steps (_state ex) = [] ->
  task_id_or_none (store ex) (_current_context ex) = inr (Some tid) ->
  str_truthy tid = true ->
  new_checkpoint_id W tid = inr cid ->
  exists ex' cp,
    finish_run W ex in_flight
      = (ex', Some (PipelineSuspendedException cid (suspended_steps sc)
                      (first_suspend_info sc))) /\
    events ex' = (events ex ++ [CheckpointWritten cp])%list /\
    checkpoint_id cp = cid /\
    cp_task_id cp = tid /\
    dag_state_snapshot cp = finish_execution (_state ex) /\
    (forall d, context_data ex = inr d -> context_snapshot cp = d) /\
    suspended_at_steps cp = suspended_steps sc /\
    cp_suspend_reasons cp = suspend_reasons sc /\
    cp_suspend_data cp = suspend_data sc.
Proof.
  intros Hcm Hsc Hne Hrun Htid Htruthy Hcid.
  unfold finish_run. cbn [_suspend_context with_state]. rewrite Hsc.
  destruct (suspended_steps sc) as [|s0 ss] eqn:Hss; [contradiction|].
  unfold _create_suspension_checkpoint.
  cbn [has_checkpoint_manager _suspend_context with_state _state store
         _current_context].
  rewrite Hcm, Hsc.
  replace (running_steps (finish_execution (_state ex))) with (@nil string)
    by (symmetry; exact Hrun).
  rewrite Htid, Htruthy. cbn [negb]. rewrite Hcid, Hss.
  eexists _, _. split; [reflexivity|]. cbn.
  repeat split; try reflexivity.
  intros d Hd. unfold context_data in *. cbn in *. rewrite Hd. reflexivity.
Qed.


End ExecutorFacts.

(** * Steps inside the semaphore *)

Module ConcurrencyFacts.
Import Config DagState DagStateFacts Executor Concurrency.

Lemma held_cons k p l : held ((k, p) :: l) = (weight p + held l)%nat.
Proof. unfold held, weight. cbn. destruct (is_invoking p); reflexivity. Qed.

Lemma held_set l n p :
  (held (dict_set l n p) + match dict_get l n with Some q => weight q | None => 0 end
   = held l + weight p)%nat.
Proof.
  induction l as [|[k q] l IH]; cbn [dict_set dict_get].
  - rewrite held_cons. unfold held. cbn. lia.
  - destruct (String.eqb k n).
    + rewrite !held_cons. lia.
    + rewrite !held_cons. lia.
Qed.

Lemma held_del l n q l' :
  dict_get l n = Some q -> dict_del l n = Some l' ->
  (held l' + weight q = held l)%nat.
Proof.
  revert l'. induction l as [|[k p] l IH]; intros l'; cbn [dict_get dict_del].
  - discriminate.
  - destruct (String.eqb k n).
    + intros Hq Hd. inversion Hq; inversion Hd; subst. rewrite held_cons. lia.
    + intros Hq. destruct (dict_del l n) as [r|]; [|discriminate].
      intros Hd. inversion Hd; subst. rewrite !held_cons.
      specialize (IH r Hq eq_refl). lia.
Qed.

Lemma dict_get_set {A} (l : list (string * A)) n p m :
  dict_get (dict_set l n p) m
  = if String.eqb n m then
      match dict_get l n with Some _ => Some p | None => Some p end
    else dict_get l m.
Proof.
  induction l as [|[k q] l IH]; cbn [dict_set dict_get].
  - destruct (String.eqb n m); reflexivity.
  - destruct (String.eqb_spec k n) as [->|Hkn]; cbn [dict_get].
    + destruct (String.eqb n m); reflexivity.
    + rewrite IH. destruct (String.eqb_spec n m) as [->|Hnm].
      * destruct (String.eqb_spec k m); [contradiction|].
        destruct (dict_get l m); reflexivity.
      * reflexivity.
Qed.

Lemma dict_get_elem_of {A} (l : list (string * A)) n p :
  dict_get l n = Some p -> n ∈ map fst l.
Proof.
  induction l as [|[k q] l IH]; cbn [dict_get map fst]; [discriminate|].
  rewrite elem_of_cons. destruct (String.eqb_spec k n); auto.
Qed.

Lemma dict_del_elem_of {A} (l : list (string * A)) n r m :
  dict_del l n = Some r -> m ∈ map fst r -> m ∈ map fst l.
Proof.
  revert r. induction l as [|[k q] l IH]; intros r; cbn [dict_del map fst];
    [discriminate|].
  rewrite elem_of_cons. destruct (String.eqb k n).
  - intros E; inversion E; subst. auto.
  - destruct (dict_del l n) as [r'|]; [|discriminate].
    intros E; inversion E; subst. cbn [map fst]. rewrite elem_of_cons.
    intros [->|Hin]; eauto.
Qed.

Lemma dict_set_elem_of {A} (l : list (string * A)) n p m :
  m ∈ map fst (dict_set l n p) -> m = n \/ m ∈ map fst l.
Proof.
  induction l as [|[k q] l IH]; cbn [dict_set map fst].
  - rewrite list_elem_of_singleton. auto.
  - destruct (String.eqb k n); cbn [map fst]; rewrite !elem_of_cons.
    + tauto.
    + intros [->|Hin]; [auto|]. destruct (IH Hin); auto.
Qed.

Lemma dict_get_del_other {A} (l : list (string * A)) n l' m :
  dict_del l n = Some l' ->
  NoDup (map fst l) ->
  dict_get l' m = if String.eqb n m then None else dict_get l m.
Proof.
  revert l'. induction l as [|[k q] l IH]; intros l'; cbn [dict_del dict_get map fst].
  - discriminate.
  - intros Hd Hnd. apply NoDup_cons in Hnd as [Hk Hnd].
    destruct (String.eqb_spec k n) as [->|Hkn].
    + inversion Hd; subst. destruct (String.eqb_spec n m) as [->|_]; [|reflexivity].
      destruct (dict_get l' m) eqn:Hg; [|reflexivity].
      exfalso. apply Hk. eapply dict_get_elem_of; exact Hg.
    + destruct (dict_del l n) as [r|]; [|discriminate].
      inversion Hd; subst. cbn [dict_get]. rewrite (IH r eq_refl Hnd).
      destruct (String.eqb_spec k m) as [->|_]; [|reflexivity].
      destruct (String.eqb_spec n m); [congruence|reflexivity].
Qed.

Lemma dict_del_keys {A} (l : list (string * A)) n l' :
  dict_del l n = Some l' -> NoDup (map fst l) -> NoDup (map fst l').
Proof.
  revert l'. induction l as [|[k q] l IH]; intros l'; cbn [dict_del map fst].
  - discriminate.
  - intros Hd Hnd. apply NoDup_cons in Hnd as [Hk Hnd].
    destruct (String.eqb k n); [inversion Hd; subst; exact Hnd|].
    destruct (dict_del l n) as [r|] eqn:Hr; [|discriminate].
    inversion Hd; subst. cbn [map fst]. apply NoDup_cons. split; [|eauto].
    intros Hin. apply Hk. eapply dict_del_elem_of; eassumption.
Qed.

Lemma dict_set_keys {A} (l : list (string * A)) n p :
  NoDup (map fst l) -> NoDup (map fst (dict_set l n p)).
Proof.
  induction l as [|[k q] l IH]; cbn [dict_set map fst].
  - intros _. apply NoDup_singleton.
  - intros Hnd. apply NoDup_cons in Hnd as [Hk Hnd].
    destruct (String.eqb_spec k n) as [->|Hkn]; cbn [map fst].
    + apply NoDup_cons. split; assumption.
    + apply NoDup_cons. split; [|auto].
      intros Hin. apply dict_set_elem_of in Hin as [->|Hin]; [congruence|auto].
Qed.

Lemma balanced_initial ex step_configs :
  balanced (max_workers ex) (initial ex step_configs).
Proof.
  split; [reflexivity|]. split; [apply NoDup_nil; exact I|]. intros n p E; discriminate E.
Qed.

Lemma balanced_with_coroutine workers s sem n p q :
  balanced workers s ->
  dict_get (coroutines s) n = Some q ->
  (sem + weight p = _semaphore s + weight q)%nat ->
  balanced workers (with_coroutine s sem n p).
Proof.
  intros (Hsem & Hnd & Hrun) Hq Hw. unfold with_coroutine.
  split; [|split]; cbn [coroutines _semaphore executor].
  - pose proof (held_set (coroutines s) n p) as Hs. rewrite Hq in Hs. lia.
  - apply dict_set_keys, Hnd.
  - intros m r. rewrite dict_get_set.
    destruct (String.eqb_spec n m) as [<-|_]; [|apply Hrun].
    intros _. exact (Hrun n q Hq).
Qed.

Lemma step_balanced workers s a s' :
  balanced workers s -> step s a = Some s' -> balanced workers s'.
Proof.
  intros Hb. pose proof Hb as (Hsem & Hnd & Hrun).
  destruct a as [n|n|n|n|n raised]; cbn [step].
  - destruct (dict_get (coroutines s) n) eqn:Hg; [discriminate|].
    destruct (has_status (_state (executor s)) PENDING n) eqn:Hp; [|discriminate].
    intros E; inversion E; subst; clear E.
    split; [|split]; cbn [coroutines _semaphore executor _state with_state].
    + pose proof (held_set (coroutines s) n Resolving) as Hs.
      rewrite Hg in Hs. cbn in Hs. lia.
    + apply dict_set_keys, Hnd.
    + intros m r. rewrite dict_get_set. unfold mark_step_running.
      destruct (String.eqb_spec n m) as [<-|Hne].
      * intros _. apply has_status_alter_eq; [|reflexivity].
        eapply has_status_has_step; exact Hp.
      * intros Hm. rewrite has_status_alter_ne by congruence. exact (Hrun m r Hm).
  - destruct (dict_get (coroutines s) n) as [[| |]|] eqn:Hg; try discriminate.
    destruct (_semaphore s) as [|value] eqn:Hv; [discriminate|].
    intros E; inversion E; subst; clear E.
    eapply balanced_with_coroutine; [exact Hb|exact Hg|]. rewrite Hv. cbn. lia.
  - destruct (dict_get (coroutines s) n) as [[| |]|] eqn:Hg; try discriminate.
    intros E; inversion E; subst; clear E.
    eapply balanced_with_coroutine; [exact Hb|exact Hg|]. cbn. lia.
  - destruct (dict_get (coroutines s) n) as [[| |]|] eqn:Hg; try discriminate.
    intros E; inversion E; subst; clear E.
    eapply balanced_with_coroutine; [exact Hb|exact Hg|]. cbn. lia.
  - assert (Hfinish : forall q rest,
               dict_get (coroutines s) n = Some q -> weight q = 0%nat ->
               dict_del (coroutines s) n = Some rest ->
               balanced workers
                 {| executor :=
                      with_state (executor s)
                        match raised with
                        | None => mark_step_completed (_state (executor s)) n []
                        | Some e => mark_step_failed (_state (executor s)) n e
                        end;
                    _semaphore := _semaphore s;
                    coroutines := rest |}).
    { intros q rest Hg Hw Hd.
      split; [|split]; cbn [coroutines _semaphore executor _state with_state].
      - pose proof (held_del _ _ _ _ Hg Hd). lia.
      - eapply dict_del_keys; eassumption.
      - intros m r. rewrite (dict_get_del_other _ _ _ m Hd Hnd).
        destruct (String.eqb_spec n m) as [<-|Hne]; [discriminate|].
        intros Hm. specialize (Hrun m r Hm).
        destruct raised; unfold mark_step_failed, mark_step_completed;
          rewrite has_status_alter_ne by congruence; exact Hrun. }
    destruct (dict_get (coroutines s) n) as [[| |]|] eqn:Hg; try discriminate;
      destruct (dict_del (coroutines s) n) as [rest|] eqn:Hd; try discriminate;
      intros E; inversion E; subst; clear E;
      eapply Hfinish; eauto.
Qed.

Lemma run_balanced workers actions :
  forall s s', balanced workers s -> run s actions = Some s' -> balanced workers s'.
Proof.
  induction actions as [|a actions IH]; intros s s' Hb; cbn [run].
  - intros E; inversion E; subst. exact Hb.
  - destruct (step s a) as [s1|] eqn:Hs; [|discriminate].
    apply IH. eapply step_balanced; eassumption.
Qed.

Lemma invoking_held s : length (invoking s) = held (coroutines s).
Proof. unfold invoking, held. apply length_map. Qed.

Lemma invoking_get s n :
  In n (invoking s) -> exists p, dict_get (coroutines s) n = Some p.
Proof.
  unfold invoking. intros Hin. apply in_map_iff in Hin as ([k p] & <- & Hin).
  apply filter_In in Hin as [Hin _]. cbn [fst].
  induction (coroutines s) as [|[k' q] l IH]; [destruct Hin|].
  cbn [dict_get]. destruct (String.eqb_spec k' k); [eauto|].
  destruct Hin as [E|Hin]; [inversion E; congruence|exact (IH Hin)].
Qed.


End ConcurrencyFacts.

(** * A failed step and the steps that depend on it *)

Module DependentFacts.
Import Context Config Loop DagState DagStateFacts Executor ExecutorFacts.

Lemma try_attempt_state W ex ctx step attempt ex' r saved :
  try_attempt W ex ctx step attempt = (ex', r, saved) -> _state ex' = _state ex.
Proof.
  unfold try_attempt.
  destruct (run_plugin W (store ex) ctx step attempt) as [σ a].
  destruct (before_invoke a); [intros H; inversion H; reflexivity|].
  destruct (invoked a); [intros H; inversion H; reflexivity|].
  destruct (output_error a); intros H; inversion H; reflexivity.
Qed.

Lemma lookup_state_In l n x : lookup_state l n = Some x -> In (n, x) l.
Proof.
  induction l as [|[k s] l IH]; cbn; [discriminate|].
  destruct (String.eqb_spec k n) as [->|_].
  - intros H; inversion H; subst. now left.
  - intros H. right. exact (IH H).
Qed.

Lemma pending_remains st n :
  has_status st PENDING n = true -> In n (get_remaining_steps st).
Proof.
  unfold has_status, step_state, get_remaining_steps.
  destruct (lookup_state (step_states st) n) as [x|] eqn:Hl; [|discriminate].
  intros Hs. apply lookup_state_In in Hl.
  change n with (fst (n, x)). apply in_map, filter_In. split; [exact Hl|].
  cbn. destruct (status x); try discriminate. reflexivity.
Qed.

(** A step that has a FAILED dependency waits for a reason the normal phase
    recognises. *)
Lemma waiting_reason_failed st deps a :
  has_status st FAILED a = true ->
  In a (map step_name deps) ->
  waiting_reason st deps <> None.
Proof.
  intros Hf. induction deps as [|dep deps IH]; cbn; [intros []|].
  intros [<-|Hin].
  - rewrite Hf. destruct (is_conditional dep && _); discriminate.
  - destruct (is_conditional dep && _); [discriminate|].
    destruct (has_status st FAILED (step_name dep)); [discriminate|].
    exact (IH Hin).
Qed.

(** Such a step is never ready. *)
Lemma is_step_ready_failed_dep st parsed data a b :
  has_status st FAILED a = true ->
  In a (map step_name (deps_of parsed b)) ->
  is_step_ready st b parsed data = false.
Proof.
  intros Hf Hin. unfold is_step_ready. apply andb_false_intro2.
  apply not_true_is_false. intros Hall.
  apply in_map_iff in Hin. destruct Hin as (dep & <- & Hdep).
  rewrite forallb_forall in Hall. specialize (Hall dep Hdep).
  rewrite (status_unique _ _ COMPLETED _ Hf) in Hall by discriminate.
  discriminate.
Qed.

Lemma fold_skipped_status to_skip :
  forall st b,
    has_step st b = true ->
    In b to_skip \/ has_status st SKIPPED b = true ->
    has_status (fold_left mark_step_skipped to_skip st) SKIPPED b = true.
Proof.
  induction to_skip as [|x l IH]; intros st b Hs H; cbn [fold_left].
  - destruct H as [[]|H]. exact H.
  - apply IH.
    + unfold mark_step_skipped. rewrite has_step_alter. exact Hs.
    + destruct (String.eqb_spec x b) as [->|Hne].
      * right. apply has_status_alter_eq; [exact Hs|reflexivity].
      * destruct H as [[He|Hin]|H]; [contradiction|now left|].
        right. unfold mark_step_skipped.
        rewrite has_status_alter_ne by congruence. exact H.
Qed.


End DependentFacts.

(** * Loop steps *)

Module LoopStepFacts.
Import Context Config Loop LoopFacts DagState DagStateFacts Executor ExecutorFacts.

Lemma execute_loop_events run_body str σ ctx step cfg lc0 lc evs r :
  loop_config step = Some cfg ->
  any_copy σ ctx = inr lc0 ->
  (if opt_truthy (condition cfg)
   then _execute_condition_based_loop run_body step (pc_clear_saved_artifacts lc0) cfg
   else _execute_collection_or_count_loop run_body str σ ctx step
          (pc_clear_saved_artifacts lc0) cfg) = (lc, evs, r) ->
  snd (fst (execute_loop run_body str σ ctx step)) = evs /\
  (forall σ', r = inr false -> any_update σ ctx (data lc) = inr σ' ->
     execute_loop run_body str σ ctx step = (σ', evs, None)) /\
  (snd (execute_loop run_body str σ ctx step) = None -> r = inr false).
Proof.
  intros Hcfg Hcopy Hrun. unfold execute_loop. rewrite Hcfg, Hcopy, Hrun.
  destruct r as [e|[|]].
  - split; [|split]; [|discriminate|].
    + destruct e; try reflexivity. destruct (any_update σ ctx (data lc)); reflexivity.
    + destruct e; try discriminate.
      destruct (any_update σ ctx (data lc)); discriminate.
  - destruct (any_update σ ctx (data lc)); (split; [reflexivity|]);
      (split; [discriminate|]); discriminate.
  - destruct (any_update σ ctx (data lc)) as [e|σ1].
    + split; [reflexivity|]. split; [discriminate|reflexivity].
    + split; [reflexivity|]. split; [|reflexivity].
      intros σ' _ E. inversion E; subst. reflexivity.
Qed.

(** A loop that raises nothing leaves its step COMPLETED. *)
Lemma loop_step_completes W ex ctx step σ' evs step_configs tasks :
  execute_loop (run_loop_body W) (py_str W) (store ex) ctx step = (σ', evs, None) ->
  has_status (_state ex) RUNNING (name step) = true ->
  dict_get tasks (name step) = Some (LoopTask ctx step) ->
  exists ex' tasks',
    _process_completed_task W ex (name step) (LoopTask ctx step) step_configs tasks
      = (ex', tasks', None) /\
    has_status (_state ex') COMPLETED (name step) = true /\
    store ex' = σ' /\
    events ex' = (events ex ++ [LoopRun (name step) evs;
                                Progress (name step) COMPLETED None])%list.
Proof.
  intros Hloop Hrunning Hget.
  destruct (dict_get_del _ _ _ Hget) as [tasks' Hdel].
  pose proof (has_status_has_step _ _ _ Hrunning) as Hstep.
  pose proof (status_unique _ _ FAILED _ Hrunning ltac:(discriminate)) as Hnf.
  unfold _process_completed_task. cbn [run_task]. unfold _execute_loop.
  rewrite Hloop. unfold ret.
  cbn [_state emit with_store]. rewrite Hstep, Hnf. cbn [negb]. rewrite Hdel.
  eexists _, _. split; [reflexivity|].
  cbn [_state _report_progress emit with_state store events with_store].
  split; [|split; [reflexivity|]].
  - apply has_status_alter_eq; [exact Hstep|reflexivity].
  - rewrite <- app_assoc. reflexivity.
Qed.

(** C7. A condition loop runs at most [max_iterations] iterations; each is
    entered only when the value at the condition key is truthy in the loop
    context, which is the loop context of the iteration before with the data
    that iteration left merged in; a loop that returns before the cap found
    the condition falsy; a loop that returns after [max_iterations]
    iterations has logged the warning; and when no iteration raised, the loop
    raises nothing and its step is marked COMPLETED. *)
Theorem condition_loop_capped W ex ctx step cfg lc0 :
  loop_config step = Some cfg ->
  opt_truthy (condition cfg) = true ->
  any_copy (store ex) ctx = inr lc0 ->
  exists lc evs r,
    _execute_condition_based_loop (run_loop_body W) step
      (pc_clear_saved_artifacts lc0) cfg = (lc, evs, r) /\
    snd (fst (execute_loop (run_loop_body W) (py_str W) (store ex) ctx step)) = evs /\
    (length (iterations evs) <= max_iterations cfg)%nat /\
    condition_chain (default "" (condition cfg)) 0 (pc_clear_saved_artifacts lc0)
      (iterations evs) /\
    (forall failed, r = inr failed ->
       (length (iterations evs) < max_iterations cfg)%nat ->
       _create_synthetic_body step <> [] ->
       truthy (pc_get lc (default "" (condition cfg)) VNone) = false) /\
    (forall failed, r = inr failed ->
       (0 < max_iterations cfg)%nat ->
       length (iterations evs) = max_iterations cfg ->
       In max_iterations_warning evs) /\
    (none_raised evs ->
     r = inr false /\
     forall σ' step_configs tasks,
       any_update (store ex) ctx (data lc) = inr σ' ->
       has_status (_state ex) RUNNING (name step) = true ->
       dict_get tasks (name step) = Some (LoopTask ctx step) ->
       exists ex' tasks',
         _process_completed_task W ex (name step) (LoopTask ctx step)
           step_configs tasks = (ex', tasks', None) /\
         has_status (_state ex') COMPLETED (name step) = true /\
         store ex' = σ').
Proof.
  intros Hcfg Hcond Hcopy.
  destruct (_execute_condition_based_loop (run_loop_body W) step
              (pc_clear_saved_artifacts lc0) cfg) as [[lc evs] r] eqn:Hrun.
  exists lc, evs, r. split; [reflexivity|].
  destruct (condition_based_loop_spec _ _ _ _ _ _ _ Hcond Hrun)
    as (Hlen & Hchain & Hnone & Hret).
  assert (Hloop : (if opt_truthy (condition cfg)
                   then _execute_condition_based_loop (run_loop_body W) step
                          (pc_clear_saved_artifacts lc0) cfg
                   else _execute_collection_or_count_loop (run_loop_body W)
                          (py_str W) (store ex) ctx step
                          (pc_clear_saved_artifacts lc0) cfg) = (lc, evs, r))
    by (rewrite Hcond; exact Hrun).
  destruct (execute_loop_events _ _ _ _ _ _ _ _ _ _ Hcfg Hcopy Hloop)
    as (Hevs & Hok & _).
  split; [exact Hevs|]. split; [exact Hlen|]. split; [exact Hchain|].
  split; [|split].
  - intros failed E. exact (proj1 (proj2 (Hret failed E))).
  - intros failed E. exact (proj2 (proj2 (Hret failed E))).
  - intros Hn. split; [exact (Hnone Hn)|].
    intros σ' step_configs tasks Hupd Hrunning Hget.
    destruct (loop_step_completes W ex ctx step σ' evs step_configs tasks
                (Hok σ' (Hnone Hn) Hupd) Hrunning Hget)
      as (ex' & tasks' & Hp & Hc & Hs & _).
    exists ex', tasks'. auto.
Qed.


End LoopStepFacts.

(** * Resuming the suspended steps *)

Module ResumeFacts.
Import Context Config DagState DagStateFacts Executor.

Lemma step_state_alter f n st :
  step_state (alter_step f n st) n = option_map f (step_state st n).
Proof.
  unfold step_state, alter_step. cbn [step_states].
  rewrite lookup_alter_states, String.eqb_refl. reflexivity.
Qed.

Lemma retry_after_resume_suspended ex step_name x :
  step_state (_state ex) step_name = Some x ->
  status x = SUSPENDED ->
  exists ex',
    retry_after_resume ex step_name = (ex', None) /\
    store ex' = store ex /\
    step_state (_state ex') step_name
      = Some (mkStepState PENDING None (saved_artifacts x)).
Proof.
  intros Hx Hs. unfold retry_after_resume. rewrite Hx.
  eexists. split; [reflexivity|]. split; [reflexivity|].
  cbn [_state with_state]. unfold mark_step_resumed. rewrite step_state_alter.
  destruct x as [s e a]. cbn in Hs. subst s.
  destruct e; cbn [error].
  - unfold clear_step_error. rewrite step_state_alter, Hx. reflexivity.
  - rewrite Hx. reflexivity.
Qed.

Lemma complete_from_resume_data_suspended W ex context step_name entries x σ' :
  step_state (_state ex) step_name = Some x ->
  match assoc_get "collected_data" entries with
  | Some collected_data =>
      transcript ← rebuild_transcript (py_str W) collected_data;
      any_setitem (store ex) context step_name
        (step_output transcript collected_data)
  | None => ret (store ex)
  end = inr σ' ->
  exists ex',
    complete_from_resume_data W ex context step_name entries = (ex', None) /\
    store ex' = σ' /\
    step_state (_state ex') step_name
      = Some (mkStepState COMPLETED None (saved_artifacts x)).
Proof.
  intros Hx Hw. unfold complete_from_resume_data. rewrite Hw.
  cbn [_suspend_context with_state with_store].
  assert (Hst : step_state
                  (mark_step_completed_from_suspension (_state ex) step_name true)
                  step_name
                = Some (mkStepState COMPLETED None (saved_artifacts x))).
  { unfold mark_step_completed_from_suspension.
    rewrite step_state_alter, Hx. reflexivity. }
  destruct (_suspend_context ex); eexists; (split; [reflexivity|]);
    (split; [reflexivity|exact Hst]).
Qed.

(** C4 (amended). For a step that the restored state has as SUSPENDED:
    when the context has no resume data for it, the step is left as it is;
    when the resume data is a dict whose [complete] is truthy, the step is
    marked COMPLETED with its error cleared, and an output is written to
    [context[step_name]] only when the resume data holds [collected_data];
    when the context has resume data of any other kind, the step goes back
    to PENDING with its error cleared.  With the suspended steps of the
    checkpoint so treated, [resume_from_checkpoint] goes on with
    [executeDAG]. *)
Theorem resume_suspended_step_cases W ex context step_name x :
  step_state (_state ex) step_name = Some x ->
  status x = SUSPENDED ->
  (any_contains (store ex) context (step_name ++ "_resume_data") = inr false ->
   resume_suspended_step W ex context step_name = (ex, None)) /\
  (forall step_resume_data,
     any_contains (store ex) context (step_name ++ "_resume_data") = inr true ->
     any_getitem (store ex) context (step_name ++ "_resume_data")
       = inr step_resume_data ->
     (completed_during_suspension step_resume_data = false ->
      exists ex',
        resume_suspended_step W ex context step_name = (ex', None) /\
        store ex' = store ex /\
        step_state (_state ex') step_name
          = Some (mkStepState PENDING None (saved_artifacts x))) /\
     (completed_during_suspension step_resume_data = true ->
      (forall collected_data transcript σ',
         assoc_get "collected_data" (dict_entries step_resume_data)
           = Some collected_data ->
         rebuild_transcript (py_str W) collected_data = inr transcript ->
         any_setitem (store ex) context step_name
           (step_output transcript collected_data) = inr σ' ->
         exists ex',
           resume_suspended_step W ex context step_name = (ex', None) /\
           store ex' = σ' /\
           step_state (_state ex') step_name
             = Some (mkStepState COMPLETED None (saved_artifacts x))) /\
      (assoc_get "collected_data" (dict_entries step_resume_data) = None ->
       exists ex',
         resume_suspended_step W ex context step_name = (ex', None) /\
         store ex' = store ex /\
         step_state (_state ex') step_name
           = Some (mkStepState COMPLETED None (saved_artifacts x))))) /\
  (forall fuel step_configs cid tid checkpoint σ ex0 ex',
     has_checkpoint_manager ex0 = true ->
     any_task_id (store ex0) context = inr tid ->
     load_checkpoint W tid cid = Some checkpoint ->
     start_resume W (checkpoint_id checkpoint) = true ->
     (σ1 ← restore_context checkpoint (store ex0) context;
      inject_resume_data σ1 context) = inr σ ->
     resume_suspended_steps W
       (with_suspend_context
          (with_store (with_state ex0 (restore_dag_state checkpoint)) σ)
          (Some new_SuspendContext))
       context (suspended_at_steps checkpoint) = (ex', None) ->
     resume_from_checkpoint fuel W ex0 context step_configs cid
     = executeDAG fuel W ex' context step_configs).
Proof.
  intros Hx Hs. split; [|split].
  - intros Hc. unfold resume_suspended_step. rewrite Hc. reflexivity.
  - intros v Hc Hg. split.
    + intros Hn.
      destruct (retry_after_resume_suspended ex step_name x Hx Hs)
        as (ex' & Hr & Hstore & Hst).
      exists ex'. unfold resume_suspended_step. rewrite Hc, Hg.
      split; [|split; assumption].
      destruct v; try exact Hr. cbn [completed_during_suspension] in Hn.
      rewrite Hn. exact Hr.
    + intros Hy. destruct v as [| | | | |?|l|?]; try discriminate Hy.
      cbn [completed_during_suspension dict_entries] in *.
      split.
      * intros cd t σ' Hcd Ht Hset.
        destruct (complete_from_resume_data_suspended W ex context step_name l x σ' Hx)
          as (ex' & Hr & Hstore & Hst).
        { rewrite Hcd, Ht. exact Hset. }
        exists ex'. unfold resume_suspended_step. rewrite Hc, Hg, Hy. auto.
      * intros Hcd.
        destruct (complete_from_resume_data_suspended W ex context step_name l x
                    (store ex) Hx)
          as (ex' & Hr & Hstore & Hst).
        { rewrite Hcd. reflexivity. }
        exists ex'. unfold resume_suspended_step. rewrite Hc, Hg, Hy. auto.
  - intros fuel step_configs cid tid checkpoint σ ex0 ex' Hm Ht Hl Hsr Hσ Hsteps.
    unfold resume_from_checkpoint. rewrite Hm, Ht, Hl, Hsr. cbn [negb].
    cbn [store with_state]. rewrite Hσ, Hsteps. reflexivity.
Qed.

End ResumeFacts.

Module ScenarioFacts.
Import Context Config Loop DagState Executor Concurrency Scenarios ExecutorFacts
  ConcurrencyFacts DependentFacts LoopStepFacts ResumeFacts.

Lemma retryable_step_attempts_witness :
  exists ex',
    run_task (only_A_raises (RetryablePluginError "timeout")) ex_running
      (PluginTask (plain_step "A" [] false))
    = (ex', ret (VNone, [])) /\
    invocations (events ex') = [("A", 0); ("A", 1); ("A", 2)] /\
    sleeps (events ex')
    = [Qmult RETRY_DELAY (inject_Z 1); Qmult RETRY_DELAY (inject_Z 2)] /\
    has_status (_state ex') FAILED "A" = true.
Proof.
  assert (Hretry : always_retryable (only_A_raises (RetryablePluginError "timeout"))
                     (snd fresh_context) (plain_step "A" [] false)).
  { intros σ attempt. exists "timeout". split; reflexivity. }
  destruct (retryable_step_attempts _ _ _ 3 ex_running eq_refl ltac:(lia) Hretry)
    as (ex' & m & new & Hr & Hev & Hinv & Hsl & _ & _ & Hst).
  exists ex'. cbn [run_task].
  split; [exact Hr|]. rewrite Hev. cbn [events ex_running with_run fresh_executor new_DAGExecutor app].
  split; [exact Hinv|]. split; [exact Hsl|].
  apply Hst. reflexivity.
Defined.
Lemma NoDup_names_A_then_B c : NoDup (map name (pipeline_A_then_B c)).
Proof. apply (bool_decide_unpack _). destruct c; vm_compute; exact I. Qed.







Lemma condition_loop_capped_witness :
  let evs := snd (fst (execute_loop (run_loop_body idle_world) (py_str idle_world)
                         loop_store 1%positive (loop_step while_go))) in
  length (iterations evs) = 2%nat /\
  In max_iterations_warning evs /\
  exists ex' tasks',
    _process_completed_task idle_world (loop_executor while_go) "L"
      (LoopTask 1%positive (loop_step while_go)) [loop_step while_go]
      [("L", LoopTask 1%positive (loop_step while_go))] = (ex', tasks', None) /\
    has_status (_state ex') COMPLETED "L" = true.
Proof.
  destruct (condition_loop_capped idle_world (loop_executor while_go) 1%positive
              (loop_step while_go) while_go loop_pipeline_context
              eq_refl eq_refl eq_refl)
    as (lc & evs & r & Hrun & Hevs & Hlen & _ & _ & Hcap & Hdone).
  change (store (loop_executor while_go)) with loop_store in *.
  cbv zeta. rewrite Hevs.
  assert (Hc : length (iterations evs) = 2%nat /\ none_raised evs
               /\ data lc = data loop_pipeline_context).
  { assert (Eevs : evs = snd (fst (_execute_condition_based_loop
                                      (run_loop_body idle_world) (loop_step while_go)
                                      (pc_clear_saved_artifacts loop_pipeline_context)
                                      while_go)))
      by (rewrite Hrun; reflexivity).
    assert (Elc : lc = fst (fst (_execute_condition_based_loop
                                   (run_loop_body idle_world) (loop_step while_go)
                                   (pc_clear_saved_artifacts loop_pipeline_context)
                                   while_go)))
      by (rewrite Hrun; reflexivity).
    rewrite Eevs, Elc. split; [vm_compute; reflexivity|].
    split; [vm_compute; repeat constructor|vm_compute; reflexivity]. }
  destruct Hc as (Hlen2 & Hnone & Hdata).
  destruct (Hdone Hnone) as (Hr & Hcompleted).
  split; [exact Hlen2|]. split.
  - apply (Hcap false Hr); [vm_compute; lia|exact Hlen2].
  - edestruct Hcompleted
      with (step_configs := [loop_step while_go])
           (tasks := [("L", LoopTask 1%positive (loop_step while_go))])
      as (ex' & tasks' & Hp & Hs & _);
      [rewrite Hdata; reflexivity|reflexivity|reflexivity|].
    exists ex', tasks'. split; assumption.
Defined.


(** C4, as stated, fails: the checkpoint records ["A"] as suspended.  When
    the context supplies no resume data for ["A"], the resumed run leaves
    ["A"] SUSPENDED and never invokes it; and when the resume data of ["A"]
    says [complete] without [collected_data], ["A"] is COMPLETED but nothing
    is written to [context["A"]]. *)
Lemma resume_leaves_step_suspended :
  let without := resume_from_checkpoint 10 resuming_world (resuming_executor None)
                   (snd fresh_context) pipeline_A None in
  let complete := resume_from_checkpoint 10 resuming_world
                    (resuming_executor (Some A_complete))
                    (snd fresh_context) pipeline_A None in
  suspended_at_steps checkpoint_A = ["A"] /\
  any_contains (store (resuming_executor None)) (snd fresh_context) "A_resume_data"
  = inr false /\
  raised_by without = Some None /\
  option_map statuses (executor_after without) = Some [("A", SUSPENDED)] /\
  option_map (fun ex => invocations (events ex)) (executor_after without) = Some [] /\
  raised_by complete = Some None /\
  option_map statuses (executor_after complete) = Some [("A", COMPLETED)] /\
  option_map (fun ex => any_contains (store ex) (snd fresh_context) "A")
    (executor_after complete) = Some (inr false).
Proof. vm_compute. repeat split; reflexivity. Qed.

Lemma resume_suspended_step_cases_witness :
  resume_suspended_step resuming_world (restored_executor None)
    (snd fresh_context) "A" = (restored_executor None, None) /\
  exists ex',
    resume_suspended_step resuming_world (restored_executor (Some A_complete))
      (snd fresh_context) "A" = (ex', None) /\
    store ex' = store (restored_executor (Some A_complete)) /\
    step_state (_state ex') "A" = Some (mkStepState COMPLETED None []).
Proof.
  split.
  - apply (resume_suspended_step_cases resuming_world (restored_executor None)
             (snd fresh_context) "A" (mkStepState SUSPENDED None []));
      reflexivity.
  - destruct (resume_suspended_step_cases resuming_world
                (restored_executor (Some A_complete)) (snd fresh_context) "A"
                (mkStepState SUSPENDED None []) eq_refl eq_refl)
      as (_ & Hdata & _).
    destruct (Hdata (VDict [("complete", VBool true)])) as (_ & Hcomplete);
      [vm_compute; reflexivity|vm_compute; reflexivity|].
    destruct (Hcomplete eq_refl) as (_ & Hempty).
    exact (Hempty eq_refl).
Defined.



End ScenarioFacts.

(** * More on the artifact command handler *)

Module ArtifactsExtra.
Import Artifacts ArtifactsFacts ArtifactsMore.

Section Disk.
Variable FS : Type.
Variable mkdir : FS -> Path -> FS * option exn.
Variable write_file : FS -> Path -> pyval -> FS * option exn.
Variable path_exists : FS -> Path -> bool.

#[local] Abbreviation wrapped_handler := (wrapped_handler FS mkdir write_file path_exists).
#[local] Abbreviation run_chain := (run_chain FS mkdir write_file path_exists).
#[local] Abbreviation handler_execute := (handler_execute FS mkdir write_file path_exists).
#[local] Abbreviation save_artifact := (save_artifact FS mkdir write_file path_exists).

(** A handler that raises has not touched the handler object. *)
Lemma wrapped_handler_raise h w c w' e :
  wrapped_handler h w c = (w', inl e) -> snd w' = snd w.
Proof.
  destruct w as [fs self].
  destruct h; unfold Artifacts.wrapped_handler, raise, ret.
  - unfold _validate_command_handler, raise, ret.
    destruct (_ || _); intros H; inversion H; reflexivity.
  - unfold _prepare_directories_handler, raise, ret.
    destruct (mkdir fs _) as [fs1 [e1|]]; intros H; inversion H; reflexivity.
  - unfold _save_to_disk_handler, raise, ret.
    destruct (content c); try destruct (write_file fs _ _) as [fs1 [e1|]];
      intros H; inversion H.
  - unfold _record_command_handler, raise, ret. intros H; inversion H.
Qed.

(** Whatever the handlers installed, running them only appends to the
    history, and what it appends are records of the command it was given. *)
Lemma run_chain_history hs :
  forall w c0 c w' r,
    same_artifact c0 c ->
    run_chain hs w (Some c) = (w', r) ->
    exists new,
      command_history (snd w') = (command_history (snd w) ++ new)%list /\
      Forall (same_artifact c0) new /\
      base_dir (snd w') = base_dir (snd w) /\
      handlers (snd w') = handlers (snd w).
Proof.
  induction hs as [|h hs IH]; intros w c0 c w' r Hsame; cbn [Artifacts.run_chain].
  - intros H; inversion H; subst. exists []. rewrite app_nil_r. auto.
  - destruct (wrapped_handler h w c) as [w1 [e|r1]] eqn:Hh.
    + intros H; inversion H; subst. apply wrapped_handler_raise in Hh.
      rewrite Hh. exists []. rewrite app_nil_r. auto.
    + apply wrapped_handler_ok in Hh as (c1 & -> & S1 & W1 & _).
      intros Hrest.
      apply (IH w1 c0 c1 w' r (same_artifact_trans _ _ _ Hsame S1)) in Hrest
        as (new & Hhist & Hall & Hbase & Hhs).
      rewrite Hhist, Hbase, Hhs, W1.
      destruct h; try (exists new; auto; fail).
      exists (c :: new). cbn [push_history command_history base_dir handlers].
      rewrite <- app_assoc. auto.
Qed.

Lemma same_artifact_refl c : same_artifact c c.
Proof. unfold same_artifact. auto. Qed.

(** Executing a command never removes or alters a record of the history,
    records only the command itself, and leaves the artifact list of every
    other task as it was. *)
Theorem handler_execute_history fs self c w' r :
  handler_execute (fs, self) c = (w', r) ->
  same_artifact c r /\
  (exists new,
     command_history (snd w') = (command_history self ++ new)%list /\
     Forall (same_artifact c) new) /\
  forall tid, tid <> task_id c ->
    get_task_artifacts (snd w') tid = get_task_artifacts self tid.
Proof.
  unfold Artifacts.handler_execute, middleware_execute. cbn [snd].
  destruct (run_chain (handlers self) (fs, self) (Some c)) as [w1 res] eqn:Hrun.
  pose proof Hrun as Hres.
  apply (run_chain_history _ _ c c _ _ (same_artifact_refl c)) in Hrun
    as (new & Hhist & Hall & _ & _).
  cbn [snd] in Hhist.
  assert (Hw : w' = w1 ->
               (exists new0,
                  command_history (snd w') = (command_history self ++ new0)%list /\
                  Forall (same_artifact c) new0) /\
               forall tid, tid <> task_id c ->
                 get_task_artifacts (snd w') tid = get_task_artifacts self tid).
  { intros ->. split; [eauto|]. intros tid Hne.
    unfold get_task_artifacts. rewrite Hhist, filter_app.
    assert (Hnone : filter (fun cmd => task_id cmd = tid) new = []).
    { clear -Hall Hne. induction Hall as [|x l Hx _ IH]; [reflexivity|].
      rewrite filter_cons_False; [exact IH|].
      destruct Hx as (_ & Ht & _). congruence. }
    rewrite Hnone, app_nil_r. reflexivity. }
  assert (Hr : forall st err, same_artifact c (with_status c st err))
    by (intros; unfold same_artifact; cbn; auto).
  assert (Hlast : forall c', res = inr (Some c') -> same_artifact c c').
  { intros c' ->. clear -Hres.
    revert Hres. generalize (handlers self) (fs, self).
    assert (G : forall hs w c1, same_artifact c c1 ->
                  run_chain hs w (Some c1) = (w1, inr (Some c')) ->
                  same_artifact c c').
    { induction hs as [|h hs IH]; intros w c1 Hs; cbn [Artifacts.run_chain].
      - intros H; inversion H; subst. exact Hs.
      - destruct (wrapped_handler h w c1) as [w2 [e|r2]] eqn:Hh; [discriminate|].
        apply wrapped_handler_ok in Hh as (c2 & -> & S2 & _).
        apply IH. eapply same_artifact_trans; eassumption. }
    intros hs w. apply G, same_artifact_refl. }
  destruct res as [e|[c'|]].
  - destruct e; intros H; inversion H; subst; (split; [apply Hr|auto]).
  - intros H; inversion H; subst. split; [apply Hlast; reflexivity|auto].
  - intros H; inversion H; subst. split; [apply Hr|auto].
Qed.

(** ** The default handlers, one by one *)

Lemma validate_rejects w c :
  task_id c = "" \/ filename c = "" ->
  wrapped_handler validate_command w c
  = (w, raise (MiddlewareError "Command must have task_id and filename"
                 "validate_command" (id c))).
Proof.
  intros Hempty. unfold Artifacts.wrapped_handler, _validate_command_handler.
  assert (Hbad : negb (str_truthy (task_id c)) || negb (str_truthy (filename c))
                 = true).
  { destruct Hempty as [-> | ->]; [reflexivity|].
    destruct (negb (str_truthy (task_id c))); reflexivity. }
  rewrite Hbad. reflexivity.
Qed.

Lemma validate_accepts w c :
  task_id c <> "" -> filename c <> "" ->
  wrapped_handler validate_command w c
  = (w, ret (Some (with_status c IN_PROGRESS None))).
Proof.
  intros Ht Hf. unfold Artifacts.wrapped_handler, _validate_command_handler.
  assert (Hok : negb (str_truthy (task_id c)) || negb (str_truthy (filename c))
                = false).
  { unfold str_truthy. rewrite !negb_involutive.
    destruct (String.eqb_spec (task_id c) ""); [contradiction|].
    destruct (String.eqb_spec (filename c) ""); [contradiction|reflexivity]. }
  rewrite Hok. reflexivity.
Qed.

Lemma prepare_directories_result fs self c fs' r :
  mkdir fs (task_dir_of self (task_id c) (subdir c)) = (fs', r) ->
  wrapped_handler prepare_directories (fs, self) c
  = ((fs', self),
     match r with
     | Some e => raise (MiddlewareError (exn_str e) "prepare_directories" (id c))
     | None => ret (Some c)
     end).
Proof.
  intros Hmk. unfold Artifacts.wrapped_handler, _prepare_directories_handler.
  assert (Hdir : (if opt_truthy (subdir c)
                  then joinpath (joinpath (PurePath (base_dir self)) (task_id c))
                         (default "" (subdir c))
                  else joinpath (PurePath (base_dir self)) (task_id c))
                 = task_dir_of self (task_id c) (subdir c))
    by (unfold task_dir_of; destruct (opt_truthy (subdir c)); reflexivity).
  rewrite Hdir, Hmk. destruct r; reflexivity.
Qed.

Lemma artifact_path_in_task_dir self c :
  _get_artifact_path self c
  = joinpath (task_dir_of self (task_id c) (subdir c)) (filename c).
Proof.
  unfold _get_artifact_path, task_dir_of.
  destruct (opt_truthy (subdir c)); reflexivity.
Qed.

Lemma save_to_disk_result fs self c fs' r :
  _get_content_type (content c) <> "unknown" ->
  write_file fs (joinpath (task_dir_of self (task_id c) (subdir c)) (filename c))
    (content c) = (fs', r) ->
  wrapped_handler save_to_disk (fs, self) c
  = ((fs', self),
     ret (Some match r with
               | Some e =>
                   with_status c FAILED
                     (Some (save_error FS path_exists fs'
                              (joinpath (task_dir_of self (task_id c) (subdir c))
                                 (filename c)) e))
               | None => with_status c COMPLETED None
               end)).
Proof.
  intros Hc Hw. unfold Artifacts.wrapped_handler, _save_to_disk_handler.
  rewrite artifact_path_in_task_dir.
  destruct (content c); cbn in Hc; try congruence;
    rewrite Hw; destruct r; reflexivity.
Qed.

Lemma record_command_result fs self c :
  wrapped_handler record_command (fs, self) c
  = ((fs, push_history self c), ret (Some c)).
Proof. reflexivity. Qed.

(** [save_artifact] with an empty task id or an empty file name raises
    [RuntimeError]; it touches neither the disk nor the history. *)
Theorem save_artifact_invalid fs self uuid tid fname c sub meta rest :
  handlers self = validate_command :: rest ->
  tid = "" \/ fname = "" ->
  save_artifact (fs, self) uuid tid fname c sub meta
  = ((fs, self),
     raise (RuntimeError
              ("Failed to save artifact: "
                 ++ "validate_command: Command must have task_id and filename"
                 ++ " (command: " ++ uuid ++ ")"))).
Proof.
  intros Hh Hempty.
  unfold Artifacts.save_artifact, Artifacts.handler_execute, middleware_execute.
  cbn [snd]. rewrite Hh. cbn [Artifacts.run_chain].
  rewrite validate_rejects by exact Hempty. reflexivity.
Qed.

(** When the directory cannot be made, [save_artifact] raises
    [RuntimeError], nothing is written and nothing is recorded. *)
Theorem save_artifact_mkdir_fails fs self uuid tid fname c sub meta rest fs' e :
  handlers self = validate_command :: prepare_directories :: rest ->
  tid <> "" -> fname <> "" ->
  mkdir fs (task_dir_of self tid sub) = (fs', Some e) ->
  save_artifact (fs, self) uuid tid fname c sub meta
  = ((fs', self),
     raise (RuntimeError
              ("Failed to save artifact: "
                 ++ "prepare_directories: " ++ exn_str e
                 ++ " (command: " ++ uuid ++ ")"))).
Proof.
  intros Hh Ht Hf Hmk.
  unfold Artifacts.save_artifact, Artifacts.handler_execute, middleware_execute.
  cbn [snd]. rewrite Hh. cbn [Artifacts.run_chain].
  rewrite validate_accepts by assumption. unfold ret at 1. cbv beta iota.
  erewrite prepare_directories_result by exact Hmk. reflexivity.
Qed.

(** The manager runs the default chain twice, so a write that fails in the
    first pass is tried again in the second: when that one succeeds,
    [save_artifact] returns a COMPLETED command, and the history holds the
    FAILED record of the first pass before it.  The error of that record is
    [str] of the exception, except for [FileNotFoundError], where it names
    the path and says whether the directory of the file exists. *)
Theorem save_artifact_second_chance fs self uuid tid fname c sub meta
    fs1 fs2 fs3 fs4 e :
  handlers self = (default_chain ++ default_chain)%list ->
  tid <> "" -> fname <> "" ->
  _get_content_type c <> "unknown" ->
  mkdir fs (task_dir_of self tid sub) = (fs1, None) ->
  write_file fs1 (joinpath (task_dir_of self tid sub) fname) c = (fs2, Some e) ->
  mkdir fs2 (task_dir_of self tid sub) = (fs3, None) ->
  write_file fs3 (joinpath (task_dir_of self tid sub) fname) c = (fs4, None) ->
  exists w' r1 r,
    save_artifact (fs, self) uuid tid fname c sub meta = (w', ret r) /\
    fst w' = fs4 /\
    command_history (snd w') = (command_history self ++ [r1; r])%list /\
    status r1 = FAILED /\
    error r1
    = Some match e with
           | FileNotFoundError _ =>
               "FileNotFoundError: "
                 ++ path_str (joinpath (task_dir_of self tid sub) fname)
                 ++ ". Parent dir exists: "
                 ++ py_bool_str
                      (path_exists fs2
                         (parent (joinpath (task_dir_of self tid sub) fname)))
           | _ => exn_str e
           end /\
    status r = COMPLETED /\ error r = None.
Proof.
  intros Hh Ht Hf Hc M1 W1 M2 W2.
  unfold Artifacts.save_artifact, Artifacts.handler_execute, middleware_execute.
  cbn [snd]. rewrite Hh. unfold default_chain.
  cbn [app Artifacts.run_chain].
  rewrite validate_accepts by assumption. unfold ret at 1. cbv beta iota.
  erewrite prepare_directories_result by exact M1. unfold ret at 1. cbv beta iota.
  erewrite save_to_disk_result by (try exact W1; exact Hc).
  unfold ret at 1. cbv beta iota.
  rewrite record_command_result. unfold ret at 1. cbv beta iota.
  rewrite validate_accepts by assumption. unfold ret at 1. cbv beta iota.
  erewrite prepare_directories_result by exact M2. unfold ret at 1. cbv beta iota.
  erewrite save_to_disk_result by (try exact W2; exact Hc).
  unfold ret at 1. cbv beta iota.
  rewrite record_command_result.
  cbn [status with_status CommandStatus_eqb].
  eexists _, _, _. split; [reflexivity|].
  cbn [fst snd command_history push_history status error with_status].
  rewrite <- app_assoc. repeat split; reflexivity.
Qed.

Lemma save_to_disk_unsupported fs self c :
  _get_content_type (content c) = "unknown" ->
  wrapped_handler save_to_disk (fs, self) c
  = ((fs, self),
     ret (Some (with_status c FAILED
                  (Some ("Unsupported content type: " ++ py_type_str (content c)))))).
Proof.
  intros Hc. unfold Artifacts.wrapped_handler, _save_to_disk_handler.
  destruct (content c); cbn in Hc; try discriminate; reflexivity.
Qed.

(** What one pass of the default chain does to a valid command: the
    directory is made, the content written, and the command recorded with
    the status the write gave it. *)
Lemma default_chain_run fs self c fs1 fs2 e :
  task_id c <> "" -> filename c <> "" ->
  _get_content_type (content c) <> "unknown" ->
  mkdir fs (task_dir_of self (task_id c) (subdir c)) = (fs1, None) ->
  write_file fs1
    (joinpath (task_dir_of self (task_id c) (subdir c)) (filename c)) (content c)
    = (fs2, e) ->
  let c' := match e with
            | Some x =>
                with_status c FAILED
                  (Some (save_error FS path_exists fs2
                           (joinpath (task_dir_of self (task_id c) (subdir c))
                              (filename c)) x))
            | None => with_status c COMPLETED None
            end in
  run_chain default_chain (fs, self) (Some c)
  = ((fs2, push_history self c'), ret (Some c')).
Proof.
  intros Ht Hf Hc M W c'. unfold default_chain. cbn [Artifacts.run_chain].
  rewrite validate_accepts by assumption. unfold ret at 1. cbv beta iota.
  erewrite prepare_directories_result by exact M. unfold ret at 1. cbv beta iota.
  erewrite save_to_disk_result by (try exact W; exact Hc).
  unfold ret at 1. cbv beta iota.
  rewrite record_command_result. destruct e; reflexivity.
Qed.

Lemma default_chain_unsupported fs self c fs1 :
  task_id c <> "" -> filename c <> "" ->
  _get_content_type (content c) = "unknown" ->
  mkdir fs (task_dir_of self (task_id c) (subdir c)) = (fs1, None) ->
  let c' := with_status c FAILED
              (Some ("Unsupported content type: " ++ py_type_str (content c))) in
  run_chain default_chain (fs, self) (Some c)
  = ((fs1, push_history self c'), ret (Some c')).
Proof.
  intros Ht Hf Hc M c'. unfold default_chain. cbn [Artifacts.run_chain].
  rewrite validate_accepts by assumption. unfold ret at 1. cbv beta iota.
  erewrite prepare_directories_result by exact M. unfold ret at 1. cbv beta iota.
  rewrite save_to_disk_unsupported by exact Hc. unfold ret at 1. cbv beta iota.
  rewrite record_command_result. reflexivity.
Qed.

Lemma default_chain_mkdir_fails fs self c fs1 x :
  task_id c <> "" -> filename c <> "" ->
  mkdir fs (task_dir_of self (task_id c) (subdir c)) = (fs1, Some x) ->
  run_chain default_chain (fs, self) (Some c)
  = ((fs1, self),
     raise (MiddlewareError (exn_str x) "prepare_directories" (id c))).
Proof.
  intros Ht Hf M. unfold default_chain. cbn [Artifacts.run_chain].
  rewrite validate_accepts by assumption. unfold ret at 1. cbv beta iota.
  erewrite prepare_directories_result by exact M. reflexivity.
Qed.

Lemma default_chain_invalid w c :
  task_id c = "" \/ filename c = "" ->
  run_chain default_chain w (Some c)
  = (w, raise (MiddlewareError "Command must have task_id and filename"
                 "validate_command" (id c))).
Proof.
  intros H. unfold default_chain. cbn [Artifacts.run_chain].
  rewrite validate_rejects by exact H. reflexivity.
Qed.

(** What a [save_artifact] that returns has done on the disk: both passes made
    the directory, and the write of the second pass succeeded. *)
Lemma save_artifact_inv fs self uuid tid fname c sub meta w' r :
  handlers self = (default_chain ++ default_chain)%list ->
  save_artifact (fs, self) uuid tid fname c sub meta = (w', ret r) ->
  tid <> "" /\ fname <> "" /\ _get_content_type c <> "unknown" /\
  status r = COMPLETED /\ error r = None /\
  exists fs1 fs2 e1 fs3,
    mkdir fs (task_dir_of self tid sub) = (fs1, None) /\
    write_file fs1 (joinpath (task_dir_of self tid sub) fname) c = (fs2, e1) /\
    mkdir fs2 (task_dir_of self tid sub) = (fs3, None) /\
    write_file fs3 (joinpath (task_dir_of self tid sub) fname) c = (fst w', None).
Proof.
  intros Hh Hsave.
  unfold Artifacts.save_artifact, Artifacts.handler_execute, middleware_execute
    in Hsave.
  cbn [snd] in Hsave. rewrite Hh, run_chain_app in Hsave.
  set (cmd := {| operation := SAVE; task_id := tid |}) in *.
  destruct (String.eqb_spec tid "") as [->|Ht].
  { exfalso. rewrite default_chain_invalid in Hsave by (left; reflexivity).
    cbn in Hsave. discriminate. }
  destruct (String.eqb_spec fname "") as [->|Hf].
  { exfalso. rewrite default_chain_invalid in Hsave by (right; reflexivity).
    cbn in Hsave. discriminate. }
  destruct (mkdir fs (task_dir_of self tid sub)) as [fs1 [x1|]] eqn:M1.
  { exfalso.
    rewrite (default_chain_mkdir_fails fs self cmd fs1 x1 Ht Hf M1) in Hsave.
    cbn in Hsave. discriminate. }
  destruct (String.eqb_spec (_get_content_type c) "unknown") as [Hu|Hc].
  { exfalso.
    rewrite (default_chain_unsupported fs self cmd fs1 Ht Hf Hu M1) in Hsave.
    unfold ret at 1 in Hsave. cbv beta iota in Hsave.
    set (c1 := with_status cmd FAILED
                 (Some ("Unsupported content type: " ++ py_type_str (content cmd))))
      in *.
    destruct (mkdir fs1 (task_dir_of self tid sub)) as [fs3 [x3|]] eqn:M2.
    - rewrite (default_chain_mkdir_fails fs1 (push_history self c1) c1 fs3 x3
                 Ht Hf M2) in Hsave.
      cbn in Hsave. discriminate.
    - rewrite (default_chain_unsupported fs1 (push_history self c1) c1 fs3
                 Ht Hf Hu M2) in Hsave.
      cbn in Hsave. discriminate. }
  destruct (write_file fs1 (joinpath (task_dir_of self tid sub) fname) c)
    as [fs2 e1] eqn:W1.
  rewrite (default_chain_run fs self cmd fs1 fs2 e1 Ht Hf Hc M1 W1) in Hsave.
  unfold ret at 1 in Hsave. cbv beta iota in Hsave.
  set (c1 := match e1 with
             | Some x =>
                 with_status cmd FAILED
                   (Some (save_error FS path_exists fs2
                            (joinpath (task_dir_of self (task_id cmd) (subdir cmd))
                               (filename cmd)) x))
             | None => with_status cmd COMPLETED None
             end) in *.
  assert (Hc1 : task_id c1 = tid /\ filename c1 = fname /\ content c1 = c
                /\ subdir c1 = sub)
    by (unfold c1; destruct e1; auto).
  destruct Hc1 as (T1 & F1 & C1 & S1).
  assert (Ht1 : task_id c1 <> "") by congruence.
  assert (Hf1 : filename c1 <> "") by congruence.
  assert (Hk1 : _get_content_type (content c1) <> "unknown") by congruence.
  destruct (mkdir fs2 (task_dir_of self tid sub)) as [fs3 [x3|]] eqn:M2.
  { exfalso.
    rewrite (default_chain_mkdir_fails fs2 (push_history self c1) c1 fs3 x3)
      in Hsave; try assumption.
    - cbn in Hsave. discriminate.
    - rewrite T1, S1. exact M2. }
  destruct (write_file fs3 (joinpath (task_dir_of self tid sub) fname) c)
    as [fs4 e2] eqn:W2.
  rewrite (default_chain_run fs2 (push_history self c1) c1 fs3 fs4 e2) in Hsave;
    try assumption.
  2: { rewrite T1, S1. exact M2. }
  2: { rewrite T1, S1, F1, C1. exact W2. }
  destruct e2 as [x2|].
  { exfalso. cbn in Hsave. discriminate. }
  cbn [status with_status CommandStatus_eqb] in Hsave.
  injection Hsave as Hw Hr. subst w' r. cbn [fst status error with_status].
  repeat split; try assumption.
  exists fs1, fs2, e1, fs3. auto.
Qed.

(** [save_artifact] returns a command only for a non-empty task id and file
    name and a content that is a dict, a list, a [str] or [bytes]; the
    command it returns is COMPLETED, without an error, and the write of the
    second pass of the handlers succeeded.  In every other case it raises. *)
Theorem save_artifact_returns_completed fs self uuid tid fname c sub meta w' r :
  handlers self = (default_chain ++ default_chain)%list ->
  save_artifact (fs, self) uuid tid fname c sub meta = (w', ret r) ->
  tid <> "" /\ fname <> "" /\ _get_content_type c <> "unknown" /\
  status r = COMPLETED /\ error r = None /\
  exists fs3,
    write_file fs3 (joinpath (task_dir_of self tid sub) fname) c = (fst w', None).
Proof.
  intros Hh Hsave.
  destruct (save_artifact_inv _ _ _ _ _ _ _ _ _ _ Hh Hsave)
    as (Ht & Hf & Hc & Hs & He & fs1 & fs2 & e1 & fs3 & _ & _ & _ & W).
  repeat (split; [assumption|]). exists fs3. exact W.
Qed.

End Disk.

Lemma save_artifact_invalid_witness :
  save_artifact nat mkdir_any flaky_write exists_any (0%nat, ArtifactManager_init "artifacts")
    "c-1" "" "out.txt" (VStr "hi") None []
  = ((0%nat, ArtifactManager_init "artifacts"),
     raise (RuntimeError
              "Failed to save artifact: validate_command: Command must have task_id and filename (command: c-1)")).
Proof.
  apply (save_artifact_invalid nat mkdir_any flaky_write exists_any 0%nat
           (ArtifactManager_init "artifacts") "c-1" "" "out.txt" (VStr "hi")
           None [] _ eq_refl).
  left. reflexivity.
Defined.

Lemma save_artifact_mkdir_fails_witness :
  save_artifact nat mkdir_denied flaky_write exists_any
    (0%nat, ArtifactManager_init "artifacts")
    "c-1" "task-1" "out.txt" (VStr "hi") None []
  = ((0%nat, ArtifactManager_init "artifacts"),
     raise (RuntimeError
              "Failed to save artifact: prepare_directories: permission denied (command: c-1)")).
Proof.
  apply (save_artifact_mkdir_fails nat mkdir_denied flaky_write exists_any 0%nat
           (ArtifactManager_init "artifacts") "c-1" "task-1" "out.txt" (VStr "hi")
           None [] _ 0%nat (OSError "permission denied") eq_refl);
    [discriminate|discriminate|reflexivity].
Defined.

Lemma save_artifact_second_chance_witness :
  exists w' r1 r,
    save_artifact nat mkdir_any missing_write exists_any
      (0%nat, ArtifactManager_init "artifacts")
      "c-1" "task-1" "out.txt" (VStr "hi") None [] = (w', ret r) /\
    command_history (snd w') = [r1; r] /\
    status r1 = FAILED /\
    error r1
    = Some "FileNotFoundError: artifacts/task-1/out.txt. Parent dir exists: True" /\
    status r = COMPLETED.
Proof.
  destruct (save_artifact_second_chance nat mkdir_any missing_write exists_any 0%nat
              (ArtifactManager_init "artifacts") "c-1" "task-1" "out.txt"
              (VStr "hi") None [] 0%nat 1%nat 1%nat 2%nat
              (FileNotFoundError "[Errno 2] No such file or directory")
              eq_refl ltac:(discriminate) ltac:(discriminate) ltac:(discriminate)
              eq_refl eq_refl eq_refl eq_refl)
    as (w' & r1 & r & Hs & _ & Hh & H1 & He & H2 & _).
  exists w', r1, r. repeat split; assumption.
Defined.

Lemma handler_execute_history_witness :
  get_task_artifacts
    (snd (fst (handler_execute nat mkdir_any flaky_write exists_any
                 (1%nat, ArtifactManager_init "artifacts")
                 (mkCommand SAVE "task-1" "out.txt" (VStr "hi") "text" "c-1" None []
                    PENDING None)))) "task-2"
  = [].
Proof.
  destruct (handler_execute nat mkdir_any flaky_write exists_any
              (1%nat, ArtifactManager_init "artifacts")
              (mkCommand SAVE "task-1" "out.txt" (VStr "hi") "text" "c-1" None []
                 PENDING None)) as [w' r] eqn:E.
  destruct (handler_execute_history nat mkdir_any flaky_write exists_any _ _ _ _ _ E)
    as (_ & _ & Hother).
  cbn [fst snd]. rewrite (Hother "task-2") by discriminate. reflexivity.
Defined.

End ArtifactsExtra.

(** * Saving and reading artifacts *)

Module ArtifactDiskFacts.
Import Artifacts ArtifactsFacts ArtifactsMore ArtifactsExtra ArtifactDisk.

(** ** The file system *)

Lemma dirs_grow_refl fs : dirs_grow fs fs.
Proof. intros q H. exact H. Qed.

Lemma dirs_grow_trans a b c : dirs_grow a b -> dirs_grow b c -> dirs_grow a c.
Proof. intros H1 H2 q H. apply H2, H1, H. Qed.

Lemma is_dir_same fs fs' q : dirs fs' = dirs fs -> is_dir fs' q = is_dir fs q.
Proof. intros H. unfold is_dir. rewrite H. reflexivity. Qed.

Lemma is_file_same fs fs' q : files fs' = files fs -> is_file fs' q = is_file fs q.
Proof. intros H. unfold is_file. rewrite H. reflexivity. Qed.

Lemma resolve_mono fs fs' whole parts :
  dirs_grow fs fs' ->
  forall acc c,
    resolve fs whole acc parts = inr c -> resolve fs' whole acc parts = inr c.
Proof.
  intros Hg. induction parts as [|part rest IH]; intros acc c; [auto|].
  cbn [resolve]. destruct rest as [|part' rest']; [auto|].
  set (next := if String.eqb part ".." then up acc else (acc ++ [part])%list).
  destruct (is_dir fs next) eqn:Hd.
  - rewrite (Hg _ Hd). apply IH.
  - destruct (is_file fs next); discriminate.
Qed.

Lemma locate_mono fs fs' p c :
  dirs_grow fs fs' -> locate fs p = inr c -> locate fs' p = inr c.
Proof.
  intros Hg. unfold locate. destruct p as [|part rest]; [auto|].
  destruct (is_root part); apply resolve_mono, Hg.
Qed.

Lemma resolve_no_dotdot fs whole parts :
  ".." ∉ parts ->
  forall acc c, resolve fs whole acc parts = inr c -> c = (acc ++ parts)%list.
Proof.
  induction parts as [|part rest IH]; intros Hno acc c.
  - cbn. intros H. inversion H. rewrite app_nil_r. reflexivity.
  - cbn [resolve].
    assert (Hpart : String.eqb part ".." = false).
    { apply String.eqb_neq. intros ->. apply Hno. left. }
    rewrite Hpart.
    assert (Hrest : ".." ∉ rest) by (intros H; apply Hno; right; exact H).
    destruct rest as [|part' rest'].
    + intros H. inversion H. reflexivity.
    + destruct (is_dir fs _).
      * intros H. apply (IH Hrest) in H. rewrite H, <- app_assoc. reflexivity.
      * destruct (is_file fs _); discriminate.
Qed.

Lemma locate_no_dotdot fs p c : no_dotdot p -> locate fs p = inr c -> c = p.
Proof.
  unfold no_dotdot, locate. intros Hno. destruct p as [|part rest].
  - intros H. inversion H. reflexivity.
  - destruct (is_root part).
    + intros H. apply resolve_no_dotdot in H; [exact H|].
      intros Hin. apply Hno. right. exact Hin.
    + intros H. apply resolve_no_dotdot in H; [exact H|exact Hno].
Qed.

(** When a path leads somewhere, the path before its last part leads to a
    directory. *)
Lemma resolve_snoc fs whole parts x :
  forall acc c,
    is_dir fs acc = true ->
    resolve fs whole acc (parts ++ [x])%list = inr c ->
    exists d, resolve fs whole acc parts = inr d /\ is_dir fs d = true.
Proof.
  induction parts as [|part rest IH]; intros acc c Hacc.
  - cbn. eauto.
  - destruct rest as [|part' rest'].
    + cbn [app resolve].
      set (next := if String.eqb part ".." then up acc else (acc ++ [part])%list).
      destruct (is_dir fs next) eqn:Hd.
      * intros _. exists next. split; [reflexivity|exact Hd].
      * destruct (is_file fs next); intros H; inversion H.
    + change (((part :: part' :: rest') ++ [x])%list)
        with (part :: ((part' :: rest') ++ [x]))%list.
      cbn [resolve]. cbn [app].
      set (next := if String.eqb part ".." then up acc else (acc ++ [part])%list).
      destruct (is_dir fs next) eqn:Hd;
        [|destruct (is_file fs next); intros H; inversion H].
      intros H. apply (IH _ c Hd). exact H.
Qed.

Lemma is_dir_nil fs : is_dir fs [] = true.
Proof. reflexivity. Qed.

Lemma is_dir_root fs part : is_root part = true -> is_dir fs [part] = true.
Proof.
  intros H. unfold is_dir. cbn [above_cwd forallb]. rewrite H.
  destruct (String.eqb ".." part); reflexivity.
Qed.

(** Where a path leads does not depend on how it is shown in errors. *)
Lemma resolve_whole fs whole whole' parts :
  forall acc c,
    resolve fs whole acc parts = inr c -> resolve fs whole' acc parts = inr c.
Proof.
  induction parts as [|part rest IH]; intros acc c; [auto|].
  cbn [resolve]. destruct rest; [auto|].
  destruct (is_dir fs _); [apply IH|].
  destruct (is_file fs _); discriminate.
Qed.

Lemma locate_parent fs d x c :
  d <> [] -> locate fs (d ++ [x])%list = inr c -> path_is_dir fs d = true.
Proof.
  intros Hd. unfold path_is_dir, locate.
  destruct d as [|part rest]; [congruence|]. cbn [app].
  destruct (is_root part) eqn:Hr.
  - intros H. apply resolve_snoc in H as (dd & H & Hdir); [|apply is_dir_root, Hr].
    rewrite (resolve_whole _ _ (part :: rest) _ _ _ H). exact Hdir.
  - intros H.
    change (part :: (rest ++ [x])%list) with ((part :: rest) ++ [x])%list in H.
    apply resolve_snoc in H as (dd & H & Hdir); [|apply is_dir_nil].
    rewrite (resolve_whole _ _ (part :: rest) _ _ _ H). exact Hdir.
Qed.

Lemma mkdir_post_refl fs p e :
  (e = None -> path_is_dir fs p = true) -> mkdir_post fs p fs e.
Proof.
  intros H. split; [reflexivity|]. split; [apply dirs_grow_refl|].
  split; [intros q _; reflexivity|exact H].
Qed.

Lemma mkdir_post_trans fs p1 fs1 fs2 p2 e :
  mkdir_post fs p1 fs1 None -> mkdir_post fs1 p2 fs2 e -> mkdir_post fs p2 fs2 e.
Proof.
  intros (F1 & G1 & S1 & _) (F2 & G2 & S2 & D2).
  split; [congruence|]. split; [eapply dirs_grow_trans; eassumption|].
  split; [|exact D2].
  intros q Hq. rewrite S2, S1; [reflexivity|exact Hq|].
  rewrite (is_file_same fs fs1 q F1). exact Hq.
Qed.

Lemma os_mkdir_spec fs p fs' e :
  os_mkdir fs p = (fs', e) ->
  mkdir_post fs p fs' e /\ (e <> None -> fs' = fs).
Proof.
  unfold os_mkdir. destruct (locate fs p) as [x|c] eqn:Hl.
  - intros H; inversion H; subst. split; [|reflexivity].
    apply mkdir_post_refl. discriminate.
  - destruct (is_dir fs c || is_file fs c) eqn:Hex.
    + intros H; inversion H; subst. split; [|reflexivity].
      apply mkdir_post_refl. discriminate.
    + apply orb_false_iff in Hex as [Hd Hf].
      intros H; inversion H; subst. split; [|congruence].
      assert (Hg : dirs_grow fs {| dirs := dirs fs ∪ {[c]}; files := files fs |}).
      { intros q Hq. unfold is_dir in *. cbn [dirs].
        apply orb_true_iff in Hq as [Hq|Hq]; [rewrite Hq; reflexivity|].
        apply bool_decide_eq_true in Hq.
        rewrite (bool_decide_eq_true_2 (q ∈ dirs fs ∪ {[c]})) by set_solver.
        apply orb_true_r. }
      split; [reflexivity|]. split; [exact Hg|]. split.
      * intros q Hq. unfold is_dir. cbn [dirs]. f_equal.
        apply bool_decide_ext. split; [|set_solver].
        intros Hin. apply elem_of_union in Hin as [Hin|Hin]; [exact Hin|].
        apply elem_of_singleton in Hin. subst q. congruence.
      * intros _. unfold path_is_dir. rewrite (locate_mono _ _ _ _ Hg Hl).
        unfold is_dir. cbn [dirs].
        rewrite (bool_decide_eq_true_2 (c ∈ dirs fs ∪ {[c]})) by set_solver.
        apply orb_true_r.
Qed.

Lemma mkdir_parents_spec n :
  forall fs p fs' e, mkdir_parents n fs p = (fs', e) -> mkdir_post fs p fs' e.
Proof.
  induction n as [|n IH]; intros fs p fs' e; cbn [mkdir_parents];
    destruct (os_mkdir fs p) as [fs0 [x|]] eqn:Hos.
  - destruct x; destruct (path_is_dir fs p) eqn:Hd; intros H; inversion H; subst;
      apply mkdir_post_refl; congruence.
  - intros H; inversion H; subst. apply (os_mkdir_spec _ _ _ _ Hos).
  - destruct x; try (destruct (path_is_dir fs p) eqn:Hd; intros H; inversion H; subst;
                     apply mkdir_post_refl; congruence).
    case_bool_decide.
    { intros H'; inversion H'; subst. apply mkdir_post_refl. discriminate. }
    destruct (mkdir_parents n fs (parent p)) as [fs1 [x1|]] eqn:Hpar.
    { intros H'; inversion H'; subst. apply IH in Hpar.
      destruct Hpar as (F & G & S & _). split; [exact F|]. split; [exact G|].
      split; [exact S|discriminate]. }
    apply IH in Hpar.
    destruct (os_mkdir fs1 p) as [fs2 [x2|]] eqn:Hos2.
    + assert (Hsame : forall e0, (e0 = None -> path_is_dir fs1 p = true) ->
                                 mkdir_post fs p fs1 e0).
      { intros e0 He0. apply (mkdir_post_trans _ _ _ _ _ _ Hpar).
        apply mkdir_post_refl, He0. }
      destruct x2; destruct (path_is_dir fs1 p) eqn:Hd; intros H'; inversion H';
        subst; apply Hsame; congruence.
    + intros H'; inversion H'; subst.
      apply (mkdir_post_trans _ _ _ _ _ _ Hpar), (os_mkdir_spec _ _ _ _ Hos2).
  - intros H; inversion H; subst. apply (os_mkdir_spec _ _ _ _ Hos).
Qed.

Lemma mkdir_spec fs p fs' e : mkdir fs p = (fs', e) -> mkdir_post fs p fs' e.
Proof. apply mkdir_parents_spec. Qed.

(** A directory can be made again, and nothing changes. *)
Lemma mkdir_parents_dir n fs p :
  path_is_dir fs p = true -> mkdir_parents n fs p = (fs, None).
Proof.
  intros Hd. assert (Hos : os_mkdir fs p = (fs, Some (EEXIST p))).
  { unfold os_mkdir. unfold path_is_dir in Hd.
    destruct (locate fs p) as [x|c]; [discriminate|]. rewrite Hd. reflexivity. }
  destruct n; cbn [mkdir_parents]; rewrite Hos; cbn; rewrite Hd; reflexivity.
Qed.

Lemma open_write_spec fs p data fs' e :
  open_write fs p data = (fs', e) ->
  dirs fs' = dirs fs /\
  match e with
  | None => exists c, locate fs p = inr c /\ is_dir fs c = false /\
                      files fs' = <[c := data]> (files fs)
  | Some _ => fs' = fs
  end.
Proof.
  unfold open_write. destruct (locate fs p) as [x|c]; [intros H; inversion H; auto|].
  destruct (is_dir fs c) eqn:Hd; intros H; inversion H; subst; cbn [dirs files];
    eauto 6.
Qed.

Lemma bind_ret {A B} (a : A) (f : A -> result B) : ret a ≫= f = f a.
Proof. reflexivity. Qed.

Lemma snoc_neq {A} (l : list A) x : (l ++ [x])%list <> l.
Proof.
  intros E. rewrite <- (app_nil_r l) in E at 2. apply app_inv_head in E. discriminate.
Qed.

Lemma path_is_dir_nil fs : path_is_dir fs [] = true.
Proof. reflexivity. Qed.

Lemma locate_parent_dir fs d x c :
  locate fs (d ++ [x])%list = inr c -> path_is_dir fs d = true.
Proof.
  destruct d as [|part rest]; [intros _; apply path_is_dir_nil|].
  apply locate_parent. discriminate.
Qed.

Lemma path_is_dir_parent fs d x :
  path_is_dir fs (d ++ [x])%list = true -> path_is_dir fs d = true.
Proof.
  unfold path_is_dir at 1.
  destruct (locate fs (d ++ [x])%list) as [e|c] eqn:Hl; [discriminate|].
  intros _. apply (locate_parent_dir _ _ _ _ Hl).
Qed.

Lemma parent_snoc (d : Path) x : d <> [] -> parent (d ++ [x])%list = d.
Proof.
  intros Hd. unfold parent.
  destruct d as [|y l]; [congruence|]. cbn [app].
  destruct (l ++ [x])%list eqn:E; [destruct l; discriminate|].
  rewrite <- E. change (y :: (l ++ [x])%list) with ((y :: l) ++ [x])%list.
  apply removelast_last.
Qed.

(** When a directory could be made in a directory, so can that one, and no
    file changes. *)
Lemma mkdir_parent_ok fs d x fs1 :
  mkdir fs (d ++ [x])%list = (fs1, None) ->
  exists fs0, mkdir fs d = (fs0, None) /\ files fs0 = files fs.
Proof.
  assert (Hdir : path_is_dir fs d = true ->
                 exists fs0, mkdir fs d = (fs0, None) /\ files fs0 = files fs).
  { intros Hd. exists fs. split; [apply mkdir_parents_dir, Hd|reflexivity]. }
  unfold mkdir at 1. rewrite length_app, Nat.add_1_r. cbn [mkdir_parents].
  destruct (os_mkdir fs (d ++ [x])%list) as [fs0 [e|]] eqn:Hos.
  - assert (Hother : (if path_is_dir fs (d ++ [x])%list
                      then (fs, None) else (fs, Some e)) = (fs1, None) ->
                     exists fs0, mkdir fs d = (fs0, None) /\ files fs0 = files fs).
    { destruct (path_is_dir fs (d ++ [x])%list) eqn:Hp; [|discriminate].
      intros _. apply Hdir, (path_is_dir_parent _ _ _ Hp). }
    destruct e; try exact Hother.
    case_bool_decide as Hpar; [discriminate|].
    destruct (decide (d = [])) as [->|Hd]; [intros _; apply Hdir, path_is_dir_nil|].
    rewrite (parent_snoc d x Hd).
    destruct (mkdir_parents (length d) fs d) as [fs2 [e2|]] eqn:Hm; [discriminate|].
    intros _. exists fs2. split; [exact Hm|].
    apply mkdir_parents_spec in Hm as (F & _). exact F.
  - intros _. apply Hdir. unfold os_mkdir in Hos.
    destruct (locate fs (d ++ [x])%list) as [e|c] eqn:Hl; [discriminate|].
    apply (locate_parent_dir _ _ _ _ Hl).
Qed.

Lemma joinpath_plain (p : Path) s :
  plain_name s = true -> joinpath p s = (p ++ [s])%list /\ s <> "..".
Proof.
  unfold plain_name, joinpath.
  destruct (names_of s) as [|part [|part' l]]; try discriminate.
  destruct (root_of s); [discriminate|].
  intros H. apply andb_true_iff in H as [H1 H2].
  apply String.eqb_eq in H1. subst part. split; [reflexivity|].
  apply negb_true_iff, String.eqb_neq in H2. exact H2.
Qed.

Lemma no_dotdot_snoc (p : Path) s : no_dotdot p -> s <> ".." -> no_dotdot (p ++ [s])%list.
Proof.
  unfold no_dotdot. intros Hp Hs Hin. apply elem_of_app in Hin as [Hin|Hin];
    [exact (Hp Hin)|].
  apply list_elem_of_singleton in Hin. congruence.
Qed.

Section Codec.
Variable json_dump : pyval -> list Byte.byte * option exn.
Variable json_load : list Byte.byte -> result pyval.
Variable encode : string -> list Byte.byte.
Variable decode : list Byte.byte -> result string.

#[local] Abbreviation write_file := (write_file json_dump encode).
#[local] Abbreviation save := (save json_dump encode).
#[local] Abbreviation stored := (stored json_dump encode).
#[local] Abbreviation read_artifact_sync := (read_artifact_sync json_load decode).

(** Writing changes no directory, and no file but the one the path leads
    to; when nothing is raised, that file holds the bytes of the content. *)
Lemma write_file_spec fs p c fs' e :
  write_file fs p c = (fs', e) ->
  dirs fs' = dirs fs /\
  (files fs' = files fs \/
   exists loc data, locate fs p = inr loc /\ files fs' = <[loc := data]> (files fs)) /\
  (e = None ->
   exists loc data, locate fs p = inr loc /\ is_dir fs loc = false /\
                    stored c data /\ files fs' = <[loc := data]> (files fs)).
Proof.
  assert (Hopen : forall data fs1 e1,
             open_write fs p data = (fs1, e1) ->
             dirs fs1 = dirs fs /\
             (files fs1 = files fs \/
              exists loc data, locate fs p = inr loc /\
                               files fs1 = <[loc := data]> (files fs)) /\
             (e1 = None ->
              exists loc, locate fs p = inr loc /\ is_dir fs loc = false /\
                          files fs1 = <[loc := data]> (files fs))).
  { intros data fs1 e1 H. apply open_write_spec in H as [Hd Hf].
    split; [exact Hd|]. destruct e1 as [x|].
    - subst fs1. split; [left; reflexivity|discriminate].
    - destruct Hf as (loc & Hl & Hnd & Hf). split; [right; eauto|eauto]. }
  unfold ArtifactDisk.write_file, ArtifactDisk.stored.
  destruct c as [|b|n|s|b|l|l|q];
    try (intros H; inversion H; subst;
         split; [reflexivity|]; split; [left; reflexivity|discriminate]).
  - intros H. apply Hopen in H as (Hd & Hf & Hp). split; [exact Hd|].
    split; [exact Hf|]. intros He. destruct (Hp He) as (loc & ? & ? & ?). eauto 8.
  - intros H. apply Hopen in H as (Hd & Hf & Hp). split; [exact Hd|].
    split; [exact Hf|]. intros He. destruct (Hp He) as (loc & ? & ? & ?). eauto 8.
  - destruct (json_dump (VList l)) as [text raised] eqn:Hj.
    destruct (open_write fs p text) as [fs1 [x|]] eqn:Ho.
    + intros H; inversion H; subst. apply Hopen in Ho as (Hd & Hf & _).
      split; [exact Hd|]. split; [exact Hf|discriminate].
    + intros H; inversion H; subst. apply Hopen in Ho as (Hd & Hf & Hp).
      split; [exact Hd|]. split; [exact Hf|]. intros ->.
      destruct (Hp eq_refl) as (loc & ? & ? & ?). eauto 8.
  - destruct (json_dump (VDict l)) as [text raised] eqn:Hj.
    destruct (open_write fs p text) as [fs1 [x|]] eqn:Ho.
    + intros H; inversion H; subst. apply Hopen in Ho as (Hd & Hf & _).
      split; [exact Hd|]. split; [exact Hf|discriminate].
    + intros H; inversion H; subst. apply Hopen in Ho as (Hd & Hf & Hp).
      split; [exact Hd|]. split; [exact Hf|]. intros ->.
      destruct (Hp eq_refl) as (loc & ? & ? & ?). eauto 8.
Qed.

Lemma artifact_path_task_dir self tid fname sub :
  get_artifact_path (base_dir self) tid fname sub
  = joinpath (task_dir_of self tid sub) fname.
Proof.
  unfold get_artifact_path, task_dir_of. destruct (opt_truthy sub); reflexivity.
Qed.

(** What a save that returns has done to the disk: the file that the path
    of the artifact leads to holds the bytes of the content, no other file
    has changed, the directories that were there are there, no other file
    has become a directory, and the directory of the artifact exists. *)
Lemma save_spec fs self uuid tid fname c sub meta w' r :
  handlers self = (default_chain ++ default_chain)%list ->
  save (fs, self) uuid tid fname c sub meta = (w', ret r) ->
  exists loc data,
    locate (fst w') (get_artifact_path (base_dir self) tid fname sub) = inr loc /\
    is_dir (fst w') loc = false /\
    stored c data /\
    files (fst w') !! loc = Some data /\
    (forall q, q <> loc -> files (fst w') !! q = files fs !! q) /\
    dirs_grow fs (fst w') /\
    (forall q, q <> loc -> is_file fs q = true -> is_dir (fst w') q = is_dir fs q) /\
    path_is_dir (fst w') (task_dir_of self tid sub) = true /\
    exists fs1, mkdir fs (task_dir_of self tid sub) = (fs1, None).
Proof.
  intros Hh Hsave.
  apply (save_artifact_inv _ _ _ _ _ _ _ _ _ _ _ _ _ _ Hh) in Hsave
    as (_ & _ & _ & _ & _ & fs1 & fs2 & e1 & fs3 & M1 & W1 & M2 & W2).
  rewrite artifact_path_task_dir.
  set (path := joinpath (task_dir_of self tid sub) fname) in *.
  pose proof M1 as M1'.
  apply mkdir_spec in M1 as (F1 & G1 & S1 & _).
  apply write_file_spec in W1 as (Dw1 & Fw1 & _).
  apply mkdir_spec in M2 as (F2 & G2 & S2 & D2).
  apply write_file_spec in W2 as (Dw2 & _ & Hdata).
  destruct (Hdata eq_refl) as (loc & data & Hloc & Hnd & Hst & Hfiles).
  assert (G12 : dirs_grow fs1 fs2) by (intros q; rewrite (is_dir_same _ _ _ Dw1); auto).
  assert (G3w : dirs_grow fs3 (fst w'))
    by (intros q; rewrite (is_dir_same _ _ _ Dw2); auto).
  assert (Fframe1 : forall q, q <> loc -> files fs2 !! q = files fs1 !! q).
  { intros q Hq. destruct Fw1 as [->|(loc1 & d1 & Hl1 & ->)]; [reflexivity|].
    assert (loc1 = loc).
    { apply (locate_mono _ fs3) in Hl1; [congruence|].
      eapply dirs_grow_trans; eassumption. }
    subst loc1. apply lookup_insert_ne. congruence. }
  exists loc, data.
  split; [apply (locate_mono _ _ _ _ G3w Hloc)|].
  split; [rewrite (is_dir_same _ _ _ Dw2); exact Hnd|].
  split; [exact Hst|].
  split; [rewrite Hfiles; apply lookup_insert_eq|].
  split.
  { intros q Hq. rewrite Hfiles, lookup_insert_ne by congruence.
    rewrite F2, (Fframe1 q Hq), F1. reflexivity. }
  split.
  { eapply dirs_grow_trans; [exact G1|]. eapply dirs_grow_trans; [exact G12|].
    eapply dirs_grow_trans; [exact G2|exact G3w]. }
  split.
  { intros q Hq Hfile. rewrite (is_dir_same _ _ _ Dw2).
    rewrite S2, (is_dir_same _ _ _ Dw1), S1; [reflexivity|exact Hfile|].
    unfold is_file. rewrite (Fframe1 q Hq), F1. exact Hfile. }
  split.
  { specialize (D2 eq_refl). unfold path_is_dir in *.
    destruct (locate fs3 (task_dir_of self tid sub)) as [x|d] eqn:Hd; [discriminate|].
    rewrite (locate_mono _ _ _ _ G3w Hd). rewrite (is_dir_same _ _ _ Dw2). exact D2. }
  exists fs1. exact M1'.
Qed.

(** Round trip.  An artifact saved under a name whose extension says to read
    it the way its content was written is read back as it was saved. *)
Theorem save_then_read fs self uuid tid fname c sub meta w' r :
  handlers self = (default_chain ++ default_chain)%list ->
  save (fs, self) uuid tid fname c sub meta = (w', ret r) ->
  read_as_written json_dump json_load encode decode fname c ->
  artifact_exists (fst w') (base_dir self) tid fname sub = true /\
  read_artifact_sync (fst w') (base_dir self) tid fname sub = ret c.
Proof.
  intros Hh Hsave Hmatch.
  destruct (save_spec _ _ _ _ _ _ _ _ _ _ Hh Hsave)
    as (loc & data & Hloc & Hnd & Hst & Hfile & _).
  assert (Hex : path_exists (fst w')
                  (get_artifact_path (base_dir self) tid fname sub) = true).
  { unfold path_exists, is_file. rewrite Hloc, Hfile.
    rewrite (bool_decide_eq_true_2 _ (mk_is_Some _ _ eq_refl)).
    apply orb_true_r. }
  split; [exact Hex|].
  unfold ArtifactDisk.read_artifact_sync, open_read. rewrite Hex, Hloc. cbn [negb].
  cbn [mbind result_bind]. rewrite Hnd, Hfile, bind_ret.
  unfold read_as_written in Hmatch. unfold ArtifactDisk.stored in Hst.
  destruct c; try contradiction.
  - destruct Hmatch as (Hj & Ht & Hd). subst data. rewrite Hj, Ht, Hd. reflexivity.
  - destruct Hmatch as (Hj & Ht). subst data. rewrite Hj, Ht. reflexivity.
  - destruct Hmatch as (Hj & Hl). rewrite Hj. exact (Hl data Hst).
  - destruct Hmatch as (Hj & Hl). rewrite Hj. exact (Hl data Hst).
Qed.

(** Under a name whose extension says otherwise, and is not [.json], what is
    read back is never what was saved: a dict comes back as text or bytes, a
    string as bytes, bytes as text. *)
Theorem save_then_read_otherwise fs self uuid tid fname c sub meta w' r :
  handlers self = (default_chain ++ default_chain)%list ->
  save (fs, self) uuid tid fname c sub meta = (w', ret r) ->
  read_otherwise fname c ->
  read_artifact_sync (fst w') (base_dir self) tid fname sub <> ret c.
Proof.
  intros Hh Hsave (Hj & Hother).
  destruct (save_spec _ _ _ _ _ _ _ _ _ _ Hh Hsave)
    as (loc & data & Hloc & Hnd & Hst & Hfile & _).
  unfold ArtifactDisk.read_artifact_sync, open_read. rewrite Hloc.
  destruct (negb _); [discriminate|].
  cbn [mbind result_bind]. rewrite Hnd, Hfile, bind_ret, Hj.
  destruct (endswith fname ".txt" || endswith fname ".md").
  - destruct (decode data); [discriminate|].
    destruct c; try contradiction; discriminate.
  - destruct c; try contradiction; discriminate.
Qed.


(** ** Listing *)

Lemma last_removelast (p : Path) name :
  last p = Some name -> p = (removelast p ++ [name])%list.
Proof.
  intros Hl. destruct (decide (p = [])) as [->|Hp]; [discriminate|].
  rewrite (app_removelast_last name Hp) at 1. f_equal. f_equal.
  clear Hp. induction p as [|x q IH]; [discriminate|].
  destruct q as [|y q]; [cbn in *; congruence|].
  cbn [List.last]. apply IH. exact Hl.
Qed.

Lemma elem_of_files_in fs dir name data :
  (name, data) ∈ files_in fs dir <-> files fs !! (dir ++ [name])%list = Some data.
Proof.
  unfold files_in. rewrite list_elem_of_omap. split.
  - intros ([p d] & Hin & Hf). apply elem_of_map_to_list in Hin. cbn [fst snd] in Hf.
    destruct (last p) as [n|] eqn:Hl; [|discriminate].
    destruct (bool_decide (removelast p = dir)) eqn:Hd; [|discriminate].
    apply bool_decide_eq_true in Hd. inversion Hf; subst.
    rewrite <- (last_removelast p name Hl). exact Hin.
  - intros Hin. exists ((dir ++ [name])%list, data). split.
    + apply elem_of_map_to_list. exact Hin.
    + cbn [fst snd]. rewrite last_snoc, removelast_last.
      rewrite bool_decide_eq_true_2 by reflexivity. reflexivity.
Qed.

Lemma files_in_same fs fs' dir : files fs' = files fs -> files_in fs' dir = files_in fs dir.
Proof. intros H. unfold files_in. rewrite H. reflexivity. Qed.

Lemma files_in_insert_elsewhere fs fs' dir p data :
  files fs' = <[p := data]> (files fs) ->
  removelast p <> dir ->
  files_in fs' dir ≡ₚ files_in fs dir.
Proof.
  intros Hf Hp. unfold files_in. rewrite Hf.
  set (f := fun kv : Path * list Byte.byte =>
              match last (fst kv : Path) with
              | Some name =>
                  if bool_decide (removelast (fst kv) = dir)
                  then Some (name, snd kv) else None
              | None => None
              end).
  assert (Hnone : forall x, f (p, x) = None).
  { intros x. unfold f. cbn [fst snd]. destruct (last p); [|reflexivity].
    rewrite bool_decide_eq_false_2 by exact Hp. reflexivity. }
  rewrite <- (insert_delete_eq (files fs) p data).
  rewrite map_to_list_insert by apply lookup_delete_eq.
  cbn [omap list_omap]. rewrite Hnone.
  destruct (files fs !! p) as [y|] eqn:Hy.
  - rewrite <- (insert_delete_id (files fs) p y Hy) at 2.
    rewrite map_to_list_insert by apply lookup_delete_eq.
    cbn [omap list_omap]. rewrite Hnone. reflexivity.
  - rewrite delete_id by exact Hy. reflexivity.
Qed.

Lemma listed_entries (uuid4 : nat -> string) tid (l : list (string * list Byte.byte)) :
  map listed_entry
    (imap (fun k entry =>
             {| operation := SAVE; task_id := tid;
                filename := fst entry; content := VBytes (snd entry);
                content_type := _get_content_type (VBytes (snd entry));
                id := uuid4 k; subdir := None; metadata := [];
                status := PENDING; error := None |}) l)
  = map (fun entry => (fst entry, VBytes (snd entry))) l.
Proof.
  revert uuid4. induction l as [|x l IH]; intros uuid4; [reflexivity|].
  cbn [imap map]. f_equal. apply (IH (uuid4 ∘ S)).
Qed.

(** What is listed when the directory of the task can be made (or is
    there): the files directly in it. *)
Lemma list_artifacts_sync_made uuid4 fs base tid fs0 :
  no_dotdot (joinpath (PurePath base) tid) ->
  mkdir fs (joinpath (PurePath base) tid) = (fs0, None) ->
  files fs0 = files fs ->
  snd (list_artifacts_sync uuid4 fs base tid)
  = ret (imap (fun k entry =>
                 {| operation := SAVE; task_id := tid;
                    filename := fst entry; content := VBytes (snd entry);
                    content_type := _get_content_type (VBytes (snd entry));
                    id := uuid4 k; subdir := None; metadata := [];
                    status := PENDING; error := None |})
              (files_in fs (joinpath (PurePath base) tid))).
Proof.
  intros Hno Hmk Hfiles. unfold list_artifacts_sync, get_task_dir. cbv zeta.
  rewrite Hmk. cbv beta iota.
  apply mkdir_spec in Hmk as (_ & _ & _ & Hd). specialize (Hd eq_refl).
  unfold path_is_dir in Hd. unfold path_exists, ret.
  destruct (locate fs0 (joinpath (PurePath base) tid)) as [x|dir] eqn:Hl;
    [discriminate|].
  rewrite Hd. cbn [orb negb snd].
  rewrite (locate_no_dotdot _ _ _ Hno Hl), (files_in_same _ _ _ Hfiles). reflexivity.
Qed.

Lemma list_artifacts_sync_dir uuid4 fs base tid :
  no_dotdot (joinpath (PurePath base) tid) ->
  path_is_dir fs (joinpath (PurePath base) tid) = true ->
  snd (list_artifacts_sync uuid4 fs base tid)
  = ret (imap (fun k entry =>
                 {| operation := SAVE; task_id := tid;
                    filename := fst entry; content := VBytes (snd entry);
                    content_type := _get_content_type (VBytes (snd entry));
                    id := uuid4 k; subdir := None; metadata := [];
                    status := PENDING; error := None |})
              (files_in fs (joinpath (PurePath base) tid))).
Proof.
  intros Hno Hd. apply (list_artifacts_sync_made uuid4 fs base tid fs Hno);
    [apply mkdir_parents_dir, Hd|reflexivity].
Qed.

(** An artifact saved without a subdirectory, under a plain file name and in
    a task directory whose path has no part [".."], is listed, as a pending
    SAVE command with a new identifier whose content is the bytes of the
    file and whose content type is always ["binary"]. *)
Theorem saved_artifact_listed uuid4 fs self uuid tid fname c sub meta w' r :
  handlers self = (default_chain ++ default_chain)%list ->
  save (fs, self) uuid tid fname c sub meta = (w', ret r) ->
  opt_truthy sub = false ->
  plain_name fname = true ->
  no_dotdot (joinpath (PurePath (base_dir self)) tid) ->
  exists data listed k,
    stored c data /\
    snd (list_artifacts_sync uuid4 (fst w') (base_dir self) tid) = ret listed /\
    listed !! k
    = Some {| operation := SAVE; task_id := tid; filename := fname;
              content := VBytes data; content_type := "binary";
              id := uuid4 k; subdir := None; metadata := [];
              status := PENDING; error := None |}.
Proof.
  intros Hh Hsave Hsub Hplain Hno.
  destruct (save_spec _ _ _ _ _ _ _ _ _ _ Hh Hsave)
    as (loc & data & Hloc & _ & Hst & Hfile & _ & _ & _ & Hdir & _).
  assert (Htd : task_dir_of self tid sub = joinpath (PurePath (base_dir self)) tid)
    by (unfold task_dir_of; rewrite Hsub; reflexivity).
  rewrite artifact_path_task_dir in Hloc. rewrite Htd in Hloc, Hdir.
  destruct (joinpath_plain (joinpath (PurePath (base_dir self)) tid) fname Hplain)
    as [Hjoin Hname].
  rewrite Hjoin in Hloc.
  apply (locate_no_dotdot _ _ _ (no_dotdot_snoc _ _ Hno Hname)) in Hloc. subst loc.
  apply elem_of_files_in in Hfile.
  apply list_elem_of_lookup in Hfile as [k Hk].
  exists data. eexists. exists k. split; [exact Hst|].
  split; [apply (list_artifacts_sync_dir uuid4 _ _ _ Hno Hdir)|].
  rewrite list_lookup_imap, Hk. reflexivity.
Qed.

(** An artifact saved in a subdirectory with a plain directory name, under a
    plain file name and in a task directory whose path has no part [".."],
    does not change what is listed: [list_artifacts_sync] looks at the files
    directly in the directory of the task, so it lists the same names and
    contents before and after. *)
Theorem artifact_in_subdir_not_listed uuid4 fs self uuid tid fname c sub meta w' r :
  handlers self = (default_chain ++ default_chain)%list ->
  save (fs, self) uuid tid fname c sub meta = (w', ret r) ->
  opt_truthy sub = true ->
  plain_name (default "" sub) = true ->
  plain_name fname = true ->
  no_dotdot (joinpath (PurePath (base_dir self)) tid) ->
  exists before after,
    snd (list_artifacts_sync uuid4 fs (base_dir self) tid) = ret before /\
    snd (list_artifacts_sync uuid4 (fst w') (base_dir self) tid) = ret after /\
    map listed_entry after ≡ₚ map listed_entry before.
Proof.
  intros Hh Hsave Hsub Hplain_sub Hplain Hno.
  destruct (save_spec _ _ _ _ _ _ _ _ _ _ Hh Hsave)
    as (loc & data & Hloc & _ & _ & Hfile & Hframe & _ & _ & Hdir & fs1 & M1).
  set (td := joinpath (PurePath (base_dir self)) tid) in *.
  destruct (joinpath_plain td (default "" sub) Hplain_sub) as [Hjs Hs].
  assert (Htd : task_dir_of self tid sub = (td ++ [default "" sub])%list)
    by (unfold task_dir_of; rewrite Hsub; exact Hjs).
  rewrite artifact_path_task_dir in Hloc. rewrite Htd in Hloc, Hdir, M1.
  destruct (joinpath_plain (td ++ [default "" sub])%list fname Hplain)
    as [Hjoin Hname].
  rewrite Hjoin in Hloc.
  apply (locate_no_dotdot _ _ _
           (no_dotdot_snoc _ _ (no_dotdot_snoc _ _ Hno Hs) Hname)) in Hloc.
  subst loc.
  destruct (mkdir_parent_ok _ _ _ _ M1) as (fs0 & Hmk & Hfiles).
  eexists. eexists.
  split; [apply (list_artifacts_sync_made uuid4 fs _ tid fs0 Hno Hmk Hfiles)|].
  split; [apply (list_artifacts_sync_dir uuid4 _ _ tid Hno),
                (path_is_dir_parent _ _ _ Hdir)|].
  rewrite !listed_entries. apply fmap_Permutation.
  apply (files_in_insert_elsewhere fs (fst w') _
           ((td ++ [default "" sub]) ++ [fname])%list data).
  - apply map_eq. intros q.
    destruct (decide (q = ((td ++ [default "" sub]) ++ [fname])%list)) as [->|Hq].
    + rewrite lookup_insert_eq. exact Hfile.
    + rewrite lookup_insert_ne by congruence. apply Hframe, Hq.
  - rewrite removelast_last. exact (snoc_neq td _).
Qed.

End Codec.

Lemma no_dotdot_task_dir : no_dotdot (joinpath (PurePath "artifacts") "task-1").
Proof.
  intros H. change (".." ∈ ["artifacts"; "task-1"]) in H.
  apply elem_of_cons in H as [H|H]; [discriminate|].
  apply elem_of_cons in H as [H|H]; [discriminate|].
  inversion H.
Qed.

Lemma no_dotdot_artifact name :
  plain_name name = true ->
  no_dotdot (get_artifact_path "artifacts" "task-1" name None).
Proof.
  intros Hp. unfold get_artifact_path. cbn [opt_truthy].
  destruct (joinpath_plain (joinpath (PurePath "artifacts") "task-1") name Hp)
    as [-> Hn].
  apply no_dotdot_snoc; [apply no_dotdot_task_dir|exact Hn].
Qed.

Lemma save_then_read_witness :
  let saved := save toy_json_dump toy_encode
                 (empty_disk, ArtifactManager_init "artifacts")
                 "c-1" "task-1" "report.json" report None [] in
  read_artifact_sync toy_json_load toy_decode (fst (fst saved))
    "artifacts" "task-1" "report.json" None = ret report.
Proof.
  cbv zeta.
  destruct (save toy_json_dump toy_encode
              (empty_disk, ArtifactManager_init "artifacts")
              "c-1" "task-1" "report.json" report None []) as [w' [e|r]] eqn:E;
    [vm_compute in E; discriminate|].
  refine (proj2 (save_then_read toy_json_dump toy_json_load toy_encode toy_decode
                   empty_disk (ArtifactManager_init "artifacts") "c-1" "task-1"
                   "report.json" report None [] w' r eq_refl E _)).
  split; [reflexivity|]. intros data _. reflexivity.
Defined.

Lemma save_then_read_otherwise_witness :
  let saved := save toy_json_dump toy_encode
                 (empty_disk, ArtifactManager_init "artifacts")
                 "c-1" "task-1" "report.txt" report None [] in
  read_artifact_sync toy_json_load toy_decode (fst (fst saved))
    "artifacts" "task-1" "report.txt" None <> ret report.
Proof.
  cbv zeta.
  destruct (save toy_json_dump toy_encode
              (empty_disk, ArtifactManager_init "artifacts")
              "c-1" "task-1" "report.txt" report None []) as [w' [e|r]] eqn:E;
    [vm_compute in E; discriminate|].
  apply (save_then_read_otherwise toy_json_dump toy_json_load toy_encode toy_decode
           empty_disk (ArtifactManager_init "artifacts") "c-1" "task-1"
           "report.txt" report None [] w' r eq_refl E).
  split; [reflexivity|exact I].
Defined.


Lemma saved_artifact_listed_witness :
  exists listed k cmd,
    snd (list_artifacts_sync toy_uuid4 (fst after_report)
           "artifacts" "task-1") = ret listed /\
    listed !! k = Some cmd /\
    filename cmd = "report.json" /\ content_type cmd = "binary" /\
    status cmd = PENDING.
Proof.
  destruct (save toy_json_dump toy_encode new_manager
              "c-1" "task-1" "report.json" report None []) as [w' [e|r]] eqn:E;
    [vm_compute in E; discriminate|].
  destruct (saved_artifact_listed toy_json_dump toy_encode
              toy_uuid4 empty_disk
              (ArtifactManager_init "artifacts") "c-1" "task-1" "report.json"
              report None [] w' r eq_refl E eq_refl eq_refl no_dotdot_task_dir)
    as (data & listed & k & _ & Hl & Hk).
  assert (Hw : fst after_report = fst w')
    by (unfold after_report; rewrite E; reflexivity).
  rewrite Hw. exists listed, k. eexists. split; [exact Hl|].
  split; [exact Hk|]. repeat split; reflexivity.
Defined.

Lemma artifact_in_subdir_not_listed_witness :
  let saved := save toy_json_dump toy_encode new_manager
                 "c-1" "task-1" "report.json" report (Some "drafts") [] in
  exists before after,
    snd (list_artifacts_sync toy_uuid4 empty_disk "artifacts" "task-1")
      = ret before /\
    snd (list_artifacts_sync toy_uuid4 (fst (fst saved)) "artifacts" "task-1")
      = ret after /\
    map listed_entry after ≡ₚ map listed_entry before.
Proof.
  cbv zeta.
  destruct (save toy_json_dump toy_encode new_manager
              "c-1" "task-1" "report.json" report (Some "drafts") [])
    as [w' [e|r]] eqn:E; [vm_compute in E; discriminate|].
  exact (artifact_in_subdir_not_listed toy_json_dump toy_encode toy_uuid4
           empty_disk (ArtifactManager_init "artifacts") "c-1" "task-1"
           "report.json" report (Some "drafts") [] w' r eq_refl E eq_refl
           eq_refl eq_refl no_dotdot_task_dir).
Defined.

Lemma save_artifact_returns_completed_witness :
  exists w' r,
    save toy_json_dump toy_encode new_manager
      "c-1" "task-1" "report.json" report None [] = (w', ret r) /\
    status r = COMPLETED /\ error r = None.
Proof.
  destruct (save toy_json_dump toy_encode new_manager
              "c-1" "task-1" "report.json" report None []) as [w' [e|r]] eqn:E;
    [vm_compute in E; discriminate|].
  destruct (save_artifact_returns_completed FS mkdir
              (write_file toy_json_dump toy_encode) path_exists empty_disk
              (ArtifactManager_init "artifacts") "c-1" "task-1" "report.json"
              report None [] w' r eq_refl E)
    as (_ & _ & _ & Hs & He & _).
  exists w', r. auto.
Defined.

End ArtifactDiskFacts.

(** * More on execution contexts *)

Module ContextExtra.
Import Context ContextFacts.

(** The objects of a valid context are three different objects. *)
Lemma valid_distinct σ p d q pc x e :
  valid_context σ p d q pc x e -> p <> q /\ p <> x /\ q <> x.
Proof.
  intros (Hp & _ & Hq & _ & Hx). repeat split; intros ->; congruence.
Qed.

Lemma contains_valid σ p d q pc x e key :
  valid_context σ p d q pc x e ->
  is_field key = false ->
  __contains__ σ p key
  = ret (match e !! key with Some _ => true | None => pc_contains pc key end).
Proof.
  intros V F. unfold __contains__.
  rewrite (valid_self_attrs _ _ _ _ _ _ _ V). cbn.
  rewrite (is_own_field_valid _ _ _ _ _ _ _ key V), F. cbn.
  rewrite (valid_extras_of _ _ _ _ _ _ _ V). cbn.
  destruct (e !! key); [reflexivity|].
  rewrite (valid_wrapped_of _ _ _ _ _ _ _ V). reflexivity.
Qed.

Lemma get_valid σ p d q pc x e key dflt :
  valid_context σ p d q pc x e ->
  is_field key = false ->
  get σ p key dflt
  = ret (match e !! key with Some v => v | None => pc_get pc key dflt end).
Proof.
  intros V F. unfold get.
  rewrite (valid_self_attrs _ _ _ _ _ _ _ V). cbn. rewrite F.
  rewrite (valid_extras_of _ _ _ _ _ _ _ V). cbn.
  destruct (e !! key); [reflexivity|].
  rewrite (valid_wrapped_of _ _ _ _ _ _ _ V). reflexivity.
Qed.

(** An attribute that is not a declared field is stored in [extras], from
    where item access, the [in] operator and [get] all find it; the wrapped
    pipeline context is not touched. *)
Theorem setattr_then_getitem σ p d q pc x e name v dflt :
  valid_context σ p d q pc x e ->
  is_field name = false ->
  exists σ',
    __setattr__ σ p name v = ret σ' /\
    __getitem__ σ' p name = ret v /\
    __contains__ σ' p name = ret true /\
    get σ' p name dflt = ret v /\
    σ' !! q = σ !! q.
Proof.
  intros V F. destruct (valid_distinct _ _ _ _ _ _ _ V) as (Hpq & Hpx & Hqx).
  pose proof V as (Hp & Hdq & Hq & Hdx & Hx).
  exists (<[x := DictObject (<[name := v]> e)]> σ).
  assert (V' : valid_context (<[x := DictObject (<[name := v]> e)]> σ)
                 p d q pc x (<[name := v]> e)).
  { unfold valid_context.
    repeat split; rewrite ?lookup_insert_eq; rewrite ?lookup_insert_ne by congruence;
      assumption || reflexivity. }
  split.
  { unfold __setattr__. rewrite (valid_self_attrs _ _ _ _ _ _ _ V). cbn.
    rewrite F, Hdx. rewrite (valid_extras_of _ _ _ _ _ _ _ V). reflexivity. }
  rewrite (getitem_valid _ _ _ _ _ _ _ name V' F).
  rewrite (contains_valid _ _ _ _ _ _ _ name V' F).
  rewrite (get_valid _ _ _ _ _ _ _ name dflt V' F).
  rewrite lookup_insert_eq. repeat split.
  rewrite lookup_insert_ne by congruence. reflexivity.
Qed.


(** Assigning a declared field as an item sets it on the instance: item
    access and [get] return the new value, and neither the wrapped pipeline
    context nor [extras] change. *)
Theorem setitem_field_on_instance σ p d q pc x e key v dflt :
  valid_context σ p d q pc x e ->
  is_field key = true ->
  exists σ',
    __setitem__ σ p key v = ret σ' /\
    __getitem__ σ' p key = ret v /\
    get σ' p key dflt = ret v /\
    σ' !! q = σ !! q /\ σ' !! x = σ !! x.
Proof.
  intros V F. destruct (valid_distinct _ _ _ _ _ _ _ V) as (Hpq & Hpx & Hqx).
  exists (<[p := ExecutionContextObject (<[key := v]> d)]> σ).
  split; [rewrite (setitem_valid _ _ _ _ _ _ _ key v V), F; reflexivity|].
  unfold __getitem__, get, self_attrs. rewrite lookup_insert_eq. cbn.
  unfold is_own_field. rewrite F. cbn.
  unfold getattr_field. rewrite lookup_insert_eq.
  repeat split; rewrite lookup_insert_ne by congruence; reflexivity.
Qed.

Lemma parent_store_valid :
  valid_context (fst parent_store) (snd parent_store)
    (<["_pipeline_context" := VRef 1%positive]>
       (<["extras" := VRef 2%positive]>
          (list_to_map (map (fun f => (f, VNone)) dataclass_fields))))
    1%positive
    {| task_id := "task-1"; pipeline_id := None; data := ∅;
       saved_artifacts := []; loop_step_name := None;
       loop_iteration_index := None |}
    2%positive {["x" := VInt 1]}.
Proof. repeat split; vm_compute; reflexivity. Qed.

Lemma parent_store_extras :
  ({["x" := VInt 1]} : gmap string pyval) !! "x" = Some (VInt 1).
Proof. vm_compute. reflexivity. Qed.

Lemma setattr_then_getitem_witness :
  exists σ',
    __setattr__ (fst parent_store) (snd parent_store) "note" (VStr "hi") = ret σ' /\
    __getitem__ σ' (snd parent_store) "note" = ret (VStr "hi").
Proof.
  destruct (setattr_then_getitem _ _ _ _ _ _ _ "note" (VStr "hi") VNone
              parent_store_valid eq_refl)
    as (σ' & H1 & H2 & _).
  exists σ'. split; assumption.
Defined.


Lemma setitem_field_on_instance_witness :
  exists σ',
    __setitem__ (fst parent_store) (snd parent_store) "step_name" (VStr "s")
      = ret σ' /\
    __getitem__ σ' (snd parent_store) "step_name" = ret (VStr "s").
Proof.
  destruct (setitem_field_on_instance _ _ _ _ _ _ _ "step_name" (VStr "s") VNone
              parent_store_valid eq_refl) as (σ' & H1 & H2 & _).
  exists σ'. split; assumption.
Defined.

End ContextExtra.

(** * More on loops *)

Module LoopExtra.
Import Context Config Loop LoopFacts LoopMore.

Lemma app_cons_singleton {A} (l0 : list A) x l1 y :
  (l0 ++ x :: l1)%list = [y] -> l0 = [] /\ x = y /\ l1 = [].
Proof.
  destruct l0 as [|a [|b l0]]; cbn; intros H; inversion H; auto.
Qed.

(** An iteration that raised is not among the warnings logged at the end. *)
Lemma raised_in_front (evs ws evs0 : list LoopEvent) it evs1 e :
  (evs ++ ws)%list = (evs0 ++ it :: evs1)%list ->
  raised_of it = Some e ->
  Forall (fun w => raised_of w = None) ws ->
  exists evs1', evs = (evs0 ++ it :: evs1')%list /\ evs1 = (evs1' ++ ws)%list.
Proof.
  intros H Hit Hws. revert evs0 H.
  induction evs as [|a evs IH]; intros evs0 H.
  - cbn in H. subst ws. apply Forall_app in Hws as [_ Hws].
    inversion Hws; subst. congruence.
  - destruct evs0 as [|b evs0]; cbn in H; inversion H; subst.
    + exists evs. auto.
    + destruct (IH evs0) as (evs1' & -> & ->); [assumption|].
      exists evs1'. auto.
Qed.

Lemma pause_in_front (b : bool) n (evs evs0 : list LoopEvent) it evs1 e :
  ((if b then [Sleep n] else []) ++ evs)%list = (evs0 ++ it :: evs1)%list ->
  raised_of it = Some e ->
  exists evs0', evs = (evs0' ++ it :: evs1)%list.
Proof.
  destruct b; cbn; intros H Hit.
  - destruct evs0 as [|a evs0]; cbn in H; inversion H; subst; [discriminate|eauto].
  - eauto.
Qed.

Lemma result_name_warning_quiet cfg lc :
  Forall (fun w => raised_of w = None) (result_name_warning cfg lc).
Proof. unfold result_name_warning. destruct (_ && _); repeat constructor. Qed.

Section Body.
Variable _run_loop_body :
  PipelineContext -> list StepConfig -> PipelineContext * option exn.
Variable py_str : pyval -> string.

#[local] Abbreviation for_items := (for_items _run_loop_body).
#[local] Abbreviation while_condition := (while_condition _run_loop_body).
#[local] Abbreviation execute_loop := (execute_loop _run_loop_body py_str).
#[local] Abbreviation collection_loop :=
  (_execute_collection_or_count_loop _run_loop_body py_str).
#[local] Abbreviation condition_loop :=
  (_execute_condition_based_loop _run_loop_body).

(** One turn of the [for] loop, with the [except] clauses told apart by the
    kind of the exception. *)
Lemma for_items_cons i item rest n_items start_index step cfg body lc failed :
  for_items ((i, item) :: rest) n_items start_index step cfg body lc failed
  = if Nat.ltb i start_index
    then for_items rest n_items start_index step cfg body lc failed
    else
      let '(after, raised) :=
        _run_loop_body (iteration_context_for step cfg lc item i) body in
      let ev := Iteration i item lc after raised in
      let pause :=
        if negb (Nat.eqb (delay cfg) 0) && Nat.ltb i (n_items - 1)
        then [Sleep (delay cfg)] else [] in
      match raised with
      | None =>
          let '(lc2, evs, r) :=
            for_items rest n_items start_index step cfg body
              (pc_update lc (data after)) failed in
          (lc2, (ev :: pause ++ evs)%list, r)
      | Some e =>
          if is_suspension e
          then (pc_update lc (data after), [ev], raise e)
          else if fail_fast cfg then (lc, [ev], raise e)
          else
            let '(lc2, evs, r) :=
              for_items rest n_items start_index step cfg body lc true in
            (lc2, (ev :: pause ++ evs)%list, r)
      end.
Proof.
  cbn [Loop.for_items]. destruct (Nat.ltb i start_index); [reflexivity|].
  destruct (_run_loop_body _ body) as [after [e|]]; [|reflexivity].
  destruct e; reflexivity.
Qed.

(** One turn of the [while] loop. *)
Lemma while_condition_S remaining loop_counter step cfg body lc failed :
  while_condition (S remaining) loop_counter step cfg body lc failed
  = if negb (opt_truthy (condition cfg))
    then (lc, [], raise (ValueError "No condition specified for condition-based loop"))
    else if negb (truthy (pc_get lc (default "" (condition cfg)) VNone))
    then (lc, [], ret (failed, loop_counter))
    else
      let item := VInt (Z.of_nat loop_counter) in
      let '(after, raised) :=
        _run_loop_body (iteration_context_for step cfg lc item loop_counter) body in
      let ev := Iteration loop_counter item lc after raised in
      let merged := pc_update lc (data after) in
      let pause :=
        if negb (Nat.eqb (delay cfg) 0)
           && Nat.ltb (S loop_counter) (max_iterations cfg)
           && truthy (pc_get merged (default "" (condition cfg)) VNone)
        then [Sleep (delay cfg)] else [] in
      match raised with
      | None =>
          let '(lc2, evs, r) :=
            while_condition remaining (S loop_counter) step cfg body merged failed in
          (lc2, (ev :: pause ++ evs)%list, r)
      | Some e =>
          if is_suspension e then (lc, [ev], raise e)
          else if fail_fast cfg then (merged, [ev], raise e)
          else
            let '(lc2, evs, r) :=
              while_condition remaining (S loop_counter) step cfg body merged true in
            (lc2, (ev :: pause ++ evs)%list, r)
      end.
Proof.
  cbn [Loop.while_condition].
  destruct (negb (opt_truthy (condition cfg))); [reflexivity|].
  destruct (negb (truthy _)); [reflexivity|].
  destruct (_run_loop_body _ body) as [after [e|]]; [|reflexivity].
  destruct e; reflexivity.
Qed.

(** [execute_loop] once the loop has run. *)
Lemma execute_loop_eq σ ctx step cfg lc0 lc evs r :
  loop_config step = Some cfg ->
  any_copy σ ctx = inr lc0 ->
  (if opt_truthy (condition cfg)
   then condition_loop step (pc_clear_saved_artifacts lc0) cfg
   else collection_loop σ ctx step (pc_clear_saved_artifacts lc0) cfg)
  = (lc, evs, r) ->
  execute_loop σ ctx step
  = match r with
    | inr failed =>
        match any_update σ ctx (data lc) with
        | inl e => (σ, evs, Some e)
        | inr σ' =>
            (σ', evs, if failed : bool then Some (iterations_failed step) else None)
        end
    | inl e =>
        if is_suspension e
        then match any_update σ ctx (data lc) with
             | inl e' => (σ, evs, Some e')
             | inr σ' => (σ', evs, Some e)
             end
        else (σ, evs, Some e)
    end.
Proof.
  intros Hcfg Hcopy Hrun. unfold Loop.execute_loop. rewrite Hcfg, Hcopy, Hrun.
  destruct r as [e|f]; [destruct e|]; reflexivity.
Qed.

(** The events of [execute_loop] are there only when the loop has run. *)
Lemma execute_loop_ran σ ctx step σ' evs res :
  execute_loop σ ctx step = (σ', evs, res) ->
  evs <> [] ->
  exists cfg lc0 lc r,
    loop_config step = Some cfg /\ any_copy σ ctx = inr lc0 /\
    (if opt_truthy (condition cfg)
     then condition_loop step (pc_clear_saved_artifacts lc0) cfg
     else collection_loop σ ctx step (pc_clear_saved_artifacts lc0) cfg)
    = (lc, evs, r).
Proof.
  intros H Hne.
  destruct (loop_config step) as [cfg|] eqn:Hcfg;
    [|unfold Loop.execute_loop in H; rewrite Hcfg in H; inversion H; congruence].
  destruct (any_copy σ ctx) as [e|lc0] eqn:Hcopy;
    [unfold Loop.execute_loop in H; rewrite Hcfg, Hcopy in H; inversion H; congruence|].
  destruct (if opt_truthy (condition cfg)
            then condition_loop step (pc_clear_saved_artifacts lc0) cfg
            else collection_loop σ ctx step (pc_clear_saved_artifacts lc0) cfg)
    as [[lc evs'] r] eqn:Hrun.
  rewrite (execute_loop_eq _ _ _ _ _ _ _ _ Hcfg Hcopy Hrun) in H.
  assert (evs' = evs).
  { destruct r as [e|f].
    - destruct (is_suspension e); [destruct (any_update σ ctx (data lc))|];
        inversion H; reflexivity.
    - destruct (any_update σ ctx (data lc)); inversion H; reflexivity. }
  subst evs'. exists cfg, lc0, lc, r. auto.
Qed.

(** ** An iteration that ends the loop *)

(** In the [for] loop, an iteration that asked for a suspension, or that
    raised under [fail_fast], is the last event; the loop raises what it
    raised.  The data of the iteration is merged into the loop context for a
    suspension, and left out otherwise. *)
Lemma for_items_raised pairs :
  forall n_items start_index step cfg body lc failed lc' evs r
         evs0 i item lc_i after e evs1,
    for_items pairs n_items start_index step cfg body lc failed = (lc', evs, r) ->
    evs = (evs0 ++ Iteration i item lc_i after (Some e) :: evs1)%list ->
    fail_fast cfg = true \/ is_suspension e = true ->
    evs1 = [] /\ r = raise e /\
    lc' = (if is_suspension e then pc_update lc_i (data after) else lc_i).
Proof.
  induction pairs as [|[k x] pairs IH];
    intros n_items start_index step cfg body lc failed lc' evs r
           evs0 i item lc_i after e evs1 H Hdec Hstop.
  - cbn in H. inversion H; subst. destruct evs0; discriminate.
  - rewrite for_items_cons in H.
    destruct (Nat.ltb k start_index); [eapply IH; eassumption|].
    destruct (_run_loop_body _ body) as [aft raised]. cbv zeta in H.
    destruct raised as [e0|].
    + destruct (is_suspension e0) eqn:Hs.
      { inversion H; subst lc' evs r; clear H. symmetry in H2.
        apply app_cons_singleton in H2 as (_ & Hev & ->).
        inversion Hev; subst. rewrite Hs. auto. }
      destruct (fail_fast cfg) eqn:Hff.
      { inversion H; subst lc' evs r; clear H. symmetry in H2.
        apply app_cons_singleton in H2 as (_ & Hev & ->).
        inversion Hev; subst. rewrite Hs. auto. }
      destruct (for_items pairs n_items start_index step cfg body lc true)
        as [[lc2 evs2] r2] eqn:Hrec.
      inversion H; subst lc' evs r; clear H.
      destruct evs0 as [|b evs0]; cbn in H2; inversion H2; subst.
      { destruct Hstop; congruence. }
      match goal with
      | E : _ = (_ ++ evs2)%list |- _ => symmetry in E;
          eapply pause_in_front in E as (evs0' & ->); [|reflexivity]
      | E : (_ ++ evs2)%list = _ |- _ =>
          eapply pause_in_front in E as (evs0' & ->); [|reflexivity]
      end.
      eapply IH; [exact Hrec|reflexivity|rewrite ?Hff; exact Hstop].
    + destruct (for_items pairs n_items start_index step cfg body
                  (pc_update lc (data aft)) failed) as [[lc2 evs2] r2] eqn:Hrec.
      inversion H; subst lc' evs r; clear H.
      destruct evs0 as [|b evs0]; cbn in H2; inversion H2; subst.
      match goal with
      | E : _ = (_ ++ evs2)%list |- _ => symmetry in E;
          eapply pause_in_front in E as (evs0' & ->); [|reflexivity]
      | E : (_ ++ evs2)%list = _ |- _ =>
          eapply pause_in_front in E as (evs0' & ->); [|reflexivity]
      end.
      eapply IH; [exact Hrec|reflexivity|rewrite ?Hff; exact Hstop].
Qed.

(** In the [while] loop it is the other way round: the data of a suspended
    iteration is left out, that of a failed one is merged in. *)
Lemma while_condition_raised remaining :
  forall loop_counter step cfg body lc failed lc' evs r
         evs0 i item lc_i after e evs1,
    while_condition remaining loop_counter step cfg body lc failed = (lc', evs, r) ->
    evs = (evs0 ++ Iteration i item lc_i after (Some e) :: evs1)%list ->
    fail_fast cfg = true \/ is_suspension e = true ->
    evs1 = [] /\ r = raise e /\
    lc' = (if is_suspension e then lc_i else pc_update lc_i (data after)).
Proof.
  induction remaining as [|remaining IH];
    intros loop_counter step cfg body lc failed lc' evs r
           evs0 i item lc_i after e evs1 H Hdec Hstop.
  - cbn in H. inversion H; subst. destruct evs0; discriminate.
  - rewrite while_condition_S in H.
    destruct (negb (opt_truthy (condition cfg)));
      [inversion H; subst; destruct evs0; discriminate|].
    destruct (negb (truthy _));
      [inversion H; subst; destruct evs0; discriminate|].
    cbv zeta in H.
    destruct (_run_loop_body _ body) as [aft raised].
    destruct raised as [e0|].
    + destruct (is_suspension e0) eqn:Hs.
      { inversion H; subst lc' evs r; clear H. symmetry in H2.
        apply app_cons_singleton in H2 as (_ & Hev & ->).
        inversion Hev; subst. rewrite Hs. auto. }
      destruct (fail_fast cfg) eqn:Hff.
      { inversion H; subst lc' evs r; clear H. symmetry in H2.
        apply app_cons_singleton in H2 as (_ & Hev & ->).
        inversion Hev; subst. rewrite Hs. auto. }
      destruct (while_condition remaining (S loop_counter) step cfg body _ true)
        as [[lc2 evs2] r2] eqn:Hrec.
      inversion H; subst lc' evs r; clear H.
      destruct evs0 as [|b evs0]; cbn in H2; inversion H2; subst.
      { destruct Hstop; congruence. }
      match goal with
      | E : _ = (_ ++ evs2)%list |- _ => symmetry in E;
          eapply pause_in_front in E as (evs0' & ->); [|reflexivity]
      | E : (_ ++ evs2)%list = _ |- _ =>
          eapply pause_in_front in E as (evs0' & ->); [|reflexivity]
      end.
      eapply IH; [exact Hrec|reflexivity|rewrite ?Hff; exact Hstop].
    + destruct (while_condition remaining (S loop_counter) step cfg body _ failed)
        as [[lc2 evs2] r2] eqn:Hrec.
      inversion H; subst lc' evs r; clear H.
      destruct evs0 as [|b evs0]; cbn in H2; inversion H2; subst.
      match goal with
      | E : _ = (_ ++ evs2)%list |- _ => symmetry in E;
          eapply pause_in_front in E as (evs0' & ->); [|reflexivity]
      | E : (_ ++ evs2)%list = _ |- _ =>
          eapply pause_in_front in E as (evs0' & ->); [|reflexivity]
      end.
      eapply IH; [exact Hrec|reflexivity|rewrite ?Hff; exact Hstop].
Qed.

Lemma collection_loop_raised σ ctx step lc1 cfg lc evs r
    evs0 i item lc_i after e evs1 :
  collection_loop σ ctx step lc1 cfg = (lc, evs, r) ->
  evs = (evs0 ++ Iteration i item lc_i after (Some e) :: evs1)%list ->
  fail_fast cfg = true \/ is_suspension e = true ->
  evs1 = [] /\ r = raise e /\
  lc = (if is_suspension e then pc_update lc_i (data after) else lc_i).
Proof.
  intros H Hdec Hstop. unfold _execute_collection_or_count_loop in H.
  assert (Hnil : forall (w : string),
             ~ ([Warning w] = evs0 ++ Iteration i item lc_i after (Some e) :: evs1)%list).
  { intros w E. symmetry in E. apply app_cons_singleton in E as (_ & E & _).
    discriminate. }
  assert (Hempty : ~ ([] = evs0 ++ Iteration i item lc_i after (Some e) :: evs1)%list)
    by (destruct evs0; discriminate).
  destruct (if opt_truthy (collection cfg) then _ else _) as [e0|items];
    [inversion H; subst; contradiction|].
  match type of H with
  | (if negb (truthy ?its) then _ else _) = _ =>
      set (items' := its) in *; destruct (negb (truthy items'))
  end; [inversion H; subst; exfalso; eapply Hnil; eauto|].
  destruct (_create_synthetic_body step) as [|s0 body];
    [inversion H; subst; exfalso; eapply Hnil; eauto|].
  destruct (elems ← py_items items';
            start_index ← start_index_of py_str items' elems lc1;
            ret (elems, start_index)) as [e0|[elems start_index]];
    [inversion H; subst; contradiction|].
  destruct (for_items (enumerate elems) (length elems) start_index step cfg
              (s0 :: body) lc1 false) as [[lc2 evs2] r2] eqn:Hfor.
  destruct r2 as [e2|f].
  - inversion H; subst lc evs r; clear H.
    eapply for_items_raised; eauto.
  - inversion H; subst lc evs r; clear H.
    eapply raised_in_front in H2 as (evs1' & -> & ->);
      [|reflexivity|apply result_name_warning_quiet].
    destruct (for_items_raised _ _ _ _ _ _ _ _ _ _ _ _ _ _ _ _ _ _ Hfor eq_refl Hstop)
      as (_ & E & _). discriminate.
Qed.

Lemma condition_loop_raised step lc1 cfg lc evs r
    evs0 i item lc_i after e evs1 :
  condition_loop step lc1 cfg = (lc, evs, r) ->
  evs = (evs0 ++ Iteration i item lc_i after (Some e) :: evs1)%list ->
  fail_fast cfg = true \/ is_suspension e = true ->
  evs1 = [] /\ r = raise e /\
  lc = (if is_suspension e then lc_i else pc_update lc_i (data after)).
Proof.
  intros H Hdec Hstop. unfold _execute_condition_based_loop in H.
  destruct (_create_synthetic_body step) as [|s0 body].
  { inversion H; subst. symmetry in H2.
    apply app_cons_singleton in H2 as (_ & E & _). discriminate. }
  destruct (while_condition (max_iterations cfg) 0 step cfg (s0 :: body) lc1 false)
    as [[lc2 evs2] r2] eqn:Hw.
  destruct r2 as [e2|[f c]].
  - inversion H; subst lc evs r; clear H.
    destruct (while_condition_raised _ _ _ _ _ _ _ _ _ _ _ _ _ _ _ _ _ Hw H2 Hstop)
      as (-> & E & ->).
    inversion E; subst. auto.
  - inversion H; subst lc evs r; clear H.
    eapply raised_in_front in H2 as (evs1' & -> & ->); [|reflexivity|].
    + destruct (while_condition_raised _ _ _ _ _ _ _ _ _ _ _ _ _ _ _ _ _ Hw eq_refl
                  Hstop) as (_ & E & _). discriminate.
    + apply Forall_app. split; [|apply result_name_warning_quiet].
      destruct (Nat.leb _ _); repeat constructor.
Qed.

(** With [fail_fast], the first iteration whose body raises anything but a
    suspension is the last thing the loop does: [execute_loop] raises that
    exception, and the parent context is left as it was, without the results
    of the iterations before. *)
Theorem fail_fast_stops_loop σ ctx step cfg σ' evs res
    evs0 i item lc_i after e evs1 :
  loop_config step = Some cfg ->
  fail_fast cfg = true ->
  execute_loop σ ctx step = (σ', evs, res) ->
  evs = (evs0 ++ Iteration i item lc_i after (Some e) :: evs1)%list ->
  is_suspension e = false ->
  evs1 = [] /\ res = Some e /\ σ' = σ.
Proof.
  intros Hcfg Hff H Hdec Hs.
  destruct (execute_loop_ran _ _ _ _ _ _ H) as (cfg' & lc0 & lc & r & Hc & Hcopy & Hrun).
  { subst evs. destruct evs0; discriminate. }
  assert (cfg' = cfg) by congruence. subst cfg'.
  rewrite (execute_loop_eq _ _ _ _ _ _ _ _ Hcfg Hcopy Hrun) in H.
  assert (Hr : evs1 = [] /\ r = raise e).
  { destruct (opt_truthy (condition cfg)).
    - destruct (condition_loop_raised _ _ _ _ _ _ _ _ _ _ _ _ _ Hrun Hdec
                  (or_introl Hff)) as (? & ? & _); auto.
    - destruct (collection_loop_raised _ _ _ _ _ _ _ _ _ _ _ _ _ _ _ Hrun Hdec
                  (or_introl Hff)) as (? & ? & _); auto. }
  destruct Hr as [-> ->]. unfold raise in H. rewrite Hs in H.
  inversion H; subst. auto.
Qed.

(** A suspended iteration is the last thing the loop does, and the loop
    context is merged into the parent context before the suspension goes up.
    A collection or count loop merges the data of the suspended iteration
    first; a condition loop leaves it out. *)
Theorem suspended_loop_merges_context σ ctx step cfg σ' evs res
    evs0 i item lc_i after cp steps info evs1 :
  loop_config step = Some cfg ->
  execute_loop σ ctx step = (σ', evs, res) ->
  evs = (evs0 ++ Iteration i item lc_i after
                   (Some (PipelineSuspendedException cp steps info)) :: evs1)%list ->
  evs1 = [] /\
  match any_update σ ctx
          (data (if opt_truthy (condition cfg) then lc_i
                 else pc_update lc_i (data after))) with
  | inr σ1 => σ' = σ1 /\ res = Some (PipelineSuspendedException cp steps info)
  | inl e => σ' = σ /\ res = Some e
  end.
Proof.
  intros Hcfg H Hdec.
  destruct (execute_loop_ran _ _ _ _ _ _ H) as (cfg' & lc0 & lc & r & Hc & Hcopy & Hrun).
  { subst evs. destruct evs0; discriminate. }
  assert (cfg' = cfg) by congruence. subst cfg'.
  rewrite (execute_loop_eq _ _ _ _ _ _ _ _ Hcfg Hcopy Hrun) in H.
  assert (Hr : evs1 = [] /\ r = raise (PipelineSuspendedException cp steps info) /\
               lc = (if opt_truthy (condition cfg) then lc_i
                     else pc_update lc_i (data after))).
  { destruct (opt_truthy (condition cfg)).
    - apply (condition_loop_raised _ _ _ _ _ _ _ _ _ _ _ _ _ Hrun Hdec
               (or_intror eq_refl)).
    - apply (collection_loop_raised _ _ _ _ _ _ _ _ _ _ _ _ _ _ _ Hrun Hdec
               (or_intror eq_refl)). }
  destruct Hr as (-> & -> & ->). split; [reflexivity|].
  unfold raise in H. cbn [is_suspension] in H.
  destruct (any_update σ ctx _); inversion H; auto.
Qed.

(** ** A loop that goes on after a failure *)

Lemma some_raised_pause (b : bool) n evs :
  some_raised ((if b then [Sleep n] else []) ++ evs)%list = some_raised evs.
Proof. destruct b; reflexivity. Qed.

Lemma some_suspended_pause (b : bool) n evs :
  some_suspended ((if b then [Sleep n] else []) ++ evs)%list = some_suspended evs.
Proof. destruct b; reflexivity. Qed.

Lemma some_raised_cons ev evs :
  some_raised (ev :: evs)
  = (match raised_of ev with Some _ => true | None => false end) || some_raised evs.
Proof. reflexivity. Qed.

Lemma some_suspended_cons ev evs :
  some_suspended (ev :: evs)
  = (match raised_of ev with Some e => is_suspension e | None => false end)
    || some_suspended evs.
Proof. reflexivity. Qed.

Lemma merge_successes_pause (b : bool) n lc evs :
  merge_successes lc ((if b then [Sleep n] else []) ++ evs)%list
  = merge_successes lc evs.
Proof. destruct b; reflexivity. Qed.

Lemma merge_successes_app lc evs ws :
  Forall (fun w => is_iteration w = false) ws ->
  merge_successes lc (evs ++ ws)%list = merge_successes lc evs.
Proof.
  intros Hws. revert lc. induction evs as [|ev evs IH]; intros lc.
  - cbn. induction Hws as [|w ws Hw _ IHw]; [reflexivity|].
    destruct w; try discriminate; exact IHw.
  - cbn. destruct ev as [? ? ? ? [e|]| |]; apply IH.
Qed.

Lemma some_raised_app evs ws :
  Forall (fun w => raised_of w = None) ws ->
  some_raised (evs ++ ws)%list = some_raised evs.
Proof.
  intros Hws. unfold some_raised. rewrite existsb_app.
  replace (existsb _ ws) with false; [apply orb_false_r|].
  induction Hws as [|w ws Hw _ IHw]; [reflexivity|].
  cbn. rewrite Hw. exact IHw.
Qed.

Lemma some_suspended_app evs ws :
  some_suspended (evs ++ ws)%list = false -> some_suspended evs = false.
Proof.
  unfold some_suspended. rewrite existsb_app. intros H.
  apply orb_false_iff in H. tauto.
Qed.

Lemma visited_app evs ws :
  Forall (fun w => is_iteration w = false) ws ->
  visited (evs ++ ws)%list = visited evs.
Proof.
  intros Hws. unfold visited. rewrite omap_app.
  replace (omap _ ws) with (@nil (nat * pyval)); [apply app_nil_r|].
  induction Hws as [|w ws Hw _ IHw]; [reflexivity|].
  destruct w; try discriminate; exact IHw.
Qed.

Lemma result_name_warning_no_iteration cfg lc :
  Forall (fun w => is_iteration w = false) (result_name_warning cfg lc).
Proof. unfold result_name_warning. destruct (_ && _); repeat constructor. Qed.

(** Without [fail_fast], and when no iteration asks for a suspension, the
    [for] loop visits every pair it does not skip; it keeps the data of the
    iterations that raised nothing, and returns whether one raised. *)
Lemma for_items_goes_on pairs :
  forall n_items start_index step cfg body lc failed lc' evs r,
    fail_fast cfg = false ->
    for_items pairs n_items start_index step cfg body lc failed = (lc', evs, r) ->
    some_suspended evs = false ->
    r = ret (failed || some_raised evs) /\
    lc' = merge_successes lc evs /\
    visited evs = not_skipped start_index pairs.
Proof.
  induction pairs as [|[k x] pairs IH];
    intros n_items start_index step cfg body lc failed lc' evs r Hff H Hsusp.
  - cbn in H. inversion H; subst. cbn. rewrite orb_false_r. auto.
  - rewrite for_items_cons in H. unfold not_skipped. cbn [List.filter fst].
    fold (not_skipped start_index pairs).
    destruct (Nat.ltb k start_index); cbn [negb]; [eapply IH; eassumption|].
    destruct (_run_loop_body _ body) as [aft raised]. cbv zeta in H.
    destruct raised as [e0|].
    + destruct (is_suspension e0) eqn:Hs.
      { inversion H; subst. cbn in Hsusp. rewrite Hs in Hsusp. discriminate. }
      rewrite Hff in H.
      destruct (for_items pairs n_items start_index step cfg body lc true)
        as [[lc2 evs2] r2] eqn:Hrec.
      inversion H; subst lc' evs r; clear H.
      rewrite some_suspended_cons, some_suspended_pause in Hsusp.
      cbn [raised_of] in Hsusp. rewrite Hs in Hsusp. cbn [orb] in Hsusp.
      destruct (IH _ _ _ _ _ _ _ _ _ _ Hff Hrec Hsusp) as (-> & -> & Hv).
      rewrite visited_cons_pause, Hv, some_raised_cons.
      cbn [raised_of merge_successes].
      rewrite merge_successes_pause, !orb_true_r. auto.
    + destruct (for_items pairs n_items start_index step cfg body
                  (pc_update lc (data aft)) failed) as [[lc2 evs2] r2] eqn:Hrec.
      inversion H; subst lc' evs r; clear H.
      rewrite some_suspended_cons, some_suspended_pause in Hsusp.
      cbn [raised_of orb] in Hsusp.
      destruct (IH _ _ _ _ _ _ _ _ _ _ Hff Hrec Hsusp) as (-> & -> & Hv).
      rewrite visited_cons_pause, Hv, some_raised_cons, some_raised_pause.
      cbn [raised_of merge_successes orb].
      rewrite merge_successes_pause. auto.
Qed.


(** ** Count loops *)

Lemma enumerate_range n :
  enumerate (map (fun i => VInt (Z.of_nat i)) (seq 0 n)) = counted n.
Proof.
  unfold enumerate, counted. rewrite length_map, length_seq.
  generalize 0%nat. induction n as [|n IH]; intros k; [reflexivity|].
  cbn. f_equal. apply IH.
Qed.


(** ** Pauses *)

Lemma pauses_app evs1 evs2 :
  pauses (evs1 ++ evs2)%list = (pauses evs1 ++ pauses evs2)%list.
Proof. unfold pauses. apply List.filter_app. Qed.

Lemma paced_nil cfg : paced cfg [].
Proof. unfold paced. destruct (Nat.eqb _ _); reflexivity. Qed.

Lemma paced_single cfg i item lc after raised :
  paced cfg [Iteration i item lc after raised].
Proof. unfold paced. destruct (Nat.eqb _ _); reflexivity. Qed.

Lemma paced_app cfg evs ws :
  Forall (fun w => is_iteration w = false /\ is_sleep w = false) ws ->
  paced cfg evs -> paced cfg (evs ++ ws)%list.
Proof.
  intros Hws. unfold paced. rewrite pauses_app, iterations_app.
  assert (Hn : pauses ws = [] /\ iterations ws = []).
  { induction Hws as [|w ws [Hi Hs] _ [IH1 IH2]]; [auto|].
    unfold pauses, iterations in *. cbn [List.filter]. rewrite Hi, Hs. auto. }
  destruct Hn as [-> ->]. rewrite !app_nil_r. auto.
Qed.

(** One more turn: the pause is there exactly when the loop goes on to
    another iteration. *)
Lemma paced_cons cfg i item lc after raised (b : bool) evs :
  paced cfg evs ->
  (negb (Nat.eqb (delay cfg) 0) && b = true -> iterations evs <> []) ->
  (b = false -> evs = []) ->
  paced cfg
    (Iteration i item lc after raised
       :: (if negb (Nat.eqb (delay cfg) 0) && b then [Sleep (delay cfg)] else [])
       ++ evs)%list.
Proof.
  unfold paced. intros Hp Hmore Hlast.
  destruct (Nat.eqb (delay cfg) 0) eqn:Hd; cbn [negb andb app].
  { exact Hp. }
  destruct b.
  - change (Sleep (delay cfg) :: pauses evs
            = repeat (Sleep (delay cfg))
                (length (Iteration i item lc after raised :: iterations evs) - 1)).
    rewrite Hp. specialize (Hmore eq_refl).
    destruct (iterations evs) as [|it its]; [congruence|].
    cbn [length].
    replace (S (length its) - 1)%nat with (length its) by lia.
    replace (S (S (length its)) - 1)%nat with (S (length its)) by lia.
    reflexivity.
  - rewrite (Hlast eq_refl). reflexivity.
Qed.

Lemma for_items_paced l :
  forall k n_items start_index step cfg body lc failed lc' evs r,
    n_items = (k + length l)%nat ->
    for_items (zip (seq k (length l)) l) n_items start_index step cfg body lc failed
      = (lc', evs, r) ->
    paced cfg evs /\
    (start_index <= k -> l <> [] -> iterations evs <> [])%nat.
Proof.
  induction l as [|x l IH];
    intros k n_items start_index step cfg body lc failed lc' evs r Hn H.
  - cbn in H. inversion H; subst. split; [apply paced_nil|congruence].
  - cbn [length seq zip zip_with] in H. rewrite for_items_cons in H.
    destruct (Nat.ltb_spec k start_index) as [Hlt|Hge].
    { destruct (IH (S k) n_items start_index step cfg body lc failed lc' evs r)
        as [Hp _]; [cbn [length] in Hn; lia|exact H|].
      split; [exact Hp|]. intros Hle. lia. }
    destruct (_run_loop_body _ body) as [aft raised]. cbv zeta in H.
    assert (Hgo : forall lcx fx lc2 evs2 r2,
               for_items (zip (seq (S k) (length l)) l) n_items start_index step
                 cfg body lcx fx = (lc2, evs2, r2) ->
               paced cfg
                 (Iteration k x lc aft raised
                    :: (if negb (Nat.eqb (delay cfg) 0) && Nat.ltb k (n_items - 1)
                        then [Sleep (delay cfg)] else []) ++ evs2)%list).
    { intros lcx fx lc2 evs2 r2 Hrec.
      pose proof Hrec as Hrec'.
      apply IH in Hrec' as [Hp Hmore]; [|cbn [length] in Hn; lia].
      apply paced_cons; [exact Hp| |].
      - intros Hb. apply andb_true_iff in Hb as [_ Hb].
        apply Nat.ltb_lt in Hb. apply Hmore; [lia|].
        intros ->. cbn [length] in Hn. lia.
      - intros Hb. apply Nat.ltb_ge in Hb.
        destruct l as [|y l]; [|cbn [length] in Hn; lia].
        cbn in Hrec. inversion Hrec. reflexivity. }
    assert (Hit : forall evs2 (p : list LoopEvent),
               iterations (Iteration k x lc aft raised :: p ++ evs2)%list <> [])
      by (intros; discriminate).
    destruct raised as [e0|].
    + destruct (is_suspension e0).
      { inversion H; subst. split; [apply paced_single|discriminate]. }
      destruct (fail_fast cfg).
      { inversion H; subst. split; [apply paced_single|discriminate]. }
      destruct (for_items _ n_items start_index step cfg body lc true)
        as [[lc2 evs2] r2] eqn:Hrec.
      inversion H; subst. split; [eapply Hgo; eassumption|]. intros _ _. apply Hit.
    + destruct (for_items _ n_items start_index step cfg body _ failed)
        as [[lc2 evs2] r2] eqn:Hrec.
      inversion H; subst. split; [eapply Hgo; eassumption|]. intros _ _. apply Hit.
Qed.

Lemma while_condition_paced remaining :
  forall loop_counter step cfg body lc failed lc' evs r,
    max_iterations cfg = (loop_counter + remaining)%nat ->
    while_condition remaining loop_counter step cfg body lc failed = (lc', evs, r) ->
    paced cfg evs /\
    (remaining <> 0%nat -> opt_truthy (condition cfg) = true ->
     truthy (pc_get lc (default "" (condition cfg)) VNone) = true ->
     iterations evs <> []).
Proof.
  induction remaining as [|remaining IH];
    intros loop_counter step cfg body lc failed lc' evs r Hmax H.
  - cbn in H. inversion H; subst. split; [apply paced_nil|congruence].
  - rewrite while_condition_S in H.
    destruct (opt_truthy (condition cfg)) eqn:Hc; cbn [negb] in H;
      [|inversion H; subst; split; [apply paced_nil|discriminate]].
    destruct (truthy (pc_get lc _ VNone)) eqn:Ht; cbn [negb] in H;
      [|inversion H; subst; split; [apply paced_nil|discriminate]].
    cbv zeta in H.
    destruct (_run_loop_body _ body) as [aft raised].
    set (merged := pc_update lc (data aft)) in *.
    assert (Hgo : forall fx lc2 evs2 r2,
               while_condition remaining (S loop_counter) step cfg body merged fx
                 = (lc2, evs2, r2) ->
               paced cfg
                 (Iteration loop_counter (VInt (Z.of_nat loop_counter)) lc aft raised
                    :: (if negb (Nat.eqb (delay cfg) 0)
                           && Nat.ltb (S loop_counter) (max_iterations cfg)
                           && truthy (pc_get merged (default "" (condition cfg)) VNone)
                        then [Sleep (delay cfg)] else []) ++ evs2)%list).
    { intros fx lc2 evs2 r2 Hrec.
      pose proof Hrec as Hrec'.
      apply IH in Hrec' as [Hp Hmore]; [|lia].
      rewrite <- andb_assoc.
      apply paced_cons; [exact Hp| |].
      - intros Hb. apply andb_true_iff in Hb as [_ Hb].
        apply andb_true_iff in Hb as [Hb1 Hb2].
        apply Nat.ltb_lt in Hb1. apply Hmore; [lia|exact Hc|exact Hb2].
      - intros Hb. apply andb_false_iff in Hb as [Hb|Hb].
        + apply Nat.ltb_ge in Hb.
          assert (remaining = 0%nat) by lia. subst remaining.
          cbn in Hrec. inversion Hrec. reflexivity.
        + destruct remaining as [|remaining];
            [cbn in Hrec; inversion Hrec; reflexivity|].
          rewrite while_condition_S, Hc, Hb in Hrec. cbn [negb] in Hrec.
          inversion Hrec. reflexivity. }
    assert (Hit : forall evs2 (p : list LoopEvent),
               iterations (Iteration loop_counter (VInt (Z.of_nat loop_counter))
                             lc aft raised :: p ++ evs2)%list <> [])
      by (intros; discriminate).
    destruct raised as [e0|].
    + destruct (is_suspension e0).
      { inversion H; subst. split; [apply paced_single|discriminate]. }
      destruct (fail_fast cfg).
      { inversion H; subst. split; [apply paced_single|discriminate]. }
      destruct (while_condition remaining (S loop_counter) step cfg body merged true)
        as [[lc2 evs2] r2] eqn:Hrec.
      inversion H; subst. split; [eapply Hgo; eassumption|]. intros _ _ _. apply Hit.
    + destruct (while_condition remaining (S loop_counter) step cfg body merged failed)
        as [[lc2 evs2] r2] eqn:Hrec.
      inversion H; subst. split; [eapply Hgo; eassumption|]. intros _ _ _. apply Hit.
Qed.

Lemma result_name_warning_silent cfg lc :
  Forall (fun w => is_iteration w = false /\ is_sleep w = false)
    (result_name_warning cfg lc).
Proof. unfold result_name_warning. destruct (_ && _); repeat constructor. Qed.

Lemma paced_warning cfg w : paced cfg [Warning w].
Proof. unfold paced. destruct (Nat.eqb _ _); reflexivity. Qed.

(** Whatever the loop and however it ends, it sleeps [delay] milliseconds
    between one iteration and the next, and at no other time: not before the
    first iteration, not after the last, and not at all without a delay. *)
Theorem loop_pauses_between_iterations σ ctx step cfg σ' evs res :
  loop_config step = Some cfg ->
  execute_loop σ ctx step = (σ', evs, res) ->
  pauses evs
  = if Nat.eqb (delay cfg) 0 then []
    else repeat (Sleep (delay cfg)) (length (iterations evs) - 1).
Proof.
  intros Hcfg H. fold (paced cfg evs).
  destruct evs as [|ev0 evs0]; [apply paced_nil|].
  destruct (execute_loop_ran _ _ _ _ _ _ H) as (cfg' & lc0 & lc & r & Hc & Hcopy & Hrun);
    [discriminate|].
  assert (cfg' = cfg) by congruence. subst cfg'. clear H.
  set (lc1 := pc_clear_saved_artifacts lc0) in *.
  destruct (opt_truthy (condition cfg)).
  - unfold _execute_condition_based_loop in Hrun.
    destruct (_create_synthetic_body step) as [|s0 body];
      [inversion Hrun; apply paced_warning|].
    destruct (while_condition (max_iterations cfg) 0 step cfg (s0 :: body) lc1 false)
      as [[lc2 evs2] r2] eqn:Hw.
    apply while_condition_paced in Hw as [Hp _]; [|reflexivity].
    destruct r2 as [e2|[f c]]; inversion Hrun; subst; [exact Hp|].
    apply paced_app; [|exact Hp].
    apply Forall_app. split; [|apply result_name_warning_silent].
    destruct (Nat.leb _ _); repeat constructor.
  - unfold _execute_collection_or_count_loop in Hrun.
    destruct (if opt_truthy (collection cfg) then _ else _) as [e0|items];
      [inversion Hrun|].
    match type of Hrun with
    | (if negb (truthy ?its) then _ else _) = _ =>
        set (items' := its) in *; destruct (negb (truthy items'))
    end; [inversion Hrun; apply paced_warning|].
    destruct (_create_synthetic_body step) as [|s0 body];
      [inversion Hrun; apply paced_warning|].
    destruct (elems ← py_items items';
              start_index ← start_index_of py_str items' elems lc1;
              ret (elems, start_index)) as [e0|[elems start_index]];
      [inversion Hrun|].
    destruct (for_items (enumerate elems) (length elems) start_index step cfg
                (s0 :: body) lc1 false) as [[lc2 evs2] r2] eqn:Hfor.
    apply (for_items_paced elems 0) in Hfor as [Hp _]; [|reflexivity].
    destruct r2 as [e2|f]; inversion Hrun; subst; [exact Hp|].
    apply paced_app; [apply result_name_warning_silent|exact Hp].
Qed.

End Body.
Lemma run_eta {A B C} (r : A * B * C) : r = (fst (fst r), snd (fst r), snd r).
Proof. destruct r as [[a b] c]. reflexivity. Qed.

Lemma fail_fast_stops_loop_witness :
  let r := toy_run [0; 1; 5] (toy_loop (Some "xs") None None 0 true) in
  snd r = Some (GenericException "boom") /\
  fst (fst r) = fst (toy_parent [0; 1; 5]).
Proof.
  cbv zeta.
  set (step := toy_loop (Some "xs") None None 0 true).
  set (r := toy_run [0; 1; 5] step).
  set (ev := nth 1 (snd (fst r)) (Warning "")).
  assert (Hdec : snd (fst r)
                 = (firstn 1 (snd (fst r))
                      ++ Iteration 1 (VInt 1)
                           (loop_context_of ev (toy_context []))
                           (after_of ev (toy_context []))
                           (Some (GenericException "boom")) :: [])%list)
    by (vm_compute; reflexivity).
  destruct (fail_fast_stops_loop toy_body toy_str _ _ step _ _ _ _ _ _ _ _ _ _ _
              eq_refl eq_refl (run_eta r) Hdec eq_refl) as (_ & H1 & H2).
  split; assumption.
Defined.

Lemma suspended_loop_merges_context_witness :
  let r := toy_run [0; 2; 5] (toy_loop (Some "xs") None None 0 false) in
  snd r = Some (PipelineSuspendedException "cp-1" ["body"] VNone).
Proof.
  cbv zeta.
  set (step := toy_loop (Some "xs") None None 0 false).
  set (r := toy_run [0; 2; 5] step).
  set (ev := nth 1 (snd (fst r)) (Warning "")).
  assert (Hdec : snd (fst r)
                 = (firstn 1 (snd (fst r))
                      ++ Iteration 1 (VInt 2)
                           (loop_context_of ev (toy_context []))
                           (after_of ev (toy_context []))
                           (Some (PipelineSuspendedException "cp-1" ["body"] VNone))
                      :: [])%list)
    by (vm_compute; reflexivity).
  destruct (suspended_loop_merges_context toy_body toy_str _ _ step _ _ _ _ _ _ _ _ _
              _ _ _ _ eq_refl (run_eta r) Hdec) as (_ & H).
  match type of H with
  | match ?u with _ => _ end => destruct u as [e|σ1] eqn:Hu
  end; [vm_compute in Hu; discriminate|].
  exact (proj2 H).
Defined.



Lemma loop_pauses_between_iterations_witness :
  let r := toy_run [0; 5; 7] (toy_loop (Some "xs") None None 50 false) in
  pauses (snd (fst r)) = [Sleep 50; Sleep 50] /\
  length (iterations (snd (fst r))) = 3%nat.
Proof.
  cbv zeta.
  set (step := toy_loop (Some "xs") None None 50 false).
  set (r := toy_run [0; 5; 7] step).
  assert (Hn : length (iterations (snd (fst r))) = 3%nat) by (vm_compute; reflexivity).
  split; [|exact Hn].
  rewrite (loop_pauses_between_iterations toy_body toy_str _ _ step _ _ _ _
             eq_refl (run_eta r)).
  rewrite Hn. reflexivity.
Defined.

End LoopExtra.

(** * More on running a step *)

Module ExecutorExtra.
Import Context Config Loop DagState Executor DagStateFacts ExecutorFacts Scenarios
  ExecutorMore.

(** ** Retries, whatever the plugin does *)

Lemma try_attempt_events W ex ctx step attempt ex1 r saved :
  try_attempt W ex ctx step attempt = (ex1, r, saved) ->
  _state ex1 = _state ex /\ _suspend_context ex1 = _suspend_context ex /\
  (events ex1 = events ex \/
   events ex1 = (events ex ++ [Progress (name step) RUNNING None;
                               Invoke (name step) attempt])%list).
Proof.
  unfold try_attempt.
  destruct (run_plugin W (store ex) ctx step attempt) as [σ a].
  destruct (before_invoke a).
  { intros H; inversion H; subst. cbn. auto. }
  assert (Hev : forall x, events (emit (_report_progress (with_store ex σ)
                                          (name step) RUNNING None) x)
                          = (events ex ++ [Progress (name step) RUNNING None; x])%list).
  { intros x. cbn. rewrite <- app_assoc. reflexivity. }
  destruct (invoked a) as [e|out]; [|destruct (output_error a)];
    intros H; inversion H; subst; rewrite Hev; cbn; auto.
Qed.

Lemma fail_step_events ex step e to_raise saved ex' r :
  fail_step ex step e to_raise saved = (ex', r) ->
  events ex' = (events ex ++ [Progress (name step) FAILED (Some e)])%list /\
  _state ex' = mark_step_failed (_state ex) (name step) e /\
  r = (if fail_on_error step then raise to_raise else ret (VNone, saved)).
Proof.
  unfold fail_step. destruct (fail_on_error step); intros H; inversion H; auto.
Qed.

Lemma attempts_S step k :
  attempts step (S k) = (step, 0) :: map (fun p => (fst p, snd p + 1)) (attempts step k).
Proof.
  unfold attempts. cbn [seq map]. f_equal.
  rewrite <- seq_shift, !map_map. apply map_ext. intros i. cbn. f_equal. lia.
Qed.

Section Retry.
Variable W : World.
Variable ctx : loc.
Variable step : StepConfig.
Variable max_retries : Z.

(** The retries from [attempt] on: the pauses are those of the linear
    back-off, and the plugin is invoked at most once per attempt. *)
Lemma retry_from_backoff (n : nat) :
  forall ex attempt ex' r,
    n = Z.to_nat (max_retries - 1 - attempt) ->
    retry_from n W ex ctx step attempt max_retries = (ex', r) ->
    exists new k,
      events ex' = (events ex ++ new)%list /\ (k <= n)%nat /\
      sleeps new
      = map (fun i => Qmult RETRY_DELAY (inject_Z (attempt + Z.of_nat i))) (seq 1 k) /\
      invocations new `sublist_of`
        map (fun i => (name step, attempt + Z.of_nat i)) (seq 0 (S k)).
Proof.
  induction n as [|n IH]; intros ex attempt ex' r Hn H.
  - (* no retry is left *)
    cbn [retry_from] in H.
    destruct (try_attempt W ex ctx step attempt) as [[ex1 r1] saved] eqn:Ht.
    apply try_attempt_events in Ht as (_ & _ & Hev).
    assert (Hlt : Z.ltb attempt (max_retries - 1) = false) by (apply Z.ltb_ge; lia).
    assert (Hend : exists tail,
               events ex' = (events ex1 ++ tail)%list /\
               sleeps tail = [] /\ invocations tail = []).
    { destruct r1 as [e|out].
      - destruct e; try rewrite Hlt in H;
          try (apply fail_step_events in H as (Hev' & _); eexists;
               split; [exact Hev'|split; reflexivity]).
        inversion H; subst. eexists. split; [reflexivity|split; reflexivity].
      - inversion H; subst. exists []. rewrite app_nil_r. auto. }
    destruct Hend as (tail & Hev' & Hs & Hi).
    destruct Hev as [Hev|Hev]; rewrite Hev in Hev'.
    + exists tail, 0%nat. split; [exact Hev'|]. split; [lia|].
      rewrite Hs, Hi. split; [reflexivity|apply sublist_nil_l].
    + rewrite <- app_assoc in Hev'. eexists _, 0%nat. split; [exact Hev'|].
      split; [lia|]. rewrite sleeps_app, invocations_app, Hs, Hi.
      cbn. rewrite Z.add_0_r. split; reflexivity.
  - cbn [retry_from] in H.
    destruct (try_attempt W ex ctx step attempt) as [[ex1 r1] saved] eqn:Ht.
    apply try_attempt_events in Ht as (_ & _ & Hev).
    assert (Hcases :
      (exists tail,
         events ex' = (events ex1 ++ tail)%list /\
         sleeps tail = [] /\ invocations tail = []) \/
      retry_from n W
        (emit ex1 (AsyncSleep (Qmult RETRY_DELAY (inject_Z (attempt + 1)))))
        ctx step (attempt + 1) max_retries = (ex', r)).
    { destruct r1 as [e|out].
      - destruct e;
          try (left; apply fail_step_events in H as (Hev' & _); eexists;
               split; [exact Hev'|split; reflexivity]).
        + destruct (Z.ltb attempt (max_retries - 1)); [right; exact H|].
          left; apply fail_step_events in H as (Hev' & _); eexists;
            split; [exact Hev'|split; reflexivity].
        + left. inversion H; subst. eexists.
          split; [reflexivity|split; reflexivity].
      - left. inversion H; subst. exists []. rewrite app_nil_r. auto. }
    destruct Hcases as [(tail & Hev' & Hs & Hi)|Hrec].
    + destruct Hev as [Hev|Hev]; rewrite Hev in Hev'.
      * exists tail, 0%nat. split; [exact Hev'|]. split; [lia|].
        rewrite Hs, Hi. split; [reflexivity|apply sublist_nil_l].
      * rewrite <- app_assoc in Hev'. eexists _, 0%nat. split; [exact Hev'|].
        split; [lia|]. rewrite sleeps_app, invocations_app, Hs, Hi.
        cbn. rewrite Z.add_0_r. split; reflexivity.
    + apply IH in Hrec as (new & k & Hev' & Hk & Hs & Hi); [|lia].
      cbn [emit events] in Hev'.
      assert (Hshift_s :
        Qmult RETRY_DELAY (inject_Z (attempt + 1))
          :: map (fun i => Qmult RETRY_DELAY (inject_Z (attempt + 1 + Z.of_nat i)))
               (seq 1 k)
        = map (fun i => Qmult RETRY_DELAY (inject_Z (attempt + Z.of_nat i)))
            (seq 1 (S k))).
      { cbn [seq map]. f_equal.
        rewrite <- (seq_shift k 1), map_map. apply map_ext. intros i.
        do 2 f_equal. lia. }
      assert (Hshift_i :
        (name step, attempt)
          :: map (fun i => (name step, attempt + 1 + Z.of_nat i)) (seq 0 (S k))
        = map (fun i => (name step, attempt + Z.of_nat i)) (seq 0 (S (S k)))).
      { change (seq 0 (S (S k))) with (0%nat :: seq 1 (S k)).
        cbn [map]. rewrite Z.add_0_r. f_equal.
        rewrite <- (seq_shift (S k) 0), map_map. apply map_ext. intros i.
        f_equal. lia. }
      destruct Hev as [Hev|Hev]; rewrite Hev in Hev'.
      * rewrite <- app_assoc in Hev'. eexists _, (S k). split; [exact Hev'|].
        split; [lia|]. rewrite sleeps_app, invocations_app, Hs.
        cbn [sleeps invocations omap app]. split; [exact Hshift_s|].
        rewrite <- Hshift_i. apply sublist_cons, Hi.
      * rewrite <- !app_assoc in Hev'. eexists _, (S k). split; [exact Hev'|].
        split; [lia|]. rewrite !sleeps_app, !invocations_app, Hs.
        cbn [sleeps invocations omap app]. split; [exact Hshift_s|].
        rewrite <- Hshift_i. apply sublist_skip, Hi.
Qed.

End Retry.

(** Whatever the plugin does, [_run_with_retries] invokes it at most once per
    attempt, at most [max(max_retries, 1)] times, at attempts numbered from
    [0] upwards, and it waits only before a retry: [RETRY_DELAY] seconds
    before the first, twice that before the second, and so on. *)
Theorem run_with_retries_backoff W ex step max_retries ex' r :
  _run_with_retries W ex step 0 max_retries = (ex', r) ->
  exists new k,
    events ex' = (events ex ++ new)%list /\
    (k <= Z.to_nat (max_retries - 1))%nat /\
    sleeps new = backoff k /\
    invocations new `sublist_of` attempts (name step) (S k).
Proof.
  unfold _run_with_retries.
  destruct (_current_context ex) as [ctx|].
  - intros H. apply retry_from_backoff in H as (new & k & Hev & Hk & Hs & Hi);
      [|reflexivity].
    exists new, k. split; [exact Hev|]. split; [lia|]. split; assumption.
  - intros H. inversion H; subst. exists [], 0%nat.
    rewrite app_nil_r. split; [reflexivity|]. split; [lia|].
    split; [reflexivity|apply sublist_nil_l].
Qed.

(** ** A plugin that succeeds after some retries *)

Lemma retry_from_eq n W ex ctx step attempt max_retries :
  retry_from n W ex ctx step attempt max_retries
  = let '(ex1, r, saved) := try_attempt W ex ctx step attempt in
    match r with
    | inr out => (ex1, ret (out, saved))
    | inl e =>
        if is_plugin_suspension e
        then
          match e with
          | PluginSuspendedException msg info =>
              (with_suspend_context
                 (_report_progress
                    (with_state ex1 (mark_step_suspended (_state ex1) (name step)))
                    (name step) SUSPENDED (Some e))
                 (Some (request_suspend
                          (default new_SuspendContext (_suspend_context ex1))
                          (name step) msg info)),
               raise e)
          | _ => (ex1, raise e)
          end
        else if is_retryable e && Z.ltb attempt (max_retries - 1)
        then
          match n with
          | S n' =>
              retry_from n' W
                (emit ex1 (AsyncSleep (Qmult RETRY_DELAY (inject_Z (attempt + 1)))))
                ctx step (attempt + 1) max_retries
          | O => fail_step ex1 step e e saved
          end
        else
          fail_step ex1 step e
            (match e with
             | PluginInputError _ | RetryablePluginError _ | PluginError _ => e
             | _ => DAGExecutionError (name step) e
             end) saved
    end.
Proof.
  destruct n; cbn [retry_from];
    destruct (try_attempt W ex ctx step attempt) as [[ex1 [e|out]] saved];
    try reflexivity;
    destruct e; cbn [is_plugin_suspension is_retryable andb]; try reflexivity;
    destruct (Z.ltb attempt (max_retries - 1)); reflexivity.
Qed.

Lemma try_attempt_invoked W ex ctx step attempt :
  before_invoke (snd (run_plugin W (store ex) ctx step attempt)) = None ->
  exists ex1,
    try_attempt W ex ctx step attempt
    = (ex1,
       match invoked (snd (run_plugin W (store ex) ctx step attempt)) with
       | inl e => raise e
       | inr out =>
           match output_error (snd (run_plugin W (store ex) ctx step attempt)) with
           | Some e => raise e
           | None => ret out
           end
       end,
       match invoked (snd (run_plugin W (store ex) ctx step attempt)) with
       | inl e => []
       | inr out =>
           match output_error (snd (run_plugin W (store ex) ctx step attempt)) with
           | Some e => saved_after_invoke (snd (run_plugin W (store ex) ctx step attempt))
           | None =>
               (saved_after_invoke (snd (run_plugin W (store ex) ctx step attempt))
                  ++ saved_after_output
                       (snd (run_plugin W (store ex) ctx step attempt)))%list
           end
       end) /\
    events ex1 = (events ex ++ [Progress (name step) RUNNING None;
                                Invoke (name step) attempt])%list /\
    _state ex1 = _state ex.
Proof.
  unfold try_attempt.
  destruct (run_plugin W (store ex) ctx step attempt) as [σ a]. cbn [snd].
  intros ->. eexists. split; [|split].
  - destruct (invoked a); [reflexivity|]. destruct (output_error a); reflexivity.
  - cbn. rewrite <- app_assoc. reflexivity.
  - reflexivity.
Qed.

Lemma sleeps_attempt s st e s' a : sleeps [Progress s st e; Invoke s' a] = [].
Proof. reflexivity. Qed.
Lemma sleeps_sleep q : sleeps [AsyncSleep q] = [q].
Proof. reflexivity. Qed.
Lemma invocations_attempt s st e s' a :
  invocations [Progress s st e; Invoke s' a] = [(s', a)].
Proof. reflexivity. Qed.
Lemma invocations_sleep q : invocations [AsyncSleep q] = [].
Proof. reflexivity. Qed.

Section Success.
Variable W : World.
Variable ctx : loc.
Variable step : StepConfig.
Variable max_retries : Z.
Variable k : nat.
Variable out : pyval.
Variable saved : list pyval.
Hypothesis Hk : Z.of_nat k < max_retries.
Hypothesis Hplugin : succeeds_at W ctx step k out saved.

Lemma retry_from_succeeds d :
  forall j n ex,
    (j + d = k)%nat ->
    n = Z.to_nat (max_retries - 1 - Z.of_nat j) ->
    exists ex' new,
      retry_from n W ex ctx step (Z.of_nat j) max_retries = (ex', ret (out, saved)) /\
      events ex' = (events ex ++ new)%list /\
      invocations new
      = map (fun i => (name step, Z.of_nat (j + i))) (seq 0 (S d)) /\
      sleeps new
      = map (fun i => Qmult RETRY_DELAY (inject_Z (Z.of_nat (j + i)))) (seq 1 d) /\
      _state ex' = _state ex.
Proof.
  destruct Hplugin as [Hfail Hok].
  induction d as [|d IH]; intros j n ex Hj Hn.
  - assert (j = k) by lia. subst j.
    destruct (Hok (store ex)) as (Hb & Hi & Ho & Hs).
    destruct (try_attempt_invoked W ex ctx step (Z.of_nat k) Hb)
      as (ex1 & Ht & Hev & Hst).
    rewrite Hi, Ho, Hs in Ht.
    rewrite retry_from_eq, Ht. exists ex1. eexists.
    split; [reflexivity|]. split; [exact Hev|].
    cbn. rewrite Nat.add_0_r. auto.
  - destruct (Hfail (store ex) j ltac:(lia)) as (Hb & m & Hi).
    destruct (try_attempt_invoked W ex ctx step (Z.of_nat j) Hb)
      as (ex1 & Ht & Hev & Hst).
    rewrite Hi in Ht. rewrite retry_from_eq, Ht.
    cbn [is_plugin_suspension is_retryable andb].
    assert (Hlt : Z.ltb (Z.of_nat j) (max_retries - 1) = true)
      by (apply Z.ltb_lt; lia).
    rewrite Hlt.
    destruct n as [|n]; [lia|].
    replace (Z.of_nat j + 1) with (Z.of_nat (S j)) by lia.
    destruct (IH (S j) n
                (emit ex1 (AsyncSleep (Qmult RETRY_DELAY (inject_Z (Z.of_nat (S j))))))
                ltac:(lia) ltac:(lia))
      as (ex' & new & Hr & Hev' & Hinv & Hsl & Hst').
    exists ex'. eexists. split; [exact Hr|].
    split; [rewrite Hev'; cbn [emit events]; rewrite Hev, <- !app_assoc; reflexivity|].
    split; [|split].
    + rewrite !invocations_app, Hinv.
      change (seq 0 (S (S d))) with (0%nat :: seq 1 (S d)).
      rewrite invocations_attempt, invocations_sleep.
      cbn [app map]. rewrite Nat.add_0_r. f_equal.
      rewrite <- (seq_shift (S d) 0), map_map. apply map_ext. intros i.
      replace (j + S i)%nat with (S j + i)%nat by lia. reflexivity.
    + rewrite !sleeps_app, Hsl.
      change (seq 1 (S d)) with (1%nat :: seq 2 d).
      rewrite sleeps_attempt, sleeps_sleep.
      cbn [app map]. replace (j + 1)%nat with (S j) by lia. f_equal.
      rewrite <- (seq_shift d 1), map_map. apply map_ext. intros i.
      replace (j + S i)%nat with (S j + i)%nat by lia. reflexivity.
    + rewrite Hst'. exact Hst.
Qed.

End Success.

(** A plugin that raises a retryable error at its first [k] attempts and
    then returns, with [k] below [max_retries], is invoked [k + 1] times, at
    the attempts [0] to [k]; the executor waits [RETRY_DELAY * i] seconds
    before the [i]-th retry, returns the output and the saved artifacts of
    the last attempt, and leaves the state of the step alone: the failed
    attempts are neither recorded nor reported. *)
Theorem retry_then_success W ex ctx step max_retries k out saved :
  _current_context ex = Some ctx ->
  Z.of_nat k < max_retries ->
  succeeds_at W ctx step k out saved ->
  exists ex' new,
    _run_with_retries W ex step 0 max_retries = (ex', ret (out, saved)) /\
    events ex' = (events ex ++ new)%list /\
    invocations new = attempts (name step) (S k) /\
    sleeps new = backoff k /\
    _state ex' = _state ex.
Proof.
  intros Hctx Hk Hplugin. unfold _run_with_retries. rewrite Hctx.
  destruct (retry_from_succeeds W ctx step max_retries k out saved Hk Hplugin k
              0%nat (Z.to_nat (max_retries - 1 - 0)) ex eq_refl eq_refl)
    as (ex' & new & Hr & Hev & Hinv & Hsl & Hst).
  exists ex', new. auto.
Qed.

(** ** What becomes of a step whose attempt raised *)

Lemma error_mark_failed st n e :
  has_step st n = true ->
  option_map error (step_state (mark_step_failed st n e) n) = Some (Some e).
Proof.
  unfold has_step, step_state, mark_step_failed, alter_step. cbn [step_states].
  rewrite lookup_alter_states, String.eqb_refl.
  destruct (lookup_state (step_states st) n) as [x|]; [reflexivity|discriminate].
Qed.

Lemma has_step_mark_failed st n e m :
  has_step (mark_step_failed st n e) m = has_step st m.
Proof. apply has_step_alter. Qed.

(** An attempt that raises anything but a retryable error or a suspension
    request ends the step at once, without a retry: the step is FAILED with
    that exception on record, its task is removed, and the failure goes up
    as [DAGExecutionError(step, e)] when the step is critical, whatever the
    class of the exception, and not at all otherwise. *)
Theorem failed_step_outcome W ex ctx step e ex1 saved step_configs tasks tasks' :
  _current_context ex = Some ctx ->
  try_attempt W ex ctx step 0 = (ex1, raise e, saved) ->
  is_retryable e = false ->
  is_plugin_suspension e = false ->
  has_step (_state ex) (name step) = true ->
  List.find (fun s => String.eqb (name s) (name step)) step_configs = Some step ->
  dict_del tasks (name step) = Some tasks' ->
  exists ex',
    _process_completed_task W ex (name step) (PluginTask step) step_configs tasks
    = (ex', tasks',
       if fail_on_error step then Some (DAGExecutionError (name step) e) else None) /\
    has_status (_state ex') FAILED (name step) = true /\
    option_map error (step_state (_state ex') (name step)) = Some (Some e) /\
    sleeps (events ex') = sleeps (events ex1).
Proof.
  intros Hctx Ht Hr Hs Hstep Hfind Hdel.
  pose proof Ht as Ht'. apply try_attempt_events in Ht' as (Hst1 & _ & _).
  assert (Hstep1 : has_step (_state ex1) (name step) = true)
    by (rewrite Hst1; exact Hstep).
  assert (H1 : has_step (mark_step_failed (_state ex1) (name step) e) (name step)
               = true) by (rewrite has_step_mark_failed; exact Hstep1).
  assert (H2 : has_status (mark_step_failed (_state ex1) (name step) e) FAILED
                 (name step) = true) by (apply has_status_mark_failed; exact Hstep1).
  unfold _process_completed_task, run_task, _run_with_retries. rewrite Hctx.
  rewrite retry_from_eq, Ht. unfold raise. rewrite Hs, Hr. cbn [andb].
  unfold fail_step, raise, ret.
  destruct (fail_on_error step) eqn:Hcrit; destruct e; try discriminate;
    cbv beta iota zeta;
    cbn [_state _report_progress emit with_state events];
    rewrite ?H1, ?H2; cbn [negb]; rewrite ?Hfind, ?Hcrit, ?Hdel;
    (eexists; split; [reflexivity|]);
    cbn [_state _report_progress emit with_state events];
    (split; [apply has_status_mark_failed; assumption|]);
    (split; [apply error_mark_failed; assumption|]);
    rewrite ?sleeps_app; cbn [sleeps omap]; rewrite ?app_nil_r; reflexivity.
Qed.

(** An attempt that asks for a suspension is not retried either: the step
    is SUSPENDED, the suspend context records its name with the reason and
    the data of the request, the task is removed, and nothing is raised to
    the phase, which goes on with the other tasks. *)
Theorem suspended_step_outcome W ex ctx step msg info ex1 saved step_configs
    tasks tasks' :
  _current_context ex = Some ctx ->
  try_attempt W ex ctx step 0
    = (ex1, raise (PluginSuspendedException msg info), saved) ->
  has_step (_state ex) (name step) = true ->
  dict_del tasks (name step) = Some tasks' ->
  exists ex',
    _process_completed_task W ex (name step) (PluginTask step) step_configs tasks
    = (ex', tasks', None) /\
    has_status (_state ex') SUSPENDED (name step) = true /\
    _suspend_context ex'
    = Some (request_suspend (default new_SuspendContext (_suspend_context ex))
              (name step) msg info) /\
    sleeps (events ex') = sleeps (events ex1) /\
    last (events ex')
    = Some (Progress (name step) SUSPENDED
              (Some (PluginSuspendedException msg info))).
Proof.
  intros Hctx Ht Hstep Hdel.
  pose proof Ht as Ht'. apply try_attempt_events in Ht' as (Hst1 & Hsc1 & _).
  unfold _process_completed_task, run_task, _run_with_retries. rewrite Hctx.
  rewrite retry_from_eq, Ht. unfold raise. cbn [is_plugin_suspension].
  cbv beta iota zeta. rewrite Hdel. eexists. split; [reflexivity|].
  cbn [_state _suspend_context _report_progress emit with_state
       with_suspend_context events].
  split; [|split; [|split]].
  - apply has_status_alter_eq; [rewrite Hst1; exact Hstep|reflexivity].
  - rewrite Hsc1. reflexivity.
  - rewrite sleeps_app. cbn [sleeps omap]. apply app_nil_r.
  - apply last_snoc.
Qed.

Lemma pair_eta {A B} (p : A * B) : p = (fst p, snd p).
Proof. destruct p; reflexivity. Qed.

Lemma triple_eta {A B C} (r : A * B * C) : r = (fst (fst r), snd (fst r), snd r).
Proof. destruct r as [[a b] c]. reflexivity. Qed.

Lemma run_with_retries_backoff_witness :
  exists new k,
    events (fst (_run_with_retries third_time_lucky ex_running
                   (plain_step "A" [] false) 0 3))
    = (events ex_running ++ new)%list /\
    (k <= 2)%nat /\ sleeps new = backoff k /\
    invocations new `sublist_of` attempts "A" (S k).
Proof.
  exact (run_with_retries_backoff third_time_lucky ex_running
           (plain_step "A" [] false) 3 _ _ (pair_eta _)).
Defined.

Lemma third_time_lucky_succeeds :
  succeeds_at third_time_lucky (snd fresh_context) (plain_step "A" [] false) 2
    (VInt 7) [].
Proof.
  split.
  - intros σ i Hi. destruct i as [|[|i]]; [| |lia]; cbn; eauto.
  - intros σ. cbn. auto.
Qed.

Lemma retry_then_success_witness :
  exists ex' new,
    _run_with_retries third_time_lucky ex_running (plain_step "A" [] false) 0 3
    = (ex', ret (VInt 7, [])) /\
    events ex' = (events ex_running ++ new)%list /\
    invocations new = [("A", 0); ("A", 1); ("A", 2)] /\
    sleeps new = backoff 2 /\
    _state ex' = _state ex_running.
Proof.
  exact (retry_then_success third_time_lucky ex_running (snd fresh_context)
           (plain_step "A" [] false) 3 2 (VInt 7) [] eq_refl eq_refl
           third_time_lucky_succeeds).
Defined.

Lemma failed_step_outcome_witness :
  exists ex',
    _process_completed_task (only_A_raises (PluginError "boom")) ex_running_critical
      "A" (PluginTask critical_A) [critical_A] [("A", PluginTask critical_A)]
    = (ex', [], Some (DAGExecutionError "A" (PluginError "boom"))) /\
    has_status (_state ex') FAILED "A" = true.
Proof.
  set (W := only_A_raises (PluginError "boom")).
  set (t := try_attempt W ex_running_critical (snd fresh_context) critical_A 0).
  assert (Ht : t = (fst (fst t), raise (PluginError "boom"), [])) by reflexivity.
  destruct (failed_step_outcome W ex_running_critical (snd fresh_context)
              critical_A (PluginError "boom") (fst (fst t)) []
              [critical_A] [("A", PluginTask critical_A)] []
              eq_refl Ht eq_refl eq_refl eq_refl eq_refl eq_refl)
    as (ex' & H1 & H2 & _).
  exists ex'. split; assumption.
Defined.

Lemma suspended_step_outcome_witness :
  exists ex',
    _process_completed_task A_suspends ex_running_critical
      "A" (PluginTask critical_A) [critical_A] [("A", PluginTask critical_A)]
    = (ex', [], None) /\
    has_status (_state ex') SUSPENDED "A" = true /\
    _suspend_context ex'
    = Some {| suspended_steps := ["A"]; suspend_data := [("A", VNone)];
              suspend_reasons := [("A", "need name")] |}.
Proof.
  set (t := try_attempt A_suspends ex_running_critical (snd fresh_context)
              critical_A 0).
  assert (Ht : t = (fst (fst t), raise (PluginSuspendedException "need name" VNone),
                    [])) by reflexivity.
  destruct (suspended_step_outcome A_suspends ex_running_critical
              (snd fresh_context) critical_A "need name" VNone (fst (fst t)) []
              [critical_A] [("A", PluginTask critical_A)] []
              eq_refl Ht eq_refl eq_refl)
    as (ex' & H1 & H2 & H3 & _).
  exists ex'. repeat split; assumption.
Defined.

End ExecutorExtra.

(** * Validating a pipeline definition *)

Module OrchestratorFacts.
Import Context Orchestrator.

#[local] Set Warnings "-clear-no-such-hyp".

(** ** Duplicates *)

Lemma size_list_to_set_le (l : list string) :
  (size (list_to_set l : gset string) <= length l)%nat.
Proof.
  induction l as [|x l IH]; [rewrite list_to_set_nil, size_empty; cbn; lia|].
  rewrite list_to_set_cons. cbn [length].
  pose proof (size_union_alt ({[x]} : gset string) (list_to_set l)) as Hu.
  assert (size (list_to_set l ∖ {[x]} : gset string) <= size (list_to_set l : gset string))%nat
    by (apply subseteq_size; set_solver).
  rewrite Hu, size_singleton. lia.
Qed.

Lemma has_duplicates_false (l : list string) :
  has_duplicates l = false <-> NoDup l.
Proof.
  unfold has_duplicates. rewrite negb_false_iff, Nat.eqb_eq. split.
  - induction l as [|x l IH]; [constructor|].
    intros Hs. rewrite list_to_set_cons in Hs. cbn [length] in Hs.
    pose proof (size_list_to_set_le l) as Hle.
    destruct (decide (x ∈ l)) as [Hin|Hnin].
    + exfalso.
      assert (({[x]} ∪ list_to_set l : gset string) = list_to_set l) as E
        by (apply leibniz_equiv; set_solver).
      rewrite E in Hs. lia.
    + apply NoDup_cons. split; [exact Hnin|]. apply IH.
      rewrite size_union in Hs by set_solver.
      rewrite size_singleton in Hs. lia.
  - intros Hnd. apply size_list_to_set, Hnd.
Qed.

(** ** The loops over the steps *)

Lemma find_step_Some steps n step :
  find_step steps n = inr step -> step ∈ steps /\ name step = n.
Proof.
  unfold find_step. destruct (List.find _ steps) as [s|] eqn:Hf; [|discriminate].
  intros E. inversion E; subst. apply find_some in Hf as [Hin Hn].
  split; [apply list_elem_of_In, Hin|]. apply String.eqb_eq, Hn.
Qed.

Lemma find_step_NoDup steps step :
  NoDup (map name steps) -> step ∈ steps -> find_step steps (name step) = inr step.
Proof.
  unfold find_step. induction steps as [|s steps IH]; intros Hnd Hin.
  - inversion Hin.
  - cbn [map] in Hnd. apply NoDup_cons in Hnd as [Hs Hnd]. cbn [List.find].
    apply elem_of_cons in Hin as [->|Hin]; [rewrite String.eqb_refl; reflexivity|].
    destruct (String.eqb_spec (name s) (name step)) as [E|_]; [|apply IH; assumption].
    exfalso. apply Hs. rewrite E. apply list_elem_of_fmap_2, Hin.
Qed.

Lemma find_step_known steps n :
  n ∈ map name steps -> exists step, find_step steps n = inr step.
Proof.
  unfold find_step. induction steps as [|s steps IH]; intros Hin; [inversion Hin|].
  cbn [List.find]. destruct (String.eqb_spec (name s) n) as [E|Hne]; [eauto|].
  cbn [map] in Hin. apply elem_of_cons in Hin as [E|Hin]; [congruence|]. auto.
Qed.

Lemma find_step_unknown steps n e :
  find_step steps n = inl e -> n ∉ map name steps.
Proof.
  intros Hf Hin. apply find_step_known in Hin as [s Hs]. congruence.
Qed.

Lemma check_plugins_spec hasPlugin steps :
  check_plugins hasPlugin steps = inr tt <->
  forall step, step ∈ steps -> hasPlugin (plugin step) = true.
Proof.
  induction steps as [|s steps IH]; cbn [check_plugins].
  - split; [intros _ step H; inversion H|reflexivity].
  - destruct (hasPlugin (plugin s)) eqn:Hp; cbn [negb].
    + rewrite IH. split.
      * intros H step Hin. apply elem_of_cons in Hin as [->|Hin]; auto.
      * intros H step Hin. apply H. apply elem_of_cons. auto.
    + split; [discriminate|]. intros H.
      rewrite (H s) in Hp by (apply elem_of_cons; auto). discriminate.
Qed.

Lemma check_known_spec step_names step deps :
  check_known step_names step deps = inr tt <->
  forall dep, dep ∈ deps -> dep ∈ step_names.
Proof.
  induction deps as [|d deps IH]; cbn [check_known].
  - split; [intros _ dep H; inversion H|reflexivity].
  - case_bool_decide as Hd; cbn [negb].
    + rewrite IH. split.
      * intros H dep Hin. apply elem_of_cons in Hin as [->|Hin]; auto.
      * intros H dep Hin. apply H. apply elem_of_cons. auto.
    + split; [discriminate|]. intros H. exfalso. apply Hd, H, elem_of_cons. auto.
Qed.

Lemma check_critical_spec all_steps step deps :
  check_critical all_steps step deps = inr tt <->
  forall dep, dep ∈ deps ->
    exists dep_step, find_step all_steps dep = inr dep_step /\
                     fail_on_error dep_step = true.
Proof.
  induction deps as [|d deps IH]; cbn [check_critical].
  - split; [intros _ dep H; inversion H|reflexivity].
  - destruct (find_step all_steps d) as [e|dep_step] eqn:Hf; cbn.
    + split; [discriminate|]. intros H.
      destruct (H d) as (s & Hs & _); [apply elem_of_cons; auto|]. congruence.
    + destruct (fail_on_error dep_step) eqn:Hc; cbn [negb].
      * rewrite IH. split.
        -- intros H dep Hin. apply elem_of_cons in Hin as [->|Hin]; eauto.
        -- intros H dep Hin. apply H. apply elem_of_cons. auto.
      * split; [discriminate|]. intros H.
        destruct (H d) as (s & Hs & Hcs); [apply elem_of_cons; auto|]. congruence.
Qed.

Lemma check_dependencies_spec all_steps step_names steps :
  check_dependencies all_steps step_names steps = inr tt <->
  forall step, step ∈ steps ->
    (forall dep, dep ∈ depends_on step -> dep ∈ step_names) /\
    (fail_on_error step = true ->
     forall dep, dep ∈ depends_on step ->
       exists dep_step, find_step all_steps dep = inr dep_step /\
                        fail_on_error dep_step = true).
Proof.
  induction steps as [|s steps IH]; cbn [check_dependencies].
  - split; [intros _ step H; inversion H|reflexivity].
  - pose proof (check_known_spec step_names s (depends_on s)) as Hk.
    pose proof (check_critical_spec all_steps s (depends_on s)) as Hc.
    destruct (check_known step_names s (depends_on s)) as [e|[]]; cbn.
    { split; [discriminate|]. intros H.
      destruct (H s) as [H1 _]; [apply elem_of_cons; auto|].
      apply Hk in H1. discriminate. }
    destruct (fail_on_error s) eqn:Hcrit.
    + destruct (check_critical all_steps s (depends_on s)) as [e|[]]; cbn.
      { split; [discriminate|]. intros H.
        destruct (H s) as [_ H2]; [apply elem_of_cons; auto|].
        apply Hc in H2; [discriminate|exact Hcrit]. }
      rewrite IH. split.
      * intros H step Hin. apply elem_of_cons in Hin as [->|Hin]; [|auto].
        split; [apply Hk; reflexivity|]. intros _. apply Hc. reflexivity.
      * intros H step Hin. apply H. apply elem_of_cons. auto.
    + cbn. rewrite IH. split.
      * intros H step Hin. apply elem_of_cons in Hin as [->|Hin]; [|auto].
        split; [apply Hk; reflexivity|]. congruence.
      * intros H step Hin. apply H. apply elem_of_cons. auto.
Qed.

(** ** The search *)

Lemma dfs_S fuel all_steps n visited rec_stack :
  dfs (S fuel) all_steps n (visited, rec_stack)
  = if bool_decide (n ∈ rec_stack)
    then Some (raise (ValueError
                        ("Pipeline contains a circular dependency at step: " ++ n)))
    else if bool_decide (n ∈ visited) then Some (ret (visited, rec_stack))
    else
      match find_step all_steps n with
      | inl e => Some (raise e)
      | inr step =>
          match visit_deps (dfs fuel all_steps) (depends_on step)
                  (visited ∪ {[n]}, rec_stack ∪ {[n]}) with
          | None => None
          | Some (inl e) => Some (inl e)
          | Some (inr (visited', rec_stack')) =>
              Some (ret (visited', rec_stack' ∖ {[n]}))
          end
      end.
Proof. reflexivity. Qed.

(** What the calls for the dependencies establish, from what each call
    does. *)
Lemma visit_deps_spec (f : string -> DfsState -> option (result DfsState))
    (J : DfsState -> Prop) (Q : string -> DfsState -> Prop) deps :
  (forall d st st', d ∈ deps -> J st -> f d st = Some (inr st') ->
     J st' /\ Q d st' /\ forall d0, Q d0 st -> Q d0 st') ->
  forall st st', J st -> visit_deps f deps st = Some (inr st') ->
    J st' /\ forall d, d ∈ deps -> Q d st'.
Proof.
  induction deps as [|d deps IH]; intros Hf st st' HJ H.
  - cbn in H. inversion H; subst. split; [exact HJ|]. intros d Hd. inversion Hd.
  - cbn [visit_deps] in H.
    destruct (f d st) as [[e|st1]|] eqn:Hd; try discriminate.
    destruct (Hf d st st1 ltac:(apply elem_of_cons; auto) HJ Hd) as (HJ1 & HQ1 & Hmono).
    assert (Hf' : forall d0 st0 st0', d0 ∈ deps -> J st0 ->
                    f d0 st0 = Some (inr st0') ->
                    J st0' /\ Q d0 st0' /\ forall d1, Q d1 st0 -> Q d1 st0').
    { intros d0 st0 st0' Hin. apply Hf. apply elem_of_cons. auto. }
    assert (Hstable : forall deps0 st0 st0',
               (forall d0, d0 ∈ deps0 -> d0 ∈ deps) -> J st0 ->
               visit_deps f deps0 st0 = Some (inr st0') ->
               forall d1, Q d1 st0 -> Q d1 st0').
    { induction deps0 as [|d0 deps0 IH0]; intros st0 st0' Hsub HJ0 H0 d1 HQ.
      - cbn in H0. inversion H0; subst. exact HQ.
      - cbn [visit_deps] in H0.
        destruct (f d0 st0) as [[e|st2]|] eqn:Hd0; try discriminate.
        destruct (Hf' d0 st0 st2 ltac:(apply Hsub, elem_of_cons; auto) HJ0 Hd0)
          as (HJ2 & _ & Hm2).
        apply (IH0 st2 st0'); auto.
        intros d2 Hd2. apply Hsub, elem_of_cons. auto. }
    destruct (IH Hf' st1 st' HJ1 H) as (HJ' & HQ').
    split; [exact HJ'|]. intros d0 Hd0.
    apply elem_of_cons in Hd0 as [->|Hd0]; [|auto].
    apply (Hstable deps st1 st'); auto.
Qed.

(** A call that returns has put the step among the visited ones and left
    the stack as it found it. *)
Lemma dfs_frame all_steps fuel :
  forall n visited rec_stack visited' rec_stack',
    dfs fuel all_steps n (visited, rec_stack) = Some (inr (visited', rec_stack')) ->
    rec_stack' = rec_stack /\ visited ⊆ visited' /\ n ∈ visited' /\ n ∉ rec_stack.
Proof.
  induction fuel as [|fuel IH]; intros n V S V' S' H; [discriminate|].
  rewrite dfs_S in H.
  case_bool_decide as HS; [discriminate|].
  case_bool_decide as HV; [inversion H; subst; auto|].
  destruct (find_step all_steps n) as [e|step]; [discriminate|].
  destruct (visit_deps (dfs fuel all_steps) (depends_on step) (V ∪ {[n]}, S ∪ {[n]}))
    as [[e|[V1 S1]]|] eqn:Hv; try discriminate.
  inversion H; subst V' S'; clear H.
  destruct (visit_deps_spec (dfs fuel all_steps)
              (fun st => snd st = S ∪ {[n]} /\ V ∪ {[n]} ⊆ fst st)
              (fun _ _ => True) (depends_on step)) with
    (st := (V ∪ {[n]}, S ∪ {[n]})) (st' := (V1, S1)) as ((HS1 & HV1) & _).
  - intros d [Va Sa] [Vb Sb] _ (HSa & HVa) Hd. cbn [fst snd] in *.
    apply IH in Hd as (-> & Hsub & _). repeat split; auto. set_solver.
  - cbn. split; [reflexivity|set_solver].
  - exact Hv.
  - cbn [fst snd] in *. subst S1. repeat split; [|set_solver|set_solver|exact HS].
    apply leibniz_equiv. set_solver.
Qed.

Lemma done_closed all_steps st v w :
  done_ok all_steps st -> v ∈ fst st -> v ∉ snd st ->
  rtc (depends all_steps) v w -> w ∈ fst st /\ w ∉ snd st.
Proof.
  intros [Hc _] Hv Hs Hr. induction Hr as [|x y z Hxy _ IH]; [auto|].
  destruct (Hc x y Hv Hs Hxy). auto.
Qed.

Lemma dfs_done all_steps fuel :
  forall n visited rec_stack st',
    done_ok all_steps (visited, rec_stack) ->
    dfs fuel all_steps n (visited, rec_stack) = Some (inr st') ->
    done_ok all_steps st'.
Proof.
  induction fuel as [|fuel IH]; intros n V S st' Hok H; [discriminate|].
  pose proof H as Hframe. destruct st' as [V' S'].
  apply dfs_frame in Hframe as (-> & HVV' & HnV' & HnS).
  rewrite dfs_S in H.
  case_bool_decide as HS; [discriminate|].
  case_bool_decide as HV; [inversion H; subst; exact Hok|].
  destruct (find_step all_steps n) as [e|step] eqn:Hfind; [discriminate|].
  destruct (visit_deps (dfs fuel all_steps) (depends_on step) (V ∪ {[n]}, S ∪ {[n]}))
    as [[e|[V1 S1]]|] eqn:Hv; try discriminate.
  inversion H; subst V'; clear H.
  destruct (visit_deps_spec (dfs fuel all_steps)
              (fun st => snd st = S ∪ {[n]} /\ done_ok all_steps st)
              (fun d st => d ∈ fst st /\ d ∉ S ∪ {[n]}) (depends_on step)) with
    (st := (V ∪ {[n]}, S ∪ {[n]})) (st' := (V1, S1)) as ((HS1 & Hok1) & Hdeps).
  - intros d [Va Sa] [Vb Sb] _ (HSa & Hoka) Hd. cbn [fst snd] in *. subst Sa.
    pose proof Hd as Hf. apply dfs_frame in Hf as (-> & Hsub & HdV & HdS).
    split; [split; [reflexivity|eapply IH; eassumption]|].
    split; [auto|]. intros d0 [? ?]. split; [set_solver|assumption].
  - cbn [fst snd]. split; [reflexivity|].
    destruct Hok as [Hc Ha]. split.
    + intros v d Hv1 Hv2 Hd. cbn [fst snd] in *.
      destruct (Hc v d) as [? ?]; [set_solver|set_solver|exact Hd|].
      split; [set_solver|]. intros Hin. apply elem_of_union in Hin as [?|Hin]; [auto|].
      apply elem_of_singleton in Hin. subst d. contradiction.
    + intros v Hv1 Hv2. cbn [fst snd] in *. apply Ha; set_solver.
  - exact Hv.
  - cbn [fst snd] in *. subst S1.
    assert (Hn1 : forall d, depends all_steps n d -> d ∈ V1 /\ d ∉ S ∪ {[n]}).
    { intros d (step' & Hs' & Hd). rewrite Hfind in Hs'. inversion Hs'; subst step'.
      apply Hdeps, Hd. }
    destruct Hok1 as [Hc1 Ha1]. split.
    + intros v d Hv1 Hv2 Hd. cbn [fst snd] in *.
      destruct (decide (v = n)) as [->|Hne].
      * destruct (Hn1 d Hd) as [? ?]. split; [assumption|set_solver].
      * destruct (Hc1 v d) as [? ?]; [assumption|set_solver|exact Hd|].
        split; [assumption|set_solver].
    + intros v Hv1 Hv2 Hcycle. cbn [fst snd] in *.
      destruct (decide (v = n)) as [->|Hne].
      * assert (Hstep : exists d, depends all_steps n d /\ rtc (depends all_steps) d n).
        { inversion Hcycle as [x y Hxy|x y z Hxy Hyz]; subst.
          - exists n. split; [exact Hxy|reflexivity].
          - exists y. split; [exact Hxy|apply tc_rtc, Hyz]. }
        destruct Hstep as (d & Hd & Hr).
        destruct (Hn1 d Hd) as [HdV HdS].
        destruct (done_closed all_steps (V1, S ∪ {[n]}) d n) as [_ Hbad];
          [split; assumption|exact HdV|exact HdS|exact Hr|].
        apply Hbad. set_solver.
      * apply (Ha1 v); [assumption|set_solver|exact Hcycle].
Qed.

(** ** Termination *)

Lemma visit_deps_total (f : string -> DfsState -> option (result DfsState))
    (J : DfsState -> Prop) deps :
  (forall d st, J st -> exists r, f d st = Some r /\
                                   forall st', r = inr st' -> J st') ->
  forall st, J st -> exists r, visit_deps f deps st = Some r /\
                               forall st', r = inr st' -> J st'.
Proof.
  intros Hf. induction deps as [|d deps IH]; intros st HJ.
  - exists (inr st). split; [reflexivity|]. intros st' E. inversion E; subst. exact HJ.
  - cbn [visit_deps]. destruct (Hf d st HJ) as ([e|st1] & -> & HJ1).
    + exists (inl e). split; [reflexivity|discriminate].
    + apply IH, HJ1. reflexivity.
Qed.

Lemma size_unvisited (names V : gset string) n :
  n ∈ names -> n ∉ V ->
  (size (names ∖ (V ∪ {[n]})) < size (names ∖ V))%nat.
Proof.
  intros Hn HV. apply subset_size. apply strict_spec_alt. split; [set_solver|].
  intros E. assert (n ∈ names ∖ V) as Hin by set_solver.
  rewrite <- E in Hin. set_solver.
Qed.

(** The search returns when the fuel exceeds the number of steps that are
    not visited yet. *)
Lemma dfs_total all_steps fuel :
  forall n visited rec_stack,
    (size ((list_to_set (map name all_steps) : gset string) ∖ visited) < fuel)%nat ->
    exists r, dfs fuel all_steps n (visited, rec_stack) = Some r.
Proof.
  set (names := list_to_set (map name all_steps) : gset string).
  induction fuel as [|fuel IH]; intros n V S Hfuel; [lia|].
  rewrite dfs_S.
  case_bool_decide as HS; [eauto|].
  case_bool_decide as HV; [eauto|].
  destruct (find_step all_steps n) as [e|step] eqn:Hfind; [eauto|].
  assert (Hn : n ∈ names).
  { apply find_step_Some in Hfind as [Hin <-].
    apply elem_of_list_to_set, list_elem_of_fmap_2, Hin. }
  pose proof (size_unvisited names V n Hn HV) as Hlt.
  destruct (visit_deps_total (dfs fuel all_steps)
              (fun st => size (names ∖ fst st) < fuel)%nat (depends_on step))
    with (st := (V ∪ {[n]}, S ∪ {[n]})) as ([e|[V1 S1]] & -> & _); eauto.
  - intros d [Va Sa] Ha. cbn [fst] in Ha.
    destruct (IH d Va Sa Ha) as [r Hr]. exists r. split; [exact Hr|].
    intros [Vb Sb] ->. apply dfs_frame in Hr as (_ & Hsub & _). cbn [fst].
    assert (size (names ∖ Vb) <= size (names ∖ Va))%nat
      by (apply subseteq_size; set_solver).
    lia.
  - cbn [fst]. lia.
Qed.

(** ** What the search raises *)

Lemma visit_deps_raises (f : string -> DfsState -> option (result DfsState))
    (J : DfsState -> Prop) (P : exn -> Prop) deps :
  (forall d st e, d ∈ deps -> J st -> f d st = Some (inl e) -> P e) ->
  (forall d st st', d ∈ deps -> J st -> f d st = Some (inr st') -> J st') ->
  forall st e, J st -> visit_deps f deps st = Some (inl e) -> P e.
Proof.
  induction deps as [|d deps IH]; intros Hraise Hok st e HJ H; [discriminate|].
  cbn [visit_deps] in H.
  destruct (f d st) as [[e1|st1]|] eqn:Hd; try discriminate.
  - inversion H; subst. eapply Hraise; [apply elem_of_cons; auto|exact HJ|exact Hd].
  - eapply (IH ltac:(intros; eapply Hraise; [apply elem_of_cons|..]; eauto)
               ltac:(intros; eapply Hok; [apply elem_of_cons|..]; eauto) st1).
    + eapply Hok; [apply elem_of_cons; auto|exact HJ|exact Hd].
    + exact H.
Qed.

(** In a definition whose dependencies are all steps of the definition, the
    search raises only when it meets a step that depends on itself, and
    names that step. *)
Lemma dfs_raises all_steps fuel :
  (forall step dep, step ∈ all_steps -> dep ∈ depends_on step ->
     dep ∈ map name all_steps) ->
  forall n visited rec_stack e,
    n ∈ map name all_steps ->
    (forall s, s ∈ rec_stack -> tc (depends all_steps) s n) ->
    dfs fuel all_steps n (visited, rec_stack) = Some (inl e) ->
    on_a_cycle all_steps e.
Proof.
  intros Hknown.
  induction fuel as [|fuel IH]; intros n V S e Hn Hstack H; [discriminate|].
  rewrite dfs_S in H.
  case_bool_decide as HS.
  { inversion H; subst. exists n. split; [reflexivity|]. apply Hstack, HS. }
  case_bool_decide as HV; [discriminate|].
  destruct (find_step all_steps n) as [e0|step] eqn:Hfind.
  { apply find_step_unknown in Hfind. contradiction. }
  destruct (visit_deps (dfs fuel all_steps) (depends_on step) (V ∪ {[n]}, S ∪ {[n]}))
    as [[e1|[V1 S1]]|] eqn:Hv; try discriminate.
  inversion H; subst e1; clear H.
  pose proof (find_step_Some _ _ _ Hfind) as [Hin _].
  refine (visit_deps_raises (dfs fuel all_steps)
            (fun st => snd st = S ∪ {[n]}) (on_a_cycle all_steps) (depends_on step)
            _ _ (V ∪ {[n]}, S ∪ {[n]}) e eq_refl Hv).
  - intros d [Va Sa] e1 Hd HSa Hr. cbn [snd] in HSa. subst Sa.
    apply (IH d Va (S ∪ {[n]}) e1); [eapply Hknown; eassumption| |exact Hr].
    assert (Hedge : depends all_steps n d) by (exists step; auto).
    intros s Hs. apply elem_of_union in Hs as [Hs|Hs].
    + eapply tc_r; [apply Hstack, Hs|exact Hedge].
    + apply elem_of_singleton in Hs. subst s. apply tc_once, Hedge.
  - intros d [Va Sa] [Vb Sb] Hd HSa Hr. cbn [snd] in *. subst Sa.
    apply dfs_frame in Hr as (-> & _). reflexivity.
Qed.

(** ** The loop over the steps *)

Lemma detect_cycles_done fuel all_steps steps :
  forall st st',
    done_ok all_steps st -> snd st = ∅ ->
    detect_cycles fuel all_steps steps st = Some (inr st') ->
    done_ok all_steps st' /\ snd st' = ∅ /\ fst st ⊆ fst st' /\
    forall step, step ∈ steps -> name step ∈ fst st'.
Proof.
  induction steps as [|s steps IH]; intros [V S] st' Hok HS H; cbn [fst snd] in *.
  - cbn in H. inversion H; subst.
    split; [exact Hok|]. split; [reflexivity|]. split; [reflexivity|].
    intros step Hin. inversion Hin.
  - cbn [detect_cycles fst] in H. subst S. case_bool_decide as HV.
    + destruct (IH _ _ Hok eq_refl H) as (Hok' & HS' & Hsub & Hall). cbn [fst] in *.
      split; [exact Hok'|]. split; [exact HS'|]. split; [exact Hsub|].
      intros step Hin.
      apply elem_of_cons in Hin as [->|Hin]; [set_solver|auto].
    + destruct (dfs fuel all_steps (name s) (V, ∅)) as [[e|[V1 S1]]|] eqn:Hd;
        try discriminate.
      pose proof (dfs_done _ _ _ _ _ _ Hok Hd) as Hok1.
      apply dfs_frame in Hd as (-> & Hsub1 & Hin1 & _).
      destruct (IH _ _ Hok1 eq_refl H) as (Hok' & HS' & Hsub & Hall). cbn [fst] in *.
      split; [exact Hok'|]. split; [exact HS'|]. split; [set_solver|].
      intros step Hin.
      apply elem_of_cons in Hin as [->|Hin]; [set_solver|auto].
Qed.

Lemma detect_cycles_total fuel all_steps steps :
  forall st,
    (size ((list_to_set (map name all_steps) : gset string) ∖ fst st) < fuel)%nat ->
    exists r, detect_cycles fuel all_steps steps st = Some r.
Proof.
  induction steps as [|s steps IH]; intros [V S] Hfuel; [cbn; eauto|].
  cbn [detect_cycles fst] in *. case_bool_decide as HV; [apply IH, Hfuel|].
  destruct (dfs_total all_steps fuel (name s) V S Hfuel) as [[e|[V1 S1]] Hr];
    rewrite Hr; [eauto|].
  apply IH. cbn [fst]. apply dfs_frame in Hr as (_ & Hsub & _).
  assert (size ((list_to_set (map name all_steps) : gset string) ∖ V1)
          <= size ((list_to_set (map name all_steps) : gset string) ∖ V))%nat
    by (apply subseteq_size; set_solver).
  lia.
Qed.

Lemma detect_cycles_raises fuel all_steps steps :
  (forall step dep, step ∈ all_steps -> dep ∈ depends_on step ->
     dep ∈ map name all_steps) ->
  (forall step, step ∈ steps -> step ∈ all_steps) ->
  forall st e,
    snd st = ∅ ->
    detect_cycles fuel all_steps steps st = Some (inl e) ->
    on_a_cycle all_steps e.
Proof.
  intros Hknown. induction steps as [|s steps IH]; intros Hsub [V S] e HS H;
    [discriminate|].
  cbn [detect_cycles fst snd] in *. subst S.
  assert (Hsub' : forall step, step ∈ steps -> step ∈ all_steps)
    by (intros; apply Hsub, elem_of_cons; auto).
  case_bool_decide as HV; [exact (IH Hsub' (V, ∅) e eq_refl H)|].
  destruct (dfs fuel all_steps (name s) (V, ∅)) as [[e1|[V1 S1]]|] eqn:Hd;
    try discriminate.
  - inversion H; subst.
    eapply dfs_raises; [exact Hknown| | |exact Hd].
    + apply list_elem_of_fmap_2, Hsub, elem_of_cons. auto.
    + intros s0 Hs0. set_solver.
  - apply dfs_frame in Hd as (-> & _). exact (IH Hsub' (V1, ∅) e eq_refl H).
Qed.

(** ** [validate_pipeline] *)

Lemma done_ok_empty all_steps : done_ok all_steps (∅, ∅).
Proof. split; intros; set_solver. Qed.

Lemma depends_known all_steps n d : depends all_steps n d -> n ∈ map name all_steps.
Proof.
  intros (step & Hf & _). apply find_step_Some in Hf as [Hin <-].
  apply list_elem_of_fmap_2, Hin.
Qed.

Lemma tc_depends_known all_steps n m :
  tc (depends all_steps) n m -> n ∈ map name all_steps.
Proof. intros H. destruct H as [x y Hxy|x y z Hxy _]; eapply depends_known; eauto. Qed.

(** When [validate_pipeline] returns normally, the definition is well
    formed. *)
Lemma validate_pipeline_well_formed hasPlugin fuel definition :
  validate_pipeline hasPlugin fuel definition = Some (ret tt) ->
  well_formed hasPlugin definition.
Proof.
  unfold validate_pipeline, well_formed. intros H.
  destruct (has_duplicates (map name (steps definition))) eqn:Hd1; [discriminate|].
  destruct (has_duplicates (map param_name (params definition))) eqn:Hd2;
    [discriminate|].
  apply has_duplicates_false in Hd1, Hd2.
  destruct (check_plugins hasPlugin (steps definition)) as [e|[]] eqn:Hp;
    [discriminate|].
  destruct (check_dependencies (steps definition)
              (list_to_set (map name (steps definition))) (steps definition))
    as [e|[]] eqn:Hdeps; [discriminate|].
  destruct (detect_cycles fuel (steps definition) (steps definition) (∅, ∅))
    as [[e|st']|] eqn:Hc; try discriminate.
  split; [exact Hd1|]. split; [exact Hd2|].
  split; [apply check_plugins_spec, Hp|].
  pose proof (proj1 (check_dependencies_spec _ _ _) Hdeps) as Hcheck.
  split.
  - intros step dep Hstep Hdep. destruct (Hcheck step Hstep) as [Hk Hcrit].
    destruct (fail_on_error step) eqn:Hf.
    + destruct (Hcrit eq_refl dep Hdep) as (dep_step & Hfind & Hc1).
      apply find_step_Some in Hfind as [Hin Hn]. eauto.
    + specialize (Hk dep Hdep). apply elem_of_list_to_set in Hk.
      apply list_elem_of_fmap in Hk as (dep_step & -> & Hin).
      exists dep_step. repeat split; [exact Hin|discriminate].
  - intros n Hcycle.
    destruct (detect_cycles_done _ _ _ _ _ (done_ok_empty _) eq_refl Hc)
      as ((_ & Hacyc) & HS & _ & Hall).
    apply (Hacyc n); [|rewrite HS; set_solver|exact Hcycle].
    apply tc_depends_known in Hcycle.
    apply list_elem_of_fmap in Hcycle as (step & -> & Hin). apply Hall, Hin.
Qed.

Lemma well_formed_known hasPlugin definition :
  well_formed hasPlugin definition ->
  forall step dep, step ∈ steps definition -> dep ∈ depends_on step ->
    dep ∈ map name (steps definition).
Proof.
  intros (_ & _ & _ & Hdeps & _) step dep Hstep Hdep.
  destruct (Hdeps step dep Hstep Hdep) as (dep_step & Hin & <- & _).
  apply list_elem_of_fmap_2, Hin.
Qed.

(** [validate_pipeline] returns, given fuel for one call of the search per
    step, and it accepts the well-formed definitions and no other: it returns
    normally exactly when no two steps and no two parameters have the same
    name, every plugin is known, every dependency is a step of the
    definition, no critical step depends on a step that is not critical, and
    no step depends on itself through any chain of dependencies. *)
Theorem validate_pipeline_accepts_well_formed hasPlugin fuel definition :
  (length (steps definition) < fuel)%nat ->
  exists r,
    validate_pipeline hasPlugin fuel definition = Some r /\
    (r = ret tt <-> well_formed hasPlugin definition).
Proof.
  intros Hfuel.
  assert (Hret : exists r, validate_pipeline hasPlugin fuel definition = Some r).
  { unfold validate_pipeline.
    destruct (has_duplicates (map name (steps definition))); [eauto|].
    destruct (has_duplicates (map param_name (params definition))); [eauto|].
    destruct (check_plugins hasPlugin (steps definition)); [eauto|].
    destruct (check_dependencies _ _ _); [eauto|].
    destruct (detect_cycles_total fuel (steps definition) (steps definition) (∅, ∅))
      as [[e|st'] ->]; [|eauto|eauto].
    cbn [fst].
    pose proof (size_list_to_set_le (map name (steps definition))) as Hle.
    rewrite length_map in Hle.
    assert (size ((list_to_set (map name (steps definition)) : gset string) ∖ ∅)
            <= size (list_to_set (map name (steps definition)) : gset string))%nat
      by (apply subseteq_size; set_solver).
    lia. }
  destruct Hret as [r Hr]. exists r. split; [exact Hr|]. split.
  - intros ->. eapply validate_pipeline_well_formed, Hr.
  - intros Hwf. pose proof (well_formed_known _ _ Hwf) as Hknown.
    destruct Hwf as (Hd1 & Hd2 & Hp & Hdeps & Hacyc).
    unfold validate_pipeline in Hr.
    rewrite (proj2 (has_duplicates_false _) Hd1) in Hr.
    rewrite (proj2 (has_duplicates_false _) Hd2) in Hr.
    rewrite (proj2 (check_plugins_spec _ _) Hp) in Hr.
    assert (Hcheck : check_dependencies (steps definition)
                       (list_to_set (map name (steps definition))) (steps definition)
                     = inr tt).
    { apply check_dependencies_spec. intros step Hstep. split.
      - intros dep Hdep. apply elem_of_list_to_set. eapply Hknown; eauto.
      - intros Hcrit dep Hdep.
        destruct (Hdeps step dep Hstep Hdep) as (dep_step & Hin & <- & Hc).
        exists dep_step. split; [apply find_step_NoDup; assumption|auto]. }
    rewrite Hcheck in Hr.
    destruct (detect_cycles fuel (steps definition) (steps definition) (∅, ∅))
      as [[e|st']|] eqn:Hc; [|congruence|discriminate].
    exfalso. apply detect_cycles_raises in Hc as (c & _ & Hcycle); auto.
    exact (Hacyc c Hcycle).
Qed.

(** A definition that passes every other check and in which some step
    depends on itself, directly or through other steps, is rejected with a
    [ValueError] that names a step on such a cycle. *)
Theorem validate_pipeline_reports_cycle hasPlugin fuel definition :
  (length (steps definition) < fuel)%nat ->
  NoDup (map name (steps definition)) ->
  NoDup (map param_name (params definition)) ->
  (forall step, step ∈ steps definition -> hasPlugin (plugin step) = true) ->
  (forall step dep, step ∈ steps definition -> dep ∈ depends_on step ->
     exists dep_step, dep_step ∈ steps definition /\ name dep_step = dep /\
       (fail_on_error step = true -> fail_on_error dep_step = true)) ->
  (exists n, tc (depends (steps definition)) n n) ->
  exists c,
    validate_pipeline hasPlugin fuel definition
    = Some (raise (ValueError
                     ("Pipeline contains a circular dependency at step: " ++ c))) /\
    tc (depends (steps definition)) c c.
Proof.
  intros Hfuel Hd1 Hd2 Hp Hdeps [n Hcycle].
  assert (Hknown : forall step dep, step ∈ steps definition -> dep ∈ depends_on step ->
                     dep ∈ map name (steps definition)).
  { intros step dep Hstep Hdep.
    destruct (Hdeps step dep Hstep Hdep) as (dep_step & Hin & <- & _).
    apply list_elem_of_fmap_2, Hin. }
  unfold validate_pipeline.
  rewrite (proj2 (has_duplicates_false _) Hd1).
  rewrite (proj2 (has_duplicates_false _) Hd2).
  rewrite (proj2 (check_plugins_spec _ _) Hp).
  assert (Hcheck : check_dependencies (steps definition)
                     (list_to_set (map name (steps definition))) (steps definition)
                   = inr tt).
  { apply check_dependencies_spec. intros step Hstep. split.
    - intros dep Hdep. apply elem_of_list_to_set. eapply Hknown; eauto.
    - intros Hcrit dep Hdep.
      destruct (Hdeps step dep Hstep Hdep) as (dep_step & Hin & <- & Hc).
      exists dep_step. split; [apply find_step_NoDup; assumption|auto]. }
  rewrite Hcheck.
  destruct (detect_cycles_total fuel (steps definition) (steps definition) (∅, ∅))
    as [r Hr].
  { cbn [fst].
    pose proof (size_list_to_set_le (map name (steps definition))) as Hle.
    rewrite length_map in Hle.
    assert (size ((list_to_set (map name (steps definition)) : gset string) ∖ ∅)
            <= size (list_to_set (map name (steps definition)) : gset string))%nat
      by (apply subseteq_size; set_solver).
    lia. }
  rewrite Hr. destruct r as [e|st'].
  - apply detect_cycles_raises in Hr as (c & -> & Hc); auto. exists c. auto.
  - exfalso.
    destruct (detect_cycles_done _ _ _ _ _ (done_ok_empty _) eq_refl Hr)
      as ((_ & Hacyc) & HS & _ & Hall).
    apply (Hacyc n); [|rewrite HS; set_solver|exact Hcycle].
    apply tc_depends_known in Hcycle.
    apply list_elem_of_fmap in Hcycle as (step & -> & Hin). apply Hall, Hin.
Qed.

Lemma validate_pipeline_accepts_well_formed_witness :
  validate_pipeline any_plugin 4 chain = Some (ret tt) /\
  well_formed any_plugin chain.
Proof.
  destruct (validate_pipeline_accepts_well_formed any_plugin 4 chain)
    as (r & Hr & Hiff); [cbn; lia|].
  assert (E : validate_pipeline any_plugin 4 chain = Some (ret tt))
    by (vm_compute; reflexivity).
  split; [exact E|]. apply Hiff. congruence.
Defined.

Lemma ring_has_cycle : tc (depends (steps ring)) "a" "a".
Proof.
  assert (Hac : depends (steps ring) "a" "c")
    by (exists (decl "a" ["c"]); split; [reflexivity|apply list_elem_of_singleton; reflexivity]).
  assert (Hcb : depends (steps ring) "c" "b")
    by (exists (decl "c" ["b"]); split; [reflexivity|apply list_elem_of_singleton; reflexivity]).
  assert (Hba : depends (steps ring) "b" "a")
    by (exists (decl "b" ["a"]); split; [reflexivity|apply list_elem_of_singleton; reflexivity]).
  eapply tc_l; [exact Hac|]. eapply tc_l; [exact Hcb|]. apply tc_once, Hba.
Qed.

Lemma ring_dependencies step dep :
  step ∈ steps ring -> dep ∈ depends_on step ->
  exists dep_step, dep_step ∈ steps ring /\ name dep_step = dep /\
    (fail_on_error step = true -> fail_on_error dep_step = true).
Proof.
  intros Hstep Hdep. cbn [steps ring] in *.
  repeat (apply elem_of_cons in Hstep as [->|Hstep]);
    [| | |inversion Hstep];
    cbn [depends_on decl] in Hdep; apply list_elem_of_singleton in Hdep; subst dep.
  - exists (decl "c" ["b"]). split; [set_solver|]. split; [reflexivity|discriminate].
  - exists (decl "a" ["c"]). split; [set_solver|]. split; [reflexivity|discriminate].
  - exists (decl "b" ["a"]). split; [set_solver|]. split; [reflexivity|discriminate].
Qed.

Lemma validate_pipeline_reports_cycle_witness :
  exists c,
    validate_pipeline any_plugin 4 ring
    = Some (raise (ValueError
                     ("Pipeline contains a circular dependency at step: " ++ c))) /\
    tc (depends (steps ring)) c c.
Proof.
  apply (validate_pipeline_reports_cycle any_plugin 4 ring).
  - cbn. lia.
  - apply has_duplicates_false. vm_compute. reflexivity.
  - constructor.
  - reflexivity.
  - apply ring_dependencies.
  - exists "a". apply ring_has_cycle.
Defined.

(** ** Parameters *)

Lemma pc_contains_lookup pc key :
  pc_contains pc key = match data pc !! key with Some _ => true | None => false end.
Proof.
  unfold pc_contains. destruct (data pc !! key).
  - apply bool_decide_eq_true_2. eauto.
  - apply bool_decide_eq_false_2. intros [? ?]. discriminate.
Qed.

Lemma scan_params_cons σ context pc param rest missing_params invalid_types :
  σ !! context = Some (PipelineContextObject pc) ->
  scan_params σ context (param :: rest) missing_params invalid_types
  = scan_params σ context rest
      (if is_missing (data pc) param
       then (missing_params ++ [param_name param])%list else missing_params)
      (if is_missing (data pc) param then invalid_types
       else match data pc !! param_name param with
            | Some value =>
                match type_error param value with
                | Some entry => (invalid_types ++ [entry])%list
                | None => invalid_types
                end
            | None => invalid_types
            end).
Proof.
  intros Hctx. cbn [scan_params]. unfold any_contains, any_get, any_getitem.
  rewrite Hctx, pc_contains_lookup. unfold pc_get, pc_getitem, is_missing.
  destruct (required param); destruct (data pc !! param_name param) as [value|];
    cbn; try destruct (is_None value); reflexivity.
Qed.

Lemma missing_in_cons data param rest :
  missing_in data (param :: rest)
  = if is_missing data param then param_name param :: missing_in data rest
    else missing_in data rest.
Proof.
  unfold missing_in. cbn [List.filter]. destruct (is_missing data param); reflexivity.
Qed.

Lemma invalid_in_cons data param rest :
  invalid_in data (param :: rest)
  = if is_missing data param then invalid_in data rest
    else match data !! param_name param with
         | Some value =>
             match type_error param value with
             | Some entry => entry :: invalid_in data rest
             | None => invalid_in data rest
             end
         | None => invalid_in data rest
         end.
Proof.
  unfold invalid_in. cbn [omap list_omap].
  destruct (is_missing data param); [reflexivity|].
  destruct (data !! param_name param) as [value|]; [|reflexivity].
  destruct (type_error param value); reflexivity.
Qed.

Lemma scan_params_spec σ context pc params :
  σ !! context = Some (PipelineContextObject pc) ->
  forall missing_params invalid_types,
    scan_params σ context params missing_params invalid_types
    = ret ((missing_params ++ missing_in (data pc) params)%list,
           (invalid_types ++ invalid_in (data pc) params)%list).
Proof.
  intros Hctx. induction params as [|param params IH]; intros missing invalid.
  - cbn. rewrite !app_nil_r. reflexivity.
  - rewrite (scan_params_cons _ _ _ _ _ _ _ Hctx), IH.
    rewrite missing_in_cons, invalid_in_cons.
    destruct (is_missing (data pc) param); [rewrite <- app_assoc; reflexivity|].
    destruct (data pc !! param_name param) as [value|]; [|reflexivity].
    destruct (type_error param value); [rewrite <- app_assoc|]; reflexivity.
Qed.

(** On a pipeline context, [validate_params] looks at every parameter before
    it raises.  The required parameters that have no value, or the value
    [None], come first: it raises one [ValueError] that lists them all, in
    the order of their declaration, whatever the types of the other values.
    Otherwise it raises one [ValueError] that lists every value of the wrong
    type, where a [bool] counts as an integer and the [None] of an optional
    parameter as a value; otherwise it returns. *)
Theorem validate_params_spec σ context pc definition :
  σ !! context = Some (PipelineContextObject pc) ->
  validate_params σ context definition
  = match missing_in (data pc) (params definition),
          invalid_in (data pc) (params definition) with
    | _ :: _, _ =>
        raise (ValueError
                 ("Missing required parameters for pipeline '" ++ id definition
                    ++ "': " ++ join ", " (missing_in (data pc) (params definition))))
    | [], _ :: _ =>
        raise (ValueError
                 ("Invalid parameter types in pipeline '" ++ id definition
                    ++ "': " ++ join ", " (invalid_in (data pc) (params definition))))
    | [], [] => ret tt
    end.
Proof.
  intros Hctx. unfold validate_params.
  rewrite (scan_params_spec σ context pc (params definition) Hctx [] []).
  cbn [app mbind result_bind ret].
  destruct (missing_in (data pc) (params definition));
    destruct (invalid_in (data pc) (params definition)); reflexivity.
Qed.

Lemma validate_params_spec_witness :
  validate_params params_store 1%positive with_params
  = raise (ValueError "Missing required parameters for pipeline 'p': who, dry").
Proof.
  rewrite (validate_params_spec params_store 1%positive params_context with_params
             eq_refl).
  vm_compute. reflexivity.
Defined.

End OrchestratorFacts.

(** * The step registry *)

Module StepRegistryFacts.
Import StepRegistry.
#[local] Set Warnings "-clear-no-such-hyp".

Lemma register_plugin_inv reg name cls reg' :
  register_plugin reg name cls = ret reg' ->
  acceptable cls /\ reg !! name = None /\ reg' = <[name := info_of cls]> reg.
Proof.
  unfold register_plugin, acceptable.
  destruct (has_mro cls); [|discriminate].
  destruct (inherits_PluginBase cls); [|discriminate]. cbn [negb].
  case_bool_decide as Hreg; [discriminate|].
  assert (Hnone : reg !! name = None).
  { destruct (reg !! name) eqn:E; [|reflexivity]. exfalso. apply Hreg. eauto. }
  unfold info_of.
  destruct (resolve_model (InputModel cls) (input cls)) as [i|] eqn:Hi;
    destruct (resolve_model (OutputModel cls) (output cls)) as [o|] eqn:Ho;
    try discriminate; intros E; inversion E; subst;
    (split; [split; [reflexivity|split; [reflexivity|]]|split; [exact Hnone|reflexivity]]);
    first [left; congruence|right; congruence].
Qed.

Lemma register_plugin_accepts reg name cls :
  acceptable cls -> reg !! name = None ->
  register_plugin reg name cls = ret (<[name := info_of cls]> reg).
Proof.
  intros (Hm & Hp & Hmodel) Hnone. unfold register_plugin, info_of.
  rewrite Hm, Hp. cbn [negb].
  rewrite bool_decide_eq_false_2 by (rewrite Hnone; intros [? ?]; discriminate).
  destruct (resolve_model (InputModel cls) (input cls));
    destruct (resolve_model (OutputModel cls) (output cls)); try reflexivity.
  destruct Hmodel; congruence.
Qed.

(** Registering and looking up.  A plugin that [register_plugin] has
    registered is found under its name, with its class, and with the
    PascalCase model when the class has one and the lowercase model
    otherwise; the name was free before, and no other entry has changed. *)
Theorem register_plugin_lookup reg name cls reg' :
  register_plugin reg name cls = ret reg' ->
  hasPlugin reg name = false /\
  hasPlugin reg' name = true /\
  get_plugin_class reg' name = ret cls /\
  get_input_model reg' name = resolve_model (InputModel cls) (input cls) /\
  get_output_model reg' name = resolve_model (OutputModel cls) (output cls) /\
  forall other, other <> name -> reg' !! other = reg !! other.
Proof.
  intros H. apply register_plugin_inv in H as (_ & Hnone & ->).
  unfold hasPlugin, get_plugin_class, get_input_model, get_output_model.
  rewrite Hnone, !lookup_insert_eq. cbn.
  repeat (split; [reflexivity|]).
  intros other Hne. apply lookup_insert_ne. congruence.
Qed.

(** What the registration of the external plugins does, entry by entry. *)
Lemma register_externals_spec externals :
  forall reg,
    (forall name info, reg !! name = Some info ->
       register_externals reg externals !! name = Some info) /\
    (forall name cls,
       NoDup (map fst externals) -> (name, cls) ∈ externals ->
       reg !! name = None -> acceptable cls ->
       register_externals reg externals !! name = Some (info_of cls)) /\
    (forall name, register_externals reg externals !! name = None ->
       reg !! name = None).
Proof.
  induction externals as [|[n c] externals IH]; intros reg.
  - cbn. split; [auto|]. split; [|auto]. intros name cls _ Hin. inversion Hin.
  - cbn [register_externals].
    assert (Hstep : exists reg1,
               (if bool_decide (is_Some (reg !! n))
                then register_externals reg externals
                else match register_plugin reg n c with
                     | inr reg' => register_externals reg' externals
                     | inl _ => register_externals reg externals
                     end) = register_externals reg1 externals /\
               (forall name info, reg !! name = Some info -> reg1 !! name = Some info) /\
               (forall name, name <> n -> reg1 !! name = reg !! name) /\
               (reg !! n = None -> acceptable c -> reg1 !! n = Some (info_of c))).
    { case_bool_decide as Hreg.
      - exists reg. split; [reflexivity|]. split; [auto|]. split; [auto|].
        intros Hnone. rewrite Hnone in Hreg. destruct Hreg. discriminate.
      - destruct (register_plugin reg n c) as [e|reg1] eqn:Hr.
        + exists reg. split; [reflexivity|]. split; [auto|]. split; [auto|].
          intros Hnone Hacc. rewrite (register_plugin_accepts _ _ _ Hacc Hnone) in Hr.
          discriminate.
        + apply register_plugin_inv in Hr as (_ & Hnone & ->).
          exists (<[n := info_of c]> reg). split; [reflexivity|]. split.
          * intros name info Hname. rewrite lookup_insert_ne; [exact Hname|].
            congruence.
          * split; [intros name Hne; apply lookup_insert_ne; congruence|].
            intros _ _. apply lookup_insert_eq. }
    destruct Hstep as (reg1 & -> & Hkeep & Hother & Hnew).
    destruct (IH reg1) as (IH1 & IH2 & IH3).
    split; [|split].
    + intros name info Hname. apply IH1, Hkeep, Hname.
    + intros name cls Hnd Hin Hnone Hacc. cbn [map fst] in Hnd.
      apply NoDup_cons in Hnd as [Hn Hnd].
      apply elem_of_cons in Hin as [E|Hin].
      * inversion E; subst. apply IH1, Hnew; assumption.
      * assert (name <> n).
        { intros ->. apply Hn. apply (list_elem_of_fmap_2 fst) in Hin. exact Hin. }
        apply IH2; auto. rewrite Hother by assumption. exact Hnone.
    + intros name Hres. specialize (IH3 name Hres).
      destruct (reg !! name) as [info|] eqn:E; [|reflexivity].
      rewrite (Hkeep name info E) in IH3. discriminate.
Qed.

(** External plugins never replace a registered plugin, whether it is an
    internal plugin or an external one registered before; and a plugin that
    cannot be registered does not keep the others out: every acceptable
    external plugin whose name was free is registered. *)
Theorem external_plugins_never_override reg plugin_manager externals :
  plugin_manager = Some (inr externals) ->
  NoDup (map fst externals) ->
  (forall name info, reg !! name = Some info ->
     _register_external_plugins_async reg plugin_manager !! name = Some info) /\
  (forall name cls, (name, cls) ∈ externals -> reg !! name = None ->
     acceptable cls ->
     _register_external_plugins_async reg plugin_manager !! name
     = Some (info_of cls)).
Proof.
  intros -> Hnd. cbn [_register_external_plugins_async].
  destruct (register_externals_spec externals reg) as (H1 & H2 & _).
  split; [exact H1|]. intros name cls. apply H2, Hnd.
Qed.

(** [register_or_override_plugin] does not look at the lowercase
    attributes: a class whose only models are [input] or [output] is
    registered by [register_plugin] and rejected by
    [register_or_override_plugin]. *)
Theorem override_ignores_lowercase_models reg name cls :
  acceptable cls ->
  reg !! name = None ->
  as_model (InputModel cls) = None ->
  as_model (OutputModel cls) = None ->
  register_plugin reg name cls = ret (<[name := info_of cls]> reg) /\
  (get_input_model (<[name := info_of cls]> reg) name = as_model (input cls) /\
   get_output_model (<[name := info_of cls]> reg) name = as_model (output cls)) /\
  register_or_override_plugin reg name cls
  = raise (ValueError
             ("Plugin '" ++ name
                ++ "' must define either InputModel or OutputModel attribute. ")).
Proof.
  intros Hacc Hnone Hi Ho.
  split; [apply register_plugin_accepts; assumption|]. split.
  - unfold get_input_model, get_output_model. rewrite lookup_insert_eq.
    unfold info_of, resolve_model. cbn. rewrite Hi, Ho. auto.
  - unfold register_or_override_plugin. rewrite Hi, Ho. reflexivity.
Qed.

Lemma register_plugin_lookup_witness :
  exists reg',
    register_plugin ∅ "echo" modern = ret reg' /\
    get_plugin_class reg' "echo" = ret modern /\
    get_input_model reg' "echo" = Some "EchoInput".
Proof.
  destruct (register_plugin ∅ "echo" modern) as [e|reg'] eqn:E;
    [vm_compute in E; discriminate|].
  destruct (register_plugin_lookup ∅ "echo" modern reg' E)
    as (_ & _ & H1 & H2 & _).
  exists reg'. split; [reflexivity|]. split; [exact H1|exact H2].
Defined.

Lemma modern_acceptable : acceptable modern.
Proof. repeat split. left. discriminate. Qed.

Lemma lowercase_only_acceptable : acceptable lowercase_only.
Proof. repeat split. left. discriminate. Qed.

Lemma external_plugins_never_override_witness :
  let reg : Registry := {["echo" := info_of modern]} in
  let externals := [("echo", lowercase_only); ("bad", legacy); ("old", lowercase_only)] in
  _register_external_plugins_async reg (Some (inr externals)) !! "echo"
  = Some (info_of modern) /\
  _register_external_plugins_async reg (Some (inr externals)) !! "old"
  = Some (info_of lowercase_only).
Proof.
  cbv zeta.
  destruct (external_plugins_never_override {["echo" := info_of modern]}
              (Some (inr [("echo", lowercase_only); ("bad", legacy);
                          ("old", lowercase_only)])) _ eq_refl) as [H1 H2].
  - cbn. repeat constructor; set_solver.
  - split.
    + apply H1. apply lookup_singleton_eq.
    + apply H2; [set_solver|apply lookup_singleton_ne; discriminate|].
      apply lowercase_only_acceptable.
Defined.

Lemma override_ignores_lowercase_models_witness :
  register_plugin ∅ "old" lowercase_only = ret {["old" := info_of lowercase_only]} /\
  register_or_override_plugin ∅ "old" lowercase_only
  = raise (ValueError
             "Plugin 'old' must define either InputModel or OutputModel attribute. ").
Proof.
  destruct (override_ignores_lowercase_models ∅ "old" lowercase_only
              lowercase_only_acceptable (lookup_empty _) eq_refl eq_refl)
    as (H1 & _ & H2).
  split; [exact H1|exact H2].
Defined.

End StepRegistryFacts.

(** * Running a pipeline *)

Module PipelineRunFacts.
Import Context Config Loop DagState Executor Scenarios PipelineRun.

Lemma report_all_events steps : forall ex status error,
  events (report_all ex steps status error)
  = (events ex ++ map (fun step => Progress (name step) status error) steps)%list.
Proof.
  unfold report_all.
  induction steps as [|s steps IH]; intros ex status error; cbn [fold_left map].
  - symmetry. apply app_nil_r.
  - rewrite IH. cbn [emit events]. rewrite <- app_assoc. reflexivity.
Qed.

Lemma last_report_app evs2 : forall evs1 step r,
  last_report evs2 step = Some r -> last_report (evs1 ++ evs2) step = Some r.
Proof.
  intros evs1 step r H.
  induction evs1 as [|ev evs1 IH]; cbn [app last_report]; [exact H|].
  rewrite IH. reflexivity.
Qed.

Lemma last_report_value steps status error n r :
  last_report (map (fun s => Progress (name s) status error) steps) n = Some r ->
  r = (status, error).
Proof.
  induction steps as [|s steps IH]; cbn [map last_report]; [discriminate|].
  destruct (last_report (map _ steps) n) as [r0|].
  - intros H. inversion H; subst. apply IH. reflexivity.
  - destruct (String.eqb (name s) n); [|discriminate].
    intros H. inversion H. reflexivity.
Qed.

Lemma last_report_all steps status error step :
  In step steps ->
  last_report (map (fun s => Progress (name s) status error) steps) (name step)
  = Some (status, error).
Proof.
  intros Hin.
  destruct (last_report (map (fun s => Progress (name s) status error) steps)
              (name step)) as [r|] eqn:E.
  - apply last_report_value in E. rewrite E. reflexivity.
  - exfalso. induction steps as [|s steps IH]; [destruct Hin|].
    cbn [map last_report] in E.
    destruct (last_report (map _ steps) (name step)) as [r0|]; [discriminate|].
    destruct Hin as [->|Hin]; [|apply IH; [exact Hin|reflexivity]].
    rewrite String.eqb_refl in E. discriminate.
Qed.

Lemma last_report_report_all ex steps status error step :
  In step steps ->
  last_report (events (report_all ex steps status error)) (name step)
  = Some (status, error).
Proof.
  intros Hin. rewrite report_all_events.
  apply last_report_app, last_report_all, Hin.
Qed.

(** The exceptions that leave the [finally] block of [executeDAG]. *)
Lemma finish_run_raises W ex normal_phase_error finally_errors ex' e :
  (forall tid e, new_checkpoint_id W tid = inl e -> is_DAGExecutionError e = false) ->
  finish_run W ex (aggregate normal_phase_error finally_errors) = (ex', Some e) ->
  is_DAGExecutionError e = false.
Proof.
  intros Hcp. unfold finish_run.
  assert (Hagg : forall x e0, (x, aggregate normal_phase_error finally_errors)
                              = (ex', Some e0) -> is_DAGExecutionError e0 = false).
  { intros x e0 H. inversion H as [[Hx Ha]]. unfold aggregate in Ha.
    destruct normal_phase_error, finally_errors; inversion Ha; reflexivity. }
  destruct (match _suspend_context _ with Some _ => _ | None => _ end);
    [|apply Hagg].
  destruct (_create_suspension_checkpoint W _) as [ex1 [e1|]] eqn:Hc;
    [|apply Hagg].
  intros H. inversion H; subst. clear H Hagg.
  unfold _create_suspension_checkpoint in Hc.
  destruct (has_checkpoint_manager _); [|discriminate].
  destruct (_suspend_context _) as [sc|]; [|discriminate].
  destruct (running_steps _); [|discriminate].
  destruct (task_id_or_none _ _) as [e0|[tid|]] eqn:Ht; [| |discriminate].
  - inversion Hc; subst. unfold task_id_or_none in Ht.
    destruct (_current_context _); [|discriminate].
    destruct (any_task_id _ _) as [[]|]; inversion Ht; reflexivity.
  - destruct (negb (str_truthy tid)); [discriminate|].
    destruct (new_checkpoint_id W tid) as [e0|cid] eqn:Hn.
    + inversion Hc; subst. apply (Hcp tid), Hn.
    + inversion Hc; subst. reflexivity.
Qed.

(** [executeDAG] lets no [DAGExecutionError] out unless the validator or the
    checkpoint manager raises one. *)
Lemma executeDAG_raises fuel W ex context steps ex' e :
  (forall e, validate_steps W steps = inl e -> is_DAGExecutionError e = false) ->
  (forall tid e, new_checkpoint_id W tid = inl e -> is_DAGExecutionError e = false) ->
  executeDAG fuel W ex context steps = Some (ex', Some e) ->
  is_DAGExecutionError e = false.
Proof.
  intros Hv Hcp. unfold executeDAG.
  destruct (validate_steps W steps) as [e0|parsed] eqn:E.
  { intros H. inversion H; subst. apply Hv. reflexivity. }
  destruct (resolve_connections W steps).
  { intros H. inversion H; subst. reflexivity. }
  destruct (_execute_normal_phase _ _ _ _ _) as [[[ex1 tasks1] nerr]|];
    [|discriminate].
  destruct (_execute_finally_phase _ _ _ _ _) as [[[ex2 tasks2] r]|];
    [|discriminate].
  intros H. inversion H as [Hf]. eapply finish_run_raises; eauto.
Qed.

(** What the callback hears last.  When the validator and the checkpoint
    manager raise no [DAGExecutionError], the last progress that
    [runPipeline] reports for every step of the pipeline is COMPLETED when
    the run raises nothing, whatever became of the step, and FAILED with the
    exception of the run when it raises one, a suspension included. *)
Theorem runPipeline_final_reports fuel W ex context steps ex' r :
  (forall e, validate_steps W steps = inl e -> is_DAGExecutionError e = false) ->
  (forall tid e, new_checkpoint_id W tid = inl e -> is_DAGExecutionError e = false) ->
  runPipeline fuel W ex true context steps = Some (ex', r) ->
  forall step, In step steps ->
    last_report (events ex') (name step)
    = Some match r with
           | None => (COMPLETED, None)
           | Some e => (FAILED, Some e)
           end.
Proof.
  intros Hv Hcp Hrun step Hin. unfold runPipeline in Hrun.
  destruct (executeDAG fuel W _ context steps) as [[ex1 [e|]]|] eqn:E;
    [| |discriminate].
  - rewrite (executeDAG_raises _ _ _ _ _ _ _ Hv Hcp E) in Hrun.
    inversion Hrun; subst. apply last_report_report_all, Hin.
  - inversion Hrun; subst. apply last_report_report_all, Hin.
Qed.

Lemma runPipeline_final_reports_witness :
  let run := runPipeline 10 (only_A_raises (PluginError "boom"))
               (fresh_executor 1 true) true (snd fresh_context)
               (pipeline_A_then_B false) in
  option_map snd run = Some None /\
  final_status run "A" = Some FAILED /\
  exists ex', option_map fst run = Some ex' /\
    last_report (events ex') "A" = Some (COMPLETED, None).
Proof.
  cbv zeta.
  assert (Hr : option_map snd
                 (runPipeline 10 (only_A_raises (PluginError "boom"))
                    (fresh_executor 1 true) true (snd fresh_context)
                    (pipeline_A_then_B false)) = Some None)
    by (vm_compute; reflexivity).
  split; [exact Hr|]. split; [vm_compute; reflexivity|].
  destruct (runPipeline 10 (only_A_raises (PluginError "boom"))
              (fresh_executor 1 true) true (snd fresh_context)
              (pipeline_A_then_B false)) as [[ex' r]|] eqn:E; [|discriminate].
  exists ex'. split; [reflexivity|].
  cbn in Hr. inversion Hr; subst.
  apply (runPipeline_final_reports 10 (only_A_raises (PluginError "boom"))
           (fresh_executor 1 true) (snd fresh_context) (pipeline_A_then_B false)
           ex' None
           ltac:(intros e H; discriminate) ltac:(intros tid e H; discriminate) E
           (plain_step "A" [] false)).
  left. reflexivity.
Defined.

End PipelineRunFacts.

